(** * A shallow embedding of [Assignment_1/model.py] (class [ANN])

    The network trainer is embedded in three layers:

    - [Np]: the numpy operations the class calls, as pure functions on
      array values ([ndarray]), with the exceptions numpy raises;
    - [Py]: the Python object store (numpy arrays and dicts are mutable,
      shared objects) and a state-and-exception monad over it;
    - [ANN]: the methods of the class, one definition per method, with the
      names of the source.

    Numbers: a float64 is modelled as a real number ([R]); rounding is
    outside the model.  Two effects of the machine numbers are in it,
    because they change what the methods return: [np.exp] underflows to
    [0.0] ([float_exp]), and the conversion of a float to an [int64] by
    [np.vectorize] raises [OverflowError] out of range ([fits_like]).  An
    operation whose numpy result would be [inf] or [nan] (logarithm of a
    non-positive number, division by zero) has no real number to return:
    the model stops there with [NonFinite], which is no exception of the
    code, and no property below is drawn from it. *)

From Stdlib Require Import Reals Lra Lia ZArith.
From stdpp Require Import gmap strings list fin_maps pretty.

#[global] Instance R_eq_dec : EqDecision R := Req_dec_T.
#[global] Instance Rlt_decision (x y : R) : Decision (x < y)%R := Rlt_dec x y.
#[global] Instance Rle_decision (x y : R) : Decision (x <= y)%R := Rle_dec x y.

(** ** Exceptions and results *)

Inductive exn : Type :=
  | KeyError (k : string)
  | ValueError
  | IndexError
  | AxisError
  | ZeroDivisionError
  | AttributeError
  | OverflowError
  | NonFinite      (* model only: the float result is inf or nan *)
  | Unsupported    (* model only: an array rank the embedding leaves out *)
  | Dangling.      (* model only: a reference to no object *)

Inductive result (A : Type) : Type :=
  | Ok (a : A)
  | Raise (e : exn).
Arguments Ok {A} a.
Arguments Raise {A} e.

Definition rbind {A B} (r : result A) (k : A → result B) : result B :=
  match r with Ok a => k a | Raise e => Raise e end.

(** ** Sums of reals *)

Definition Rsum (l : list R) : R := foldr Rplus 0%R l.

(** Sum of [f 0 .. f (n-1)]. *)
Definition sum_f (n : nat) (f : nat → R) : R := Rsum (fmap f (seq 0 n)).

(** ** Python numbers returning from a lambda, and [int(x)] *)

Inductive pynum : Type :=
  | PyFloat (x : R)
  | PyInt (n : Z).

(** [int(x)]: truncation towards zero. *)
Definition py_trunc (x : R) : Z :=
  if decide (0 <= x)%R then Int_part x else (- Int_part (- x))%Z.

Module Np.

(** A numpy array of rank 1, shape [(n,)], or of rank 2, shape
    [(length rows, ncols)], stored by rows.  Every row of a rank-2 array
    has [ncols] entries ([wf]).  The entries of an integer-typed array are
    stored as the reals they denote. *)
Inductive ndarray : Type :=
  | Arr1 (v : list R)
  | Arr2 (ncols : nat) (rows : list (list R)).

Definition wf (a : ndarray) : Prop :=
  match a with
  | Arr1 _ => True
  | Arr2 c rows => Forall (λ r, length r = c) rows
  end.

Definition shape (a : ndarray) : list nat :=
  match a with
  | Arr1 v => [length v]
  | Arr2 c rows => [length rows; c]
  end.

(** [a.shape[1]] *)
Definition shape1 (a : ndarray) : result nat :=
  match a with
  | Arr1 _ => Raise IndexError
  | Arr2 c _ => Ok c
  end.

(** [a.flat]: the entries in row-major order. *)
Definition flat (a : ndarray) : list R :=
  match a with
  | Arr1 v => v
  | Arr2 _ rows => concat rows
  end.

Definition asize (a : ndarray) : nat :=
  match a with
  | Arr1 v => length v
  | Arr2 c rows => length rows * c
  end.

Definition amap (f : R → R) (a : ndarray) : ndarray :=
  match a with
  | Arr1 v => Arr1 (fmap f v)
  | Arr2 c rows => Arr2 c (fmap (M:=list) (fmap (M:=list) f) rows)
  end.

(** *** Broadcasting of a binary elementwise operation *)

(** The common length of two axes, when they are compatible. *)
Definition bdim (n m : nat) : option nat :=
  if decide (n = m) then Some n
  else if decide (n = 1) then Some m
  else if decide (m = 1) then Some n
  else None.

(** An axis of length 1 is repeated [k] times. *)
Definition stretch {A} (k : nat) (l : list A) : list A :=
  match l with
  | [x] => replicate k x
  | _ => l
  end.

(** A rank-1 array of shape [(n,)] broadcasts as one row [(1, n)]. *)
Definition as_rows (a : ndarray) : nat * list (list R) :=
  match a with
  | Arr1 v => (length v, [v])
  | Arr2 c rows => (c, rows)
  end.

Definition rank1 (a : ndarray) : bool :=
  match a with Arr1 _ => true | Arr2 _ _ => false end.

Definition broadcast (f : R → R → R) (a b : ndarray) : result ndarray :=
  let '(c1, r1) := as_rows a in
  let '(c2, r2) := as_rows b in
  match bdim (length r1) (length r2), bdim c1 c2 with
  | Some r, Some c =>
      let rows :=
        zip_with (λ x y, zip_with f (stretch c x) (stretch c y))
                 (stretch r r1) (stretch r r2) in
      if rank1 a && rank1 b then Ok (Arr1 (concat rows)) else Ok (Arr2 c rows)
  | _, _ => Raise ValueError
  end.

Definition np_add := broadcast Rplus.
Definition np_sub := broadcast Rminus.
Definition np_mul := broadcast Rmult.

(** [a / b]: a zero divisor gives [inf] or [nan] in numpy. *)
Definition np_div (a b : ndarray) : result ndarray :=
  rbind (broadcast Rdiv a b) (λ q,
    if decide (asize q = 0) then Ok q
    else if decide (Exists (λ y, y = 0%R) (flat b)) then Raise NonFinite
    else Ok q).

(** [k * a] for a Python float [k]. *)
Definition scale (k : R) (a : ndarray) : ndarray := amap (Rmult k) a.

(** [np.exp(x)] on a float64.  Below [ln(2^-1075)], about -745.13, the
    exponential is less than half the least positive float64 and the
    result is [0.0]; above it the result is positive.  The one call of
    [np.exp], in [softmax], is on entries that are at most 0, where the
    exponential is at most 1. *)
Definition exp_underflow : R := (- (1075 * ln 2))%R.

Definition float_exp (x : R) : R :=
  if decide (x <= exp_underflow)%R then 0%R else exp x.

Definition np_exp (a : ndarray) : ndarray := amap float_exp a.

(** [np.log(a)]: [-inf] at 0 and [nan] below. *)
Definition np_log (a : ndarray) : result ndarray :=
  if decide (Forall (λ x, 0 < x)%R (flat a)) then Ok (amap ln a)
  else Raise NonFinite.

(** *** Reductions *)

(** [np.max(a, axis=0)]: the maximum of every column; numpy refuses to
    reduce along an axis of length 0. *)
Definition np_max_axis0 (a : ndarray) : result ndarray :=
  match a with
  | Arr2 _ (r0 :: rest) => Ok (Arr1 (foldr (zip_with Rmax) r0 rest))
  | Arr2 _ [] => Raise ValueError
  | Arr1 _ => Raise Unsupported
  end.

(** [np.sum(a, axis=0)]: the sum of every column. *)
Definition np_sum_axis0 (a : ndarray) : result ndarray :=
  match a with
  | Arr2 c rows => Ok (Arr1 (foldr (zip_with Rplus) (replicate c 0%R) rows))
  | Arr1 _ => Raise Unsupported
  end.

(** [a.sum(1)]: the sum of every row. *)
Definition np_sum_axis1 (a : ndarray) : result ndarray :=
  match a with
  | Arr2 _ rows => Ok (Arr1 (fmap Rsum rows))
  | Arr1 _ => Raise AxisError
  end.

(** [a.sum()] *)
Definition np_sum (a : ndarray) : R := Rsum (flat a).

(** [a.mean(1)]: the mean of every row; the mean of a row without entries
    is [nan]. *)
Definition np_mean_axis1 (a : ndarray) : result ndarray :=
  match a with
  | Arr2 c rows =>
      if decide (c = 0 ∧ rows ≠ []) then Raise NonFinite
      else Ok (Arr1 (fmap (λ r, Rsum r / INR c)%R rows))
  | Arr1 _ => Raise AxisError
  end.

(** [a ** 2] *)
Definition np_square (a : ndarray) : ndarray := amap (λ x, x * x)%R a.

(** [np.sqrt(a)]: [nan] below 0. *)
Definition np_sqrt (a : ndarray) : result ndarray :=
  if decide (Forall (λ x, 0 <= x)%R (flat a)) then Ok (amap sqrt a)
  else Raise NonFinite.

(** [np.finfo(float).eps] *)
Definition float_eps : R := (/ 2 ^ 52)%R.

(** *** Matrix product and transposition *)

Definition column (j : nat) (rows : list (list R)) : list R :=
  fmap (λ r, nth j r 0%R) rows.

Definition columns (c : nat) (rows : list (list R)) : list (list R) :=
  fmap (λ j, column j rows) (seq 0 c).

Definition dotp (u v : list R) : R := Rsum (zip_with Rmult u v).

(** [a.T] *)
Definition np_T (a : ndarray) : ndarray :=
  match a with
  | Arr1 v => Arr1 v
  | Arr2 c rows => Arr2 (length rows) (columns c rows)
  end.

(** [np.dot(a, b)] for two matrices. *)
Definition np_dot (a b : ndarray) : result ndarray :=
  match a, b with
  | Arr2 c1 r1, Arr2 c2 r2 =>
      if decide (c1 = length r2)
      then Ok (Arr2 c2 (fmap (λ row, fmap (dotp row) (columns c2 r2)) r1))
      else Raise ValueError
  | _, _ => Raise Unsupported
  end.

(** [a.reshape(-1, 1)] *)
Definition reshape_col (a : ndarray) : ndarray :=
  Arr2 1 (fmap (λ x, [x]) (flat a)).

(** *** [np.vectorize(f)(a)] without [otypes]

    numpy calls [f] on the first entry to fix the type of the output
    array, and refuses an input without entries; every value [f] returns
    is then converted to that type.  The type is [float64] for a float and
    [int64] for a Python int: a float is converted to an [int64] by
    [int(x)], which must be in the range of [int64], or the conversion
    raises [OverflowError].  (The ints the lambdas of the class return are
    0 and 1, which every type holds.) *)
Definition cast_like (first : pynum) (y : pynum) : R :=
  match first, y with
  | PyFloat _, PyFloat x => x
  | PyFloat _, PyInt n => IZR n
  | PyInt _, PyFloat x => IZR (py_trunc x)
  | PyInt _, PyInt n => IZR n
  end.

(** The Python ints an [int64] holds. *)
Definition int64 (n : Z) : Prop := (- 2 ^ 63 ≤ n < 2 ^ 63)%Z.

(** The value [y] can be stored in an array of the type of [first]. *)
Definition fits_like (first : pynum) (y : pynum) : Prop :=
  match first, y with
  | PyFloat _, _ => True
  | PyInt _, PyFloat x => int64 (py_trunc x)
  | PyInt _, PyInt n => int64 n
  end.

#[global] Instance fits_like_dec first y : Decision (fits_like first y).
Proof. destruct first, y; simpl; unfold int64; apply _. Defined.

Definition np_vectorize (f : R → pynum) (a : ndarray) : result ndarray :=
  match flat a with
  | [] => Raise ValueError
  | x0 :: _ =>
      if decide (Forall (λ x, fits_like (f x0) (f x)) (flat a))
      then Ok (amap (λ x, cast_like (f x0) (f x)) a)
      else Raise OverflowError
  end.

(** *** Indexing *)

(** The entries of [xs] where the mask [ms] is positive. *)
Fixpoint select (xs ms : list R) : list R :=
  match xs, ms with
  | x :: xs', m :: ms' =>
      if decide (0 < m)%R then x :: select xs' ms' else select xs' ms'
  | _, _ => []
  end.

Fixpoint select_rows (rows : list (list R)) (ms : list R) : list (list R) :=
  match rows, ms with
  | r :: rows', m :: ms' =>
      if decide (0 < m)%R then r :: select_rows rows' ms' else select_rows rows' ms'
  | _, _ => []
  end.

(** [a[m > 0]]: boolean-mask indexing, row-major. *)
Definition mask_gt0 (a m : ndarray) : result ndarray :=
  match a, m with
  | Arr2 c1 r1, Arr2 c2 r2 =>
      if decide (c1 = c2 ∧ length r1 = length r2)
      then Ok (Arr1 (concat (zip_with select r1 r2)))
      else Raise IndexError
  | Arr1 v1, Arr1 v2 =>
      if decide (length v1 = length v2) then Ok (Arr1 (select v1 v2))
      else Raise IndexError
  | Arr2 c r, Arr1 v =>
      if decide (length r = length v) then Ok (Arr2 c (select_rows r v))
      else Raise IndexError
  | Arr1 _, Arr2 _ _ => Raise IndexError
  end.

(** [a[:, idx]] for a list of column indices. *)
Definition take_columns (a : ndarray) (idx : list nat) : result ndarray :=
  match a with
  | Arr2 c rows =>
      if decide (Forall (λ j, j < c) idx)
      then Ok (Arr2 (length idx) (fmap (λ r, fmap (λ j, nth j r 0%R) idx) rows))
      else Raise IndexError
  | Arr1 _ => Raise IndexError
  end.

(** [a[:, lo:hi]] for [0 <= lo] and [0 <= hi]. *)
Definition slice_columns (a : ndarray) (lo hi : nat) : result ndarray :=
  match a with
  | Arr2 c rows =>
      Ok (Arr2 (min hi c - lo) (fmap (λ r, drop lo (take hi r)) rows))
  | Arr1 _ => Raise IndexError
  end.

(** [np.argmax(a, axis=0)]: for every column the first row holding its
    maximum. *)
Fixpoint argmax_from (i best : nat) (bestv : R) (l : list R) : nat :=
  match l with
  | [] => best
  | x :: l' =>
      if decide (bestv < x)%R then argmax_from (S i) i x l'
      else argmax_from (S i) best bestv l'
  end.

Definition argmax (l : list R) : nat :=
  match l with
  | [] => 0
  | x :: l' => argmax_from 1 0 x l'
  end.

Definition np_argmax_axis0 (a : ndarray) : result (list nat) :=
  match a with
  | Arr2 _ [] => Raise ValueError
  | Arr2 c rows => Ok (fmap argmax (columns c rows))
  | Arr1 _ => Raise Unsupported
  end.

(** [np.sum(np.equal(y, a))] for two rank-1 integer arrays. *)
Definition count_equal (y a : list nat) : result nat :=
  match bdim (length y) (length a) with
  | Some n =>
      Ok (length (filter (λ p, p.1 = p.2) (zip (stretch n y) (stretch n a))))
  | None => Raise ValueError
  end.

End Np.

(** ** The Python object store and the monad of the methods *)

Module Py.
Import Np.

Definition loc := positive.

(** What [print] writes, one value per call. *)
Inductive line : Type :=
  | StepLine (training_step : nat) (acc cost : R)
  | ConvergedLine (epoch num_iterations : Z)
  | TrainingAccuracyLine (acc : R)
  | ValidationAccuracyLine (acc : R)
  | TestAccuracyLine (acc : R).

(** The store: numpy arrays and dicts are objects reached through
    references, so that two names may share one object.  [self_n_layers]
    is the attribute [self.n_layers]; [gauss] and [randint] are the values
    the global random generator of numpy will hand out next. *)
Record state : Type := mkState {
  arrays : gmap loc ndarray;
  dicts : gmap loc (gmap string loc);
  self_n_layers : option Z;
  gauss : nat → R;
  randint : nat → nat;
  stdout : list line
}.

Definition M (A : Type) : Type := state → result (A * state).

#[global] Instance M_ret : MRet M := λ A a s, Ok (a, s).
#[global] Instance M_bind : MBind M := λ A B k m s,
  match m s with
  | Ok (a, s') => k a s'
  | Raise e => Raise e
  end.

Definition raise {A} (e : exn) : M A := λ _, Raise e.

Definition lift {A} (r : result A) : M A := λ s,
  match r with Ok a => Ok (a, s) | Raise e => Raise e end.

(** *** Arrays *)

Definition new_array (a : ndarray) : M loc := λ s,
  let l := fresh (dom (arrays s)) in
  Ok (l, mkState (<[l := a]> (arrays s)) (dicts s) (self_n_layers s)
                 (gauss s) (randint s) (stdout s)).

Definition read (l : loc) : M ndarray := λ s,
  match arrays s !! l with
  | Some a => Ok (a, s)
  | None => Raise Dangling
  end.

(** Overwrite the contents of the array object [l], keeping its identity. *)
Definition write (l : loc) (a : ndarray) : M unit := λ s,
  match arrays s !! l with
  | Some _ => Ok ((), mkState (<[l := a]> (arrays s)) (dicts s) (self_n_layers s)
                            (gauss s) (randint s) (stdout s))
  | None => Raise Dangling
  end.

(** *** Dicts *)

Definition new_dict (d : gmap string loc) : M loc := λ s,
  let l := fresh (dom (dicts s)) in
  Ok (l, mkState (arrays s) (<[l := d]> (dicts s)) (self_n_layers s)
                 (gauss s) (randint s) (stdout s)).

(** [d[k]] *)
Definition dict_get (d : loc) (k : string) : M loc := λ s,
  match dicts s !! d with
  | Some m => match m !! k with
              | Some v => Ok (v, s)
              | None => Raise (KeyError k)
              end
  | None => Raise Dangling
  end.

(** [d[k] = v] *)
Definition dict_set (d : loc) (k : string) (v : loc) : M unit := λ s,
  match dicts s !! d with
  | Some m => Ok ((), mkState (arrays s) (<[d := <[k := v]> m]> (dicts s))
                            (self_n_layers s) (gauss s) (randint s) (stdout s))
  | None => Raise Dangling
  end.

(** [len(d)] *)
Definition dict_len (d : loc) : M nat := λ s,
  match dicts s !! d with
  | Some m => Ok (size m, s)
  | None => Raise Dangling
  end.

(** *** The attribute [self.n_layers], the random generator, [print] *)

Definition get_n_layers : M Z := λ s,
  match self_n_layers s with
  | Some n => Ok (n, s)
  | None => Raise AttributeError
  end.

Definition set_n_layers (n : Z) : M unit := λ s,
  Ok ((), mkState (arrays s) (dicts s) (Some n) (gauss s) (randint s) (stdout s)).

Definition print (ln : line) : M unit := λ s,
  Ok ((), mkState (arrays s) (dicts s) (self_n_layers s) (gauss s) (randint s)
                  (stdout s ++ [ln])).

(** [np.random.randn(r, c)]: a fresh [(r, c)] matrix of the next [r * c]
    samples; a negative dimension is refused. *)
Definition randn (r c : Z) : M loc := λ s,
  if decide (r < 0 ∨ c < 0)%Z then Raise ValueError
  else
    let nr := Z.to_nat r in
    let nc := Z.to_nat c in
    let a := Arr2 nc (fmap (λ i, fmap (λ j, gauss s (i * nc + j)) (seq 0 nc)) (seq 0 nr)) in
    new_array a (mkState (arrays s) (dicts s) (self_n_layers s)
                         (λ n, gauss s (n + nr * nc)) (randint s) (stdout s)).

Definition swap (i j : nat) (l : list nat) : list nat :=
  match l !! i, l !! j with
  | Some x, Some y => <[i := y]> (<[j := x]> l)
  | _, _ => l
  end.

(** The exchanges of [np.random.shuffle]: for [i] from [n - 1] down to 1,
    entry [i] is exchanged with entry [j] for a random [0 <= j <= i]. *)
Fixpoint shuffle_steps (i : nat) (draw : nat → nat) (l : list nat) : list nat :=
  match i with
  | 0 => l
  | S i' => shuffle_steps i' (λ n, draw (S n)) (swap i (draw 0 `mod` S i) l)
  end.

(** [ind = np.arange(n); np.random.shuffle(ind)] *)
Definition shuffled_arange (n : nat) : M (list nat) := λ s,
  Ok (shuffle_steps (n - 1) (randint s) (seq 0 n),
      mkState (arrays s) (dicts s) (self_n_layers s) (gauss s)
              (λ k, randint s (k + (n - 1))) (stdout s)).

(** *** numpy operations on references: read the operands, allocate the
    result *)

Definition op1 (f : ndarray → result ndarray) (x : loc) : M loc :=
  a ← read x; r ← lift (f a); new_array r.

Definition op2 (f : ndarray → ndarray → result ndarray) (x y : loc) : M loc :=
  a ← read x; b ← read y; r ← lift (f a b); new_array r.

Definition total1 (f : ndarray → ndarray) (x : loc) : M loc :=
  op1 (λ a, Ok (f a)) x.

(** [lst[i]] for a Python list: a negative index counts from the end. *)
Definition list_get {A} (l : list A) (i : Z) : M A :=
  let n := Z.of_nat (length l) in
  if decide (0 ≤ i < n)%Z then
    match l !! Z.to_nat i with Some x => mret x | None => raise IndexError end
  else if decide (- n ≤ i < 0)%Z then
    match l !! Z.to_nat (n + i) with Some x => mret x | None => raise IndexError end
  else raise IndexError.

(** [range(0, stop, step)] *)
Definition range_step (stop : nat) (step : Z) : result (list nat) :=
  if decide (step = 0)%Z then Raise ValueError
  else if decide (step < 0)%Z then Ok []
  else
    let k := Z.to_nat step in
    Ok (fmap (λ i, i * k) (seq 0 ((stop + k - 1) `div` k))).

End Py.

(** ** The class [ANN] *)

Module ANN.
Import Np Py.

Definition EPSILON : R := 1 / 1000.

(** The f-strings [f'w{i}'], [f'b{i}'], [f'dW{i}'], ... *)
Definition fmt (prefix : string) (i : Z) : string := prefix +:+ pretty i.

(** A [for] loop over [l] whose body updates the local variables [v]. *)
Fixpoint for_in {A V} (l : list A) (body : A → V → M V) (v : V) : M V :=
  match l with
  | [] => mret v
  | x :: rest => v' ← body x v; for_in rest body v'
  end.

(** [1 / m] for a Python int [m]. *)
Definition py_inv (m : nat) : M R :=
  if decide (m = 0) then raise ZeroDivisionError else mret (1 / INR m)%R.

(** [a.shape[1]] *)
Definition shape1_of (x : loc) : M nat := a ← read x; lift (shape1 a).

(** *** [initialize_parameters] *)

(** The body of the loop for layer [i]. *)
Definition init_layer (layer_dims : list Z) (params : loc) (i : Z) : M unit :=
  d_i ← list_get layer_dims i;
  d_prev ← list_get layer_dims (i - 1)%Z;
  g ← randn d_i d_prev;
  d_prev' ← list_get layer_dims (i - 1)%Z;
  _ ← (if decide (d_prev' = 0%Z) then raise ZeroDivisionError else mret ());
  w ← total1 (scale (sqrt (2 / IZR d_prev'))) g;
  _ ← dict_set params (fmt "w" i) w;
  d_i' ← list_get layer_dims i;
  b ← randn d_i' 1%Z;
  dict_set params (fmt "b" i) b.

Definition initialize_parameters (layer_dims : list Z) : M loc :=
  let len := Z.of_nat (length layer_dims) in
  _ ← set_n_layers (len - 1)%Z;
  b ← new_array (Arr1 (replicate (length layer_dims) 0%R));
  params ← new_dict ∅;
  _ ← for_in (seqZ 1 (len - 1)%Z) (λ i _, init_layer layer_dims params i) ();
  mret params.

(** *** Forward propagation *)

Definition linear_forward (A W b : loc) : M (loc * loc) :=
  WA ← op2 np_dot W A;
  Z ← op2 np_add WA b;
  linear_cache ← new_dict (<["A" := A]> (<["W" := W]> (<["b" := b]> ∅)));
  mret (Z, linear_cache).

Definition softmax (Z : loc) : M (loc * loc) :=
  mx ← op1 np_max_axis0 Z;
  Z ← op2 np_sub Z mx;
  exp_z ← total1 np_exp Z;
  s ← op1 np_sum_axis0 exp_z;
  A ← op2 np_div exp_z s;
  mret (A, Z).

(** [lambda x: x if x > 0 else 0] *)
Definition relu_func (x : R) : pynum :=
  if decide (0 < x)%R then PyFloat x else PyInt 0.

Definition relu (Z : loc) : M (loc * loc) :=
  let activation_cache := Z in
  A ← op1 (np_vectorize relu_func) Z;
  mret (A, activation_cache).

Definition linear_activation_forward (A_prev W B : loc) (activation : string)
  : M (loc * loc) :=
  '(Z, linear_cache) ← linear_forward A_prev W B;
  '(Z, activation_cache) ←
    (if decide (activation = "relu") then relu Z else softmax Z);
  _ ← dict_set linear_cache "Z" activation_cache;
  mret (Z, linear_cache).

(** The body of the loop over the hidden layers; the local variables are
    [A_prev] and the list [cache]. *)
Definition forward_layer (parameters : loc) (layer_index : Z)
    (v : loc * list loc) : M (loc * list loc) :=
  let '(A_prev, cache) := v in
  w_i ← dict_get parameters (fmt "w" layer_index);
  b_i ← dict_get parameters (fmt "b" layer_index);
  '(A_prev, cache_i) ← linear_activation_forward A_prev w_i b_i "relu";
  mret (A_prev, cache ++ [cache_i]).

Definition L_model_forward (X parameters : loc) (use_batchnorm : bool)
  : M (loc * list loc) :=
  n ← get_n_layers;
  '(A_prev, cache) ← for_in (seqZ 1 (n - 1)%Z) (forward_layer parameters) (X, []);
  n ← get_n_layers;
  w_output ← dict_get parameters (fmt "w" n);
  n ← get_n_layers;
  b_output ← dict_get parameters (fmt "b" n);
  '(z_output, cache_output) ←
    linear_activation_forward A_prev w_output b_output "softmax";
  mret (z_output, cache ++ [cache_output]).

(** *** The cost *)

Definition compute_cost (AL Y : loc) : M R :=
  sel ← op2 mask_gt0 AL Y;
  y_pred ← op1 np_log sel;
  prod ← op2 np_mul y_pred Y;
  p ← read prod;
  m ← shape1_of AL;
  inv_m ← py_inv m;
  mret (- np_sum p * inv_m)%R.

(** *** [apply_batchnorm], which no other method calls *)

Definition apply_batchnorm (A : loc) : M loc :=
  mu ← op1 np_mean_axis1 A;
  At ← total1 np_T A;
  d ← op2 np_sub At mu;
  dT ← total1 np_T d;
  sq ← total1 np_square dT;
  sigma ← op1 np_mean_axis1 sq;
  At' ← total1 np_T A;
  d' ← op2 np_sub At' mu;
  se ← total1 (amap (λ x, x + float_eps)%R) sigma;
  rt ← op1 np_sqrt se;
  q ← op2 np_div d' rt;
  total1 np_T q.

(** *** Backward propagation *)

Definition linear_backward (dZ cache : loc) : M (loc * loc * loc) :=
  A ← dict_get cache "A";
  m ← shape1_of A;
  inv_m ← py_inv m;
  A ← dict_get cache "A";
  At ← total1 np_T A;
  d ← op2 np_dot dZ At;
  dW ← total1 (scale inv_m) d;
  inv_m ← py_inv m;
  s ← op1 np_sum_axis1 dZ;
  db ← total1 (scale inv_m) s;
  W ← dict_get cache "W";
  Wt ← total1 np_T W;
  dA_prev ← op2 np_dot Wt dZ;
  mret (dA_prev, dW, db).

(** [lambda x: 1 if x > 0 else 0] *)
Definition d_relu (x : R) : pynum :=
  if decide (0 < x)%R then PyInt 1 else PyInt 0.

Definition relu_backward (dA activation_cache : loc) : M loc :=
  Z ← dict_get activation_cache "Z";
  dZ ← op1 (np_vectorize d_relu) Z;
  op2 np_mul dA dZ.

Definition softmax_backward (dA activation_cache : loc) : M loc :=
  Z ← dict_get activation_cache "Z";
  Y ← dict_get activation_cache "Y";
  '(A, _) ← softmax Z;
  op2 np_sub A Y.

Definition linear_activation_backward (dA cache : loc) (activation : string)
  : M (loc * loc * loc) :=
  dZ ← (if decide (activation = "relu") then relu_backward dA cache
        else softmax_backward dA cache);
  linear_backward dZ cache.

(** The body of the loop over the hidden layers, last to first; the
    local variable is [dA_prev]. *)
Definition backward_layer (n index : Z) (caches : list loc) (grads : loc)
    (i : Z) (dA_prev : loc) : M loc :=
  cache ← list_get caches (index - i)%Z;
  '(dA_prev, dW, db) ← linear_activation_backward dA_prev cache "relu";
  _ ← dict_set grads (fmt "dA" (n - i)%Z) dA_prev;
  _ ← dict_set grads (fmt "dW" (n - i)%Z) dW;
  _ ← dict_set grads (fmt "db" (n - i)%Z) db;
  mret dA_prev.

Definition L_model_backward (AL Y : loc) (caches : list loc) : M loc :=
  n ← get_n_layers;
  let index := (n - 1)%Z in
  grads ← new_dict ∅;
  c ← list_get caches index;
  _ ← dict_set c "Y" Y;
  cache ← list_get caches index;
  '(dA_prev, dW, db) ← linear_activation_backward AL cache "softmax";
  _ ← dict_set grads (fmt "dA" n) dA_prev;
  _ ← dict_set grads (fmt "dW" n) dW;
  _ ← dict_set grads (fmt "db" n) db;
  _ ← for_in (seqZ 1 index) (backward_layer n index caches grads) dA_prev;
  mret grads.

(** *** The update *)

(** [target -= src]: the difference is written into the array [target];
    numpy refuses a difference of another shape. *)
Definition isub (target src : loc) : M unit :=
  a ← read target;
  b ← read src;
  r ← lift (np_sub a b);
  if decide (shape r = shape a) then write target r else raise ValueError.

Definition update_layer (parameters grads : loc) (learning_rate : R)
    (layer : Z) (_ : unit) : M unit :=
  w ← dict_get parameters (fmt "w" layer);
  dW ← dict_get grads (fmt "dW" layer);
  step ← total1 (scale learning_rate) dW;
  _ ← isub w step;
  _ ← dict_set parameters (fmt "w" layer) w;
  b ← dict_get parameters (fmt "b" layer);
  db ← dict_get grads (fmt "db" layer);
  col ← total1 reshape_col db;
  step ← total1 (scale learning_rate) col;
  _ ← isub b step;
  dict_set parameters (fmt "b" layer) b.

Definition update_parameters (parameters grads : loc) (learning_rate : R) : M loc :=
  len ← dict_len parameters;
  let layers_dim := Z.of_nat (len `div` 2) in
  _ ← for_in (seqZ 1 layers_dim) (update_layer parameters grads learning_rate) ();
  mret parameters.

(** *** Accuracy *)

(** [np.sum(np.equal(y, a)) / len(y)] is a division of numpy numbers:
    for labels without a column it is 0 / 0, and the code returns [nan]
    with a warning.  [nan] is no real number: the model stops with
    [NonFinite] there, and says nothing of this case. *)
Definition predict (X Y parameters : loc) : M R :=
  '(y_preds, cache) ← L_model_forward X parameters false;
  p ← read y_preds;
  a ← lift (np_argmax_axis0 p);
  t ← read Y;
  y ← lift (np_argmax_axis0 t);
  hits ← lift (count_equal y a);
  if decide (length y = 0) then raise NonFinite
  else mret (INR hits / INR (length y))%R.

Definition print_overall_accuracy (params : loc) (kwargs : gmap string loc) : M unit :=
  _ ← match kwargs !! "X_train", kwargs !! "Y_train" with
      | Some X_train, Some Y_train =>
          acc ← predict X_train Y_train params; print (TrainingAccuracyLine acc)
      | _, _ => mret ()
      end;
  _ ← match kwargs !! "X_validation", kwargs !! "Y_validation" with
      | Some X_validation, Some Y_validation =>
          acc ← predict X_validation Y_validation params;
          print (ValidationAccuracyLine acc)
      | _, _ => mret ()
      end;
  match kwargs !! "X_test", kwargs !! "Y_test" with
  | Some X_test, Some Y_test =>
      acc ← predict X_test Y_test params; print (TestAccuracyLine acc)
  | _, _ => mret ()
  end.

(** *** The training loop *)

(** A float that may be [np.inf]: the values of [prev_val_acc]. *)
Inductive xfloat : Type :=
  | Fin (x : R)
  | PInf.

Definition xsub (p : xfloat) (a : R) : xfloat :=
  match p with Fin x => Fin (x - a) | PInf => PInf end.

Definition xabs (p : xfloat) : xfloat :=
  match p with Fin x => Fin (Rabs x) | PInf => PInf end.

Definition xlt (p : xfloat) (e : R) : bool :=
  match p with Fin x => bool_decide (x < e)%R | PInf => false end.

(** The local variables the loops of [L_layer_model] update. *)
Record locals : Type := mkLocals {
  params : loc;
  prev_val_acc : xfloat;
  converged : bool;
  history : list R;
  accuracy_history : list R;
  training_step : nat
}.

(** How the body of the inner loop ends: normally, or by [break]. *)
Inductive control : Type :=
  | Next (v : locals)
  | Break (v : locals).

Definition locals_of (c : control) : locals :=
  match c with Next v => v | Break v => v end.

(** [(index / 500) % 100 == 0]: [index / 500] is a multiple of 100, that
    is, [index] is a multiple of 50000. *)
Definition sampling_point (index : nat) : bool :=
  bool_decide (index `mod` (500 * 100) = 0).

(** Lines 327-338: the sampling block. *)
Definition sample (X_validation Y_validation z_output batch_y : loc)
    (v : locals) : M control :=
  acc ← predict X_validation Y_validation (params v);
  cost ← compute_cost z_output batch_y;
  if xlt (xabs (xsub (prev_val_acc v) acc)) EPSILON then
    mret (Break (mkLocals (params v) (prev_val_acc v) true (history v)
                          (accuracy_history v) (training_step v)))
  else
    _ ← print (StepLine (training_step v) acc cost);
    mret (Next (mkLocals (params v) (Fin acc) (converged v) (history v ++ [cost])
                         (accuracy_history v ++ [acc]) (S (training_step v)))).

(** Lines 324-326: the batch at [index] and its forward propagation.  The
    two slices are views of [X_train] and [Y_train] in numpy; nothing
    writes into them or into the training set, so that they are arrays of
    their own here. *)
Definition batch_forward (X_train Y_train : loc) (batch_size : Z) (index : nat)
    (v : locals) : M (loc * list loc * loc) :=
  nx ← shape1_of X_train;
  batch_x ← op1 (λ a, slice_columns a index (Z.to_nat (Z.of_nat index + batch_size)%Z `min` nx)) X_train;
  ny ← shape1_of Y_train;
  batch_y ← op1 (λ a, slice_columns a index (Z.to_nat (Z.of_nat index + batch_size)%Z `min` ny)) Y_train;
  '(z_output, cache) ← L_model_forward batch_x (params v) false;
  mret (z_output, cache, batch_y).

(** Lines 324-340: the body of the loop over the batches. *)
Definition batch_step (X_train Y_train X_validation Y_validation : loc)
    (learning_rate : R) (batch_size : Z) (index : nat) (v : locals) : M control :=
  '(z_output, cache, batch_y) ← batch_forward X_train Y_train batch_size index v;
  c ← (if sampling_point index
       then sample X_validation Y_validation z_output batch_y v
       else mret (Next v));
  match c with
  | Break v' => mret (Break v')
  | Next v' =>
      grads ← L_model_backward z_output batch_y cache;
      params' ← update_parameters (params v') grads learning_rate;
      mret (Next (mkLocals params' (prev_val_acc v') (converged v') (history v')
                           (accuracy_history v') (training_step v')))
  end.

(** The loop over the batches, which [break] leaves. *)
Fixpoint batch_loop (body : nat → locals → M control) (indices : list nat)
    (v : locals) : M control :=
  match indices with
  | [] => mret (Next v)
  | index :: rest =>
      c ← body index v;
      match c with
      | Break v' => mret (Break v')
      | Next v' => batch_loop body rest v'
      end
  end.

(** Lines 319-322: what the loop over the epochs does once [converged] is
    set, before it stops. *)
Definition converged_exit (X_train Y_train X_validation Y_validation : loc)
    (num_iterations epoch : Z) (v : locals) : M locals :=
  _ ← print (ConvergedLine epoch num_iterations);
  _ ← print_overall_accuracy (params v)
        (<["X_validation" := X_validation]> (<["Y_validation" := Y_validation]>
         (<["X_train" := X_train]> (<["Y_train" := Y_train]> ∅))));
  mret v.

(** Lines 317-340: the loop over the epochs. *)
Fixpoint epoch_loop (X_train Y_train X_validation Y_validation : loc)
    (learning_rate : R) (num_iterations batch_size : Z) (epochs : list Z)
    (v : locals) : M locals :=
  match epochs with
  | [] => mret v
  | epoch :: rest =>
      if converged v then
        converged_exit X_train Y_train X_validation Y_validation num_iterations epoch v
      else
        n ← shape1_of X_train;
        indices ← lift (range_step n batch_size);
        c ← batch_loop (batch_step X_train Y_train X_validation Y_validation
                                   learning_rate batch_size) indices v;
        epoch_loop X_train Y_train X_validation Y_validation learning_rate
                   num_iterations batch_size rest (locals_of c)
  end.

(** [int(np.ceil(0.2 * n))], the product taken exactly. *)
Definition validation_size (n : nat) : nat := (n + 4) `div` 5.

(** Lines 302-340, returning all the local variables of the loops.  The
    unused [num_classes = len(np.unique(Y))] of line 304 is left out; the
    validation split has [int(np.ceil(0.2 * n))] columns. *)
Definition train (X Y : loc) (layers_dims : list Z) (learning_rate : R)
    (num_iterations batch_size : Z) : M locals :=
  n ← shape1_of X;
  ind ← shuffled_arange n;
  X_validation ← op1 (λ a, take_columns a (take (validation_size n) ind)) X;
  Y_validation ← op1 (λ a, take_columns a (take (validation_size n) ind)) Y;
  X_train ← op1 (λ a, take_columns a (drop (validation_size n) ind)) X;
  Y_train ← op1 (λ a, take_columns a (drop (validation_size n) ind)) Y;
  params ← initialize_parameters layers_dims;
  epoch_loop X_train Y_train X_validation Y_validation learning_rate
             num_iterations batch_size (seqZ 0 num_iterations)
             (mkLocals params PInf false [] [] 0).

Definition L_layer_model (X Y : loc) (layers_dims : list Z) (learning_rate : R)
    (num_iterations batch_size : Z) : M (loc * list R) :=
  v ← train X Y layers_dims learning_rate num_iterations batch_size;
  mret (params v, history v).

End ANN.

(** * Properties *)

(** ** Running the monad *)

Section Monad.
Import Py.
Context {A B : Type}.

Lemma bind_run (m : M A) (k : A → M B) s a s' :
  m s = Ok (a, s') → (m ≫= k) s = k a s'.
Proof. intros H. unfold mbind, M_bind. by rewrite H. Qed.

Lemma bind_raise (m : M A) (k : A → M B) s e :
  m s = Raise e → (m ≫= k) s = Raise e.
Proof. intros H. unfold mbind, M_bind. by rewrite H. Qed.

Lemma bind_inv (m : M A) (k : A → M B) s r :
  (m ≫= k) s = Ok r → ∃ a s', m s = Ok (a, s') ∧ k a s' = Ok r.
Proof.
  unfold mbind, M_bind. destruct (m s) as [[a s']|e]; [eauto | discriminate].
Qed.

Lemma ret_inv (a : A) s r : (mret a : M A) s = Ok r → r = (a, s).
Proof. unfold mret, M_ret. congruence. Qed.

Lemma lift_inv (x : result A) s a s' : lift x s = Ok (a, s') → x = Ok a ∧ s' = s.
Proof. unfold lift. destruct x; [|discriminate]. by intros [= <- <-]. Qed.

Lemma lift_run (x : result A) a s : x = Ok a → lift x s = Ok (a, s).
Proof. by intros ->. Qed.

End Monad.

(** Decompose a hypothesis [H : (x ← m; k) s = Ok r] into the run of [m],
  named [H1], with its result and state, and the run of [k], left in [H]. *)
Tactic Notation "inv_run" hyp(H) "as" simple_intropattern(a) ident(s) ident(H1) :=
  apply bind_inv in H as (a & s & H1 & H).

(** ** What a call leaves untouched *)

Module Frame.
Import Np Py ANN.

(** Every object of [s] is in [s'] with the same contents, and the
    attribute [self.n_layers] is the same. *)
Record frame (s s' : state) : Prop := mkFrame {
  frame_arrays : arrays s ⊆ arrays s';
  frame_dicts : dicts s ⊆ dicts s';
  frame_n_layers : self_n_layers s' = self_n_layers s
}.

Lemma frame_refl s : frame s s.
Proof. by split. Qed.

Lemma frame_trans s1 s2 s3 : frame s1 s2 → frame s2 s3 → frame s1 s3.
Proof.
  intros [] []. split; [by etrans | by etrans | congruence].
Qed.

Lemma frame_array s s' l a : frame s s' → arrays s !! l = Some a → arrays s' !! l = Some a.
Proof. intros [H _ _] Hl. by eapply lookup_weaken. Qed.

Lemma frame_dict s s' d m : frame s s' → dicts s !! d = Some m → dicts s' !! d = Some m.
Proof. intros [_ H _] Hl. by eapply lookup_weaken. Qed.

Lemma frame_dict_None s s' d : frame s s' → dicts s' !! d = None → dicts s !! d = None.
Proof. intros [_ H _] Hl. by eapply lookup_weaken_None. Qed.

(** A computation that, when it returns, has only allocated. *)
Definition keeps {A} (m : M A) : Prop :=
  ∀ s a s', m s = Ok (a, s') → frame s s'.

Lemma keeps_ret {A} (a : A) : keeps (mret a).
Proof. intros s a' s' [= _ <-]%ret_inv. apply frame_refl. Qed.

Lemma keeps_bind {A B} (m : M A) (k : A → M B) :
  keeps m → (∀ a, keeps (k a)) → keeps (m ≫= k).
Proof.
  intros Hm Hk s b s' H. inv_run H as a s1 H1.
  eapply frame_trans; [by eapply Hm | by eapply Hk].
Qed.

Lemma keeps_raise {A} e : keeps (raise e : M A).
Proof. intros s a s' H. discriminate. Qed.

Lemma keeps_lift {A} (r : result A) : keeps (lift r).
Proof.
  intros s a s' H. destruct r; [|discriminate].
  injection H as _ <-. apply frame_refl.
Qed.

Lemma new_array_inv a s l s' :
  new_array a s = Ok (l, s') →
  arrays s !! l = None ∧ arrays s' = <[l := a]> (arrays s) ∧
  dicts s' = dicts s ∧ self_n_layers s' = self_n_layers s.
Proof.
  unfold new_array. intros [= <- <-]. simpl. split; [|done].
  apply not_elem_of_dom, is_fresh.
Qed.

Lemma keeps_new_array a : keeps (new_array a).
Proof.
  intros s l s' (Hl & Ha & Hd & Hn)%new_array_inv.
  split; [|by rewrite Hd|done]. rewrite Ha. by apply insert_subseteq.
Qed.

Lemma new_dict_inv d s l s' :
  new_dict d s = Ok (l, s') →
  dicts s !! l = None ∧ dicts s' = <[l := d]> (dicts s) ∧
  arrays s' = arrays s ∧ self_n_layers s' = self_n_layers s.
Proof.
  unfold new_dict. intros [= <- <-]. simpl. split; [|done].
  apply not_elem_of_dom, is_fresh.
Qed.

Lemma keeps_new_dict d : keeps (new_dict d).
Proof.
  intros s l s' (Hl & Hd & Ha & Hn)%new_dict_inv.
  split; [by rewrite Ha| |done]. rewrite Hd. by apply insert_subseteq.
Qed.

Lemma read_inv l s a s' : read l s = Ok (a, s') → arrays s !! l = Some a ∧ s' = s.
Proof. unfold read. destruct (arrays s !! l); [|discriminate]. by intros [= <- <-]. Qed.

Lemma keeps_read l : keeps (read l).
Proof. intros s a s' [_ ->]%read_inv. apply frame_refl. Qed.

Lemma dict_get_inv d k s v s' :
  dict_get d k s = Ok (v, s') → (∃ m, dicts s !! d = Some m ∧ m !! k = Some v) ∧ s' = s.
Proof.
  unfold dict_get. destruct (dicts s !! d) as [m|]; [|discriminate].
  destruct (m !! k) eqn:E; [|discriminate]. intros [= <- <-]. eauto.
Qed.

Lemma keeps_dict_get d k : keeps (dict_get d k).
Proof. intros s a s' [_ ->]%dict_get_inv. apply frame_refl. Qed.

Lemma dict_set_inv d k v s u s' :
  dict_set d k v s = Ok (u, s') →
  ∃ m, dicts s !! d = Some m ∧ dicts s' = <[d := <[k := v]> m]> (dicts s) ∧
       arrays s' = arrays s ∧ self_n_layers s' = self_n_layers s.
Proof.
  unfold dict_set. destruct (dicts s !! d) as [m|]; [|discriminate].
  intros [= _ <-]. eauto.
Qed.

Lemma keeps_dict_len d : keeps (dict_len d).
Proof.
  intros s a s'. unfold dict_len. destruct (dicts s !! d); [|discriminate].
  intros [= _ <-]. apply frame_refl.
Qed.

Lemma keeps_get_n_layers : keeps get_n_layers.
Proof.
  intros s a s'. unfold get_n_layers. destruct (self_n_layers s); [|discriminate].
  intros [= _ <-]. apply frame_refl.
Qed.

Lemma keeps_list_get {A} (l : list A) i : keeps (list_get l i).
Proof.
  unfold list_get. repeat case_decide;
    repeat case_match; first [apply keeps_ret | apply keeps_raise].
Qed.

Lemma keeps_py_inv m : keeps (py_inv m).
Proof. unfold py_inv. case_decide; first [apply keeps_ret | apply keeps_raise]. Qed.

Lemma keeps_op1 f x : keeps (op1 f x).
Proof.
  unfold op1. apply keeps_bind; [apply keeps_read|]. intros a.
  apply keeps_bind; [apply keeps_lift|]. intros r. apply keeps_new_array.
Qed.

Lemma keeps_op2 f x y : keeps (op2 f x y).
Proof.
  unfold op2. apply keeps_bind; [apply keeps_read|]. intros a.
  apply keeps_bind; [apply keeps_read|]. intros b.
  apply keeps_bind; [apply keeps_lift|]. intros r. apply keeps_new_array.
Qed.

Lemma keeps_total1 f x : keeps (total1 f x).
Proof. apply keeps_op1. Qed.

Lemma keeps_shape1_of x : keeps (shape1_of x).
Proof.
  unfold shape1_of. apply keeps_bind; [apply keeps_read|]. intros a. apply keeps_lift.
Qed.

Lemma keeps_for_in {A V} (l : list A) (body : A → V → M V) v :
  (∀ x v, keeps (body x v)) → keeps (for_in l body v).
Proof.
  intros Hb. revert v. induction l as [|x l IH]; intros v; simpl.
  - apply keeps_ret.
  - apply keeps_bind; [apply Hb | intros v'; apply IH].
Qed.

Create HintDb keeps discriminated.
#[export] Hint Resolve keeps_ret keeps_lift keeps_new_array keeps_new_dict keeps_read
  keeps_dict_get keeps_dict_len keeps_get_n_layers keeps_list_get keeps_py_inv
  keeps_op1 keeps_op2 keeps_total1 keeps_shape1_of : keeps.

(** Solve [keeps m] for a sequence [m] of computations that keep. *)
Ltac keeps_tac :=
  repeat first
    [ progress eauto 2 with keeps
    | apply keeps_bind; [| intros ? ]
    | match goal with |- keeps (let '(_, _) := ?p in _) => destruct p end
    | match goal with |- keeps (if ?c then _ else _) => destruct c end ].

(** *** Forward propagation only allocates *)

Lemma keeps_softmax Z : keeps (softmax Z).
Proof. unfold softmax. keeps_tac. Qed.

Lemma keeps_relu Z : keeps (relu Z).
Proof. unfold relu. keeps_tac. Qed.

(** [linear_forward] returns a dict that did not exist before. *)
Lemma linear_forward_inv A W b s Z lc s' :
  linear_forward A W b s = Ok ((Z, lc), s') →
  frame s s' ∧ dicts s !! lc = None ∧ is_Some (dicts s' !! lc).
Proof.
  unfold linear_forward. intros H.
  inv_run H as WA s1 H1. inv_run H as Z' s2 H2. inv_run H as lc' s3 H3.
  injection H as <- <- <-.
  apply keeps_op2 in H1. apply keeps_op2 in H2.
  pose proof (keeps_new_dict _ _ _ _ H3) as Hk.
  apply new_dict_inv in H3 as (Hl & Hd & _).
  split; [eauto using frame_trans|]. split.
  - eapply frame_dict_None; [|done]. eauto using frame_trans.
  - rewrite Hd, lookup_insert_eq. eauto.
Qed.

(** Writing into a dict that [s] does not have keeps the frame from [s]. *)
Lemma frame_dict_set s s1 d k v u s' :
  frame s s1 → dicts s !! d = None → dict_set d k v s1 = Ok (u, s') → frame s s'.
Proof.
  intros [Ha Hd Hn] Hfresh (m & Hm & Hd' & Ha' & Hn')%dict_set_inv.
  split; [by rewrite Ha' | | congruence].
  rewrite Hd'. apply map_subseteq_spec. intros i x Hi.
  rewrite lookup_insert_ne by congruence. by eapply lookup_weaken.
Qed.

Lemma linear_activation_forward_inv A_prev W B act s Z lc s' :
  linear_activation_forward A_prev W B act s = Ok ((Z, lc), s') →
  frame s s' ∧ dicts s !! lc = None.
Proof.
  unfold linear_activation_forward. intros H.
  inv_run H as [Z0 lc0] s1 H1. inv_run H as [Z1 ac] s2 H2. inv_run H as [] s3 H3.
  injection H as <- <- <-.
  apply linear_forward_inv in H1 as (Hf1 & Hfresh & _).
  assert (frame s1 s2) as Hf2.
  { destruct (decide (act = "relu")); [by eapply keeps_relu | by eapply keeps_softmax]. }
  split; [|done].
  eapply frame_dict_set; [|done|done]. eauto using frame_trans.
Qed.

Lemma keeps_linear_activation_forward A_prev W B act :
  keeps (linear_activation_forward A_prev W B act).
Proof. intros s [Z lc] s' H. by apply linear_activation_forward_inv in H as []. Qed.

(** The loop over the hidden layers: the caches it appends are new. *)
Lemma forward_loop_inv parameters layers A0 cache0 s A cache s' :
  for_in layers (forward_layer parameters) (A0, cache0) s = Ok ((A, cache), s') →
  frame s s' ∧
  ∃ new, cache = cache0 ++ new ∧ length new = length layers ∧
         Forall (λ c, dicts s !! c = None) new.
Proof.
  revert A0 cache0 s. induction layers as [|i layers IH]; intros A0 cache0 s H; simpl in H.
  - injection H as <- <- <-. split; [apply frame_refl|].
    exists []. by rewrite app_nil_r.
  - inv_run H as [A1 cache1] s4 H4.
    unfold forward_layer in H4.
    inv_run H4 as w s1 H1. inv_run H4 as b s2 H2. inv_run H4 as [A2 c] s3 H3.
    injection H4 as <- <- <-.
    apply keeps_dict_get in H1. apply keeps_dict_get in H2.
    apply linear_activation_forward_inv in H3 as [Hf Hc].
    assert (frame s s3) as Hf0 by eauto using frame_trans.
    apply IH in H as (Hf' & new & -> & Hlen & Hnew).
    split; [eauto using frame_trans|].
    exists (c :: new). split; [by rewrite <- app_assoc|]. split; [simpl; lia|].
    constructor.
    + eapply frame_dict_None; [|done]. eauto using frame_trans.
    + eapply Forall_impl; [done|]. intros d Hd. by eapply frame_dict_None.
Qed.

(** [L_model_forward] changes no array and no dict that existed before
    the call, and every cache it returns is a new dict. *)
Lemma L_model_forward_inv X parameters use_batchnorm s AL caches s' :
  L_model_forward X parameters use_batchnorm s = Ok ((AL, caches), s') →
  frame s s' ∧ length caches = S (length (seqZ 1 (default 0%Z (self_n_layers s) - 1))) ∧
  Forall (λ c, dicts s !! c = None) caches.
Proof.
  unfold L_model_forward. intros H.
  inv_run H as n s1 H1. inv_run H as [A_prev cache] s2 H2.
  inv_run H as n' s3 H3. inv_run H as w s4 H4. inv_run H as n'' s5 H5.
  inv_run H as b s6 H6. inv_run H as [z c] s7 H7.
  injection H as <- <- <-.
  assert (self_n_layers s = Some n ∧ s1 = s) as [Hn ->].
  { unfold get_n_layers in H1. destruct (self_n_layers s); [|discriminate].
    by injection H1 as <- <-. }
  apply keeps_get_n_layers in H3, H5.
  apply keeps_dict_get in H4, H6.
  apply forward_loop_inv in H2 as (Hf & new & -> & Hlen & Hnew).
  apply linear_activation_forward_inv in H7 as [Hf7 Hc].
  assert (frame s s6) as Hf06 by eauto 10 using frame_trans.
  split; [eauto using frame_trans|]. simpl. split.
  { rewrite Hn. simpl. rewrite length_app, Hlen. simpl. lia. }
  apply Forall_app. split; [done|].
  constructor; [|done]. by eapply frame_dict_None.
Qed.

(** *** Backward propagation writes into the caches only *)

(** Every array of [s] is unchanged in [s'], and so is every dict of [s]
    that is not in [D]. *)
Record frame_but (D : list loc) (s s' : state) : Prop := mkFrameBut {
  but_arrays : arrays s ⊆ arrays s';
  but_dicts : ∀ d m, d ∉ D → dicts s !! d = Some m → dicts s' !! d = Some m;
  but_n_layers : self_n_layers s' = self_n_layers s
}.

Lemma frame_frame_but D s s' : frame s s' → frame_but D s s'.
Proof. intros [Ha Hd Hn]. split; [done| |done]. intros d m _ H. by eapply lookup_weaken. Qed.

Lemma frame_but_frame D s s1 s2 : frame_but D s s1 → frame s1 s2 → frame_but D s s2.
Proof.
  intros [Ha Hd Hn] [Ha' Hd' Hn']. split; [by etrans| |congruence].
  intros d m Hin H. eapply lookup_weaken; [|done]. by apply Hd.
Qed.

Lemma frame_but_dict_set D s s1 d k v u s' :
  frame_but D s s1 → d ∈ D ∨ dicts s !! d = None →
  dict_set d k v s1 = Ok (u, s') → frame_but D s s'.
Proof.
  intros [Ha Hd Hn] Hor (m & Hm & Hd' & Ha' & Hn')%dict_set_inv.
  split; [by rewrite Ha' | | congruence].
  intros i x Hi Hx. rewrite Hd'.
  rewrite lookup_insert_ne; [by apply Hd|].
  intros ->. destruct Hor as [?|?]; [done|congruence].
Qed.

Lemma list_get_inv {A} (l : list A) i s x s' :
  list_get l i s = Ok (x, s') → x ∈ l ∧ s' = s.
Proof.
  unfold list_get. repeat case_decide; try discriminate;
    (destruct (l !! _) eqn:E; [|discriminate]); intros [= <- <-]%ret_inv;
    (split; [by eapply list_elem_of_lookup_2|done]).
Qed.

Lemma keeps_linear_backward dZ cache : keeps (linear_backward dZ cache).
Proof. unfold linear_backward. keeps_tac. Qed.

Lemma keeps_relu_backward dA cache : keeps (relu_backward dA cache).
Proof. unfold relu_backward. keeps_tac. Qed.

Lemma keeps_softmax_backward dA cache : keeps (softmax_backward dA cache).
Proof. unfold softmax_backward, softmax. keeps_tac. Qed.

Lemma keeps_linear_activation_backward dA cache act :
  keeps (linear_activation_backward dA cache act).
Proof.
  unfold linear_activation_backward. apply keeps_bind.
  - case_decide; [apply keeps_relu_backward | apply keeps_softmax_backward].
  - intros dZ. apply keeps_linear_backward.
Qed.

(** The three stores into [grads] after a layer. *)
Lemma store_grads_inv D s s1 grads k1 v1 k2 v2 k3 v3 (r : loc) x s' :
  frame_but D s s1 → dicts s !! grads = None →
  (_ ← dict_set grads k1 v1; _ ← dict_set grads k2 v2; _ ← dict_set grads k3 v3;
   mret r) s1 = Ok (x, s') →
  frame_but D s s' ∧ x = r.
Proof.
  intros Hf Hg H.
  inv_run H as [] s2 H2. inv_run H as [] s3 H3. inv_run H as [] s4 H4.
  injection H as <- <-. split; [|done].
  eapply frame_but_dict_set in H2; [|done|by right].
  eapply frame_but_dict_set in H3; [|done|by right].
  eapply frame_but_dict_set in H4; [|done|by right]. done.
Qed.

Lemma backward_loop_inv D s grads n index caches layers dA0 s1 dA s' :
  frame_but D s s1 → dicts s !! grads = None →
  for_in layers (backward_layer n index caches grads) dA0 s1 = Ok (dA, s') →
  frame_but D s s'.
Proof.
  intros Hf Hg. revert dA0 s1 Hf.
  induction layers as [|i layers IH]; intros dA0 s1 Hf H; simpl in H.
  - by injection H as <- <-.
  - inv_run H as dA1 s2 H2. eapply IH; [|done].
    unfold backward_layer in H2.
    inv_run H2 as cache s3 H3. inv_run H2 as [[dA' dW] db] s4 H4.
    apply keeps_list_get in H3. apply keeps_linear_activation_backward in H4.
    eapply store_grads_inv in H2 as [H2 _]; [done| |done].
    eauto using frame_but_frame.
Qed.

(** [L_model_backward] changes no array, and no dict that existed before
    the call other than the caches it is given. *)
Lemma L_model_backward_inv AL Y caches s grads s' :
  L_model_backward AL Y caches s = Ok (grads, s') → frame_but caches s s'.
Proof.
  unfold L_model_backward. intros H.
  inv_run H as n s1 H1. inv_run H as g s2 H2. inv_run H as c s3 H3.
  inv_run H as [] s4 H4. inv_run H as cache s5 H5.
  inv_run H as [[dA dW] db] s6 H6.
  apply keeps_get_n_layers in H1.
  pose proof (keeps_new_dict _ _ _ _ H2) as Hk2.
  apply new_dict_inv in H2 as (Hg & _).
  assert (dicts s !! g = None) as Hg' by by eapply frame_dict_None.
  apply list_get_inv in H3 as [Hc ->].
  apply keeps_list_get in H5. apply keeps_linear_activation_backward in H6.
  assert (frame_but caches s s2) as Hf2.
  { apply frame_frame_but. eauto using frame_trans. }
  eapply frame_but_dict_set in H4; [|done|by left].
  assert (frame_but caches s s6) as Hf6 by eauto using frame_but_frame.
  inv_run H as [] s7 H7. inv_run H as [] s8 H8. inv_run H as [] s9 H9.
  inv_run H as dA' s10 H10. injection H as <- <-.
  eapply frame_but_dict_set in H7; [|done|by right].
  eapply frame_but_dict_set in H8; [|done|by right].
  eapply frame_but_dict_set in H9; [|done|by right].
  by eapply backward_loop_inv.
Qed.

(** [target -= src] overwrites the array [target] with the difference. *)
Lemma isub_inv target src s u s' :
  isub target src s = Ok (u, s') →
  ∃ a b r, arrays s !! target = Some a ∧ arrays s !! src = Some b ∧
           np_sub a b = Ok r ∧ arrays s' = <[target := r]> (arrays s).
Proof.
  unfold isub. intros H.
  inv_run H as a s1 H1. inv_run H as b s2 H2. inv_run H as r s3 H3.
  apply read_inv in H1 as [Ha ->]. apply read_inv in H2 as [Hb ->].
  apply lift_inv in H3 as [Hr ->]. simpl in *.
  case_decide; [|discriminate].
  unfold write in H. rewrite Ha in H. injection H as _ <-.
  by exists a, b, r.
Qed.

End Frame.


(** ** Lists of reals: sums, columns, broadcasting *)

Module RList.
Import Np.
Local Open Scope R_scope.

Abbreviation colsum c rows := (foldr (zip_with Rplus) (replicate c 0) rows).
Abbreviation colmax r0 rest := (foldr (zip_with Rmax) r0 rest).
Abbreviation rect c rows := (Forall (λ r : list R, length r = c) rows).

Lemma Rsum_app l k : Rsum (l ++ k) = Rsum l + Rsum k.
Proof. induction l as [|x l IH]; simpl; [lra | rewrite IH; lra]. Qed.

Lemma Rsum_concat ls : Rsum (concat ls) = Rsum (Rsum <$> ls).
Proof. induction ls as [|l ls IH]; simpl; [done | by rewrite Rsum_app, IH]. Qed.

Lemma Rsum_replicate_0 n : Rsum (replicate n 0) = 0.
Proof. induction n as [|n IH]; simpl; [done | rewrite IH; lra]. Qed.

Lemma Rsum_replicate n x : Rsum (replicate n x) = INR n * x.
Proof.
  induction n as [|n IH]; [simpl; lra|].
  rewrite S_INR. simpl. rewrite IH. lra.
Qed.

Lemma sum_f_S n f : sum_f (S n) f = sum_f n f + f n.
Proof.
  unfold sum_f. rewrite seq_S, fmap_app, Rsum_app. simpl. lra.
Qed.

Lemma sum_f_ext n f g : (∀ j, (j < n)%nat → f j = g j) → sum_f n f = sum_f n g.
Proof.
  induction n as [|n IH]; intros H; [done|].
  rewrite !sum_f_S, IH by (intros; apply H; lia). by rewrite H by lia.
Qed.

Lemma sum_f_plus n f g : sum_f n (λ j, f j + g j) = sum_f n f + sum_f n g.
Proof.
  induction n as [|n IH]; [unfold sum_f; simpl; lra|].
  rewrite !sum_f_S, IH. lra.
Qed.

Lemma sum_f_0 n : sum_f n (λ _, 0) = 0.
Proof. induction n as [|n IH]; [done|]. rewrite sum_f_S, IH. lra. Qed.

Lemma sum_f_const n x : sum_f n (λ _, x) = INR n * x.
Proof.
  induction n as [|n IH]; [unfold sum_f; simpl; lra|].
  rewrite sum_f_S, IH, S_INR. lra.
Qed.

(** The sum of a list, by index. *)
Lemma Rsum_sum_f l : Rsum l = sum_f (length l) (λ j, nth j l 0).
Proof.
  induction l as [|x l IH] using rev_ind; [done|].
  rewrite Rsum_app, length_app. simpl. rewrite Nat.add_1_r, sum_f_S.
  rewrite app_nth2, Nat.sub_diag by lia. simpl.
  rewrite IH. f_equal; [|lra].
  apply sum_f_ext. intros j Hj. by rewrite app_nth1.
Qed.

Lemma nth_zip_with (f : R → R → R) x y j :
  (j < length x)%nat → (j < length y)%nat →
  nth j (zip_with f x y) 0 = f (nth j x 0) (nth j y 0).
Proof.
  revert y j. induction x as [|a x IH]; intros [|b y] [|j] Hx Hy; simpl in *;
    try lia; [done|]. apply IH; lia.
Qed.

Lemma Rsum_zip_with (f : R → R → R) c x y :
  length x = c → length y = c →
  Rsum (zip_with f x y) = sum_f c (λ j, f (nth j x 0) (nth j y 0)).
Proof.
  intros Hx Hy. rewrite Rsum_sum_f, length_zip_with, Hx, Hy, Nat.min_id.
  apply sum_f_ext. intros j Hj. apply nth_zip_with; lia.
Qed.

(** *** Broadcasting a matrix against a row vector *)

Lemma stretch_same {A} k (l : list A) : length l = k → stretch k l = l.
Proof. destruct l as [|x [|y l]]; simpl; intros <-; done. Qed.

Lemma bdim_same n : bdim n n = Some n.
Proof. unfold bdim. by rewrite decide_True. Qed.

Lemma bdim_1_r n : bdim n 1 = Some n.
Proof. unfold bdim. repeat case_decide; congruence. Qed.

Lemma bdim_1_l n : bdim 1 n = Some n.
Proof. unfold bdim. repeat case_decide; congruence. Qed.

Lemma broadcast_row_vector f c rows v :
  rect c rows → length v = c →
  broadcast f (Arr2 c rows) (Arr1 v) = Ok (Arr2 c ((λ x, zip_with f x v) <$> rows)).
Proof.
  intros Hrows Hv. unfold broadcast. simpl.
  rewrite bdim_1_r, Hv, bdim_same. do 2 f_equal.
  rewrite (stretch_same _ rows) by done.
  rewrite zip_with_replicate_r_eq by done.
  apply Forall_fmap_ext. eapply Forall_impl; [done|]. intros x Hx. simpl.
  by rewrite !stretch_same.
Qed.

Lemma broadcast_vector_row f c v rows :
  rect c rows → length v = c →
  broadcast f (Arr1 v) (Arr2 c rows) = Ok (Arr2 c ((λ y, zip_with f v y) <$> rows)).
Proof.
  intros Hrows Hv. unfold broadcast. simpl.
  rewrite bdim_1_l, Hv, bdim_same. do 2 f_equal.
  rewrite (stretch_same _ rows) by done.
  rewrite zip_with_replicate_l by lia.
  apply Forall_fmap_ext. eapply Forall_impl; [done|]. intros x Hx. simpl.
  by rewrite !stretch_same.
Qed.

Lemma broadcast_same f c rows1 rows2 :
  rect c rows1 → rect c rows2 → length rows1 = length rows2 →
  broadcast f (Arr2 c rows1) (Arr2 c rows2) = Ok (Arr2 c (zip_with (zip_with f) rows1 rows2)).
Proof.
  intros H1 H2 Hlen. unfold broadcast. simpl.
  rewrite Hlen, !bdim_same. do 2 f_equal.
  rewrite !stretch_same by done.
  revert rows2 H2 Hlen. induction H1 as [|x rows1 Hx H1 IH]; intros [|y rows2] H2 Hlen;
    simplify_eq/=; [done|].
  inversion_clear H2 as [|?? Hy H2']. f_equal; [|by apply IH].
  by rewrite !stretch_same.
Qed.

End RList.

(** ** The softmax activation *)

Module SoftmaxFacts.
Import Np Py ANN RList Frame.
Local Open Scope R_scope.

(** The arrays [softmax] computes from the value of [Z], in the order of
    the source: activations and shifted input. *)
Definition softmax_val (Z : ndarray) : result (ndarray * ndarray) :=
  rbind (np_max_axis0 Z) (λ mx,
  rbind (np_sub Z mx) (λ Zs,
  rbind (np_sum_axis0 (np_exp Zs)) (λ s,
  rbind (np_div (np_exp Zs) s) (λ A, Ok (A, Zs))))).

(** [rows] with the vector [v] subtracted from every row. *)
Definition shifted (rows : list (list R)) (v : list R) : list (list R) :=
  (λ x, zip_with Rminus x v) <$> rows.

(** [rows] with every row divided by the vector [v]. *)
Definition normalised (rows : list (list R)) (v : list R) : list (list R) :=
  (λ x, zip_with Rdiv x v) <$> rows.

(** [m] holds, for every column of the matrix [rows], its greatest entry. *)
Definition column_maxima (c : nat) (rows : list (list R)) (m : list R) : Prop :=
  length m = c ∧
  ∀ j, (j < c)%nat →
    (∀ x, x ∈ rows → nth j x 0 <= nth j m 0) ∧
    (∃ x, x ∈ rows ∧ nth j x 0 = nth j m 0).

Lemma length_colmax c r0 rest :
  rect c (r0 :: rest) → length (colmax r0 rest) = c.
Proof.
  intros H. inversion_clear H as [|?? H0 Hrest].
  induction Hrest as [|x rest Hx Hrest IH]; simpl; [done|].
  rewrite length_zip_with. lia.
Qed.

Lemma length_colsum c rows : rect c rows → length (colsum c rows) = c.
Proof.
  induction 1 as [|x rows Hx Hrows IH]; simpl; [by rewrite length_replicate|].
  rewrite length_zip_with. lia.
Qed.

Lemma rect_fmap c (f : list R → list R) rows :
  rect c rows → (∀ x, length x = c → length (f x) = c) → rect c (f <$> rows).
Proof.
  intros H Hf. apply Forall_fmap. eapply Forall_impl; [done|]. intros x Hx. by apply Hf.
Qed.

Lemma rect_shifted c rows v : rect c rows → length v = c → rect c (shifted rows v).
Proof.
  intros H Hv. apply rect_fmap; [done|]. intros x Hx. rewrite length_zip_with. lia.
Qed.

Lemma rect_normalised c rows v : rect c rows → length v = c → rect c (normalised rows v).
Proof.
  intros H Hv. apply rect_fmap; [done|]. intros x Hx. rewrite length_zip_with. lia.
Qed.

Lemma rect_exp c rows : rect c rows → rect c (fmap (M:=list) float_exp <$> rows).
Proof. intros H. apply rect_fmap; [done|]. intros x Hx. by rewrite length_fmap. Qed.

(** *** [np.exp] and its underflow *)

Lemma exp_underflow_neg : exp_underflow < 0.
Proof. unfold exp_underflow. pose proof ln_lt_2. pose proof (Rinv_0_lt_compat 2). lra. Qed.

Lemma float_exp_0 : float_exp 0 = 1.
Proof.
  unfold float_exp. pose proof exp_underflow_neg.
  rewrite decide_False by lra. apply exp_0.
Qed.



Lemma float_exp_nonneg x : 0 <= float_exp x.
Proof. unfold float_exp. case_decide; [lra|]. left. apply exp_pos. Qed.

Lemma float_exp_pos x : 0 < float_exp x ↔ exp_underflow < x.
Proof.
  unfold float_exp. case_decide; split; intros; try lra. apply exp_pos.
Qed.

Lemma colmax_spec c r0 rest :
  rect c (r0 :: rest) → column_maxima c (r0 :: rest) (colmax r0 rest).
Proof.
  intros H. split; [by apply length_colmax|]. intros j Hj.
  inversion_clear H as [|?? H0 Hrest].
  induction Hrest as [|x rest Hx Hrest IH]; simpl.
  - split.
    + intros x ->%list_elem_of_singleton. lra.
    + exists r0. split; [apply list_elem_of_here|done].
  - destruct IH as [IHle (y & Hy & Hyj)].
    assert (length (colmax r0 rest) = c) as Hlen by (apply length_colmax; by constructor).
    rewrite nth_zip_with by lia. split.
    + intros z Hz.
      assert (z = x ∨ z ∈ r0 :: rest) as [->|Hz'].
      { apply elem_of_cons in Hz as [->|Hz]; [right; apply list_elem_of_here|].
        apply elem_of_cons in Hz as [->|Hz]; [by left|].
        right. by apply list_elem_of_further. }
      * apply Rmax_l.
      * etrans; [by apply IHle|]. apply Rmax_r.
    + destruct (Rle_dec (nth j x 0) (nth j (colmax r0 rest) 0)) as [Hle|Hgt].
      * rewrite Rmax_right by done. exists y. split; [|done].
        apply elem_of_cons in Hy as [->|Hy]; [apply list_elem_of_here|].
        by do 2 apply list_elem_of_further.
      * rewrite Rmax_left by lra. exists x. split; [|done].
        apply list_elem_of_further, list_elem_of_here.
Qed.

(** Two lists are related entry by entry. *)
Lemma Forall_zip_with (P : R → R → Prop) (Q : R → Prop) (f : R → R → R) x y :
  Forall2 P x y → (∀ a b, P a b → Q (f a b)) → Forall Q (zip_with f x y).
Proof. induction 1; intros Hf; simpl; constructor; auto. Qed.

Lemma colsum_nonneg c rows :
  rect c rows → Forall (Forall (λ a, 0 <= a)) rows → Forall (λ a, 0 <= a) (colsum c rows).
Proof.
  induction 1 as [|x rows Hx Hrows IH]; intros Hpos; simpl.
  - apply Forall_replicate. lra.
  - inversion_clear Hpos as [|?? Hx0 Hrest].
    apply (Forall_zip_with (λ a b, 0 <= a ∧ 0 <= b)); [|intros a b []; lra].
    apply Forall2_same_length_lookup. split.
    + by rewrite length_colsum.
    + intros i a b Ha Hb. split.
      * eapply Forall_lookup_1 in Hx0; done.
      * eapply Forall_lookup_1 in Hb; [done|]. by apply IH.
Qed.

Lemma colsum_pos c x rows :
  rect c (x :: rows) → Forall (Forall (λ a, 0 < a)) (x :: rows) →
  Forall (λ a, 0 < a) (colsum c (x :: rows)).
Proof.
  intros Hrect Hpos. simpl.
  inversion_clear Hrect as [|?? Hx Hrows]. inversion_clear Hpos as [|?? Hx0 Hrest].
  apply (Forall_zip_with (λ a b, 0 < a ∧ 0 <= b)); [|intros a b []; lra].
  apply Forall2_same_length_lookup. split.
  - by rewrite length_colsum.
  - intros i a b Ha Hb. split.
    + eapply Forall_lookup_1 in Hx0; done.
    + eapply Forall_lookup_1 in Hb; [done|]. apply colsum_nonneg; [done|].
      eapply Forall_impl; [done|]. intros y Hy. eapply Forall_impl; [done|].
      intros a' Ha'. simpl in Ha'. lra.
Qed.

(** In a matrix without negative entries, every entry is at most the sum
    of its column. *)
Lemma row_le_colsum c rows x :
  rect c rows → Forall (Forall (λ a, 0 <= a)) rows → x ∈ rows →
  Forall2 Rle x (colsum c rows).
Proof.
  induction 1 as [|y rows Hy Hrows IH]; intros Hpos Hin; [by apply elem_of_nil in Hin|].
  inversion_clear Hpos as [|?? Hy0 Hrest]. simpl.
  pose proof (colsum_nonneg c rows Hrows Hrest) as Hs.
  pose proof (length_colsum c rows Hrows) as Hlen.
  apply elem_of_cons in Hin as [->|Hin].
  - apply Forall2_same_length_lookup. split; [rewrite length_zip_with; lia|].
    intros i a b Ha Hb.
    apply lookup_zip_with_Some in Hb as (a' & s & -> & Ha' & Hsi). simplify_eq.
    eapply Forall_lookup_1 in Hs; [|done]. simpl in Hs. lra.
  - specialize (IH Hrest Hin).
    apply Forall2_same_length_lookup. split.
    { rewrite length_zip_with. apply Forall2_length in IH. lia. }
    intros i a b Ha Hb.
    apply lookup_zip_with_Some in Hb as (a' & s & -> & Ha' & Hsi).
    eapply Forall_lookup_1 in Hy0; [|done]. simpl in Hy0.
    eapply Forall2_lookup_lr in IH; [|done|done]. lra.
Qed.

Lemma zip_with_div_plus x y v :
  length x = length v → length y = length v →
  zip_with Rplus (zip_with Rdiv x v) (zip_with Rdiv y v) =
  zip_with Rdiv (zip_with Rplus x y) v.
Proof.
  revert y v. induction x as [|a x IH]; intros [|b y] [|d v] Hx Hy; simplify_eq/=; [done|].
  f_equal; [unfold Rdiv; lra | by apply IH].
Qed.

Lemma colsum_normalised c rows v :
  rect c rows → length v = c →
  colsum c (normalised rows v) = zip_with Rdiv (colsum c rows) v.
Proof.
  intros Hrows Hv. induction Hrows as [|x rows Hx Hrows IH]; simpl.
  - rewrite zip_with_replicate_l by lia.
    subst c. induction v as [|d v IHv]; simpl; [done|].
    f_equal; [unfold Rdiv; lra | done].
  - rewrite IH.
    apply zip_with_div_plus; [lia|]. rewrite length_colsum; [lia|done].
Qed.

Lemma zip_with_div_self v :
  Forall (λ a, 0 < a) v → zip_with Rdiv v v = replicate (length v) 1.
Proof.
  induction 1 as [|a v Ha Hv IH]; simpl; [done|].
  f_equal; [field; lra | done].
Qed.

Lemma shifted_zero c rows : rect c rows → shifted rows (replicate c 0) = rows.
Proof.
  intros H. unfold shifted. rewrite <- (list_fmap_id rows) at 2.
  apply Forall_fmap_ext. eapply Forall_impl; [done|]. intros x Hx. simpl.
  rewrite zip_with_replicate_r_eq by done.
  rewrite <- (list_fmap_id x) at 2. apply list_fmap_ext. intros i a _. simpl. lra.
Qed.

Lemma zip_with_minus_self v : zip_with Rminus v v = replicate (length v) 0.
Proof. induction v as [|a v IH]; simpl; [done|]. f_equal; [lra|done]. Qed.

Lemma zip_with_max_minus x y v :
  length x = length v → length y = length v →
  zip_with Rmax (zip_with Rminus x v) (zip_with Rminus y v) =
  zip_with Rminus (zip_with Rmax x y) v.
Proof.
  revert y v. induction x as [|a x IH]; intros [|b y] [|d v] Hx Hy; simplify_eq/=; [done|].
  f_equal; [|by apply IH].
  unfold Rmax. repeat destruct (Rle_dec _ _); lra.
Qed.

(** The column maxima of a matrix shifted by [v] are those of the matrix,
    shifted by [v]. *)
Lemma colmax_shifted c r0 rest v :
  rect c (r0 :: rest) → length v = c →
  colmax (zip_with Rminus r0 v) (shifted rest v) = zip_with Rminus (colmax r0 rest) v.
Proof.
  intros H Hv. inversion_clear H as [|?? H0 Hrest].
  induction Hrest as [|x rest Hx Hrest IH]; simpl; [done|].
  rewrite IH. apply zip_with_max_minus; [lia|].
  rewrite (length_colmax c); [lia|by constructor].
Qed.

(** The exponentials of a matrix shifted by the maxima of its columns:
    none is negative, and in every column the one of the maximum is 1, so
    that the sum of the column is at least 1. *)
Lemma exp_shifted_nonneg rows v :
  Forall (Forall (λ a, 0 <= a)) (fmap (M:=list) float_exp <$> shifted rows v).
Proof.
  apply Forall_fmap, Forall_forall. intros y _.
  apply Forall_fmap, Forall_forall. intros a _. apply float_exp_nonneg.
Qed.

Lemma colsum_exp_shifted c r0 rest :
  rect c (r0 :: rest) →
  Forall (λ a, 1 <= a)
    (colsum c (fmap (M:=list) float_exp <$> shifted (r0 :: rest) (colmax r0 rest))).
Proof.
  intros Hrect. set (mx := colmax r0 rest). set (rows := r0 :: rest) in *.
  set (E := fmap (M:=list) float_exp <$> shifted rows mx).
  pose proof (length_colmax c r0 rest Hrect) as Hmx. fold mx in Hmx.
  assert (rect c E) as HE by by apply rect_exp, rect_shifted.
  apply Forall_lookup. intros j a Ha.
  assert (j < c)%nat as Hj.
  { apply lookup_lt_Some in Ha. by rewrite length_colsum in Ha. }
  destruct (colmax_spec c r0 rest Hrect) as [_ Hmax].
  destruct (Hmax j Hj) as [_ (x & Hx & Hxj)]. fold mx in Hxj.
  assert (length x = c) as Hlen by (by eapply (proj1 (Forall_forall _ _) Hrect)).
  assert (float_exp <$> zip_with Rminus x mx ∈ E) as Hy.
  { unfold E, shifted. rewrite <- list_fmap_compose. apply list_elem_of_fmap.
    by exists x. }
  pose proof (row_le_colsum c E _ HE (exp_shifted_nonneg rows mx) Hy) as Hle.
  destruct (lookup_lt_is_Some_2 x j) as [xj Hxj']; [lia|].
  destruct (lookup_lt_is_Some_2 mx j) as [mj Hmj]; [lia|].
  rewrite (nth_lookup_Some _ _ _ _ Hxj'), (nth_lookup_Some _ _ _ _ Hmj) in Hxj.
  eapply Forall2_lookup_lr in Hle; [|by rewrite list_lookup_fmap, lookup_zip_with, Hxj', Hmj|done].
  simpl in Hle. subst mj. rewrite Rminus_diag, float_exp_0 in Hle. done.
Qed.

(** *** The value of [softmax] in closed form *)

Lemma softmax_val_eq c r0 rest :
  rect c (r0 :: rest) →
  let Zs := shifted (r0 :: rest) (colmax r0 rest) in
  let E := fmap (M:=list) float_exp <$> Zs in
  softmax_val (Arr2 c (r0 :: rest)) =
    Ok (Arr2 c (normalised E (colsum c E)), Arr2 c Zs).
Proof.
  intros Hrect Zs E.
  pose proof (length_colmax c r0 rest Hrect) as Hmx.
  assert (rect c Zs) as HZs by by apply rect_shifted.
  assert (rect c E) as HE by by apply rect_exp.
  assert (Forall (λ a, 0 < a) (colsum c E)) as Hpos.
  { eapply Forall_impl; [by apply colsum_exp_shifted|]. intros a Ha. simpl in Ha. lra. }
  unfold softmax_val. cbn [np_max_axis0 rbind].
  unfold np_sub. rewrite broadcast_row_vector by done. cbn [rbind].
  fold (shifted (r0 :: rest) (colmax r0 rest)). fold Zs.
  change (np_exp (Arr2 c Zs)) with (Arr2 c E).
  clearbody E Zs. cbn [np_sum_axis0 rbind].
  unfold np_div. rewrite broadcast_row_vector by (done || by apply length_colsum).
  cbn [rbind]. fold (normalised E (colsum c E)).
  case_decide; [done|].
  rewrite decide_False; [done|].
  cbn [flat]. intros (a & Ha & ->)%Exists_exists.
  eapply Forall_forall in Hpos; [|done]. simpl in Hpos. lra.
Qed.

(** [softmax] of the cached, shifted [Z] gives the activations again. *)
Lemma softmax_val_shifted Z A Zs :
  wf Z → softmax_val Z = Ok (A, Zs) → softmax_val Zs = Ok (A, Zs).
Proof.
  intros Hwf H. destruct Z as [v|c [|r0 rest]]; [discriminate..|].
  cbn [wf] in Hwf. rewrite (softmax_val_eq c) in H by done. cbv zeta in H.
  injection H as <- <-.
  pose proof (length_colmax c r0 rest Hwf) as Hmx.
  set (mx := colmax r0 rest) in *.
  set (z0 := zip_with Rminus r0 mx). set (zrest := shifted rest mx).
  assert (rect c (z0 :: zrest)) as HZs by by apply (rect_shifted c (r0 :: rest)).
  transitivity (softmax_val (Arr2 c (z0 :: zrest))); [done|].
  rewrite (softmax_val_eq c) by done. cbv zeta.
  subst z0 zrest. rewrite (colmax_shifted c) by done. fold mx.
  rewrite zip_with_minus_self, Hmx.
  by rewrite (shifted_zero c).
Qed.

(** The columns of the activations sum to 1 and their entries are in
    [0, 1]. *)
Lemma softmax_val_normalised c r0 rest :
  rect c (r0 :: rest) →
  let E := fmap (M:=list) float_exp <$> shifted (r0 :: rest) (colmax r0 rest) in
  let A := normalised E (colsum c E) in
  rect c A ∧ length A = S (length rest) ∧
  colsum c A = replicate c 1 ∧
  Forall (Forall (λ a, 0 <= a <= 1)) A.
Proof.
  intros Hrect E A.
  pose proof (length_colmax c r0 rest Hrect) as Hmx.
  assert (rect c E) as HE by by apply rect_exp, rect_shifted.
  assert (Forall (Forall (λ a, 0 <= a)) E) as HEpos by apply exp_shifted_nonneg.
  assert (Forall (λ a, 0 < a) (colsum c E)) as Hpos.
  { eapply Forall_impl; [by apply colsum_exp_shifted|]. intros a Ha. simpl in Ha. lra. }
  pose proof (length_colsum c E HE) as HS.
  split; [by apply rect_normalised|]. split.
  { subst A E. unfold normalised, shifted. by rewrite !length_fmap. }
  split.
  { subst A. rewrite colsum_normalised by done.
    by rewrite zip_with_div_self, HS. }
  apply Forall_fmap, Forall_forall. intros x Hx. simpl.
  assert (Forall2 Rle x (colsum c E)) as Hle by by apply row_le_colsum.
  apply (Forall_zip_with (λ a b, 0 <= a ∧ a <= b ∧ 0 < b)).
  - apply Forall2_same_length_lookup. split; [by eapply Forall2_length|].
    intros i a b Ha Hb. split; [|split; [by eapply Forall2_lookup_lr|]].
    + eapply Forall_forall in HEpos; [|done]. eapply Forall_lookup_1 in HEpos; done.
    + eapply Forall_lookup_1 in Hpos; done.
  - intros a b (Ha & Hab & Hb). split.
    + unfold Rdiv. apply Rmult_le_pos; [done|]. left. by apply Rinv_0_lt_compat.
    + apply (Rmult_le_reg_r b); [lra|]. unfold Rdiv.
      rewrite Rmult_assoc, Rinv_l by lra. lra.
Qed.

(** An activation is positive when its input is less than [- exp_underflow]
    below the maximum of its column, and 0 when it is not. *)
Lemma softmax_val_positive c r0 rest i j x a :
  rect c (r0 :: rest) →
  let mx := colmax r0 rest in
  let E := fmap (M:=list) float_exp <$> shifted (r0 :: rest) mx in
  (r0 :: rest) !! i = Some x → normalised E (colsum c E) !! i = Some a → (j < c)%nat →
  (0 < nth j a 0 ↔ exp_underflow < nth j x 0 - nth j mx 0) ∧
  (nth j a 0 = 0 ↔ nth j x 0 - nth j mx 0 <= exp_underflow).
Proof.
  intros Hrect mx E Hx Ha Hj.
  pose proof (length_colmax c r0 rest Hrect) as Hmx. fold mx in Hmx.
  assert (rect c E) as HE by by apply rect_exp, rect_shifted.
  pose proof (length_colsum c E HE) as HS.
  pose proof (colsum_exp_shifted c r0 rest Hrect) as Hsum. fold mx E in Hsum.
  assert (length x = c) as Hlen.
  { eapply (proj1 (Forall_forall _ _) Hrect). by eapply list_elem_of_lookup_2. }
  remember (colsum c E) as S eqn:HeqS. clear HeqS.
  unfold normalised, E, shifted in Ha. rewrite !list_lookup_fmap, Hx in Ha.
  injection Ha as <-.
  destruct (lookup_lt_is_Some_2 x j) as [xj Hxj]; [lia|].
  destruct (lookup_lt_is_Some_2 mx j) as [mj Hmj]; [lia|].
  destruct (lookup_lt_is_Some_2 S j) as [sj Hsj]; [lia|].
  eapply Forall_lookup_1 in Hsum; [|done]. simpl in Hsum.
  rewrite (nth_lookup_Some _ _ _ _ Hxj), (nth_lookup_Some _ _ _ _ Hmj).
  rewrite (nth_lookup_Some _ j _ (float_exp (xj - mj) / sj));
    [|by rewrite lookup_zip_with, list_lookup_fmap, lookup_zip_with, Hxj, Hmj, Hsj].
  pose proof (float_exp_pos (xj - mj)) as Hpos.
  pose proof (float_exp_nonneg (xj - mj)) as Hnn.
  assert (0 < / sj) as Hinv by (apply Rinv_0_lt_compat; lra).
  unfold Rdiv. split; split; intros H.
  - apply Hpos. destruct (Rle_lt_or_eq_dec _ _ Hnn) as [|Heq]; [done|].
    rewrite <- Heq in H. lra.
  - apply Rmult_lt_0_compat; [by apply Hpos|done].
  - apply Rnot_lt_le. intros Hlt%Hpos.
    pose proof (Rmult_lt_0_compat _ _ Hlt Hinv). lra.
  - assert (float_exp (xj - mj) = 0) as ->; [|lra].
    destruct (Rle_lt_or_eq_dec _ _ Hnn) as [Hlt%Hpos|Heq]; [lra|done].
Qed.

End SoftmaxFacts.


(** ** Calls that return *)

Module Run.
Import Np Py ANN Frame.

Lemma new_array_run a s :
  ∃ l s', new_array a s = Ok (l, s') ∧ arrays s' !! l = Some a ∧ frame s s'.
Proof.
  destruct (new_array a s) as [[l s']|e] eqn:H; [|discriminate].
  exists l, s'. split; [done|]. split; [|by eapply keeps_new_array].
  apply new_array_inv in H as (_ & -> & _). apply lookup_insert_eq.
Qed.

Lemma read_run l s a : arrays s !! l = Some a → read l s = Ok (a, s).
Proof. intros H. unfold read. by rewrite H. Qed.

Lemma op1_run f x s a r :
  arrays s !! x = Some a → f a = Ok r →
  ∃ l s', op1 f x s = Ok (l, s') ∧ arrays s' !! l = Some r ∧ frame s s'.
Proof.
  intros Hx Hf. destruct (new_array_run r s) as (l & s' & H & Hl & Hfr).
  exists l, s'. split; [|done]. unfold op1.
  rewrite (bind_run _ _ _ _ _ (read_run _ _ _ Hx)).
  by rewrite (bind_run _ _ _ _ _ (lift_run _ _ _ Hf)).
Qed.

Lemma total1_run f x s a :
  arrays s !! x = Some a →
  ∃ l s', total1 f x s = Ok (l, s') ∧ arrays s' !! l = Some (f a) ∧ frame s s'.
Proof. intros Hx. by eapply op1_run. Qed.

Lemma op2_run f x y s a b r :
  arrays s !! x = Some a → arrays s !! y = Some b → f a b = Ok r →
  ∃ l s', op2 f x y s = Ok (l, s') ∧ arrays s' !! l = Some r ∧ frame s s'.
Proof.
  intros Hx Hy Hf. destruct (new_array_run r s) as (l & s' & H & Hl & Hfr).
  exists l, s'. split; [|done]. unfold op2.
  rewrite (bind_run _ _ _ _ _ (read_run _ _ _ Hx)).
  rewrite (bind_run _ _ _ _ _ (read_run _ _ _ Hy)).
  by rewrite (bind_run _ _ _ _ _ (lift_run _ _ _ Hf)).
Qed.

Lemma dict_get_run d k s m v :
  dicts s !! d = Some m → m !! k = Some v → dict_get d k s = Ok (v, s).
Proof. intros Hd Hk. unfold dict_get. by rewrite Hd, Hk. Qed.

Lemma new_dict_run m s :
  ∃ d s', new_dict m s = Ok (d, s') ∧ dicts s' !! d = Some m ∧ dicts s !! d = None ∧
          frame s s'.
Proof.
  destruct (new_dict m s) as [[d s']|e] eqn:H; [|discriminate].
  exists d, s'. split; [done|].
  pose proof (keeps_new_dict _ _ _ _ H) as Hk.
  apply new_dict_inv in H as (Hfresh & -> & _).
  split; [apply lookup_insert_eq|done].
Qed.

(** Writing into a dict that was made after [s0]. *)
Lemma dict_set_run s0 s d k v m :
  frame s0 s → dicts s0 !! d = None → dicts s !! d = Some m →
  ∃ s', dict_set d k v s = Ok ((), s') ∧ dicts s' !! d = Some (<[k := v]> m) ∧
        arrays s' = arrays s ∧ frame s0 s'.
Proof.
  intros Hfr Hfresh Hd.
  destruct (dict_set d k v s) as [[[] s']|e] eqn:H.
  - exists s'. split; [done|].
    pose proof (frame_dict_set _ _ _ _ _ _ _ Hfr Hfresh H) as Hfr'.
    apply dict_set_inv in H as (m' & Hm' & -> & Ha & _).
    rewrite Hd in Hm'. injection Hm' as <-.
    split; [apply lookup_insert_eq|done].
  - unfold dict_set in H. rewrite Hd in H. discriminate.
Qed.

Lemma get_n_layers_run s n : self_n_layers s = Some n → get_n_layers s = Ok (n, s).
Proof. intros H. unfold get_n_layers. by rewrite H. Qed.

Lemma shape1_of_run x s c rows :
  arrays s !! x = Some (Arr2 c rows) → shape1_of x s = Ok (c, s).
Proof.
  intros H. unfold shape1_of. by rewrite (bind_run _ _ _ _ _ (read_run _ _ _ H)).
Qed.

(** The result of a numpy operation is an array that was not there. *)
Lemma op1_fresh f x s l s' : op1 f x s = Ok (l, s') → arrays s !! l = None.
Proof.
  unfold op1. intros H. inv_run H as a s1 H1. inv_run H as r s2 H2.
  apply read_inv in H1 as [_ ->]. apply lift_inv in H2 as [_ ->].
  by apply new_array_inv in H as [? _].
Qed.

Lemma op2_fresh f x y s l s' : op2 f x y s = Ok (l, s') → arrays s !! l = None.
Proof.
  unfold op2. intros H. inv_run H as a s1 H1. inv_run H as b s2 H2.
  inv_run H as r s3 H3.
  apply read_inv in H1 as [_ ->]. apply read_inv in H2 as [_ ->].
  apply lift_inv in H3 as [_ ->]. by apply new_array_inv in H as [? _].
Qed.

End Run.

(** ** [softmax] and [softmax_backward] on the store *)

Module SoftmaxRun.
Import Np Py ANN Frame Run SoftmaxFacts.

Lemma softmax_run Z s Zv Av Zsv :
  arrays s !! Z = Some Zv → softmax_val Zv = Ok (Av, Zsv) →
  ∃ A Zs s', softmax Z s = Ok ((A, Zs), s') ∧
             arrays s' !! A = Some Av ∧ arrays s' !! Zs = Some Zsv ∧ frame s s'.
Proof.
  intros HZ Hval. unfold softmax_val in Hval.
  destruct (np_max_axis0 Zv) as [mxv|] eqn:Hmx; [|discriminate]. cbn [rbind] in Hval.
  destruct (np_sub Zv mxv) as [zs|] eqn:Hsub; [|discriminate]. cbn [rbind] in Hval.
  destruct (np_sum_axis0 (np_exp zs)) as [sv|] eqn:Hsum; [|discriminate].
  cbn [rbind] in Hval.
  destruct (np_div (np_exp zs) sv) as [av|] eqn:Hdiv; [|discriminate].
  cbn [rbind] in Hval. injection Hval as -> ->.
  destruct (op1_run _ _ _ _ _ HZ Hmx) as (mx & s1 & H1 & Hmx1 & F1).
  destruct (op2_run np_sub Z mx s1 _ _ _ (frame_array _ _ _ _ F1 HZ) Hmx1 Hsub)
    as (Zs & s2 & H2 & HZs & F2).
  destruct (total1_run np_exp Zs s2 _ HZs) as (e & s3 & H3 & He & F3).
  destruct (op1_run _ _ _ _ _ He Hsum) as (sm & s4 & H4 & Hsm & F4).
  destruct (op2_run np_div e sm s4 _ _ _ (frame_array _ _ _ _ F4 He) Hsm Hdiv)
    as (A & s5 & H5 & HA & F5).
  exists A, Zs, s5. split.
  { unfold softmax.
    rewrite (bind_run _ _ _ _ _ H1), (bind_run _ _ _ _ _ H2), (bind_run _ _ _ _ _ H3).
    by rewrite (bind_run _ _ _ _ _ H4), (bind_run _ _ _ _ _ H5). }
  split; [done|]. split; [|eauto 10 using frame_trans].
  eapply frame_array; [|done]. eauto using frame_trans.
Qed.

Lemma softmax_backward_run dA cache s d Zl Yl Zv Yv A Zs D :
  dicts s !! cache = Some d → d !! "Z" = Some Zl → d !! "Y" = Some Yl →
  arrays s !! Zl = Some Zv → arrays s !! Yl = Some Yv →
  softmax_val Zv = Ok (A, Zs) → np_sub A Yv = Ok D →
  ∃ dZ s', softmax_backward dA cache s = Ok (dZ, s') ∧ arrays s' !! dZ = Some D ∧
           frame s s'.
Proof.
  intros Hd HZ HY HZv HYv Hval Hsub.
  destruct (softmax_run Zl s _ _ _ HZv Hval) as (Al & Zsl & s1 & H1 & HA & _ & F1).
  destruct (op2_run np_sub Al Yl s1 _ _ _ HA (frame_array _ _ _ _ F1 HYv) Hsub)
    as (dZ & s2 & H2 & HdZ & F2).
  exists dZ, s2. split; [|eauto using frame_trans].
  unfold softmax_backward.
  rewrite (bind_run _ _ _ _ _ (dict_get_run _ _ _ _ _ Hd HZ)).
  rewrite (bind_run _ _ _ _ _ (dict_get_run _ _ _ _ _ Hd HY)).
  by rewrite (bind_run _ _ _ _ _ H1).
Qed.

End SoftmaxRun.

(** ** The cross-entropy cost *)

Module CostFacts.
Import Np Py ANN RList Frame Run.
Local Open Scope R_scope.

(** The number [compute_cost] computes from the values of [AL] and [Y], in
    the order of the source. *)
Definition compute_cost_val (AL Y : ndarray) : result R :=
  rbind (mask_gt0 AL Y) (λ sel,
  rbind (np_log sel) (λ y_pred,
  rbind (np_mul y_pred Y) (λ prod,
  rbind (shape1 AL) (λ m,
  if decide (m = 0%nat) then Raise ZeroDivisionError
  else Ok (- np_sum prod * (1 / INR m)))))).

(** A one-hot vector: one entry is 1, the others are 0. *)
Definition one_hot (y : list R) : Prop :=
  ∃ t, y !! t = Some 1 ∧ ∀ i a, y !! i = Some a → i ≠ t → a = 0.

(** The class a one-hot vector stands for: the position of its 1. *)
Fixpoint true_class (y : list R) : nat :=
  match y with
  | [] => 0
  | a :: y' => if decide (a = 1) then 0 else S (true_class y')
  end.

(** The categorical cross-entropy of the predictions [rowsA] against the
    one-hot labels [rowsY], both of [c] columns: minus the average over the
    columns of the logarithm of the prediction at the true class. *)
Definition cross_entropy (c : nat) (rowsA rowsY : list (list R)) : R :=
  - (sum_f c (λ j, ln (nth (true_class (column j rowsY)) (column j rowsA) 0))) / INR c.

Lemma true_class_hot y t :
  y !! t = Some 1 → (∀ i a, y !! i = Some a → i ≠ t → a = 0) → true_class y = t.
Proof.
  revert t. induction y as [|b y IH]; intros [|t] Ht Hz; simplify_eq/=.
  - by rewrite decide_True.
  - assert (b = 0) as -> by (by apply (Hz 0%nat)).
    rewrite decide_False by lra. f_equal. apply IH; [done|].
    intros i a Hi Hne. apply (Hz (S i)); [done|lia].
Qed.

Lemma sum_zero_labels (g : R → R → R) acol ycol :
  (∀ a, g a 0 = 0) → Forall (λ y, y = 0) ycol → Rsum (zip_with g acol ycol) = 0.
Proof.
  intros Hg Hy. revert acol. induction Hy as [|y ycol -> Hy IH]; intros [|a acol]; simpl;
    try done. rewrite Hg, IH. lra.
Qed.

(** Against a one-hot column only the entry at the true class counts. *)
Lemma one_hot_sum (g : R → R → R) acol ycol t :
  (∀ a, g a 0 = 0) → length acol = length ycol →
  ycol !! t = Some 1 → (∀ i a, ycol !! i = Some a → i ≠ t → a = 0) →
  Rsum (zip_with g acol ycol) = g (nth t acol 0) 1.
Proof.
  intros Hg. revert ycol t.
  induction acol as [|a acol IH]; intros [|y ycol] [|t] Hlen Ht Hz; simplify_eq/=.
  - rewrite sum_zero_labels; [lra|done|].
    apply Forall_lookup. intros i b Hb. apply (Hz (S i)); [done|lia].
  - assert (y = 0) as -> by (by apply (Hz 0%nat)).
    rewrite Hg, (IH ycol t); [lra|done|done|].
    intros i b Hi Hne. apply (Hz (S i)); [done|lia].
Qed.

(** A sum over the entries of two matrices, row by row, is the sum column
    by column. *)
Lemma sum_rows_columns (g : R → R → R) c rowsA rowsY :
  rect c rowsA → rect c rowsY → length rowsA = length rowsY →
  Rsum (zip_with (λ a y, Rsum (zip_with g a y)) rowsA rowsY) =
  sum_f c (λ j, Rsum (zip_with g (column j rowsA) (column j rowsY))).
Proof.
  intros HA. revert rowsY.
  induction HA as [|a rowsA Ha HA IH]; intros [|y rowsY] HY Hlen; simplify_eq/=.
  - by rewrite sum_f_0.
  - inversion_clear HY as [|?? Hy HY'].
    rewrite IH by done. rewrite (Rsum_zip_with g (length a)) by done.
    by rewrite <- sum_f_plus.
Qed.

Lemma Rsum_select (f : R → R) a y :
  Rsum (f <$> select a y) =
  Rsum (zip_with (λ x m, if decide (0 < m) then f x else 0) a y).
Proof.
  revert y. induction a as [|x a IH]; intros [|m y]; simpl; try done.
  case_decide; simpl; rewrite IH; lra.
Qed.

Lemma Forall_select (P : R → Prop) a y :
  (∀ j x m, a !! j = Some x → y !! j = Some m → 0 < m → P x) → Forall P (select a y).
Proof.
  revert y. induction a as [|x a IH]; intros [|m y] H; simpl; try done.
  assert (Forall P (select a y)) as Hrest.
  { apply IH. intros j x' m' Hx Hm. by apply (H (S j)). }
  case_decide; [|done]. constructor; [|done]. by apply (H 0%nat x m).
Qed.

Lemma Rsum_ones (l : list R) : Rsum ((λ _, 1) <$> l) = INR (length l).
Proof.
  induction l as [|x l IH]; [done|]. cbn [fmap list_fmap Rsum foldr length].
  rewrite S_INR. unfold Rsum in IH. rewrite IH. lra.
Qed.

Lemma Rsum_fmap_concat (f : R → R) (ls : list (list R)) :
  Rsum (f <$> concat ls) = Rsum ((λ l, Rsum (f <$> l)) <$> ls).
Proof.
  induction ls as [|l ls IH]; [done|]. simpl. rewrite fmap_app, Rsum_app.
  unfold Rsum in *. by rewrite IH.
Qed.

Lemma fmap_zip_with_rows (h : list R → R) (k : list R → list R → list R) rowsA rowsY :
  h <$> zip_with k rowsA rowsY = zip_with (λ a y, h (k a y)) rowsA rowsY.
Proof.
  revert rowsY. induction rowsA as [|a rowsA IH]; intros [|y rowsY]; simpl; try done.
  by rewrite IH.
Qed.

Lemma column_lookup j rows i r :
  rows !! i = Some r → column j rows !! i = Some (nth j r 0).
Proof. intros H. unfold column. by rewrite list_lookup_fmap, H. Qed.

Lemma length_column j rows : length (column j rows) = length rows.
Proof. unfold column. by rewrite length_fmap. Qed.

Section OneHotLabels.
Variables (c : nat) (rowsA rowsY : list (list R)).
Hypothesis HA : rect c rowsA.
Hypothesis HY : rect c rowsY.
Hypothesis Hrows : length rowsA = length rowsY.
Hypothesis Hhot : ∀ j, (j < c)%nat → one_hot (column j rowsY).

(** The sum of [f] over the selected entries [AL[Y > 0]]. *)
Lemma sum_selected (f : R → R) :
  Rsum (f <$> concat (zip_with select rowsA rowsY)) =
  sum_f c (λ j, f (nth (true_class (column j rowsY)) (column j rowsA) 0)).
Proof using HA HY Hrows Hhot.
  rewrite Rsum_fmap_concat, fmap_zip_with_rows.
  erewrite zip_with_ext; [|intros; apply Rsum_select|done..].
  rewrite (sum_rows_columns _ c) by done.
  apply sum_f_ext. intros j Hj. destruct (Hhot j Hj) as (t & Ht & Hz).
  rewrite (true_class_hot _ t) by done.
  rewrite (one_hot_sum _ _ _ t);
    [|intros; case_decide; [lra|done]|by rewrite !length_column|done..].
  rewrite decide_True; [done|lra].
Qed.

(** There is one selected entry for every column. *)
Lemma length_selected : length (concat (zip_with select rowsA rowsY)) = c.
Proof using HA HY Hrows Hhot.
  apply INR_eq. rewrite <- Rsum_ones, sum_selected, sum_f_const. lra.
Qed.

(** The selected entries are the predictions at the true classes. *)
Lemma Forall_selected (P : R → Prop) :
  (∀ j, (j < c)%nat → P (nth (true_class (column j rowsY)) (column j rowsA) 0)) →
  Forall P (concat (zip_with select rowsA rowsY)).
Proof using HA HY Hrows Hhot.
  intros HP. apply Forall_concat, Forall_lookup. intros i l Hl.
  apply lookup_zip_with_Some in Hl as (a & y & -> & Ha & Hy).
  apply Forall_select. intros j x m Hx Hm Hpos.
  assert (j < c)%nat as Hj.
  { apply lookup_lt_Some in Hm. eapply Forall_lookup_1 in HY; [|done]. simpl in HY. lia. }
  destruct (Hhot j Hj) as (t & Ht & Hz).
  specialize (HP j Hj). rewrite (true_class_hot _ t) in HP by done.
  assert (i = t) as ->.
  { destruct (decide (i = t)) as [|Hne]; [done|].
    pose proof (Hz i _ (column_lookup j _ _ _ Hy) Hne) as H0.
    rewrite (nth_lookup_Some _ _ _ _ Hm) in H0. lra. }
  rewrite (nth_lookup_Some _ _ _ _ (column_lookup j _ _ _ Ha)) in HP.
  by rewrite (nth_lookup_Some _ _ _ _ Hx) in HP.
Qed.

(** The labels weigh every entry of a vector [p] once. *)
Lemma sum_weighted (p : list R) :
  length p = c →
  Rsum (concat ((λ y, zip_with Rmult p y) <$> rowsY)) = Rsum p.
Proof using HY Hhot.
  intros Hp. rewrite Rsum_concat, <- list_fmap_compose.
  transitivity (Rsum (zip_with (λ a y, Rsum (zip_with Rmult a y))
                               (replicate (length rowsY) p) rowsY)).
  { by rewrite zip_with_replicate_l. }
  rewrite (sum_rows_columns Rmult c);
    [|by apply Forall_replicate|done|by rewrite length_replicate].
  rewrite (Rsum_sum_f p), Hp.
  apply sum_f_ext. intros j Hj. destruct (Hhot j Hj) as (t & Ht & Hz).
  rewrite (one_hot_sum _ _ _ t);
    [|intros; lra|by rewrite !length_column, length_replicate|done..].
  assert (t < length rowsY)%nat as Hlt.
  { apply lookup_lt_Some in Ht. by rewrite length_column in Ht. }
  unfold column. rewrite fmap_replicate, nth_lookup, lookup_replicate_2 by done.
  simpl. lra.
Qed.

(** The value of [compute_cost] on one-hot labels. *)
Lemma compute_cost_val_one_hot :
  (0 < c)%nat →
  (∀ j, (j < c)%nat → 0 < nth (true_class (column j rowsY)) (column j rowsA) 0) →
  compute_cost_val (Arr2 c rowsA) (Arr2 c rowsY) = Ok (cross_entropy c rowsA rowsY).
Proof using HA HY Hrows Hhot.
  intros Hc Hpos. unfold compute_cost_val.
  cbn [mask_gt0]. rewrite decide_True by done. cbn [rbind].
  unfold np_log. cbn [flat]. rewrite decide_True by by apply Forall_selected.
  cbn [rbind amap]. unfold np_mul.
  rewrite broadcast_vector_row by (done || by rewrite length_fmap, length_selected).
  cbn [rbind shape1]. rewrite decide_False by lia.
  unfold np_sum. cbn [flat].
  rewrite sum_weighted by by rewrite length_fmap, length_selected.
  rewrite sum_selected. unfold cross_entropy. f_equal. unfold Rdiv. lra.
Qed.

End OneHotLabels.

Lemma compute_cost_run AL Y s ALv Yv cost :
  arrays s !! AL = Some ALv → arrays s !! Y = Some Yv →
  compute_cost_val ALv Yv = Ok cost →
  ∃ s', compute_cost AL Y s = Ok (cost, s') ∧ frame s s'.
Proof.
  intros HAL HY Hval. unfold compute_cost_val in Hval.
  destruct (mask_gt0 ALv Yv) as [sel|] eqn:Hsel; [|discriminate]. cbn [rbind] in Hval.
  destruct (np_log sel) as [yp|] eqn:Hlog; [|discriminate]. cbn [rbind] in Hval.
  destruct (np_mul yp Yv) as [pr|] eqn:Hmul; [|discriminate]. cbn [rbind] in Hval.
  destruct (shape1 ALv) as [m|] eqn:Hm; [|discriminate]. cbn [rbind] in Hval.
  destruct (op2_run _ _ _ _ _ _ _ HAL HY Hsel) as (l1 & s1 & H1 & Hl1 & F1).
  destruct (op1_run _ _ _ _ _ Hl1 Hlog) as (l2 & s2 & H2 & Hl2 & F2).
  destruct (op2_run np_mul l2 Y s2 _ _ _ Hl2
              (frame_array _ _ _ _ (frame_trans _ _ _ F1 F2) HY) Hmul)
    as (l3 & s3 & H3 & Hl3 & F3).
  assert (frame s s3) as F by eauto using frame_trans.
  exists s3. split; [|done]. unfold compute_cost.
  rewrite (bind_run _ _ _ _ _ H1), (bind_run _ _ _ _ _ H2), (bind_run _ _ _ _ _ H3).
  rewrite (bind_run _ _ _ _ _ (read_run _ _ _ Hl3)).
  unfold shape1_of.
  assert ((a ← read AL; lift (shape1 a)) s3 = Ok (m, s3)) as H4.
  { rewrite (bind_run _ _ _ _ _ (read_run _ _ _ (frame_array _ _ _ _ F HAL))).
    by apply lift_run. }
  rewrite (bind_run _ _ _ _ _ H4). unfold py_inv.
  case_decide; [discriminate|]. injection Hval as <-. done.
Qed.

End CostFacts.

(** ** A call against the value it should compute *)

Module Refine.
Import Np Py ANN Frame Run.

(** The call [m] in state [s] does what the pure computation [r] says: it
    returns a result related by [Q] to the value of [r], or it raises the
    exception of [r]. *)
Definition refines {A B} (m : M A) (s : state) (r : result B)
    (Q : A → state → B → Prop) : Prop :=
  match r with
  | Ok b => ∃ a s', m s = Ok (a, s') ∧ Q a s' b
  | Raise e => m s = Raise e
  end.

Lemma refines_ret {A B} (a : A) s (b : B) (Q : A → state → B → Prop) :
  Q a s b → refines (mret a) s (Ok b) Q.
Proof. intros H. by exists a, s. Qed.

Lemma refines_bind {A B A' B'} (m : M A) (k : A → M A') s (r : result B)
    (kr : B → result B') (Q : A → state → B → Prop) (Q' : A' → state → B' → Prop) :
  refines m s r Q →
  (∀ a s' b, Q a s' b → refines (k a) s' (kr b) Q') →
  refines (m ≫= k) s (rbind r kr) Q'.
Proof.
  intros Hm Hk. destruct r as [b|e]; simpl in *.
  - destruct Hm as (a & s' & Hrun & HQ). specialize (Hk a s' b HQ).
    unfold refines in *. by rewrite (bind_run _ _ _ _ _ Hrun).
  - by apply bind_raise.
Qed.

(** A step on the store alone. *)
Lemma refines_step {A A' B'} (m : M A) (k : A → M A') s a s' (r : result B')
    (Q' : A' → state → B' → Prop) :
  m s = Ok (a, s') → refines (k a) s' r Q' → refines (m ≫= k) s r Q'.
Proof. intros Hrun Hk. unfold refines in *. by rewrite (bind_run _ _ _ _ _ Hrun). Qed.

Lemma refines_conseq {A B} (m : M A) s (r : result B) (Q Q' : A → state → B → Prop) :
  refines m s r Q → (∀ a s' b, Q a s' b → Q' a s' b) → refines m s r Q'.
Proof.
  intros Hm HQ. destruct r as [b|e]; [|done].
  destruct Hm as (a & s' & Hrun & H). exists a, s'. auto.
Qed.

Lemma refines_lift {A} (r : result A) s :
  refines (lift r) s r (λ a s' b, a = b ∧ s' = s).
Proof. destruct r as [a|e]; [|done]. by exists a, s. Qed.

Lemma refines_op1 f x s a :
  arrays s !! x = Some a →
  refines (op1 f x) s (f a) (λ l s' r, arrays s' !! l = Some r ∧ frame s s').
Proof.
  intros Hx. destruct (f a) as [r|e] eqn:Hf.
  - destruct (op1_run f x s a r Hx Hf) as (l & s' & H & Hl & Hfr). by exists l, s'.
  - simpl. unfold op1. rewrite (bind_run _ _ _ _ _ (read_run _ _ _ Hx)).
    apply bind_raise. unfold lift. by rewrite Hf.
Qed.

Lemma refines_op2 f x y s a b :
  arrays s !! x = Some a → arrays s !! y = Some b →
  refines (op2 f x y) s (f a b) (λ l s' r, arrays s' !! l = Some r ∧ frame s s').
Proof.
  intros Hx Hy. destruct (f a b) as [r|e] eqn:Hf.
  - destruct (op2_run f x y s a b r Hx Hy Hf) as (l & s' & H & Hl & Hfr). by exists l, s'.
  - simpl. unfold op2. rewrite (bind_run _ _ _ _ _ (read_run _ _ _ Hx)).
    rewrite (bind_run _ _ _ _ _ (read_run _ _ _ Hy)).
    apply bind_raise. unfold lift. by rewrite Hf.
Qed.

(** From [refines] to a run, and back to the value. *)
Lemma refines_Ok {A B} (m : M A) s (b : B) Q :
  refines m s (Ok b) Q → ∃ a s', m s = Ok (a, s') ∧ Q a s' b.
Proof. done. Qed.

End Refine.

(** ** The activations: [relu] and [relu_backward] *)

Module Activations.
Import Np Py ANN Run.
Local Open Scope R_scope.

Lemma Int_part_IZR n : Int_part (IZR n) = n.
Proof.
  unfold Int_part. rewrite <- (tech_up (IZR n) (n + 1)); [lia|rewrite plus_IZR; lra..].
Qed.

Lemma Int_part_nonneg x : 0 <= x → (0 <= Int_part x)%Z.
Proof.
  intros Hx. destruct (base_Int_part x) as [_ H].
  assert (-1 < IZR (Int_part x)) as Hlt by lra.
  apply lt_IZR in Hlt. lia.
Qed.

Lemma py_trunc_IZR n : py_trunc (IZR n) = n.
Proof.
  unfold py_trunc. case_decide; [apply Int_part_IZR|].
  rewrite <- opp_IZR, Int_part_IZR. lia.
Qed.

Lemma py_trunc_nonneg x : 0 <= x → (0 <= py_trunc x)%Z.
Proof. intros Hx. unfold py_trunc. rewrite decide_True by done. by apply Int_part_nonneg. Qed.

(** [int(x)] is below the integer [n] exactly when [x] is. *)
Lemma py_trunc_lt x n : 0 <= x → (py_trunc x < n)%Z ↔ x < IZR n.
Proof.
  intros Hx. unfold py_trunc. rewrite decide_True by done.
  destruct (base_Int_part x) as [Hle Hgt]. split.
  - intros Hn. assert (Int_part x + 1 ≤ n)%Z as Hn1%IZR_le by lia.
    rewrite plus_IZR in Hn1. simpl in Hn1. lra.
  - intros Hn. apply lt_IZR. lra.
Qed.

Lemma trunc_5_2 : IZR (py_trunc (Rmax (5 / 2) 0)) = 2.
Proof.
  rewrite Rmax_left by lra. unfold py_trunc. rewrite decide_True by lra.
  f_equal. unfold Int_part. rewrite <- (tech_up (5 / 2) 3); [lia|simpl; lra..].
Qed.

Lemma trunc_neg_1 : IZR (py_trunc (Rmax (-1) 0)) = 0.
Proof. rewrite Rmax_right by lra. by rewrite py_trunc_IZR. Qed.

(** The entries that [relu] can store in an array of [int64]: those
    below [2^63]. *)
Definition relu_fits (a : ndarray) : Prop := Forall (λ x, x < IZR (2 ^ 63)) (flat a).

Lemma relu_fits_like x0 x :
  fits_like (relu_func x0) (relu_func x) ↔ 0 < x0 ∨ x < IZR (2 ^ 63).
Proof.
  assert (0 < IZR (2 ^ 63)) as H63 by (by apply IZR_lt).
  unfold relu_func, fits_like, int64.
  destruct (decide (0 < x0)) as [Hx0|Hx0]; [tauto|].
  destruct (decide (0 < x)) as [Hx|Hx].
  - pose proof (py_trunc_nonneg x) as Hnn. pose proof (py_trunc_lt x (2 ^ 63)) as Hlt.
    split.
    + intros [_ H]. right. apply Hlt; [lra|done].
    + intros [?|H]; [done|]. split; [|apply Hlt; lra].
      assert (0 ≤ py_trunc x)%Z by (apply Hnn; lra). lia.
  - split; [intros _; right; lra|]. intros _. lia.
Qed.

Lemma Forall_relu_fits_like x0 a :
  Forall (λ x, fits_like (relu_func x0) (relu_func x)) (flat a) ↔ 0 < x0 ∨ relu_fits a.
Proof.
  unfold relu_fits. rewrite !Forall_forall. split.
  - intros H. destruct (decide (0 < x0)) as [?|Hx0]; [by left|]. right.
    intros x Hx. apply H, relu_fits_like in Hx. tauto.
  - intros H x Hx. apply relu_fits_like. destruct H as [?|H]; [by left|].
    right. by apply H.
Qed.

(** What [np.vectorize(lambda x: x if x > 0 else 0)] makes of the entry
    [x] of an array whose first entry is [x0]: the positive part of [x],
    cut down to an integer when the first entry is not positive. *)
Definition relu_entry (x0 x : R) : R :=
  if decide (0 < x0) then Rmax x 0 else IZR (py_trunc (Rmax x 0)).

Lemma relu_entry_eq x0 x : cast_like (relu_func x0) (relu_func x) = relu_entry x0 x.
Proof.
  unfold relu_entry, relu_func, cast_like.
  destruct (decide (0 < x0)), (decide (0 < x)).
  - by rewrite Rmax_left by lra.
  - by rewrite Rmax_right by lra.
  - by rewrite Rmax_left by lra.
  - rewrite Rmax_right by lra. by rewrite py_trunc_IZR.
Qed.

Lemma relu_entry_nonneg x0 x : 0 <= relu_entry x0 x.
Proof.
  unfold relu_entry. case_decide; [apply Rmax_r|].
  apply IZR_le, py_trunc_nonneg, Rmax_r.
Qed.

Lemma relu_entry_le x0 x : relu_entry x0 x <= Rmax x 0.
Proof.
  unfold relu_entry. case_decide; [lra|].
  unfold py_trunc. rewrite decide_True by apply Rmax_r.
  apply (base_Int_part (Rmax x 0)).
Qed.

(** The first entry of the output is positive exactly when the first entry
    of the input is. *)
Lemma relu_entry_first x0 : 0 < relu_entry x0 x0 ↔ 0 < x0.
Proof.
  unfold relu_entry. case_decide as H; [by rewrite Rmax_left by lra|].
  rewrite Rmax_right by lra. rewrite py_trunc_IZR. simpl. lra.
Qed.

Lemma relu_entry_idem x0 x : relu_entry (relu_entry x0 x0) (relu_entry x0 x) = relu_entry x0 x.
Proof.
  pose proof (relu_entry_first x0) as Hfirst.
  pose proof (relu_entry_nonneg x0 x) as Hx.
  unfold relu_entry at 1. case_decide as H.
  - by rewrite Rmax_left.
  - rewrite Rmax_left by done.
    assert (¬ 0 < x0) as Hx0 by tauto.
    unfold relu_entry. rewrite decide_False by done. by rewrite py_trunc_IZR.
Qed.

Lemma amap_amap f g a : amap f (amap g a) = amap (f ∘ g) a.
Proof.
  destruct a as [v|c rows]; simpl; [by rewrite <- list_fmap_compose|].
  f_equal. rewrite <- list_fmap_compose. apply list_fmap_ext. intros _ r _. simpl.
  by rewrite <- list_fmap_compose.
Qed.

Lemma amap_ext f g a : (∀ x, f x = g x) → amap f a = amap g a.
Proof.
  intros H. destruct a as [v|c rows]; simpl; f_equal.
  - by apply list_fmap_ext.
  - apply list_fmap_ext. intros _ r _. by apply list_fmap_ext.
Qed.

Lemma flat_amap f a : flat (amap f a) = f <$> flat a.
Proof.
  destruct a as [v|c rows]; cbn [flat amap]; [done|].
  induction rows as [|r rows IH]; [done|].
  cbn [fmap list_fmap concat] in *. by rewrite fmap_app, IH.
Qed.

Lemma np_vectorize_relu a x0 rest :
  flat a = x0 :: rest → 0 < x0 ∨ relu_fits a →
  np_vectorize relu_func a = Ok (amap (relu_entry x0) a).
Proof.
  intros H Hfits. unfold np_vectorize. rewrite H.
  rewrite decide_True by (rewrite <- H; by apply Forall_relu_fits_like).
  f_equal. apply amap_ext, relu_entry_eq.
Qed.

Lemma np_vectorize_relu_overflow a x0 rest :
  flat a = x0 :: rest → ¬ 0 < x0 → ¬ relu_fits a →
  np_vectorize relu_func a = Raise OverflowError.
Proof.
  intros H Hx0 Hfits. unfold np_vectorize. rewrite H.
  rewrite decide_False; [done|]. rewrite <- H. intros Hf%Forall_relu_fits_like. tauto.
Qed.

(** With a positive first entry, [relu] is the positive part. *)
Lemma np_vectorize_relu_float a x0 rest :
  flat a = x0 :: rest → 0 < x0 →
  np_vectorize relu_func a = Ok (amap (λ x, Rmax x 0) a).
Proof.
  intros H Hx0. rewrite (np_vectorize_relu a x0 rest H) by by left.
  f_equal. apply amap_ext. intros x. unfold relu_entry. by rewrite decide_True.
Qed.

(** [np.vectorize(lambda x: 1 if x > 0 else 0)]: both values are ints. *)
Lemma np_vectorize_d_relu a :
  flat a ≠ [] → np_vectorize d_relu a = Ok (amap (λ x, if decide (0 < x) then 1 else 0) a).
Proof.
  intros H. unfold np_vectorize. destruct (flat a) as [|x0 rest]; [done|].
  rewrite decide_True.
  - f_equal. apply amap_ext. intros x. unfold d_relu, cast_like.
    by destruct (decide (0 < x0)), (decide (0 < x)).
  - apply Forall_forall. intros x _. unfold d_relu, fits_like, int64.
    destruct (decide (0 < x0)), (decide (0 < x)); lia.
Qed.

Lemma zip_with_mask (gs zs : list R) :
  zip_with Rmult gs ((λ x, if decide (0 < x) then 1 else 0) <$> zs)
  = zip_with (λ g z, if decide (0 < z) then g else 0) gs zs.
Proof.
  revert zs. induction gs as [|g gs IH]; intros [|z zs]; simpl; [done..|].
  rewrite IH. f_equal. case_decide; lra.
Qed.

Lemma zip_with_rows_mask (rowsD rowsZ : list (list R)) :
  zip_with (zip_with Rmult) rowsD
    (fmap (M:=list) (fmap (M:=list) (λ x, if decide (0 < x) then 1 else 0)) rowsZ)
  = zip_with (zip_with (λ g z, if decide (0 < z) then g else 0)) rowsD rowsZ.
Proof.
  revert rowsZ. induction rowsD as [|g gs IH]; intros [|z zs]; simpl; [done..|].
  by rewrite IH, zip_with_mask.
Qed.

Lemma op1_raise f x s a e : arrays s !! x = Some a → f a = Raise e → op1 f x s = Raise e.
Proof.
  intros Hx Hf. unfold op1. rewrite (bind_run _ _ _ _ _ (read_run _ _ _ Hx)).
  apply bind_raise. unfold lift. by rewrite Hf.
Qed.

Lemma op2_raise f x y s a b e :
  arrays s !! x = Some a → arrays s !! y = Some b → f a b = Raise e →
  op2 f x y s = Raise e.
Proof.
  intros Hx Hy Hf. unfold op2. rewrite (bind_run _ _ _ _ _ (read_run _ _ _ Hx)).
  rewrite (bind_run _ _ _ _ _ (read_run _ _ _ Hy)).
  apply bind_raise. unfold lift. by rewrite Hf.
Qed.

Lemma dict_get_missing d k s m :
  dicts s !! d = Some m → m !! k = None → dict_get d k s = Raise (KeyError k).
Proof. intros Hd Hk. unfold dict_get. by rewrite Hd, Hk. Qed.

End Activations.

(** ** Forward propagation as a chain of layer units *)

Module Forward.
Import Np Py ANN Frame Run Refine SoftmaxFacts.

(** The arrays a layer cache holds. *)
Record cache_val : Type := mkCache {
  cache_A : ndarray;
  cache_W : ndarray;
  cache_b : ndarray;
  cache_Z : ndarray
}.

(** The values [linear_forward], [relu] and [linear_activation_forward]
    compute, in the order of the source. *)
Definition linear_val (A W b : ndarray) : result ndarray :=
  rbind (np_dot W A) (λ WA, np_add WA b).

Definition relu_val (Z : ndarray) : result (ndarray * ndarray) :=
  rbind (np_vectorize relu_func Z) (λ A, Ok (A, Z)).

Definition layer_unit (activation : string) (A_prev W b : ndarray)
  : result (ndarray * cache_val) :=
  rbind (linear_val A_prev W b) (λ Z,
  rbind (if decide (activation = "relu") then relu_val Z else softmax_val Z) (λ p,
  Ok (p.1, mkCache A_prev W b p.2))).

(** The values the forward engine computes: the unit of [relu] on the
    layers 1 to L-1 in order, here the list [hidden] of their weights and
    biases, then the unit of [softmax] on layer L, here [out]; the result
    is the last activation and the caches of the layers, first to last. *)
Fixpoint hidden_layers (A : ndarray) (hidden : list (ndarray * ndarray))
  : result (ndarray * list cache_val) :=
  match hidden with
  | [] => Ok (A, [])
  | (W, b) :: rest =>
      rbind (layer_unit "relu" A W b) (λ p,
      rbind (hidden_layers p.1 rest) (λ q, Ok (q.1, p.2 :: q.2)))
  end.

Definition forward_all (X : ndarray) (hidden : list (ndarray * ndarray))
    (out : ndarray * ndarray) : result (ndarray * list cache_val) :=
  rbind (hidden_layers X hidden) (λ p,
  rbind (layer_unit "softmax" p.1 out.1 out.2) (λ q, Ok (q.1, p.2 ++ [q.2]))).

(** The dict [c] of the store is the cache [cv]. *)
Definition holds_cache (s : state) (c : loc) (cv : cache_val) : Prop :=
  ∃ d lA lW lb lZ,
    dicts s !! c = Some d ∧
    d !! "A" = Some lA ∧ d !! "W" = Some lW ∧ d !! "b" = Some lb ∧ d !! "Z" = Some lZ ∧
    arrays s !! lA = Some (cache_A cv) ∧ arrays s !! lW = Some (cache_W cv) ∧
    arrays s !! lb = Some (cache_b cv) ∧ arrays s !! lZ = Some (cache_Z cv).

(** The dict [pd] holds the weights and biases [layers] under the keys
    [w k], [b k], [w (k+1)], [b (k+1)], ... *)
Fixpoint has_layers (s : state) (pd : gmap string loc) (k : Z)
    (layers : list (ndarray * ndarray)) : Prop :=
  match layers with
  | [] => True
  | (W, b) :: rest =>
      (∃ lw lb, pd !! fmt "w" k = Some lw ∧ pd !! fmt "b" k = Some lb ∧
                arrays s !! lw = Some W ∧ arrays s !! lb = Some b) ∧
      has_layers s pd (k + 1) rest
  end.

Lemma holds_cache_frame s s' c cv : frame s s' → holds_cache s c cv → holds_cache s' c cv.
Proof.
  intros F (d & lA & lW & lb & lZ & Hd & ? & ? & ? & ? & ? & ? & ? & ?).
  exists d, lA, lW, lb, lZ. eauto 15 using frame_array, frame_dict.
Qed.

Lemma has_layers_frame s s' pd k layers :
  frame s s' → has_layers s pd k layers → has_layers s' pd k layers.
Proof.
  intros F. revert k. induction layers as [|[W b] rest IH]; intros k; simpl; [done|].
  intros [(lw & lb & ? & ? & ? & ?) Hrest]. split; [|by apply IH].
  exists lw, lb. split_and!; eauto using frame_array.
Qed.

Lemma has_layers_app s pd k l1 l2 :
  has_layers s pd k (l1 ++ l2) →
  has_layers s pd k l1 ∧ has_layers s pd (k + Z.of_nat (length l1)) l2.
Proof.
  revert k. induction l1 as [|[W b] l1 IH]; intros k; simpl.
  - intros H. split; [done|]. by replace (k + Z.of_nat 0)%Z with k by lia.
  - intros [Hhd Hrest]. apply IH in Hrest as [H1 H2]. split; [done|].
    by replace (k + Z.of_nat (S (length l1)))%Z
      with (k + 1 + Z.of_nat (length l1))%Z by lia.
Qed.

Lemma refines_bind_last {A B A' } (m : M A) (k : A → M A') s (r : result B)
    (Q : A → state → B → Prop) (Q' : A' → state → B → Prop) :
  refines m s r Q →
  (∀ a s' b, Q a s' b → refines (k a) s' (Ok b) Q') →
  refines (m ≫= k) s r Q'.
Proof.
  intros Hm Hk. replace r with (rbind r Ok) by by destruct r.
  by eapply refines_bind.
Qed.

Lemma refines_map {A B B'} (m : M A) s (r : result B) (g : B → B')
    (Q : A → state → B → Prop) (Q' : A → state → B' → Prop) :
  refines m s r Q →
  (∀ a s' b, Q a s' b → Q' a s' (g b)) →
  refines m s (rbind r (λ b, Ok (g b))) Q'.
Proof.
  intros Hm HQ. destruct r as [b|e]; [|done].
  destruct Hm as (a & s' & Hrun & H). exists a, s'. auto.
Qed.

Lemma softmax_refines Z s Zv :
  arrays s !! Z = Some Zv →
  refines (softmax Z) s (softmax_val Zv)
    (λ p s' q, arrays s' !! p.1 = Some q.1 ∧ arrays s' !! p.2 = Some q.2 ∧ frame s s').
Proof.
  intros HZ. unfold softmax, softmax_val.
  eapply refines_bind; [by apply refines_op1|]. intros mx s1 mxv [Hmx F1].
  eapply refines_bind; [apply refines_op2; eauto using frame_array|].
  intros Zs s2 Zsv [HZs F2].
  destruct (total1_run np_exp Zs s2 _ HZs) as (e & s3 & H3 & He & F3).
  eapply refines_step; [done|].
  eapply refines_bind; [by apply refines_op1|]. intros sm s4 smv [Hsm F4].
  eapply refines_bind; [apply refines_op2; eauto using frame_array|].
  intros A s5 Av [HA F5].
  apply refines_ret. simpl. split; [done|]. split; [|eauto 10 using frame_trans].
  eapply frame_array; [|done]. eauto using frame_trans.
Qed.

Lemma relu_refines Z s Zv :
  arrays s !! Z = Some Zv →
  refines (relu Z) s (relu_val Zv)
    (λ p s' q, arrays s' !! p.1 = Some q.1 ∧ arrays s' !! p.2 = Some q.2 ∧ frame s s').
Proof.
  intros HZ. unfold relu, relu_val.
  eapply refines_bind; [by apply refines_op1|]. intros A s1 Av [HA F1].
  apply refines_ret. simpl. eauto using frame_array.
Qed.

Lemma linear_forward_refines A W b s Av Wv bv :
  arrays s !! A = Some Av → arrays s !! W = Some Wv → arrays s !! b = Some bv →
  refines (linear_forward A W b) s (linear_val Av Wv bv)
    (λ p s' Zv, arrays s' !! p.1 = Some Zv ∧ frame s s' ∧ dicts s !! p.2 = None ∧
                dicts s' !! p.2 = Some (<["A" := A]> (<["W" := W]> (<["b" := b]> ∅)))).
Proof.
  intros HA HW Hb. unfold linear_forward, linear_val.
  eapply refines_bind; [by apply refines_op2|]. intros WA s1 WAv [HWA F1].
  eapply refines_bind_last; [apply refines_op2; eauto using frame_array|].
  intros Z s2 Zv [HZ F2].
  destruct (new_dict_run (<["A" := A]> (<["W" := W]> (<["b" := b]> ∅))) s2)
    as (lc & s3 & H3 & Hlc & Hfresh & F3).
  eapply refines_step; [done|]. apply refines_ret. simpl.
  split; [eauto using frame_array|]. split; [eauto using frame_trans|].
  split; [|done]. eapply frame_dict_None; [|done]. eauto using frame_trans.
Qed.

Lemma linear_activation_forward_refines A_prev W B act s Av Wv bv :
  arrays s !! A_prev = Some Av → arrays s !! W = Some Wv → arrays s !! B = Some bv →
  refines (linear_activation_forward A_prev W B act) s (layer_unit act Av Wv bv)
    (λ p s' q, arrays s' !! p.1 = Some q.1 ∧ holds_cache s' p.2 q.2 ∧ frame s s' ∧
               dicts s !! p.2 = None).
Proof.
  intros HA HW Hb. unfold linear_activation_forward, layer_unit.
  eapply refines_bind; [by apply linear_forward_refines|].
  intros [Z lc] s1 Zv (HZ & F1 & Hfresh & Hlc). cbn [fst snd] in *.
  eapply refines_bind.
  { instantiate (1 := λ p s' q, arrays s' !! p.1 = Some q.1 ∧
                                arrays s' !! p.2 = Some q.2 ∧ frame s1 s').
    case_decide; [by apply relu_refines | by apply softmax_refines]. }
  intros [A ac] s2 [Av' Zc] (HA' & Hac & F2). cbn [fst snd] in *.
  destruct (dict_set_run s s2 lc "Z" ac _ (frame_trans _ _ _ F1 F2) Hfresh
              (frame_dict _ _ _ _ F2 Hlc)) as (s3 & H3 & Hd3 & Ha3 & F3).
  eapply refines_step; [done|]. apply refines_ret. simpl.
  rewrite Ha3. split; [done|]. split; [|done].
  eexists _, A_prev, W, B, ac. split; [done|]. rewrite Ha3. simpl.
  assert (frame s s2) as F by eauto using frame_trans.
  split_and!; eauto using frame_array.
Qed.

Lemma forward_layer_refines parameters pd k s A_prev Av W b cache0 :
  dicts s !! parameters = Some pd → has_layers s pd k [(W, b)] →
  arrays s !! A_prev = Some Av →
  refines (forward_layer parameters k (A_prev, cache0)) s (layer_unit "relu" Av W b)
    (λ p s' q, arrays s' !! p.1 = Some q.1 ∧
               (∃ c, p.2 = cache0 ++ [c] ∧ holds_cache s' c q.2 ∧ dicts s !! c = None) ∧
               frame s s').
Proof.
  intros Hpd [(lw & lb & Hw & Hb & HW & HB) _] HA. unfold forward_layer.
  eapply refines_step; [by eapply dict_get_run|].
  eapply refines_step; [by eapply dict_get_run|].
  eapply refines_bind_last; [by apply linear_activation_forward_refines|].
  intros [A c] s1 [Av' cv] (HA' & Hc & F1 & Hfresh). cbn [fst snd] in *.
  apply refines_ret. cbn [fst snd]. split; [done|]. split; [|done]. by exists c.
Qed.

(** The loop over the hidden layers runs the chain [hidden_layers]. *)
Lemma hidden_layers_refines parameters pd layers k s A_prev Av cache0 :
  dicts s !! parameters = Some pd → has_layers s pd k layers →
  arrays s !! A_prev = Some Av →
  refines (for_in (seqZ k (Z.of_nat (length layers))) (forward_layer parameters)
                  (A_prev, cache0)) s
          (hidden_layers Av layers)
          (λ p s' q, arrays s' !! p.1 = Some q.1 ∧
                     (∃ new, p.2 = cache0 ++ new ∧ Forall2 (holds_cache s') new q.2 ∧
                             length new = length layers ∧
                             Forall (λ c, dicts s !! c = None) new) ∧
                     frame s s').
Proof.
  revert k s A_prev Av cache0.
  induction layers as [|[W b] rest IH]; intros k s A_prev Av cache0 Hpd Hl HA.
  - cbn [length hidden_layers]. change (seqZ k (Z.of_nat 0)) with (@nil Z). cbn [for_in].
    apply refines_ret. simpl. split; [done|]. split; [|apply frame_refl].
    exists []. by rewrite app_nil_r.
  - destruct Hl as [Hhd Hrest].
    rewrite seqZ_cons by (simpl; lia).
    replace (Z.pred (Z.of_nat (length ((W, b) :: rest)))) with
      (Z.of_nat (length rest)) by (simpl; lia).
    cbn [for_in hidden_layers].
    eapply refines_bind; [by eapply (forward_layer_refines _ pd)|].
    intros [A caches1] s1 [Av' cv] (HA' & Hex & F1).
    cbn [fst snd] in *. destruct Hex as (c & -> & Hc & Hfresh).
    eapply (refines_map _ _ _ (λ q, (q.1, cv :: q.2))).
    { apply IH; [by eapply frame_dict| |done].
      eapply has_layers_frame; [done|].
      by replace (Z.succ k) with (k + 1)%Z by lia. }
    intros [AL caches] s2 [ALv cvs] (HAL & Hex & F2).
    cbn [fst snd] in *. destruct Hex as (new & -> & Hnew & Hlen & Hfr).
    split; [done|]. split; [|eauto using frame_trans].
    exists (c :: new). split; [by rewrite <- app_assoc|]. split_and!.
    + constructor; [by eapply holds_cache_frame|done].
    + simpl. lia.
    + constructor; [done|]. eapply Forall_impl; [done|].
      intros d Hd. by eapply frame_dict_None.
Qed.

(** [L_model_forward] runs the chain [forward_all] on the layers the dict
    of the parameters holds. *)
Lemma L_model_forward_refines X parameters use_batchnorm s pd Xv hidden out :
  self_n_layers s = Some (Z.of_nat (S (length hidden))) →
  dicts s !! parameters = Some pd → has_layers s pd 1 (hidden ++ [out]) →
  arrays s !! X = Some Xv →
  refines (L_model_forward X parameters use_batchnorm) s (forward_all Xv hidden out)
    (λ p s' q, arrays s' !! p.1 = Some q.1 ∧ Forall2 (holds_cache s') p.2 q.2 ∧
               length p.2 = S (length hidden) ∧ frame s s').
Proof.
  intros Hn Hpd Hl HX. apply has_layers_app in Hl as [Hhid Hout].
  destruct out as [W b]. destruct Hout as [(lw & lb & Hw & Hb & HW & HB) _].
  replace (1 + Z.of_nat (length hidden))%Z with (Z.of_nat (S (length hidden))) in Hw, Hb
    by lia.
  unfold L_model_forward, forward_all.
  eapply refines_step; [by apply get_n_layers_run|].
  replace (Z.of_nat (S (length hidden)) - 1)%Z with (Z.of_nat (length hidden)) by lia.
  eapply refines_bind; [by eapply (hidden_layers_refines _ pd)|].
  intros [A caches] s1 [Av cvs] (HA & Hex & F1).
  cbn [fst snd] in *. destruct Hex as (new & Hc & Hnew & Hlen & _).
  rewrite app_nil_l in Hc. subst caches.
  assert (self_n_layers s1 = Some (Z.of_nat (S (length hidden)))) as Hn1.
  { by rewrite (frame_n_layers _ _ F1). }
  eapply refines_step; [by apply get_n_layers_run|].
  eapply refines_step; [eapply dict_get_run; [by eapply frame_dict|done]|].
  eapply refines_step; [by apply get_n_layers_run|].
  eapply refines_step; [eapply dict_get_run; [by eapply frame_dict|done]|].
  eapply refines_bind;
    [apply linear_activation_forward_refines; eauto using frame_array|].
  intros [AL c] s2 [ALv cv] (HAL & Hcv & F2 & _). cbn [fst snd] in *.
  apply refines_ret. cbn [fst snd]. split; [done|].
  split; [|split; [|eauto using frame_trans]].
  - apply Forall2_app; [|by constructor].
    eapply Forall2_impl; [done|]. intros ??. by apply holds_cache_frame.
  - rewrite length_app. simpl. lia.
Qed.

End Forward.

(** ** The forward engine as the specification words it *)

Module SpecForward.
Import Np Py ANN SoftmaxFacts Forward Activations.
Local Open Scope R_scope.

(** "Activation relu: [A = max(Z, 0)] elementwise; cache stores [Z] for
    backward." *)
Definition spec_relu (Z : ndarray) : result (ndarray * ndarray) :=
  Ok (amap (λ x, Rmax x 0) Z, Z).

(** The layer unit of the specification: the linear transform, then the
    activation.  The softmax activation is taken as [softmax] computes
    it. *)
Definition spec_layer_unit (activation : string) (A_prev W b : ndarray)
  : result (ndarray * cache_val) :=
  rbind (linear_val A_prev W b) (λ Z,
  rbind (if decide (activation = "relu") then spec_relu Z else softmax_val Z) (λ p,
  Ok (p.1, mkCache A_prev W b p.2))).

(** "Applies ReLU to every layer [1..L-1] in order, softmax to layer [L].
    Returns the final activation and the ordered list of per-layer
    caches." *)
Fixpoint spec_hidden_layers (A : ndarray) (hidden : list (ndarray * ndarray))
  : result (ndarray * list cache_val) :=
  match hidden with
  | [] => Ok (A, [])
  | (W, b) :: rest =>
      rbind (spec_layer_unit "relu" A W b) (λ p,
      rbind (spec_hidden_layers p.1 rest) (λ q, Ok (q.1, p.2 :: q.2)))
  end.

Definition spec_forward_all (X : ndarray) (hidden : list (ndarray * ndarray))
    (out : ndarray * ndarray) : result (ndarray * list cache_val) :=
  rbind (spec_hidden_layers X hidden) (λ p,
  rbind (spec_layer_unit "softmax" p.1 out.1 out.2) (λ q, Ok (q.1, p.2 ++ [q.2]))).

(** The first entry of [Z] is positive: [np.vectorize] then makes the
    output of [relu] an array of floats. *)
Definition first_positive (Z : ndarray) : Prop :=
  match flat Z with
  | x0 :: _ => 0 < x0
  | [] => False
  end.

(** In every hidden layer, the first entry of the linear transform is
    positive. *)
Fixpoint hidden_first_positive (A : ndarray) (hidden : list (ndarray * ndarray)) : Prop :=
  match hidden with
  | [] => True
  | (W, b) :: rest =>
      ∃ Z, linear_val A W b = Ok Z ∧ first_positive Z ∧
           hidden_first_positive (amap (λ x, Rmax x 0) Z) rest
  end.

Lemma relu_val_first_positive Z :
  first_positive Z → relu_val Z = spec_relu Z.
Proof.
  unfold first_positive, relu_val, spec_relu. intros H.
  destruct (flat Z) as [|x0 rest] eqn:Hflat; [done|].
  by rewrite (np_vectorize_relu_float Z x0 rest).
Qed.

Lemma hidden_layers_spec A hidden :
  hidden_first_positive A hidden → hidden_layers A hidden = spec_hidden_layers A hidden.
Proof.
  revert A. induction hidden as [|[W b] rest IH]; intros A H; [done|].
  destruct H as (Z & HZ & Hpos & Hrest). cbn [hidden_layers spec_hidden_layers].
  unfold layer_unit, spec_layer_unit. rewrite HZ. cbn [rbind].
  rewrite !decide_True by done. rewrite (relu_val_first_positive Z Hpos).
  unfold spec_relu. cbn [rbind fst snd]. by rewrite IH.
Qed.

Lemma spec_softmax_unit A W b :
  spec_layer_unit "softmax" A W b = layer_unit "softmax" A W b.
Proof. reflexivity. Qed.

Lemma forward_all_spec X hidden out :
  hidden_first_positive X hidden → forward_all X hidden out = spec_forward_all X hidden out.
Proof.
  intros H. unfold forward_all, spec_forward_all. rewrite (hidden_layers_spec X hidden H).
  destruct (spec_hidden_layers X hidden) as [p|e]; [|done]. cbn [rbind].
  unfold layer_unit, spec_layer_unit. destruct (linear_val _ _ _); [|done].
  cbn [rbind]. by rewrite !decide_False by done.
Qed.

End SpecForward.

(** ** Shapes: when forward propagation returns *)

Module Shapes.
Import Np Py ANN RList SoftmaxFacts Forward Activations SpecForward.
Local Open Scope R_scope.

(** [a] is a matrix of [r] rows and [c] columns. *)
Definition has_shape (a : ndarray) (r c : nat) : Prop :=
  ∃ rows, a = Arr2 c rows ∧ length rows = r ∧ rect c rows.

(** A matrix of softmax activations: every entry is in [0, 1] and every
    column sums to 1. *)
Definition softmax_output (a : ndarray) : Prop :=
  ∃ c rows, a = Arr2 c rows ∧ rect c rows ∧
            Forall (Forall (λ x, 0 <= x <= 1)) rows ∧
            np_sum_axis0 a = Ok (Arr1 (replicate c 1)).

Lemma length_columns c rows : length (columns c rows) = c.
Proof. unfold columns. by rewrite length_fmap, length_seq. Qed.

Lemma np_dot_shape W A r k m :
  has_shape W r k → has_shape A k m → ∃ q, np_dot W A = Ok q ∧ has_shape q r m.
Proof.
  intros (rw & -> & Hr & Hw) (ra & -> & Hk & Ha). simpl.
  rewrite decide_True by done. eexists. split; [done|].
  eexists. split; [done|]. split; [by rewrite length_fmap|].
  apply Forall_fmap, Forall_forall. intros x _. simpl.
  by rewrite length_fmap, length_columns.
Qed.

Lemma np_add_bias_shape q b r m :
  has_shape q r m → has_shape b r 1 → ∃ Z, np_add q b = Ok Z ∧ has_shape Z r m.
Proof.
  intros (rq & -> & Hr & Hq) (rb & -> & Hrb & Hb).
  unfold np_add, broadcast. cbn [as_rows rank1 andb].
  rewrite Hr, Hrb, bdim_same, bdim_1_r.
  eexists. split; [done|]. eexists. split; [done|].
  rewrite !stretch_same by done. split.
  - rewrite length_zip_with. lia.
  - apply Forall_lookup. intros i x Hx.
    apply lookup_zip_with_Some in Hx as (u & v & -> & Hu & Hv).
    eapply Forall_lookup_1 in Hq; [|done]. eapply Forall_lookup_1 in Hb; [|done].
    simpl in Hq, Hb. rewrite (stretch_same _ u) by done.
    destruct v as [|y [|??]]; simplify_eq/=.
    rewrite length_zip_with, length_replicate. lia.
Qed.

Lemma linear_val_shape A W b r k m :
  has_shape A k m → has_shape W r k → has_shape b r 1 →
  ∃ Z, linear_val A W b = Ok Z ∧ has_shape Z r m.
Proof.
  intros HA HW Hb. unfold linear_val.
  destruct (np_dot_shape W A r k m HW HA) as (q & -> & Hq). simpl.
  by apply np_add_bias_shape.
Qed.

Lemma amap_shape f Z r m : has_shape Z r m → has_shape (amap f Z) r m.
Proof.
  intros (rows & -> & Hr & Hrect). eexists. split; [done|].
  split; [by rewrite length_fmap|].
  apply Forall_fmap. eapply Forall_impl; [done|]. intros y Hy. simpl.
  by rewrite length_fmap.
Qed.

Lemma softmax_val_shape Z r m :
  has_shape Z r m → (0 < r)%nat →
  ∃ A Zs, softmax_val Z = Ok (A, Zs) ∧ has_shape A r m ∧ has_shape Zs r m ∧
          softmax_output A.
Proof.
  intros (rows & -> & Hr & Hrect) Hpos.
  destruct rows as [|r0 rest]; [simpl in Hr; lia|].
  rewrite (softmax_val_eq m) by done. cbv zeta.
  destruct (softmax_val_normalised m r0 rest Hrect) as (HA & Hlen & Hsum & Hent).
  pose proof (length_colmax m r0 rest Hrect) as Hmx.
  eexists _, _. split; [done|]. split_and!.
  - eexists. split; [done|]. split; [by rewrite Hlen|done].
  - eexists. split; [done|]. split; [|by apply rect_shifted].
    unfold shifted. by rewrite length_fmap.
  - eexists _, _. split; [done|]. split; [done|]. split; [done|].
    cbn [np_sum_axis0]. by rewrite Hsum.
Qed.

(** The unit of [softmax] on layers that fit. *)
Lemma layer_unit_shape act A W b r k m :
  has_shape A k m → has_shape W r k → has_shape b r 1 → (0 < r)%nat → (0 < m)%nat →
  act ≠ "relu" →
  ∃ A' cv, layer_unit act A W b = Ok (A', cv) ∧ has_shape A' r m ∧
           cache_A cv = A ∧ cache_W cv = W ∧ cache_b cv = b ∧ has_shape (cache_Z cv) r m ∧
           softmax_output A'.
Proof.
  intros HA HW Hb Hr Hm Hact. unfold layer_unit.
  destruct (linear_val_shape A W b r k m HA HW Hb) as (Z & -> & HZ). cbn [rbind].
  rewrite decide_False by done.
  destruct (softmax_val_shape Z r m HZ Hr) as (A' & Zs & -> & HA' & HZs & Hout).
  cbn [rbind fst snd]. eexists _, _. split; [done|]. by split_and!.
Qed.

(** The unit of [relu] on a layer that fits, when the first entry of the
    linear transform is positive. *)
Lemma relu_unit_shape A W b Z r k m :
  has_shape A k m → has_shape W r k → has_shape b r 1 →
  linear_val A W b = Ok Z → first_positive Z →
  layer_unit "relu" A W b = Ok (amap (λ x, Rmax x 0) Z, mkCache A W b Z) ∧
  has_shape (amap (λ x, Rmax x 0) Z) r m.
Proof.
  intros HA HW Hb HZ Hpos. unfold layer_unit. rewrite HZ. cbn [rbind].
  rewrite decide_True by done. rewrite (relu_val_first_positive Z Hpos).
  split; [done|]. apply amap_shape.
  destruct (linear_val_shape A W b r k m HA HW Hb) as (Z' & HZ' & Hs). congruence.
Qed.

(** The layers [layers] take an input of [d] rows, and layer by layer
    give the numbers of rows [dims], none of them 0. *)
Fixpoint layers_shaped (d : nat) (layers : list (ndarray * ndarray))
    (dims : list nat) : Prop :=
  match layers, dims with
  | [], [] => True
  | (W, b) :: layers', d' :: dims' =>
      (0 < d')%nat ∧ has_shape W d' d ∧ has_shape b d' 1 ∧ layers_shaped d' layers' dims'
  | _, _ => False
  end.

Lemma layers_shaped_app d l1 l2 dims :
  layers_shaped d (l1 ++ l2) dims →
  ∃ dims1 dims2, dims = dims1 ++ dims2 ∧ layers_shaped d l1 dims1 ∧
                 layers_shaped (default d (last dims1)) l2 dims2.
Proof.
  revert d dims. induction l1 as [|[W b] l1 IH]; intros d dims H.
  - by exists [], dims.
  - destruct dims as [|d' dims]; [done|]. destruct H as (Hd & HW & Hb & H).
    apply IH in H as (dims1 & dims2 & -> & H1 & H2).
    exists (d' :: dims1), dims2. split; [done|]. split; [done|].
    rewrite last_cons. by destruct (last dims1).
Qed.

Lemma hidden_layers_shape layers dims d X m :
  layers_shaped d layers dims → has_shape X d m → hidden_first_positive X layers →
  ∃ A cs, hidden_layers X layers = Ok (A, cs) ∧ length cs = length layers ∧
          has_shape A (default d (last dims)) m.
Proof.
  revert dims d X. induction layers as [|[W b] layers IH]; intros [|d' dims] d X H HX Hfp;
    try done.
  - by exists X, [].
  - destruct H as (Hd & HW & Hb & H). destruct Hfp as (Z & HZ & Hpos & Hfp).
    cbn [hidden_layers].
    destruct (relu_unit_shape X W b Z d' d m HX HW Hb HZ Hpos) as [-> HA'].
    cbn [rbind fst snd].
    destruct (IH dims d' _ H HA' Hfp) as (A & cs & -> & Hlen & HA). cbn [rbind fst snd].
    eexists _, _. split; [done|]. split; [simpl; by rewrite Hlen|].
    rewrite last_cons. by destruct (last dims).
Qed.

(** A network whose layers fit, on a batch that is not empty, the first
    entry of the linear transform of every hidden layer being positive:
    forward propagation returns softmax activations, one row for every
    class. *)
Lemma forward_all_shape hidden out dims d X m :
  layers_shaped d (hidden ++ [out]) dims → has_shape X d m → (0 < m)%nat →
  hidden_first_positive X hidden →
  ∃ AL cs, forward_all X hidden out = Ok (AL, cs) ∧
           has_shape AL (default d (last dims)) m ∧ (0 < default d (last dims))%nat ∧
           softmax_output AL.
Proof.
  intros H HX Hm Hfp. apply layers_shaped_app in H as (dims1 & dims2 & -> & H1 & H2).
  destruct out as [W b]. destruct dims2 as [|dL [|??]]; try done.
  2:{ by destruct H2 as (_ & _ & _ & ?). }
  destruct H2 as (HdL & HW & Hb & _).
  destruct (hidden_layers_shape hidden dims1 d X m H1 HX Hfp) as (A & cs & HA & _ & HAs).
  unfold forward_all. rewrite HA. cbn [rbind fst snd].
  destruct (layer_unit_shape "softmax" A W b dL _ m HAs HW Hb HdL Hm)
    as (AL & cv & -> & HAL & _ & _ & _ & _ & Hout); [done|]. cbn [rbind fst snd].
  rewrite last_snoc. simpl. eexists _, _. by split_and!.
Qed.

End Shapes.

(** ** A network whose layers fit: forward propagation and [predict] *)

Module Network.
Import Np Py ANN RList Frame Run Refine SoftmaxFacts Forward Shapes.
Local Open Scope R_scope.

(** The dict [parameters] holds the weights and biases of a network with
    [d] inputs and layers of [dims] units, and [self.n_layers] is the
    number of its layers. *)
Definition net_ok (s : state) (parameters : loc) (d : nat) (dims : list nat) : Prop :=
  ∃ pd hidden out,
    self_n_layers s = Some (Z.of_nat (S (length hidden))) ∧
    dicts s !! parameters = Some pd ∧
    has_layers s pd 1 (hidden ++ [out]) ∧
    layers_shaped d (hidden ++ [out]) dims.

Lemma net_ok_frame s s' parameters d dims :
  frame s s' → net_ok s parameters d dims → net_ok s' parameters d dims.
Proof.
  intros F (pd & hidden & out & Hn & Hpd & Hl & Hs).
  exists pd, hidden, out. split_and!; [|by eapply frame_dict|by eapply has_layers_frame|done].
  by rewrite (frame_n_layers _ _ F).
Qed.

(** A network of one layer, which has no [relu] unit. *)
Lemma forward_run X parameters use_batchnorm s d dims Xv m :
  net_ok s parameters d dims → length dims = 1%nat →
  arrays s !! X = Some Xv → has_shape Xv d m → (0 < m)%nat →
  ∃ AL caches s' ALv,
    L_model_forward X parameters use_batchnorm s = Ok ((AL, caches), s') ∧
    arrays s' !! AL = Some ALv ∧ has_shape ALv (default d (last dims)) m ∧
    (0 < default d (last dims))%nat ∧ softmax_output ALv ∧ frame s s'.
Proof.
  intros (pd & hidden & out & Hn & Hpd & Hl & Hs) Hone HX HXs Hm.
  assert (hidden = []) as ->.
  { destruct hidden as [|[W b] hidden]; [done|]. destruct dims as [|d1 [|d2 dims]]; try done.
    destruct Hs as (_ & _ & _ & Hs). destruct out. by destruct hidden as [|[??] ?]. }
  destruct (forward_all_shape [] out dims d Xv m Hs HXs Hm I)
    as (ALv & cvs & Hval & HAL & Hd & Hout).
  pose proof (L_model_forward_refines X parameters use_batchnorm s pd Xv [] out
                Hn Hpd Hl HX) as Href.
  rewrite Hval in Href. destruct Href as ([AL caches] & s' & Hrun & H1 & _ & _ & F).
  by exists AL, caches, s', ALv.
Qed.

Lemma argmax_one_row c x : argmax <$> columns c [x] = replicate c 0%nat.
Proof.
  unfold columns. rewrite <- list_fmap_compose.
  rewrite <- (length_seq c 0) at 2. generalize (seq 0 c). intros l.
  induction l as [|j l IH]; [done|]. cbn [fmap list_fmap length replicate].
  f_equal. apply IH.
Qed.

Lemma length_argmax c rows : length (argmax <$> columns c rows) = c.
Proof. by rewrite length_fmap, length_columns. Qed.

Lemma count_equal_same_length y a :
  length y = length a →
  ∃ hits, count_equal y a = Ok hits ∧ (hits <= length y)%nat.
Proof.
  intros Hlen. unfold count_equal. rewrite Hlen, bdim_same.
  rewrite !stretch_same by done. eexists. split; [done|].
  etrans; [apply length_filter|]. rewrite length_zip. lia.
Qed.

Lemma count_equal_zeros c :
  count_equal (replicate c 0%nat) (replicate c 0%nat) = Ok c.
Proof.
  unfold count_equal. rewrite !length_replicate, bdim_same.
  rewrite !stretch_same by by rewrite length_replicate. f_equal.
  induction c as [|c IH]; [done|]. cbn [replicate zip zip_with].
  rewrite filter_cons_True by done. simpl. by rewrite IH.
Qed.

(** [predict] returns an accuracy, a number between 0 and 1; it is 1 when
    there is one class only. *)
Lemma predict_run X Y parameters s d dims Xv Yv m :
  net_ok s parameters d dims → length dims = 1%nat →
  arrays s !! X = Some Xv → has_shape Xv d m → (0 < m)%nat →
  arrays s !! Y = Some Yv → has_shape Yv (default d (last dims)) m →
  ∃ acc s', predict X Y parameters s = Ok (acc, s') ∧ frame s s' ∧ 0 <= acc <= 1 ∧
            (default d (last dims) = 1%nat → acc = 1).
Proof.
  intros Hnet Hone HX HXs Hm HY HYs.
  destruct (forward_run X parameters false s d dims Xv m Hnet Hone HX HXs Hm)
    as (AL & caches & s1 & ALv & Hrun & HAL & HALs & Hd & _ & F).
  destruct HALs as (ra & -> & Hra & Hrecta). destruct HYs as (ry & -> & Hry & Hrecty).
  destruct ra as [|a0 ra]; [simpl in Hra; lia|].
  destruct ry as [|y0 ry]; [simpl in Hry; lia|].
  destruct (count_equal_same_length (argmax <$> columns m (y0 :: ry))
              (argmax <$> columns m (a0 :: ra))) as (hits & Hhits & Hle).
  { by rewrite !length_argmax. }
  rewrite length_argmax in Hle.
  assert (0 < INR m) as HmR by (apply lt_0_INR; lia).
  exists (INR hits / INR m), s1.
  split; [|split; [done|split]].
  - unfold predict. rewrite (bind_run _ _ _ _ _ Hrun).
    rewrite (bind_run _ _ _ _ _ (read_run _ _ _ HAL)).
    cbn [np_argmax_axis0]. rewrite (bind_run _ _ _ _ _ (lift_run _ _ _ eq_refl)).
    rewrite (bind_run _ _ _ _ _ (read_run _ _ _ (frame_array _ _ _ _ F HY))).
    cbn [np_argmax_axis0]. rewrite (bind_run _ _ _ _ _ (lift_run _ _ _ eq_refl)).
    rewrite (bind_run _ _ _ _ _ (lift_run _ _ _ Hhits)).
    rewrite length_argmax. by rewrite decide_False by lia.
  - split.
    { unfold Rdiv. apply Rmult_le_pos; [apply pos_INR|].
      left. by apply Rinv_0_lt_compat. }
    apply (Rmult_le_reg_r (INR m)); [done|]. unfold Rdiv.
    rewrite Rmult_assoc, Rinv_l, Rmult_1_r, Rmult_1_l by lra. by apply le_INR.
  - intros H1. rewrite H1 in Hra, Hry.
    destruct ra; [|simpl in Hra; lia]. destruct ry; [|simpl in Hry; lia].
    rewrite (argmax_one_row m y0), (argmax_one_row m a0) in Hhits.
    rewrite count_equal_zeros in Hhits. injection Hhits as <-. field. lra.
Qed.

End Network.

(** ** The training loop *)

Module Trainer.
Import Np Py ANN Frame Run.
Local Open Scope R_scope.

(** The state after [print ln]. *)
Definition printed (s : state) (ln : line) : state :=
  mkState (arrays s) (dicts s) (self_n_layers s) (gauss s) (randint s) (stdout s ++ [ln]).

(** The local variables after a sampling point that stops the training,
    and after one that records the sample [(cost, acc)]. *)
Definition stopped (v : locals) : locals :=
  mkLocals (params v) (prev_val_acc v) true (history v) (accuracy_history v)
           (training_step v).

Definition recorded (v : locals) (acc cost : R) : locals :=
  mkLocals (params v) (Fin acc) (converged v) (history v ++ [cost])
           (accuracy_history v ++ [acc]) (S (training_step v)).

(** The test of line 330. *)
Definition plateau (v : locals) (acc : R) : bool :=
  xlt (xabs (xsub (prev_val_acc v) acc)) EPSILON.

Lemma plateau_Fin v p acc :
  prev_val_acc v = Fin p → plateau v acc = bool_decide (Rabs (p - acc) < EPSILON).
Proof. intros H. unfold plateau. by rewrite H. Qed.

Lemma plateau_PInf v acc : prev_val_acc v = PInf → plateau v acc = false.
Proof. intros H. unfold plateau. by rewrite H. Qed.

Lemma plateau_true v acc :
  plateau v acc = true → ∃ p, prev_val_acc v = Fin p ∧ Rabs (p - acc) < EPSILON.
Proof.
  unfold plateau. destruct (prev_val_acc v) as [p|]; [|done]. simpl.
  intros H%bool_decide_eq_true. eauto.
Qed.

(** The sampling block, once [predict] and [compute_cost] have returned. *)
Lemma sample_run X_validation Y_validation z_output batch_y v s acc s1 cost s2 :
  predict X_validation Y_validation (params v) s = Ok (acc, s1) →
  compute_cost z_output batch_y s1 = Ok (cost, s2) →
  sample X_validation Y_validation z_output batch_y v s =
    if plateau v acc then Ok (Break (stopped v), s2)
    else Ok (Next (recorded v acc cost), printed s2 (StepLine (training_step v) acc cost)).
Proof.
  intros Hp Hc. unfold sample.
  rewrite (bind_run _ _ _ _ _ Hp), (bind_run _ _ _ _ _ Hc).
  fold (plateau v acc). by destruct (plateau v acc).
Qed.

Lemma sample_inv X_validation Y_validation z_output batch_y v s c s' :
  sample X_validation Y_validation z_output batch_y v s = Ok (c, s') →
  ∃ acc cost,
    (plateau v acc = true ∧ c = Break (stopped v)) ∨
    (plateau v acc = false ∧ c = Next (recorded v acc cost)).
Proof.
  intros H. unfold sample in H.
  inv_run H as acc s1 H1. inv_run H as cost s2 H2.
  fold (plateau v acc) in H. exists acc, cost.
  destruct (plateau v acc).
  - left. by injection H as <- _.
  - right. inv_run H as [] s3 H3. by injection H as <- _.
Qed.

Section Loops.
Variables (X_train Y_train X_validation Y_validation : loc).
Variables (learning_rate : R) (num_iterations batch_size : Z).

Local Abbreviation body :=
  (batch_step X_train Y_train X_validation Y_validation learning_rate batch_size).
Local Abbreviation epochs_from :=
  (epoch_loop X_train Y_train X_validation Y_validation learning_rate num_iterations
              batch_size).






(** *** The first sampling point *)

(** Either no sample has been recorded, [prev_val_acc] is still [np.inf]
    and [converged] is not set, or a sample has been recorded and
    [prev_val_acc] is its accuracy. *)
Definition sampled_before (v : locals) : Prop :=
  (prev_val_acc v = PInf ∧ converged v = false ∧ history v = [] ∧ training_step v = 0%nat) ∨
  (∃ p, prev_val_acc v = Fin p ∧ history v ≠ [] ∧ (1 <= training_step v)%nat).

Lemma sampled_before_params v p :
  sampled_before v →
  sampled_before (mkLocals p (prev_val_acc v) (converged v) (history v)
                           (accuracy_history v) (training_step v)).
Proof. done. Qed.

Lemma sample_sampled_before z_output batch_y v s c s' :
  sampled_before v →
  sample X_validation Y_validation z_output batch_y v s = Ok (c, s') →
  sampled_before (locals_of c).
Proof.
  intros Hv (acc & cost & [[Hp ->]|[Hp ->]])%sample_inv; simpl.
  - apply plateau_true in Hp as (p & Hprev & _).
    destruct Hv as [(Hinf & _)|(q & Hq & Hh & Ht)]; [congruence|].
    right. by exists q.
  - right. exists acc. simpl. split; [done|]. split; [|lia].
    by destruct (history v).
Qed.

Lemma batch_step_sampled_before index v s c s' :
  sampled_before v → body index v s = Ok (c, s') → sampled_before (locals_of c).
Proof.
  intros Hv H. unfold batch_step in H.
  inv_run H as [[z cache] by_] s1 H1. inv_run H as c1 s2 H2.
  assert (sampled_before (locals_of c1)) as Hc1.
  { destruct (sampling_point index).
    - by eapply sample_sampled_before.
    - by injection H2 as <- _. }
  destruct c1 as [v1|v1].
  - inv_run H as grads s3 H3. inv_run H as params' s4 H4. injection H as <- _.
    by apply sampled_before_params.
  - by injection H as <- _.
Qed.

Lemma batch_loop_sampled_before indices v s c s' :
  sampled_before v → batch_loop body indices v s = Ok (c, s') →
  sampled_before (locals_of c).
Proof.
  revert v s. induction indices as [|i indices IH]; intros v s Hv H; simpl in H.
  - by injection H as <- _.
  - inv_run H as c1 s1 H1. apply batch_step_sampled_before in H1; [|done].
    destruct c1 as [v1|v1]; [by eapply IH|]. by injection H as <- _.
Qed.

Lemma epoch_loop_sampled_before epochs v s v' s' :
  sampled_before v → epochs_from epochs v s = Ok (v', s') → sampled_before v'.
Proof.
  revert v s. induction epochs as [|e epochs IH]; intros v s Hv H; simpl in H.
  - by injection H as <- _.
  - destruct (converged v).
    + unfold converged_exit in H.
      inv_run H as [] s1 H1. inv_run H as [] s2 H2. by injection H as <- _.
    + inv_run H as n s1 H1. inv_run H as indices s2 H2. inv_run H as c s3 H3.
      apply batch_loop_sampled_before in H3; [|done]. by eapply IH.
Qed.

End Loops.

Lemma train_sampled_before X Y layers_dims learning_rate num_iterations batch_size s v s' :
  train X Y layers_dims learning_rate num_iterations batch_size s = Ok (v, s') →
  sampled_before v.
Proof.
  intros H. unfold train in H.
  inv_run H as n s1 H1. inv_run H as ind s2 H2. inv_run H as Xv s3 H3.
  inv_run H as Yv s4 H4. inv_run H as Xt s5 H5. inv_run H as Yt s6 H6.
  inv_run H as params s7 H7.
  eapply epoch_loop_sampled_before; [|done]. by left.
Qed.

End Trainer.

(** ** A small network in a small store *)

Module Tiny.
Import Np Py ANN RList Frame Run SoftmaxFacts CostFacts Forward Shapes Network.
Local Open Scope R_scope.

(** One layer, one input, one class: [w1 = [[0]]], [b1 = [[0]]]; the data
    [X = [[0]]] with the label [Y = [[1]]]; [Zs = [[0 - 0]]] is the shifted
    input of the softmax of [[0]]. *)
Definition W1 : ndarray := Arr2 1 [[0]].
Definition B1 : ndarray := Arr2 1 [[0]].
Definition X : ndarray := Arr2 1 [[0]].
Definition Y : ndarray := Arr2 1 [[1]].
Definition Zs : ndarray := Arr2 1 [[0 - 0]].

Definition parameters : gmap string loc := <["w1" := 1%positive]> (<["b1" := 2%positive]> ∅).

(** A cache as [L_model_backward] leaves it, with the labels attached. *)
Definition cache : gmap string loc :=
  <["A" := 3%positive]> (<["W" := 1%positive]> (<["b" := 2%positive]>
  (<["Z" := 5%positive]> (<["Y" := 4%positive]> ∅)))).

(** Gradients: [dW1 = [[1]]], the array of [Y], and [db1 = [1]]. *)
Definition grads : gmap string loc := <["dW1" := 4%positive]> (<["db1" := 6%positive]> ∅).

Definition store : state :=
  mkState (<[1%positive := W1]> (<[2%positive := B1]> (<[3%positive := X]>
           (<[4%positive := Y]> (<[5%positive := Zs]> (<[6%positive := Arr1 [1]]> ∅))))))
          (<[1%positive := parameters]> (<[2%positive := cache]>
           (<[3%positive := grads]> ∅)))
          (Some 1%Z) (λ _, 0) (λ _, 0%nat) [].


(** Two examples of the one class, in a store that holds nothing else. *)
Definition examples_X : ndarray := Arr2 2 [[0; 0]].
Definition examples_Y : ndarray := Arr2 2 [[1; 1]].

Definition examples : state :=
  mkState (<[1%positive := examples_X]> (<[2%positive := examples_Y]> ∅)) ∅ None
          (λ _, 0) (λ _, 0%nat) [].

Lemma shape_1_1 x : has_shape (Arr2 1 [[x]]) 1 1.
Proof. exists [[x]]. split; [done|]. split; [done|]. by repeat constructor. Qed.

Lemma store_net : net_ok store 1%positive 1 [1%nat].
Proof.
  exists parameters, [], (W1, B1). split; [done|]. split; [done|]. split.
  - split; [|done]. by exists 1%positive, 2%positive.
  - split; [lia|]. split; [apply shape_1_1|]. split; [apply shape_1_1|done].
Qed.

Lemma one_hot_Y j : (j < 1)%nat → one_hot (column j [[1]]).
Proof.
  intros Hj. assert (j = 0%nat) as -> by lia. exists 0%nat. split; [done|].
  intros [|i] a Ha Hi; [done|]. by destruct i.
Qed.

End Tiny.

(** ** Backward propagation returns: the output layer *)

Module Backward.
Import Np Py ANN RList Frame Run SoftmaxFacts SoftmaxRun CostFacts Forward Shapes Network.
Local Open Scope R_scope.

(** The call [m] returns in state [s], with a result and a state in [Q]. *)
Definition returns {A} (m : M A) (s : state) (Q : A → state → Prop) : Prop :=
  ∃ a s', m s = Ok (a, s') ∧ Q a s'.

Lemma returns_ret {A} (a : A) s (Q : A → state → Prop) : Q a s → returns (mret a) s Q.
Proof. intros H. by exists a, s. Qed.

Lemma returns_step {A B} (m : M A) (k : A → M B) s a s' (Q : B → state → Prop) :
  m s = Ok (a, s') → returns (k a) s' Q → returns (m ≫= k) s Q.
Proof. intros Hm (b & s'' & Hk & HQ). exists b, s''. by rewrite (bind_run _ _ _ _ _ Hm). Qed.

Lemma returns_bind {A B} (m : M A) (k : A → M B) s (P : A → state → Prop)
    (Q : B → state → Prop) :
  returns m s P → (∀ a s', P a s' → returns (k a) s' Q) → returns (m ≫= k) s Q.
Proof. intros (a & s' & Hm & HP) Hk. eapply returns_step; [done|]. by apply Hk. Qed.

Lemma np_T_shape a r c : has_shape a r c → has_shape (np_T a) c r.
Proof.
  intros (rows & -> & <- & Hrect). eexists. split; [reflexivity|].
  split; [apply length_columns|].
  apply Forall_fmap, Forall_forall. intros j _. simpl. by rewrite length_column.
Qed.

Lemma scale_shape k a r c : has_shape a r c → has_shape (scale k a) r c.
Proof.
  intros (rows & -> & Hr & Hrect). eexists. split; [done|].
  split; [by rewrite length_fmap|].
  apply Forall_fmap. eapply Forall_impl; [done|]. intros x Hx. simpl.
  by rewrite length_fmap.
Qed.

Lemma broadcast_same_shape f a b r c :
  has_shape a r c → has_shape b r c → ∃ q, broadcast f a b = Ok q ∧ has_shape q r c.
Proof.
  intros (ra & -> & Hra & Ha) (rb & -> & Hrb & Hb).
  rewrite broadcast_same by (done || congruence).
  eexists. split; [done|]. eexists. split; [done|]. split.
  - rewrite length_zip_with. lia.
  - apply Forall_lookup. intros i x Hx.
    apply lookup_zip_with_Some in Hx as (u & v & -> & Hu & Hv).
    eapply Forall_lookup_1 in Ha; [|done]. eapply Forall_lookup_1 in Hb; [|done].
    simpl in *. rewrite length_zip_with. lia.
Qed.

Lemma py_inv_run m s : m ≠ 0%nat → py_inv m s = Ok (1 / INR m, s).
Proof. intros H. unfold py_inv. by rewrite decide_False. Qed.

Lemma dict_set_ok d k v s m :
  dicts s !! d = Some m →
  ∃ s', dict_set d k v s = Ok ((), s') ∧ dicts s' = <[d := <[k := v]> m]> (dicts s) ∧
        arrays s' = arrays s ∧ self_n_layers s' = self_n_layers s.
Proof. intros H. unfold dict_set. rewrite H. by eexists. Qed.

(** [linear_backward] on a cache of a layer with [k] inputs and [r] units,
    for a batch of [m > 0] columns. *)
Lemma linear_backward_run dZ cache s d lA lW dZv Av Wv r k m
    (Q : loc * loc * loc → state → Prop) :
  dicts s !! cache = Some d → d !! "A" = Some lA → d !! "W" = Some lW →
  arrays s !! lA = Some Av → arrays s !! lW = Some Wv → arrays s !! dZ = Some dZv →
  has_shape Av k m → has_shape Wv r k → has_shape dZv r m → (0 < m)%nat →
  (∀ dA_prev dW db s' dAv dWv dbv,
     frame s s' → arrays s' !! dA_prev = Some dAv → has_shape dAv k m →
     arrays s' !! dW = Some dWv → has_shape dWv r k →
     arrays s' !! db = Some (Arr1 dbv) → length dbv = r →
     Q (dA_prev, dW, db) s') →
  returns (linear_backward dZ cache) s Q.
Proof.
  intros Hd HA HW HAv HWv HdZ HsA HsW HsZ Hm HQ. unfold linear_backward.
  eapply returns_step; [by eapply dict_get_run|].
  destruct HsA as (ra & -> & Hra & HrA).
  eapply returns_step; [by eapply shape1_of_run|].
  eapply returns_step; [apply py_inv_run; lia|].
  eapply returns_step; [by eapply dict_get_run|].
  destruct (total1_run np_T lA s _ HAv) as (At & s1 & H1 & HAt & F1).
  eapply returns_step; [done|].
  assert (has_shape (np_T (Arr2 m ra)) m k) as HsAt by (apply np_T_shape; by exists ra).
  destruct (np_dot_shape dZv _ r m k HsZ HsAt) as (q & Hq & Hsq).
  destruct (op2_run np_dot dZ At s1 _ _ _ (frame_array _ _ _ _ F1 HdZ) HAt Hq)
    as (lq & s2 & H2 & Hlq & F2).
  eapply returns_step; [done|].
  destruct (total1_run (scale (1 / INR m)) lq s2 _ Hlq) as (dW & s3 & H3 & HdW & F3).
  eapply returns_step; [done|].
  eapply returns_step; [apply py_inv_run; lia|].
  assert (frame s s3) as F03 by eauto using frame_trans.
  destruct HsZ as (rz & -> & Hrz & HrZ).
  destruct (op1_run np_sum_axis1 dZ s3 _ _ (frame_array _ _ _ _ F03 HdZ) eq_refl)
    as (ls & s4 & H4 & Hls & F4).
  eapply returns_step; [done|].
  destruct (total1_run (scale (1 / INR m)) ls s4 _ Hls) as (db & s5 & H5 & Hdb & F5).
  eapply returns_step; [done|].
  assert (frame s s5) as F05 by eauto using frame_trans.
  eapply returns_step; [eapply dict_get_run; [by eapply frame_dict|done]|].
  destruct (total1_run np_T lW s5 _ (frame_array _ _ _ _ F05 HWv))
    as (Wt & s6 & H6 & HWt & F6).
  eapply returns_step; [done|].
  destruct (np_dot_shape (np_T Wv) (Arr2 m rz) k r m (np_T_shape _ _ _ HsW))
    as (qa & Hqa & Hsqa); [by exists rz|].
  assert (frame s s6) as F06 by eauto using frame_trans.
  destruct (op2_run np_dot Wt dZ s6 _ _ _ HWt (frame_array _ _ _ _ F06 HdZ) Hqa)
    as (dA & s7 & H7 & HdA & F7).
  eapply returns_step; [done|]. apply returns_ret.
  eapply (HQ dA dW db s7 qa (scale (1 / INR m) q)).
  - eauto using frame_trans.
  - done.
  - done.
  - eapply frame_array; [|done]. eauto using frame_trans.
  - by apply scale_shape.
  - eapply frame_array; [|done]. eauto using frame_trans.
  - by rewrite !length_fmap.
Qed.

Lemma fmt_dW_db i j : fmt "dW" i ≠ fmt "db" j.
Proof. unfold fmt. intros H. injection H. intros. discriminate. Qed.

(** [L_model_backward] on the cache of [L_model_forward], for a network of
    one layer with [k] inputs and [r] classes and a batch of [m > 0]
    columns: it returns a dict that holds the gradients [dW1], of the
    shape of the weights, and [db1], a vector of [r] entries. *)
Lemma backward_one_layer_returns AL Y c s d lA lW lZ Av Wv Zv Yv r k m :
  self_n_layers s = Some 1%Z →
  dicts s !! c = Some d →
  d !! "A" = Some lA → d !! "W" = Some lW → d !! "Z" = Some lZ →
  arrays s !! lA = Some Av → arrays s !! lW = Some Wv → arrays s !! lZ = Some Zv →
  arrays s !! Y = Some Yv →
  has_shape Av k m → has_shape Wv r k → has_shape Zv r m → has_shape Yv r m →
  (0 < r)%nat → (0 < m)%nat →
  returns (L_model_backward AL Y [c]) s (λ grads s',
    ∃ gd dW db dWv dbv,
      dicts s' !! grads = Some gd ∧
      gd !! fmt "dW" 1 = Some dW ∧ gd !! fmt "db" 1 = Some db ∧
      arrays s' !! dW = Some dWv ∧ has_shape dWv r k ∧
      arrays s' !! db = Some (Arr1 dbv) ∧ length dbv = r).
Proof.
  intros Hn Hd HA HW HZ HAv HWv HZv HYv HsA HsW HsZ HsY Hr Hm.
  unfold L_model_backward.
  eapply returns_step; [by apply get_n_layers_run|].
  destruct (new_dict_run ∅ s) as (g & s1 & H1 & Hg & Hgfresh & F1).
  eapply returns_step; [done|].
  eapply returns_step; [reflexivity|].
  destruct (dict_set_ok c "Y" Y s1 d (frame_dict _ _ _ _ F1 Hd))
    as (s2 & H2 & Hd2 & Ha2 & Hn2).
  eapply returns_step; [done|].
  eapply returns_step; [reflexivity|].
  assert (dicts s2 !! c = Some (<["Y" := Y]> d)) as Hc2.
  { rewrite Hd2. apply lookup_insert_eq. }
  assert (∀ l a, arrays s !! l = Some a → arrays s2 !! l = Some a) as Harr.
  { intros l a Hl. rewrite Ha2. by eapply frame_array. }
  assert (c ≠ g) as Hne by congruence.
  unfold linear_activation_backward. rewrite decide_False by done.
  destruct (softmax_val_shape Zv r m HsZ Hr) as (A & Zs & Hval & HsAv & _ & _).
  destruct (broadcast_same_shape Rminus A Yv r m HsAv HsY) as (D & Hsub & HsD).
  destruct (softmax_backward_run AL c s2 (<["Y" := Y]> d) lZ Y Zv Yv A Zs D)
    as (dZ & s3 & H3 & HdZ & F3); [done|by rewrite lookup_insert_ne|
      apply lookup_insert_eq|by apply Harr|by apply Harr|done|done|].
  assert (dicts s3 !! g = Some ∅) as Hg3.
  { eapply frame_dict; [done|]. by rewrite Hd2, lookup_insert_ne. }
  eapply returns_bind.
  { eapply returns_step; [exact H3|].
    eapply (linear_backward_run dZ c s3 (<["Y" := Y]> d) lA lW D Av Wv r k m
              (λ x s', dicts s' !! g = Some ∅ ∧
                 ∃ dWv dbv, arrays s' !! x.1.2 = Some dWv ∧ has_shape dWv r k ∧
                            arrays s' !! x.2 = Some (Arr1 dbv) ∧ length dbv = r)).
    1: by eapply frame_dict.
    1,2: by rewrite lookup_insert_ne.
    1,2: eapply frame_array; [done|by apply Harr].
    1-5: done.
    intros dA_prev dW db s' dAv dWv dbv F _ _ HdW HsdW Hdb Hlen.
    split; [by eapply frame_dict|]. by exists dWv, dbv. }
  intros [[dA_prev dW] db] s4 (Hg4 & dWv & dbv & HdW & HsdW & Hdb & Hlen).
  cbn [fst snd] in HdW, Hdb.
  destruct (dict_set_ok g (fmt "dA" 1) dA_prev s4 _ Hg4) as (s5 & H5 & Hd5 & Ha5 & _).
  eapply returns_step; [done|].
  destruct (dict_set_ok g (fmt "dW" 1) dW s5 _ (eq_trans (f_equal (.!! g) Hd5)
              (lookup_insert_eq _ _ _))) as (s6 & H6 & Hd6 & Ha6 & _).
  eapply returns_step; [done|].
  destruct (dict_set_ok g (fmt "db" 1) db s6 _ (eq_trans (f_equal (.!! g) Hd6)
              (lookup_insert_eq _ _ _))) as (s7 & H7 & Hd7 & Ha7 & _).
  eapply returns_step; [done|].
  apply returns_ret. eexists _, dW, db, dWv, dbv. split_and!.
  - rewrite Hd7. apply lookup_insert_eq.
  - rewrite lookup_insert_ne by (intros H; symmetry in H; by apply fmt_dW_db in H).
    apply lookup_insert_eq.
  - apply lookup_insert_eq.
  - by rewrite Ha7, Ha6, Ha5.
  - done.
  - by rewrite Ha7, Ha6, Ha5.
  - done.
Qed.

Lemma backward_run_one_layer AL Y c s d lA lW lZ Av Wv Zv Yv r k m :
  self_n_layers s = Some 1%Z →
  dicts s !! c = Some d →
  d !! "A" = Some lA → d !! "W" = Some lW → d !! "Z" = Some lZ →
  arrays s !! lA = Some Av → arrays s !! lW = Some Wv → arrays s !! lZ = Some Zv →
  arrays s !! Y = Some Yv →
  has_shape Av k m → has_shape Wv r k → has_shape Zv r m → has_shape Yv r m →
  (0 < r)%nat → (0 < m)%nat →
  ∃ grads s', L_model_backward AL Y [c] s = Ok (grads, s').
Proof.
  intros Hn Hd HA HW HZ HAv HWv HZv HYv HsA HsW HsZ HsY Hr Hm.
  destruct (backward_one_layer_returns AL Y c s d lA lW lZ Av Wv Zv Yv r k m)
    as (g & s' & H & _); try done.
  by exists g, s'.
Qed.

(** A forward and a backward propagation through a network of one layer
    with [k] inputs and [r] classes, on a batch of [m > 0] columns: both
    return. *)
Lemma forward_backward_run_one_layer X Y parameters use_batchnorm s pd W b Xv Yv r k m :
  self_n_layers s = Some 1%Z → dicts s !! parameters = Some pd →
  has_layers s pd 1 [(W, b)] → layers_shaped k [(W, b)] [r] →
  arrays s !! X = Some Xv → has_shape Xv k m → (0 < m)%nat →
  arrays s !! Y = Some Yv → has_shape Yv r m →
  ∃ AL caches s1 grads s2,
    L_model_forward X parameters use_batchnorm s = Ok ((AL, caches), s1) ∧
    L_model_backward AL Y caches s1 = Ok (grads, s2).
Proof.
  intros Hn Hpd Hl Hs HX HXs Hm HY HYs.
  pose proof (L_model_forward_refines X parameters use_batchnorm s pd Xv [] (W, b)
                Hn Hpd Hl HX) as Href.
  destruct Hs as (Hr & HWs & Hbs & _).
  destruct (layer_unit_shape "softmax" Xv W b r k m HXs HWs Hbs Hr Hm ltac:(done))
    as (ALv & cv & Hunit & _ & HcA & HcW & _ & HcZ & _).
  unfold forward_all in Href. cbn [hidden_layers rbind fst snd] in Href.
  rewrite Hunit in Href. cbn [rbind fst snd app] in Href.
  destruct Href as ([AL caches] & s1 & Hrun & _ & Hc & _ & F). cbn [fst snd] in Hc.
  apply Forall2_cons_inv_r in Hc as (c & cs & Hcv & ->%Forall2_nil_inv_r & ->).
  destruct Hcv as (d & lA & lW & lb & lZ & Hd & HA & HW & Hb & HZ & HAv & HWv & Hbv & HZv).
  destruct (backward_run_one_layer AL Y c s1 d lA lW lZ
              (cache_A cv) (cache_W cv) (cache_Z cv) Yv r k m)
    as (grads & s2 & Hback); try done.
  - by rewrite (frame_n_layers _ _ F).
  - by eapply frame_array.
  - by rewrite HcA.
  - by rewrite HcW.
  - by exists AL, [c], s1, grads, s2.
Qed.

End Backward.

(** ** [initialize_parameters] *)

Module Init.
Import Np Py ANN RList Frame Run Forward Shapes Network Backward.
Local Open Scope R_scope.

Lemma fmt_inj prefix i j : fmt prefix i = fmt prefix j → i = j.
Proof.
  unfold fmt. intros H. apply (inj (String.app prefix)) in H.
  by apply (inj pretty) in H.
Qed.

Lemma fmt_w_b i j : fmt "w" i ≠ fmt "b" j.
Proof. unfold fmt. intros H. injection H. intros. discriminate. Qed.

Lemma list_get_run {A} (l : list A) n x s :
  l !! n = Some x → list_get l (Z.of_nat n) s = Ok (x, s).
Proof.
  intros H. unfold list_get. apply lookup_lt_Some in H as Hlt.
  rewrite decide_True by lia. by rewrite Nat2Z.id, H.
Qed.

(** [np.random.randn(r, c)] gives a new matrix of [r] rows and [c]
    columns. *)
Lemma randn_run r c s :
  ∃ l s' a, randn (Z.of_nat r) (Z.of_nat c) s = Ok (l, s') ∧
            arrays s' !! l = Some a ∧ has_shape a r c ∧ frame s s'.
Proof.
  unfold randn. rewrite decide_False by lia. rewrite !Nat2Z.id.
  match goal with |- context [new_array ?a ?s0] =>
    destruct (new_array_run a s0) as (l & s' & H & Hl & F) end.
  eexists l, s', _. split; [done|]. split; [done|].
  split; [|eapply frame_trans; [|exact F]; by split].
  eexists. split; [done|]. split; [by rewrite length_fmap, length_seq|].
  apply Forall_fmap, Forall_forall. intros i _. simpl.
  by rewrite length_fmap, length_seq.
Qed.

Lemma randn_fresh r c s l s' : randn r c s = Ok (l, s') → arrays s !! l = None.
Proof.
  unfold randn. case_decide; [done|]. intros Hnew.
  by apply new_array_inv in Hnew as [? _].
Qed.

(** One turn of the loop of [initialize_parameters], for the layer [k]
    of [d] units on [d_prev > 0] inputs. *)
Lemma init_layer_run layer_dims params k d_prev d s pd :
  layer_dims !! k = Some (Z.of_nat d_prev) → layer_dims !! S k = Some (Z.of_nat d) →
  (0 < d_prev)%nat → dicts s !! params = Some pd →
  ∃ s' lw lb W b,
    init_layer layer_dims params (Z.of_nat (S k)) s = Ok ((), s') ∧
    dicts s' !! params
      = Some (<[fmt "b" (Z.of_nat (S k)) := lb]> (<[fmt "w" (Z.of_nat (S k)) := lw]> pd)) ∧
    arrays s' !! lw = Some W ∧ arrays s' !! lb = Some b ∧
    has_shape W d d_prev ∧ has_shape b d 1 ∧
    arrays s ⊆ arrays s' ∧ self_n_layers s' = self_n_layers s ∧
    arrays s !! lw = None ∧ arrays s !! lb = None ∧ lw ≠ lb.
Proof.
  intros Hprev Hd Hpos Hpd.
  destruct (randn_run d d_prev s) as (g & s1 & G & H1 & Hg & HsG & F1).
  destruct (total1_run (scale (sqrt (2 / IZR (Z.of_nat d_prev)))) g s1 _ Hg)
    as (lw & s2 & H2 & Hlw & F2).
  destruct (dict_set_ok params (fmt "w" (Z.of_nat (S k))) lw s2 pd)
    as (s3 & H3 & Hd3 & Ha3 & Hn3).
  { eapply frame_dict; [|done]. eauto using frame_trans. }
  assert (frame s3 s3) as _ by apply frame_refl.
  destruct (randn_run d 1 s3) as (lb & s4 & B & H4 & Hlb & HsB & F4).
  destruct (dict_set_ok params (fmt "b" (Z.of_nat (S k))) lb s4
              (<[fmt "w" (Z.of_nat (S k)) := lw]> pd))
    as (s5 & H5 & Hd5 & Ha5 & Hn5).
  { eapply frame_dict; [done|]. rewrite Hd3. apply lookup_insert_eq. }
  exists s5, lw, lb, (scale (sqrt (2 / IZR (Z.of_nat d_prev))) G), B.
  split.
  { unfold init_layer.
    rewrite (bind_run _ _ _ _ _ (list_get_run _ _ _ _ Hd)).
    replace (Z.of_nat (S k) - 1)%Z with (Z.of_nat k) by lia.
    rewrite (bind_run _ _ _ _ _ (list_get_run _ _ _ _ Hprev)).
    rewrite (bind_run _ _ _ _ _ H1).
    rewrite (bind_run _ _ _ _ _ (list_get_run _ _ _ _ Hprev)).
    rewrite decide_False by lia.
    rewrite (bind_run (mret ()) _ s1 () s1 eq_refl).
    rewrite (bind_run _ _ _ _ _ H2), (bind_run _ _ _ _ _ H3).
    rewrite (bind_run _ _ _ _ _ (list_get_run _ _ _ _ Hd)).
    change 1%Z with (Z.of_nat 1). by rewrite (bind_run _ _ _ _ _ H4). }
  split; [rewrite Hd5; apply lookup_insert_eq|].
  split; [rewrite Ha5; eapply frame_array; [done|]; by rewrite Ha3|].
  split; [by rewrite Ha5|]. split; [by apply scale_shape|]. split; [done|].
  assert (arrays s ⊆ arrays s2) as Hs2.
  { etrans; [apply (frame_arrays _ _ F1)|apply (frame_arrays _ _ F2)]. }
  apply op1_fresh in H2 as Hfw. apply randn_fresh in H4 as Hfb. rewrite Ha3 in Hfb.
  split_and!.
  - rewrite Ha5. etrans; [|apply (frame_arrays _ _ F4)]. by rewrite Ha3.
  - rewrite Hn5, (frame_n_layers _ _ F4), Hn3, (frame_n_layers _ _ F2).
    apply (frame_n_layers _ _ F1).
  - eapply lookup_weaken_None; [done|]. apply (frame_arrays _ _ F1).
  - by eapply lookup_weaken_None.
  - congruence.
Qed.

Lemma has_layers_arrays s s' pd k layers :
  arrays s ⊆ arrays s' → has_layers s pd k layers → has_layers s' pd k layers.
Proof.
  intros Hsub. revert k. induction layers as [|[W b] rest IH]; intros k; simpl; [done|].
  intros [(lw & lb & ? & ? & ? & ?) Hrest]. split; [|by apply IH].
  exists lw, lb. split_and!; try done; by eapply lookup_weaken.
Qed.

Lemma has_layers_agree s pd pd' k layers :
  (∀ j, (k ≤ j)%Z → pd' !! fmt "w" j = pd !! fmt "w" j ∧ pd' !! fmt "b" j = pd !! fmt "b" j) →
  has_layers s pd k layers → has_layers s pd' k layers.
Proof.
  revert k. induction layers as [|[W b] rest IH]; intros k Hag; simpl; [done|].
  intros [(lw & lb & Hw & Hb & ? & ?) Hrest]. split.
  - exists lw, lb. destruct (Hag k) as [-> ->]; [lia|done].
  - apply IH; [|done]. intros j Hj. apply Hag. lia.
Qed.

(** The loop of [initialize_parameters] from layer [S (length pre)] on:
    it stores the weights and biases of the layers left, and leaves the
    other keys of the dict alone. *)
Lemma init_loop_run params todo pre d_prev s pd :
  Forall (λ x, 0 < x)%nat (d_prev :: todo) → dicts s !! params = Some pd →
  ∃ s' pd' layers,
    for_in (seqZ (Z.of_nat (S (length pre))) (Z.of_nat (length todo)))
           (λ i _, init_layer (Z.of_nat <$> pre ++ d_prev :: todo) params i) () s
      = Ok ((), s') ∧
    dicts s' !! params = Some pd' ∧
    has_layers s' pd' (Z.of_nat (S (length pre))) layers ∧
    layers_shaped d_prev layers todo ∧
    arrays s ⊆ arrays s' ∧ self_n_layers s' = self_n_layers s ∧
    (∀ key, (∀ j, (Z.of_nat (S (length pre)) ≤ j)%Z →
                  key ≠ fmt "w" j ∧ key ≠ fmt "b" j) →
            pd' !! key = pd !! key).
Proof.
  revert pre d_prev s pd.
  induction todo as [|d todo IH]; intros pre d_prev s pd Hpos Hpd.
  - exists s, pd, []. by split_and!.
  - apply Forall_cons in Hpos as [Hprev Hpos].
    destruct (init_layer_run (Z.of_nat <$> pre ++ d_prev :: d :: todo) params
                (length pre) d_prev d s pd) as
      (s1 & lw & lb & W & b & H1 & Hd1 & HW & Hb & HsW & Hsb & Ha1 & Hn1 & _);
      [| |done..|].
    { rewrite list_lookup_fmap. by rewrite list_lookup_middle. }
    { rewrite list_lookup_fmap.
      replace (pre ++ d_prev :: d :: todo) with ((pre ++ [d_prev]) ++ d :: todo)
        by by rewrite <- app_assoc.
      rewrite (list_lookup_middle (pre ++ [d_prev]) todo d (S (length pre))); [done|].
      rewrite length_app. simpl. lia. }
    destruct (IH (pre ++ [d_prev]) d s1 _ Hpos Hd1)
      as (s' & pd' & layers & H2 & Hd2 & Hl & Hs & Ha2 & Hn2 & Hag).
    rewrite <- app_assoc in H2. simpl in H2.
    rewrite length_app in H2, Hl, Hag. simpl in H2, Hl, Hag.
    replace (S (length pre + 1)) with (S (S (length pre))) in H2, Hl, Hag by lia.
    set (k := Z.of_nat (S (length pre))) in *.
    assert (Z.of_nat (S (S (length pre))) = k + 1)%Z as Hk by lia.
    rewrite Hk in Hl, Hag.
    assert (pd' !! fmt "w" k = Some lw ∧ pd' !! fmt "b" k = Some lb) as [Hw' Hb'].
    { rewrite !Hag.
      - rewrite lookup_insert_ne by (intros H; by apply (fmt_w_b k k)).
        by rewrite !lookup_insert_eq.
      - intros j Hj. split; [intros H; symmetry in H; by apply fmt_w_b in H|].
        intros H%fmt_inj. lia.
      - intros j Hj. split; [|apply fmt_w_b]. intros H%fmt_inj. lia. }
    exists s', pd', ((W, b) :: layers). split_and!.
    + rewrite seqZ_cons by (simpl; lia). cbn [for_in].
      rewrite (bind_run _ _ _ _ _ H1).
      replace (Z.pred (Z.of_nat (length (d :: todo)))) with (Z.of_nat (length todo))
        by (simpl; lia).
      by replace (Z.succ k) with (Z.of_nat (S (S (length pre)))) by lia.
    + done.
    + split; [|done]. exists lw, lb. split_and!; try done; by eapply lookup_weaken.
    + simpl. split_and!; try done. by apply Forall_inv in Hpos.
    + by etrans.
    + congruence.
    + intros key Hkey. rewrite Hag.
      * destruct (Hkey k) as [? ?]; [lia|]. by rewrite !lookup_insert_ne.
      * intros j Hj. apply Hkey. lia.
Qed.

Lemma layers_shaped_length d layers dims :
  layers_shaped d layers dims → length layers = length dims.
Proof.
  revert d dims. induction layers as [|[W b] layers IH]; intros d [|d' dims]; try done.
  intros (_ & _ & _ & H). simpl. f_equal. by eapply IH.
Qed.

(** [initialize_parameters] on a list of at least two positive sizes:
    it returns the parameters of a network whose layers fit. *)
Lemma initialize_parameters_run d dims s :
  dims ≠ [] → Forall (λ x, 0 < x)%nat (d :: dims) →
  ∃ p s', initialize_parameters (Z.of_nat <$> d :: dims) s = Ok (p, s') ∧
          net_ok s' p d dims ∧ dicts s !! p = None.
Proof.
  intros Hne Hpos. unfold initialize_parameters.
  pose (s1 := mkState (arrays s) (dicts s)
                (Some (Z.of_nat (length (Z.of_nat <$> d :: dims)) - 1)%Z)
                (gauss s) (randint s) (stdout s)).
  destruct (new_array_run (Arr1 (replicate (length (Z.of_nat <$> d :: dims)) 0)) s1)
    as (l0 & s2 & H2 & _ & F2).
  destruct (new_dict_run ∅ s2) as (p & s3 & H3 & Hp & Hfresh & F3).
  destruct (init_loop_run p dims [] d s3 ∅ Hpos Hp)
    as (s4 & pd & layers & H4 & Hd4 & Hl & Hs & Ha4 & Hn4 & _).
  exists p, s4. split; [|split].
  - rewrite (bind_run _ _ _ _ _ (eq_refl : set_n_layers _ s = Ok ((), s1))).
    rewrite (bind_run _ _ _ _ _ H2), (bind_run _ _ _ _ _ H3).
    rewrite length_fmap. simpl length.
    replace (Z.of_nat (S (length dims)) - 1)%Z with (Z.of_nat (length dims)) by lia.
    simpl in H4. by rewrite (bind_run _ _ _ _ _ H4).
  - pose proof (layers_shaped_length _ _ _ Hs) as Hlen.
    destruct (exists_last (l:=layers)) as (hidden & out & ->).
    { intros ->. by destruct dims. }
    exists pd, hidden, out. split_and!; [|done..].
    rewrite Hn4, (frame_n_layers _ _ F3), (frame_n_layers _ _ F2). simpl.
    rewrite length_fmap. simpl. f_equal.
    rewrite length_app in Hlen. simpl in Hlen. lia.
  - by apply (frame_dict_None s1 s2) in Hfresh.
Qed.

(** [initialize_parameters] on a list of fewer than two sizes: no layer,
    an empty dict, no exception. *)
Lemma initialize_parameters_short layer_dims s :
  (length layer_dims < 2)%nat →
  ∃ p s', initialize_parameters layer_dims s = Ok (p, s') ∧
          dicts s' !! p = Some ∅ ∧
          self_n_layers s' = Some (Z.of_nat (length layer_dims) - 1)%Z.
Proof.
  intros Hlen. unfold initialize_parameters.
  pose (s1 := mkState (arrays s) (dicts s) (Some (Z.of_nat (length layer_dims) - 1)%Z)
                (gauss s) (randint s) (stdout s)).
  destruct (new_array_run (Arr1 (replicate (length layer_dims) 0)) s1)
    as (l0 & s2 & H2 & _ & F2).
  destruct (new_dict_run ∅ s2) as (p & s3 & H3 & Hp & _ & F3).
  exists p, s3. split; [|split; [done|]].
  - rewrite (bind_run _ _ _ _ _ (eq_refl : set_n_layers _ s = Ok ((), s1))).
    rewrite (bind_run _ _ _ _ _ H2), (bind_run _ _ _ _ _ H3).
    by rewrite seqZ_nil by lia.
  - by rewrite (frame_n_layers _ _ F3), (frame_n_layers _ _ F2).
Qed.

End Init.

(** ** A training step of a network of one layer *)

Module Training.
Import Np Py ANN RList Frame Run SoftmaxFacts SoftmaxRun CostFacts Forward Shapes Network
  Backward Init.
Local Open Scope R_scope.

(** The dict [p] holds the weights [lw] and the biases [lb] of a network of
    one layer of [r] units on [k] inputs, two arrays, and nothing else. *)
Definition one_layer (s : state) (p lw lb : loc) (r k : nat) : Prop :=
  self_n_layers s = Some 1%Z ∧
  dicts s !! p = Some (<[fmt "b" 1 := lb]> (<[fmt "w" 1 := lw]> ∅)) ∧
  lw ≠ lb ∧ (0 < r)%nat ∧
  (∃ W, arrays s !! lw = Some W ∧ has_shape W r k) ∧
  (∃ b, arrays s !! lb = Some b ∧ has_shape b r 1).

(** The dict [c] is the cache of a layer of [r] units on [k] inputs, for a
    batch of [m] columns. *)
Definition cache_shaped (s : state) (c : loc) (r k m : nat) : Prop :=
  ∃ d lA lW lZ Av Wv Zv,
    dicts s !! c = Some d ∧ d !! "A" = Some lA ∧ d !! "W" = Some lW ∧ d !! "Z" = Some lZ ∧
    arrays s !! lA = Some Av ∧ arrays s !! lW = Some Wv ∧ arrays s !! lZ = Some Zv ∧
    has_shape Av k m ∧ has_shape Wv r k ∧ has_shape Zv r m.

Lemma lookup_w1 (lw lb : loc) :
  (<[fmt "b" 1 := lb]> (<[fmt "w" 1 := lw]> (∅ : gmap string loc))) !! fmt "w" 1 = Some lw.
Proof.
  rewrite lookup_insert_ne by (intros H; symmetry in H; by apply fmt_w_b in H).
  apply lookup_insert_eq.
Qed.

Lemma size_w1_b1 (lw lb : loc) :
  size (<[fmt "b" 1 := lb]> (<[fmt "w" 1 := lw]> (∅ : gmap string loc))) = 2%nat.
Proof.
  rewrite map_size_insert_None.
  - by rewrite map_size_insert_None, map_size_empty by apply lookup_empty.
  - rewrite lookup_insert_ne by apply fmt_w_b. apply lookup_empty.
Qed.

Lemma one_layer_net s p lw lb r k : one_layer s p lw lb r k → net_ok s p k [r].
Proof.
  intros (Hn & Hd & _ & Hr & (W & HW & HsW) & (b & Hb & Hsb)).
  eexists _, [], (W, b). split_and!; [done|done| |done].
  split; [|done]. exists lw, lb. split_and!; [apply lookup_w1|apply lookup_insert_eq|done..].
Qed.

Lemma one_layer_arrays s s' p lw lb r k :
  arrays s ⊆ arrays s' → dicts s' !! p = dicts s !! p →
  self_n_layers s' = self_n_layers s →
  one_layer s p lw lb r k → one_layer s' p lw lb r k.
Proof.
  intros Ha Hd Hn (Hn0 & Hd0 & Hne & Hr & (W & HW & HsW) & (b & Hb & Hsb)).
  split_and!; [congruence|congruence|done|done| |].
  - exists W. split; [by eapply lookup_weaken|done].
  - exists b. split; [by eapply lookup_weaken|done].
Qed.

Lemma one_layer_frame s s' p lw lb r k :
  frame s s' → one_layer s p lw lb r k → one_layer s' p lw lb r k.
Proof.
  intros F H. eapply one_layer_arrays; [apply (frame_arrays _ _ F)| |
    apply (frame_n_layers _ _ F)|done].
  destruct H as (_ & Hd & _). rewrite Hd. by eapply frame_dict.
Qed.

Lemma has_shape_shape a r c : has_shape a r c → shape a = [r; c].
Proof. intros (rows & -> & <- & _). done. Qed.

(** Forward propagation through the one layer: the activations of the
    softmax and one new cache. *)
Lemma forward_one_layer_run X p use_batchnorm s lw lb Xv r k m :
  one_layer s p lw lb r k → arrays s !! X = Some Xv → has_shape Xv k m → (0 < m)%nat →
  ∃ AL c s1 ALv,
    L_model_forward X p use_batchnorm s = Ok ((AL, [c]), s1) ∧ frame s s1 ∧
    dicts s !! c = None ∧ cache_shaped s1 c r k m ∧
    arrays s1 !! AL = Some ALv ∧ has_shape ALv r m ∧ softmax_output ALv.
Proof.
  intros (Hn & Hd & _ & Hr & (W & HW & HsW) & (b & Hb & Hsb)) HX HXs Hm.
  assert (has_layers s (<[fmt "b" 1 := lb]> (<[fmt "w" 1 := lw]> ∅)) 1 ([] ++ [(W, b)]))
    as Hl.
  { split; [|done]. exists lw, lb.
    split_and!; [apply lookup_w1|apply lookup_insert_eq|done..]. }
  pose proof (L_model_forward_refines X p use_batchnorm s _ Xv [] (W, b)
                Hn Hd Hl HX) as Href.
  destruct (layer_unit_shape "softmax" Xv W b r k m HXs HsW Hsb Hr Hm ltac:(done))
    as (ALv & cv & Hunit & HsAL & HcA & HcW & _ & HcZ & Hout).
  unfold forward_all in Href. cbn [hidden_layers rbind fst snd] in Href.
  rewrite Hunit in Href. cbn [rbind fst snd app] in Href.
  destruct Href as ([AL caches] & s1 & Hrun & HAL & Hc & _ & F). cbn [fst snd] in *.
  apply Forall2_cons_inv_r in Hc as (c & cs & Hcv & ->%Forall2_nil_inv_r & ->).
  destruct Hcv as (d & lA & lW & lb' & lZ & Hdc & HA & HW' & _ & HZ & HAv & HWv & _ & HZv).
  apply L_model_forward_inv in Hrun as Hinv. destruct Hinv as (_ & _ & Hfresh).
  apply Forall_inv in Hfresh.
  exists AL, c, s1, ALv. split_and!; [done..| |done|done|by apply Hout].
  exists d, lA, lW, lZ, (cache_A cv), (cache_W cv), (cache_Z cv).
  split_and!; try done; congruence.
Qed.

(** [target -= src] for a difference of the shape of [target]. *)
Lemma isub_run target src s a b q :
  arrays s !! target = Some a → arrays s !! src = Some b →
  np_sub a b = Ok q → shape q = shape a →
  ∃ s', isub target src s = Ok ((), s') ∧ arrays s' = <[target := q]> (arrays s) ∧
        dicts s' = dicts s ∧ self_n_layers s' = self_n_layers s.
Proof.
  intros Ha Hb Hq Hs. eexists. split.
  - unfold isub.
    rewrite (bind_run _ _ _ _ _ (read_run _ _ _ Ha)).
    rewrite (bind_run _ _ _ _ _ (read_run _ _ _ Hb)).
    rewrite (bind_run _ _ _ _ _ (lift_run _ _ _ Hq)).
    rewrite decide_True by done. unfold write. by rewrite Ha.
  - done.
Qed.

Lemma reshape_col_shape v : has_shape (reshape_col (Arr1 v)) (length v) 1.
Proof.
  eexists. split; [reflexivity|]. split; [by rewrite length_fmap|].
  apply Forall_fmap, Forall_forall. by intros x _.
Qed.

(** [update_parameters] on the one layer and the gradients of
    [L_model_backward]: the arrays of the weights and of the biases are
    overwritten with the differences, and no other array changes. *)
Lemma update_one_layer_run p grads lr s lw lb r k gd dW db dWv dbv W b :
  one_layer s p lw lb r k → dicts s !! grads = Some gd →
  gd !! fmt "dW" 1 = Some dW → gd !! fmt "db" 1 = Some db →
  arrays s !! dW = Some dWv → has_shape dWv r k →
  arrays s !! db = Some (Arr1 dbv) → length dbv = r →
  arrays s !! lw = Some W → arrays s !! lb = Some b →
  ∃ s' W' b',
    update_parameters p grads lr s = Ok (p, s') ∧ one_layer s' p lw lb r k ∧
    np_sub W (scale lr dWv) = Ok W' ∧ arrays s' !! lw = Some W' ∧
    np_sub b (scale lr (reshape_col (Arr1 dbv))) = Ok b' ∧ arrays s' !! lb = Some b' ∧
    (∀ l a, l ≠ lw → l ≠ lb → arrays s !! l = Some a → arrays s' !! l = Some a).
Proof.
  intros (Hn & Hd & Hne & Hr & (W0 & HW & HsW) & (b0 & Hb & Hsb)) Hg HdW Hdb HdWv HsdW
    Hdbv Hlen HW' Hb'.
  rewrite HW in HW'. injection HW' as ->. rewrite Hb in Hb'. injection Hb' as ->.
  set (pd := <[fmt "b" 1 := lb]> (<[fmt "w" 1 := lw]> ∅)) in *.
  assert (pd !! fmt "w" 1 = Some lw) as Hw1 by apply lookup_w1.
  assert (pd !! fmt "b" 1 = Some lb) as Hb1 by apply lookup_insert_eq.
  assert (db ≠ lw) as Hdblw.
  { intros ->. destruct HsW as (? & -> & _). congruence. }
  (* the weights *)
  destruct (total1_run (scale lr) dW s _ HdWv) as (l1 & s1 & H1 & Hl1 & F1).
  destruct (broadcast_same_shape Rminus W (scale lr dWv) r k HsW (scale_shape _ _ _ _ HsdW))
    as (W' & HsubW & HsW').
  destruct (isub_run lw l1 s1 W (scale lr dWv) W') as (s2 & H2 & Ha2 & Hd2 & Hn2);
    [by eapply frame_array|done|done|
     by rewrite (has_shape_shape _ _ _ HsW), (has_shape_shape _ _ _ HsW')|].
  assert (dicts s2 !! p = Some pd) as Hp2.
  { rewrite Hd2. by eapply frame_dict. }
  destruct (dict_set_ok p (fmt "w" 1) lw s2 pd Hp2) as (s3 & H3 & Hd3 & Ha3 & Hn3).
  rewrite (insert_id pd) in Hd3 by done. rewrite insert_id in Hd3 by done.
  (* the biases *)
  assert (arrays s3 !! db = Some (Arr1 dbv)) as Hdb3.
  { rewrite Ha3, Ha2, lookup_insert_ne by done. by eapply frame_array. }
  destruct (total1_run reshape_col db s3 _ Hdb3) as (l2 & s4 & H4 & Hl2 & F4).
  destruct (total1_run (scale lr) l2 s4 _ Hl2) as (l3 & s5 & H5 & Hl3 & F5).
  assert (has_shape (scale lr (reshape_col (Arr1 dbv))) r 1) as Hstep.
  { apply scale_shape. rewrite <- Hlen. apply reshape_col_shape. }
  destruct (broadcast_same_shape Rminus b _ r 1 Hsb Hstep) as (b' & Hsubb & Hsb').
  assert (arrays s5 !! lb = Some b) as Hb5.
  { eapply frame_array; [exact F5|]. eapply frame_array; [exact F4|].
    rewrite Ha3, Ha2, lookup_insert_ne by done. by eapply frame_array. }
  destruct (isub_run lb l3 s5 b _ b' Hb5 Hl3 Hsubb) as (s6 & H6 & Ha6 & Hd6 & Hn6);
    [by rewrite (has_shape_shape _ _ _ Hsb), (has_shape_shape _ _ _ Hsb')|].
  assert (dicts s5 !! p = Some pd) as Hp5.
  { eapply frame_dict; [exact F5|]. eapply frame_dict; [exact F4|]. by rewrite Hd3. }
  assert (dicts s6 !! p = Some pd) as Hp6 by by rewrite Hd6.
  destruct (dict_set_ok p (fmt "b" 1) lb s6 pd Hp6) as (s7 & H7 & Hd7 & Ha7 & Hn7).
  rewrite (insert_id pd) in Hd7 by done. rewrite insert_id in Hd7 by done.
  assert (arrays s5 !! lw = Some W') as Hw5.
  { eapply frame_array; [exact F5|]. eapply frame_array; [exact F4|].
    rewrite Ha3, Ha2. apply lookup_insert_eq. }
  exists s7, W', b'. split_and!.
  - unfold update_parameters, dict_len.
    assert (dict_len p s = Ok (2%nat, s)) as Hlen2.
    { unfold dict_len. rewrite Hd. unfold pd. by rewrite size_w1_b1. }
    rewrite (bind_run _ _ _ _ _ Hlen2).
    change (seqZ 1 (Z.of_nat (2 `div` 2))) with [1%Z]. cbn [for_in].
    assert (update_layer p grads lr 1 () s = Ok ((), s7)) as Hlayer.
    { unfold update_layer.
      rewrite (bind_run _ _ _ _ _ (dict_get_run _ _ _ _ _ Hd Hw1)).
      rewrite (bind_run _ _ _ _ _ (dict_get_run _ _ _ _ _ Hg HdW)).
      rewrite (bind_run _ _ _ _ _ H1), (bind_run _ _ _ _ _ H2), (bind_run _ _ _ _ _ H3).
      assert (dicts s3 !! p = Some pd) as Hp3 by by rewrite Hd3.
      assert (dicts s3 !! grads = Some gd) as Hg3.
      { rewrite Hd3, Hd2. by eapply frame_dict. }
      rewrite (bind_run _ _ _ _ _ (dict_get_run _ _ _ _ _ Hp3 Hb1)).
      rewrite (bind_run _ _ _ _ _ (dict_get_run _ _ _ _ _ Hg3 Hdb)).
      by rewrite (bind_run _ _ _ _ _ H4), (bind_run _ _ _ _ _ H5),
        (bind_run _ _ _ _ _ H6). }
    assert ((v' ← update_layer p grads lr 1 (); mret v') s = Ok ((), s7)) as Hloop.
    { by rewrite (bind_run _ _ _ _ _ Hlayer). }
    by rewrite (bind_run _ _ _ _ _ Hloop).
  - split_and!.
    + rewrite Hn7, Hn6, (frame_n_layers _ _ F5), (frame_n_layers _ _ F4), Hn3, Hn2.
      by rewrite (frame_n_layers _ _ F1).
    + by rewrite Hd7, Hd6.
    + done.
    + done.
    + exists W'. split; [|done]. rewrite Ha7, Ha6. by rewrite lookup_insert_ne.
    + exists b'. split; [|done]. rewrite Ha7, Ha6. apply lookup_insert_eq.
  - done.
  - rewrite Ha7, Ha6. by rewrite lookup_insert_ne.
  - done.
  - rewrite Ha7, Ha6. apply lookup_insert_eq.
  - intros l a Hlw Hlb Hl. rewrite Ha7, Ha6, lookup_insert_ne by done.
    eapply frame_array; [exact F5|]. eapply frame_array; [exact F4|].
    rewrite Ha3, Ha2, lookup_insert_ne by done. by eapply frame_array.
Qed.

(** A backward propagation and the update that follows it: the network
    stays a network of the same shape, in the same arrays. *)
Lemma backward_update_run AL Y c s p lw lb r k m lr Yv :
  one_layer s p lw lb r k → cache_shaped s c r k m → c ≠ p →
  arrays s !! Y = Some Yv → has_shape Yv r m → (0 < m)%nat →
  ∃ grads s1 s2,
    L_model_backward AL Y [c] s = Ok (grads, s1) ∧
    update_parameters p grads lr s1 = Ok (p, s2) ∧
    one_layer s2 p lw lb r k ∧
    (∀ l a, l ≠ lw → l ≠ lb → arrays s !! l = Some a → arrays s2 !! l = Some a).
Proof.
  intros Hnet (d & lA & lW & lZ & Av & Wv & Zv & Hd & HA & HW & HZ & HAv & HWv & HZv &
               HsA & HsW & HsZ) Hcp HY HsY Hm.
  pose proof Hnet as (Hn & Hp & _ & Hr & (W & HWp & _) & (b & Hbp & _)).
  destruct (backward_one_layer_returns AL Y c s d lA lW lZ Av Wv Zv Yv r k m)
    as (grads & s1 & Hback & gd & dW & db & dWv & dbv & Hg & HdW & Hdb & HdWv & HsdW &
        Hdbv & Hlen); try done.
  apply L_model_backward_inv in Hback as Hfr. destruct Hfr as [Harr Hdic Hnl].
  assert (one_layer s1 p lw lb r k) as Hnet1.
  { eapply one_layer_arrays; [done| |done|done].
    rewrite Hp. apply Hdic; [|done]. by intros ->%list_elem_of_singleton. }
  destruct (update_one_layer_run p grads lr s1 lw lb r k gd dW db dWv dbv W b)
    as (s2 & W' & b' & Hup & Hnet2 & _ & _ & _ & _ & Hkeep); try done.
  { by eapply lookup_weaken. }
  { by eapply lookup_weaken. }
  exists grads, s1, s2. split_and!; try done.
  intros l a Hlw Hlb Hl. apply Hkeep; [done..|]. by eapply lookup_weaken.
Qed.

Lemma cache_shaped_arrays s s' c r k m :
  arrays s ⊆ arrays s' → dicts s' !! c = dicts s !! c →
  cache_shaped s c r k m → cache_shaped s' c r k m.
Proof.
  intros Ha Hd (d & lA & lW & lZ & Av & Wv & Zv & Hc & ? & ? & ? & ? & ? & ? & ? & ? & ?).
  exists d, lA, lW, lZ, Av, Wv, Zv.
  split_and!; try done; [congruence|by eapply lookup_weaken..].
Qed.

(** [initialize_parameters] for one layer of [r] units on [k] inputs:
    the dict of the weights and the biases, two new arrays. *)
Lemma initialize_one_layer_run k r s :
  (0 < k)%nat → (0 < r)%nat →
  ∃ p lw lb s',
    initialize_parameters [Z.of_nat k; Z.of_nat r] s = Ok (p, s') ∧
    one_layer s' p lw lb r k ∧ arrays s ⊆ arrays s' ∧
    arrays s !! lw = None ∧ arrays s !! lb = None.
Proof.
  intros Hk Hr. unfold initialize_parameters.
  pose (s1 := mkState (arrays s) (dicts s) (Some 1%Z) (gauss s) (randint s) (stdout s)).
  destruct (new_array_run (Arr1 (replicate 2 0)) s1) as (l0 & s2 & H2 & _ & F2).
  destruct (new_dict_run ∅ s2) as (p & s3 & H3 & Hp & Hfresh & F3).
  destruct (init_layer_run [Z.of_nat k; Z.of_nat r] p 0 k r s3 ∅ eq_refl eq_refl Hk Hp)
    as (s4 & lw & lb & W & b & H4 & Hd4 & HW & Hb & HsW & Hsb & Ha4 & Hn4 & Hfw & Hfb & Hne).
  assert (arrays s ⊆ arrays s3) as Ha3.
  { change (arrays s) with (arrays s1).
    etrans; [apply (frame_arrays _ _ F2)|apply (frame_arrays _ _ F3)]. }
  exists p, lw, lb, s4. split_and!.
  - rewrite (bind_run _ _ _ _ _ (eq_refl : set_n_layers _ s = Ok ((), s1))).
    rewrite (bind_run _ _ _ _ _ H2), (bind_run _ _ _ _ _ H3).
    change (seqZ 1 (Z.of_nat (length [Z.of_nat k; Z.of_nat r]) - 1)) with [1%Z].
    cbn [for_in].
    assert ((v' ← init_layer [Z.of_nat k; Z.of_nat r] p 1; mret v') s3 = Ok ((), s4))
      as Hloop by by rewrite (bind_run _ _ _ _ _ H4).
    by rewrite (bind_run _ _ _ _ _ Hloop).
  - split_and!; [|exact Hd4|done|done|by exists W|by exists b].
    by rewrite Hn4, (frame_n_layers _ _ F3), (frame_n_layers _ _ F2).
  - by etrans.
  - by eapply lookup_weaken_None.
  - by eapply lookup_weaken_None.
Qed.

End Training.

(** ** The training loop on the small network *)

Module TinyRun.
Import Np Py ANN RList Frame Run SoftmaxFacts CostFacts Forward Shapes Network Trainer
  Backward Init Training.
Local Open Scope R_scope.

(** The cost of a positive prediction for the one example of class 0. *)
Lemma cost_run z y s a :
  arrays s !! z = Some (Arr2 1 [[a]]) → 0 < a → arrays s !! y = Some Tiny.Y →
  ∃ cost s', compute_cost z y s = Ok (cost, s') ∧ frame s s'.
Proof.
  intros Hz Ha HY.
  destruct (compute_cost_run z y s _ _ (cross_entropy 1 [[a]] [[1]]) Hz HY)
    as (s' & Hrun & F).
  - apply compute_cost_val_one_hot; [by repeat constructor..|done|apply Tiny.one_hot_Y|lia|].
    intros j Hj. assert (j = 0%nat) as -> by lia. simpl.
    by rewrite decide_True.
  - by exists (cross_entropy 1 [[a]] [[1]]), s'.
Qed.

Lemma shape_1_1_inv a : has_shape a 1 1 → ∃ x, a = Arr2 1 [[x]].
Proof.
  intros (rows & -> & Hlen & Hrect).
  destruct rows as [|r [|??]]; simplify_eq/=.
  apply Forall_inv in Hrect. destruct r as [|x [|??]]; simplify_eq/=. by exists x.
Qed.

Lemma softmax_output_1_1 x : softmax_output (Arr2 1 [[x]]) → 0 < x.
Proof.
  intros (c & rows & [= <- <-] & _ & _ & Hsum).
  cbv in Hsum. injection Hsum as Hx. change R0 with 0 in Hx. change R1 with 1 in Hx. lra.
Qed.

(** With the example of [Tiny] for validation, a network of one unit on
    one input has the accuracy 1, and the cost of a positive prediction
    [z] is defined. *)
Lemma validation_run s p Xv Yv z y a :
  net_ok s p 1 [1%nat] →
  arrays s !! Xv = Some Tiny.X → arrays s !! Yv = Some Tiny.Y →
  arrays s !! z = Some (Arr2 1 [[a]]) → 0 < a → arrays s !! y = Some Tiny.Y →
  ∃ s1 cost s2,
    predict Xv Yv p s = Ok (1, s1) ∧ compute_cost z y s1 = Ok (cost, s2) ∧ frame s s2.
Proof.
  intros Hnet HXv HYv Hz Ha Hy.
  destruct (predict_run Xv Yv p s 1 [1%nat] Tiny.X Tiny.Y 1)
    as (acc & s1 & Hp & F1 & _ & Hacc);
    [done|done|done|apply Tiny.shape_1_1|lia|done|apply Tiny.shape_1_1|].
  rewrite Hacc in Hp by done.
  destruct (cost_run z y s1 a) as (cost & s2 & Hc & F2);
    [by eapply frame_array|done|by eapply frame_array|].
  exists s1, cost, s2. split_and!; [done..|by eapply frame_trans].
Qed.

(** In a store that extends [Tiny.store], the sampling block sees the
    accuracy 1, whatever positive prediction [z_output] holds. *)
Lemma sampling_run s z y a :
  frame Tiny.store s → arrays s !! z = Some (Arr2 1 [[a]]) → 0 < a →
  arrays s !! y = Some Tiny.Y →
  ∃ s1 cost s2,
    predict 3%positive 4%positive 1%positive s = Ok (1, s1) ∧
    compute_cost z y s1 = Ok (cost, s2).
Proof.
  intros F Hz Ha Hy.
  destruct (validation_run s 1%positive 3%positive 4%positive z y a)
    as (s1 & cost & s2 & Hp & Hc & _); try done.
  - eapply net_ok_frame; [done|apply Tiny.store_net].
  - by eapply frame_array.
  - by eapply frame_array.
  - by exists s1, cost, s2.
Qed.

(** [W - lr * dW] for matrices of one entry. *)
Lemma sub_1_1 x y lr :
  np_sub (Arr2 1 [[x]]) (scale lr (Arr2 1 [[y]])) = Ok (Arr2 1 [[x - lr * y]]).
Proof. unfold np_sub. simpl scale. by rewrite broadcast_same by by repeat constructor. Qed.

Lemma store_one_layer : one_layer Tiny.store 1%positive 1%positive 2%positive 1 1.
Proof.
  split_and!; [done| |done|lia| |].
  - apply (f_equal Some). apply map_eq. intros key.
    unfold Tiny.parameters.
    destruct (decide (key = "w1")) as [->|Hw]; [done|].
    destruct (decide (key = "b1")) as [->|Hb]; [done|].
    rewrite !lookup_insert_ne; done.
  - exists Tiny.W1. split; [done|apply Tiny.shape_1_1].
  - exists Tiny.B1. split; [done|apply Tiny.shape_1_1].
Qed.

(** The one batch of the example of [Tiny] and its forward propagation. *)
Lemma first_batch_run s v lw lb Xt Yt :
  one_layer s (params v) lw lb 1 1 →
  arrays s !! Xt = Some Tiny.X → arrays s !! Yt = Some Tiny.Y →
  ∃ z c batch_y s' a,
    batch_forward Xt Yt 1 0 v s = Ok ((z, [c], batch_y), s') ∧
    frame s s' ∧ arrays s' !! z = Some (Arr2 1 [[a]]) ∧ 0 < a ∧
    arrays s' !! batch_y = Some Tiny.Y ∧ cache_shaped s' c 1 1 1 ∧ dicts s !! c = None.
Proof.
  intros Hnet HX HY.
  destruct (op1_run (λ a, slice_columns a 0 1) Xt s Tiny.X Tiny.X HX eq_refl)
    as (bx & s1 & H1 & Hbx & F1).
  assert (arrays s1 !! Yt = Some Tiny.Y) as HY1 by by eapply frame_array.
  destruct (op1_run (λ a, slice_columns a 0 1) Yt s1 Tiny.Y Tiny.Y HY1 eq_refl)
    as (by_ & s2 & H2 & Hby & F2).
  assert (frame s s2) as F02 by eauto using frame_trans.
  destruct (forward_one_layer_run bx (params v) false s2 lw lb Tiny.X 1 1 1)
    as (AL & c & s3 & ALv & H3 & F3 & Hc & Hcache & HAL & HALs & Hout).
  { by eapply one_layer_frame. }
  { exact (frame_array _ _ _ _ F2 Hbx). }
  { apply Tiny.shape_1_1. }
  { lia. }
  apply shape_1_1_inv in HALs as (x & ->). apply softmax_output_1_1 in Hout.
  exists AL, c, by_, s3, x. split_and!; try done.
  - unfold batch_forward.
    rewrite (bind_run _ _ _ _ _ (shape1_of_run Xt s 1 [[0]] HX)).
    rewrite (bind_run _ _ _ _ _ H1).
    rewrite (bind_run _ _ _ _ _ (shape1_of_run Yt s1 1 [[1]] HY1)).
    rewrite (bind_run _ _ _ _ _ H2).
    by rewrite (bind_run _ _ _ _ _ H3).
  - eauto using frame_trans.
  - by eapply frame_array.
  - eapply lookup_weaken_None; [done|]. apply (frame_dicts _ _ F02).
Qed.


(** The array [l] holds [a], and is neither of the arrays [lw] and [lb]
    of the parameters. *)
Definition holds (s : state) (lw lb l : loc) (a : ndarray) : Prop :=
  arrays s !! l = Some a ∧ l ≠ lw ∧ l ≠ lb.

(** A network of one unit on one input, with the example of [Tiny] for
    training and for validation. *)
Definition tiny (s : state) (p lw lb Xt Yt Xv Yv : loc) : Prop :=
  one_layer s p lw lb 1 1 ∧
  holds s lw lb Xt Tiny.X ∧ holds s lw lb Yt Tiny.Y ∧
  holds s lw lb Xv Tiny.X ∧ holds s lw lb Yv Tiny.Y.

Lemma frame_printed s ln : frame s (printed s ln).
Proof. by split. Qed.

(** A sampling point that records: the sample, then the gradient step. *)
Lemma step_records s p lw lb Xt Yt Xv Yv lr v :
  tiny s p lw lb Xt Yt Xv Yv → params v = p → plateau v 1 = false →
  ∃ cost s',
    batch_step Xt Yt Xv Yv lr 1 0 v s = Ok (Next (recorded v 1 cost), s') ∧
    tiny s' p lw lb Xt Yt Xv Yv.
Proof.
  intros (Hnet & HXt & HYt & HXv & HYv) <- Hpl.
  destruct (first_batch_run s v lw lb Xt Yt Hnet (proj1 HXt) (proj1 HYt))
    as (z & c & batch_y & s1 & a & H1 & F1 & Hz & Ha & Hy & Hcache & Hc).
  destruct (validation_run s1 (params v) Xv Yv z batch_y a)
    as (s2 & cost & s3 & Hp & Hcost & F3);
    [eapply one_layer_net; by eapply one_layer_frame|
     eapply frame_array; [done|apply HXv]|eapply frame_array; [done|apply HYv]|done..|].
  pose proof (sample_run Xv Yv z batch_y v s1 1 s2 cost s3 Hp Hcost) as Hs.
  rewrite Hpl in Hs.
  set (s4 := printed s3 (StepLine (training_step v) 1 cost)) in *.
  assert (frame s1 s4) as F14.
  { eapply frame_trans; [exact F3|]. apply frame_printed. }
  assert (frame s s4) as F4 by by eapply frame_trans.
  destruct (backward_update_run z batch_y c s4 (params v) lw lb 1 1 1 lr Tiny.Y)
    as (grads & s5 & s6 & Hback & Hup & Hnet6 & Hkeep).
  { by eapply one_layer_frame. }
  { eapply cache_shaped_arrays; [apply (frame_arrays _ _ F14)| |done].
    destruct Hcache as (d & ? & ? & ? & ? & ? & ? & Hd & _).
    rewrite Hd. by eapply (frame_dict s1 s4). }
  { intros ->. destruct Hnet as (_ & Hd & _). congruence. }
  { by eapply (frame_array s1 s4). }
  { apply Tiny.shape_1_1. }
  { lia. }
  exists cost, s6. split.
  - unfold batch_step. rewrite (bind_run _ _ _ _ _ H1).
    change (sampling_point 0) with true. cbv iota.
    rewrite (bind_run _ _ _ _ _ Hs). cbv iota.
    rewrite (bind_run _ _ _ _ _ Hback).
    change (params (recorded v 1 cost)) with (params v).
    by rewrite (bind_run _ _ _ _ _ Hup).
  - assert (∀ l x, holds s lw lb l x → holds s6 lw lb l x) as Hh.
    { intros l x (Hl & Hlw & Hlb). split; [|done].
      apply Hkeep; [done..|]. by eapply frame_array. }
    split_and!; [done|by apply Hh..].
Qed.

(** A sampling point that stops: no gradient step. *)
Lemma step_stops s p lw lb Xt Yt Xv Yv lr v :
  tiny s p lw lb Xt Yt Xv Yv → params v = p → plateau v 1 = true →
  ∃ s', batch_step Xt Yt Xv Yv lr 1 0 v s = Ok (Break (stopped v), s').
Proof.
  intros (Hnet & HXt & HYt & HXv & HYv) <- Hpl.
  destruct (first_batch_run s v lw lb Xt Yt Hnet (proj1 HXt) (proj1 HYt))
    as (z & c & batch_y & s1 & a & H1 & F1 & Hz & Ha & Hy & Hcache & Hc).
  destruct (validation_run s1 (params v) Xv Yv z batch_y a)
    as (s2 & cost & s3 & Hp & Hcost & F3);
    [eapply one_layer_net; by eapply one_layer_frame|
     eapply frame_array; [done|apply HXv]|eapply frame_array; [done|apply HYv]|done..|].
  pose proof (sample_run Xv Yv z batch_y v s1 1 s2 cost s3 Hp Hcost) as Hs.
  rewrite Hpl in Hs. exists s3.
  unfold batch_step. rewrite (bind_run _ _ _ _ _ H1).
  change (sampling_point 0) with true. cbv iota.
  by rewrite (bind_run _ _ _ _ _ Hs).
Qed.

(** Two epochs on the example: the first records the accuracy 1, the
    second sees it again and stops. *)
Lemma epochs_converge s p lw lb Xt Yt Xv Yv lr :
  tiny s p lw lb Xt Yt Xv Yv →
  ∃ cost s',
    epoch_loop Xt Yt Xv Yv lr 2 1 [0; 1]%Z (mkLocals p PInf false [] [] 0) s
      = Ok (mkLocals p (Fin 1) true [cost] [1] 1, s').
Proof.
  intros Ht.
  destruct (step_records s p lw lb Xt Yt Xv Yv lr (mkLocals p PInf false [] [] 0) Ht
              eq_refl eq_refl) as (cost & s1 & H1 & Ht1).
  destruct (step_stops s1 p lw lb Xt Yt Xv Yv lr
              (recorded (mkLocals p PInf false [] [] 0) 1 cost) Ht1 eq_refl)
    as (s2 & H2).
  { rewrite (plateau_Fin _ 1) by done. apply bool_decide_eq_true_2.
    unfold EPSILON. rewrite Rminus_diag, Rabs_R0. lra. }
  set (v0 := mkLocals p PInf false [] [] 0) in *.
  assert (batch_loop (batch_step Xt Yt Xv Yv lr 1) [0%nat] v0 s
          = Ok (Next (recorded v0 1 cost), s1)) as Hloop1.
  { cbn [batch_loop]. by rewrite (bind_run _ _ _ _ _ H1). }
  assert (batch_loop (batch_step Xt Yt Xv Yv lr 1) [0%nat] (recorded v0 1 cost) s1
          = Ok (Break (stopped (recorded v0 1 cost)), s2)) as Hloop2.
  { cbn [batch_loop]. by rewrite (bind_run _ _ _ _ _ H2). }
  destruct Ht as (_ & (HXt & _) & _). destruct Ht1 as (_ & (HXt1 & _) & _).
  exists cost, s2. cbn [epoch_loop]. change (converged v0) with false. cbv iota.
  rewrite (bind_run _ _ _ _ _ (shape1_of_run Xt s 1 [[0]] HXt)).
  rewrite (bind_run _ _ _ _ _ (lift_run (range_step 1 1) [0%nat] s eq_refl)).
  rewrite (bind_run _ _ _ _ _ Hloop1).
  change (converged (locals_of (Next (recorded v0 1 cost)))) with false. cbv iota.
  rewrite (bind_run _ _ _ _ _ (shape1_of_run Xt s1 1 [[0]] HXt1)).
  rewrite (bind_run _ _ _ _ _ (lift_run (range_step 1 1) [0%nat] s1 eq_refl)).
  by rewrite (bind_run _ _ _ _ _ Hloop2).
Qed.

Lemma split_examples :
  take_columns Tiny.examples_X (take (validation_size 2) [1; 0]%nat) = Ok Tiny.X ∧
  take_columns Tiny.examples_Y (take (validation_size 2) [1; 0]%nat) = Ok Tiny.Y ∧
  take_columns Tiny.examples_X (drop (validation_size 2) [1; 0]%nat) = Ok Tiny.X ∧
  take_columns Tiny.examples_Y (drop (validation_size 2) [1; 0]%nat) = Ok Tiny.Y.
Proof.
  change (validation_size 2) with 1%nat. cbn [take drop].
  unfold take_columns, Tiny.examples_X, Tiny.examples_Y.
  rewrite !decide_True by (repeat constructor). done.
Qed.

(** [L_layer_model] on the two examples, for a network of one layer and
    two epochs: the shuffle (with draws 0) leaves example 1 for validation
    and example 0 for training; the first epoch records the accuracy 1 and
    takes a gradient step, the second epoch sees the accuracy 1 again and
    stops. *)
Lemma train_converges lr :
  ∃ p cost s',
    train 1%positive 2%positive [1; 1]%Z lr 2 1 Tiny.examples
      = Ok (mkLocals p (Fin 1) true [cost] [1] 1, s').
Proof.
  destruct split_examples as (HvX & HvY & HtX & HtY).
  set (s0 := mkState (arrays Tiny.examples) (dicts Tiny.examples)
               (self_n_layers Tiny.examples) (gauss Tiny.examples)
               (λ k, randint Tiny.examples (k + (2 - 1))) (stdout Tiny.examples)).
  assert (shuffled_arange 2 Tiny.examples = Ok ([1; 0]%nat, s0)) as Hsh by reflexivity.
  assert (arrays s0 !! 1%positive = Some Tiny.examples_X) as HX0 by reflexivity.
  assert (arrays s0 !! 2%positive = Some Tiny.examples_Y) as HY0 by reflexivity.
  destruct (op1_run (λ a, take_columns a (take (validation_size 2) [1; 0]%nat))
              1%positive s0 _ _ HX0 HvX) as (Xv & s1 & H1 & HXv & F1).
  destruct (op1_run (λ a, take_columns a (take (validation_size 2) [1; 0]%nat))
              2%positive s1 _ _ (frame_array _ _ _ _ F1 HY0) HvY)
    as (Yv & s2 & H2 & HYv & F2).
  assert (frame s0 s2) as F02 by eauto using frame_trans.
  destruct (op1_run (λ a, take_columns a (drop (validation_size 2) [1; 0]%nat))
              1%positive s2 _ _ (frame_array _ _ _ _ F02 HX0) HtX)
    as (Xt & s3 & H3 & HXt & F3).
  assert (frame s0 s3) as F03 by eauto using frame_trans.
  destruct (op1_run (λ a, take_columns a (drop (validation_size 2) [1; 0]%nat))
              2%positive s3 _ _ (frame_array _ _ _ _ F03 HY0) HtY)
    as (Yt & s4 & H4 & HYt & F4).
  destruct (initialize_one_layer_run 1 1 s4) as (p & lw & lb & s5 & H5 & Hnet & Ha5 & Hfw & Hfb);
    [lia..|].
  assert (∀ l a, arrays s4 !! l = Some a → holds s5 lw lb l a) as Hh.
  { intros l a Hl. split; [by eapply lookup_weaken|]. split; congruence. }
  destruct (epochs_converge s5 p lw lb Xt Yt Xv Yv lr) as (cost & s6 & H6).
  { split_and!; [done|apply Hh..]; [|done| |].
    - exact (frame_array _ _ _ _ F4 HXt).
    - eapply frame_array; [exact F4|]. eapply frame_array; [exact F3|].
      exact (frame_array _ _ _ _ F2 HXv).
    - eapply frame_array; [exact F4|]. exact (frame_array _ _ _ _ F3 HYv). }
  exists p, cost, s6. unfold train.
  rewrite (bind_run _ _ _ _ _ (shape1_of_run 1%positive Tiny.examples 2 [[0; 0]] eq_refl)).
  rewrite (bind_run _ _ _ _ _ Hsh), (bind_run _ _ _ _ _ H1), (bind_run _ _ _ _ _ H2).
  rewrite (bind_run _ _ _ _ _ H3), (bind_run _ _ _ _ _ H4).
  change [1%Z; 1%Z] with [Z.of_nat 1; Z.of_nat 1].
  rewrite (bind_run _ _ _ _ _ H5).
  exact H6.
Qed.

Lemma div_1_1 a b : b ≠ 0 → np_div (Arr2 1 [[a]]) (Arr1 [b]) = Ok (Arr2 1 [[a / b]]).
Proof.
  intros Hb. unfold np_div.
  assert (broadcast Rdiv (Arr2 1 [[a]]) (Arr1 [b]) = Ok (Arr2 1 [[a / b]])) as ->
    by reflexivity.
  cbn [rbind]. rewrite decide_False by done.
  rewrite decide_False; [done|].
  intros [H|H]%Exists_cons; [done|by apply Exists_nil in H].
Qed.

(** [apply_batchnorm] on a matrix of one entry returns [[0]]: the entry
    minus the mean of its row, over the root of the variance plus [eps]. *)
Lemma apply_batchnorm_run A s x :
  arrays s !! A = Some (Arr2 1 [[x]]) →
  ∃ l s', apply_batchnorm A s = Ok (l, s') ∧ arrays s' !! l = Some (Arr2 1 [[0]]).
Proof.
  intros HA.
  set (m := Rsum [x] / INR 1).
  set (v := Rsum [(x - m) * (x - m)] / INR 1 + float_eps).
  assert (0 < v) as Hv.
  { assert (0 < float_eps) as Heps.
    { unfold float_eps. apply Rinv_0_lt_compat, pow_lt. lra. }
    assert (0 <= Rsum [(x - m) * (x - m)] / INR 1) as Hsq.
    { generalize (x - m). intros y. simpl. unfold Rdiv. rewrite Rinv_1.
      pose proof (Rle_0_sqr y) as Hy. unfold Rsqr in Hy. lra. }
    unfold v. lra. }
  assert (x - m = 0) as Hm.
  { unfold m. simpl. unfold Rdiv. rewrite Rinv_1. lra. }
  destruct (op1_run np_mean_axis1 A s _ (Arr1 [m]) HA eq_refl)
    as (mu & s1 & H1 & Hmu & F1).
  destruct (total1_run np_T A s1 _ (frame_array _ _ _ _ F1 HA))
    as (At & s2 & H2 & HAt & F2).
  destruct (op2_run np_sub At mu s2 _ _ (Arr2 1 [[x - m]]) HAt
              (frame_array _ _ _ _ F2 Hmu) eq_refl) as (d & s3 & H3 & Hd & F3).
  destruct (total1_run np_T d s3 _ Hd) as (dT & s4 & H4 & HdT & F4).
  destruct (total1_run np_square dT s4 _ HdT) as (sq & s5 & H5 & Hsq & F5).
  destruct (op1_run np_mean_axis1 sq s5 _
              (Arr1 [Rsum [(x - m) * (x - m)] / INR 1]) Hsq eq_refl)
    as (sigma & s6 & H6 & Hsigma & F6).
  assert (frame s s6) as F06 by eauto 10 using frame_trans.
  destruct (total1_run np_T A s6 _ (frame_array _ _ _ _ F06 HA))
    as (At' & s7 & H7 & HAt' & F7).
  assert (frame s1 s7) as F17 by eauto 10 using frame_trans.
  destruct (op2_run np_sub At' mu s7 _ _ (Arr2 1 [[x - m]]) HAt'
              (frame_array _ _ _ _ F17 Hmu) eq_refl) as (d' & s8 & H8 & Hd' & F8).
  assert (frame s6 s8) as F68 by eauto using frame_trans.
  destruct (total1_run (amap (λ x, x + float_eps)) sigma s8 _
              (frame_array _ _ _ _ F68 Hsigma)) as (se & s9 & H9 & Hse & F9).
  destruct (op1_run np_sqrt se s9 _ (Arr1 [sqrt v]) Hse) as (rt & s10 & H10 & Hrt & F10).
  { unfold np_sqrt. rewrite decide_True; [done|].
    repeat constructor. fold v. lra. }
  assert (frame s8 s10) as F810 by eauto using frame_trans.
  destruct (op2_run np_div d' rt s10 _ _ _ (frame_array _ _ _ _ F810 Hd') Hrt
              (div_1_1 (x - m) (sqrt v) (Rgt_not_eq _ _ (sqrt_lt_R0 _ Hv))))
    as (q & s11 & H11 & Hq & F11).
  destruct (total1_run np_T q s11 _ Hq) as (l & s12 & H12 & Hl & F12).
  exists l, s12. split.
  - unfold apply_batchnorm.
    rewrite (bind_run _ _ _ _ _ H1), (bind_run _ _ _ _ _ H2), (bind_run _ _ _ _ _ H3).
    rewrite (bind_run _ _ _ _ _ H4), (bind_run _ _ _ _ _ H5), (bind_run _ _ _ _ _ H6).
    rewrite (bind_run _ _ _ _ _ H7), (bind_run _ _ _ _ _ H8), (bind_run _ _ _ _ _ H9).
    by rewrite (bind_run _ _ _ _ _ H10), (bind_run _ _ _ _ _ H11).
  - rewrite Hl. do 2 f_equal. cbn. rewrite Hm. unfold Rdiv. by rewrite Rmult_0_l.
Qed.

End TinyRun.

(** ** A network of two layers *)

Module TwoLayers.
Import Np Py ANN RList Frame Run Refine SoftmaxFacts Forward SpecForward Shapes Activations.
Local Open Scope R_scope.

(** One input, one hidden unit, one class: [w1 = [[1]]], [b1 = [[0]]],
    [w2 = [[1]]], [b2 = [[0]]]; the batch [X = [[-1, 2.5]]], whose first
    entry is negative, and the batch [X' = [[1, -2]]], whose first entry is
    positive. *)
Definition W1 : ndarray := Arr2 1 [[1]].
Definition B1 : ndarray := Arr2 1 [[0]].
Definition W2 : ndarray := Arr2 1 [[1]].
Definition B2 : ndarray := Arr2 1 [[0]].
Definition X : ndarray := Arr2 2 [[-1; 5 / 2]].
Definition X' : ndarray := Arr2 2 [[1; -2]].

Definition parameters : gmap string loc :=
  <["w1" := 1%positive]> (<["b1" := 2%positive]>
  (<["w2" := 3%positive]> (<["b2" := 4%positive]> ∅))).

Definition store : state :=
  mkState (<[1%positive := W1]> (<[2%positive := B1]> (<[3%positive := W2]>
           (<[4%positive := B2]> (<[5%positive := X]> (<[6%positive := X']> ∅))))))
          (<[1%positive := parameters]> ∅)
          (Some 2%Z) (λ _, 0) (λ _, 0%nat) [].

Lemma store_layers : has_layers store parameters 1 ([(W1, B1)] ++ [(W2, B2)]).
Proof.
  split; [by exists 1%positive, 2%positive|]. split; [|done].
  by exists 3%positive, 4%positive.
Qed.

Lemma shape_1_2 x y : has_shape (Arr2 2 [[x; y]]) 1 2.
Proof. exists [[x; y]]. split; [done|]. split; [done|]. by repeat constructor. Qed.

(** The linear transform of the hidden layer leaves a batch as it is. *)
Lemma linear_hidden x y : linear_val (Arr2 2 [[x; y]]) W1 B1 = Ok (Arr2 2 [[x; y]]).
Proof.
  unfold linear_val. cbn. rewrite decide_True by done. cbn.
  change (bdim 1 1) with (Some 1%nat). change (bdim 2 1) with (Some 2%nat). cbn.
  do 4 f_equal; [|f_equal]; lra.
Qed.

(** [relu] on the batch [X]: integers. *)
Lemma relu_X : relu_val X = Ok (Arr2 2 [[0; 2]], X).
Proof.
  unfold relu_val, X.
  rewrite (np_vectorize_relu (Arr2 2 [[-1; 5 / 2]]) (-1) [5 / 2] eq_refl).
  - cbn [rbind amap fmap list_fmap]. unfold relu_entry. rewrite !decide_False by lra.
    by rewrite trunc_5_2, trunc_neg_1.
  - right. repeat constructor; simpl; lra.
Qed.

(** The hidden layer on the batch [X], as the code computes it. *)
Lemma hidden_X :
  hidden_layers X [(W1, B1)] = Ok (Arr2 2 [[0; 2]], [mkCache X W1 B1 X]).
Proof.
  cbn [hidden_layers]. unfold layer_unit. unfold X at 1. rewrite linear_hidden.
  cbn [rbind]. rewrite decide_True by done. fold X. by rewrite relu_X.
Qed.

(** The hidden layer on the batch [X], as the specification words it. *)
Lemma spec_hidden_X :
  spec_hidden_layers X [(W1, B1)] = Ok (Arr2 2 [[0; 5 / 2]], [mkCache X W1 B1 X]).
Proof.
  cbn [spec_hidden_layers]. unfold spec_layer_unit. unfold X at 1. rewrite linear_hidden.
  cbn [rbind]. rewrite decide_True by done. unfold spec_relu.
  cbn [rbind amap fmap list_fmap fst snd].
  rewrite (Rmax_right (-1) 0), (Rmax_left (5 / 2) 0) by lra. done.
Qed.

(** The first entry of the hidden layer on the batch [X'] is positive. *)
Lemma hidden_first_positive_X' : hidden_first_positive X' [(W1, B1)].
Proof.
  exists X'. split; [apply linear_hidden|]. split; [|done].
  unfold first_positive. simpl. lra.
Qed.

Lemma store_shaped : layers_shaped 1 ([(W1, B1)] ++ [(W2, B2)]) [1%nat; 1%nat].
Proof.
  split; [lia|]. split; [apply Tiny.shape_1_1|]. split; [apply Tiny.shape_1_1|].
  split; [lia|]. split; [apply Tiny.shape_1_1|]. split; [apply Tiny.shape_1_1|done].
Qed.

End TwoLayers.

(** * The claims *)

Import Np Py ANN RList Frame Run Refine SoftmaxFacts SoftmaxRun CostFacts Forward SpecForward
  Shapes Network Trainer.




(** C4.  For a cache holding [Z] and the labels [Y], [softmax_backward]
    returns [softmax(Z) - Y]; and when the cached [Z] is the shifted input
    that [softmax] returned for a pre-activation [Z0], this is
    [softmax(Z0) - Y]: the softmax of the shifted input is the softmax of
    the input. *)
Theorem softmax_backward_closed_form s dA cache d Zl Yl Zc Yv :
  dicts s !! cache = Some d → d !! "Z" = Some Zl → d !! "Y" = Some Yl →
  arrays s !! Zl = Some Zc → arrays s !! Yl = Some Yv →
  (∀ A Zs D,
     softmax_val Zc = Ok (A, Zs) → np_sub A Yv = Ok D →
     ∃ dZ s', softmax_backward dA cache s = Ok (dZ, s') ∧ arrays s' !! dZ = Some D) ∧
  (∀ Z0 A0 D,
     wf Z0 → softmax_val Z0 = Ok (A0, Zc) → np_sub A0 Yv = Ok D →
     softmax_val Zc = Ok (A0, Zc) ∧
     ∃ dZ s', softmax_backward dA cache s = Ok (dZ, s') ∧ arrays s' !! dZ = Some D).
Proof.
  intros Hd HZ HY HZc HYv. split.
  - intros A Zs D Hval Hsub.
    destruct (softmax_backward_run dA cache s d Zl Yl Zc Yv A Zs D)
      as (dZ & s' & Hrun & HdZ & _); eauto.
  - intros Z0 A0 D Hwf Hval Hsub.
    pose proof (softmax_val_shifted Z0 A0 Zc Hwf Hval) as Hval'. split; [done|].
    destruct (softmax_backward_run dA cache s d Zl Yl Zc Yv A0 Zc D)
      as (dZ & s' & Hrun & HdZ & _); eauto.
Qed.

Lemma softmax_backward_closed_form_witness :
  ∃ A0 D,
    softmax_val Tiny.X = Ok (A0, Tiny.Zs) ∧ np_sub A0 Tiny.Y = Ok D ∧
    softmax_val Tiny.Zs = Ok (A0, Tiny.Zs) ∧
    ∃ dZ s', softmax_backward 4%positive 2%positive Tiny.store = Ok (dZ, s') ∧
             arrays s' !! dZ = Some D.
Proof.
  assert (rect 1 [[0%R]]) as Hrect by repeat constructor.
  pose proof (softmax_val_eq 1 [0%R] [] Hrect) as Hval. cbv zeta in Hval.
  eexists _, _. split; [exact Hval|].
  assert (∀ x, np_sub (Arr2 1 [[x]]) Tiny.Y = Ok (Arr2 1 [[(x - 1)%R]])) as Hsub by done.
  split; [apply Hsub|].
  apply (proj2 (softmax_backward_closed_form Tiny.store 4%positive 2%positive Tiny.cache
                  5%positive 4%positive Tiny.Zs Tiny.Y eq_refl eq_refl eq_refl
                  eq_refl eq_refl) Tiny.X).
  - exact Hrect.
  - exact Hval.
  - apply Hsub.
Defined.

(** C1.  For predictions [AL] and one-hot labels [Y] of the same shape, of
    [c > 0] columns, with [AL] positive at the true class of every column,
    [compute_cost] returns the categorical cross-entropy: minus the average
    over the columns of the logarithm of the prediction at the true class.
    The entries selected by [Y > 0] are the ones that count. *)
Theorem compute_cost_cross_entropy s AL Y c rowsA rowsY :
  arrays s !! AL = Some (Arr2 c rowsA) → arrays s !! Y = Some (Arr2 c rowsY) →
  rect c rowsA → rect c rowsY → length rowsA = length rowsY → (0 < c)%nat →
  (∀ j, (j < c)%nat → one_hot (column j rowsY)) →
  (∀ j, (j < c)%nat → (0 < nth (true_class (column j rowsY)) (column j rowsA) 0)%R) →
  ∃ s', compute_cost AL Y s = Ok (cross_entropy c rowsA rowsY, s') ∧
        Rsum (ln <$> concat (zip_with select rowsA rowsY)) =
          sum_f c (λ j, ln (nth (true_class (column j rowsY)) (column j rowsA) 0%R)).
Proof.
  intros HAL HY HA HYr Hrows Hc Hhot Hpos.
  destruct (compute_cost_run AL Y s _ _ _ HAL HY
              (compute_cost_val_one_hot c rowsA rowsY HA HYr Hrows Hhot Hc Hpos))
    as (s' & Hrun & _).
  exists s'. split; [done|]. by apply sum_selected.
Qed.

Lemma compute_cost_cross_entropy_witness :
  ∃ s', compute_cost 4%positive 4%positive Tiny.store
          = Ok (cross_entropy 1 [[1%R]] [[1%R]], s') ∧
        Rsum (ln <$> concat (zip_with select [[1%R]] [[1%R]])) =
          sum_f 1 (λ j, ln (nth (true_class (column j [[1%R]])) (column j [[1%R]]) 0%R)).
Proof.
  apply (compute_cost_cross_entropy Tiny.store 4%positive 4%positive 1 [[1%R]] [[1%R]]).
  - reflexivity.
  - reflexivity.
  - repeat constructor.
  - repeat constructor.
  - reflexivity.
  - lia.
  - apply Tiny.one_hot_Y.
  - intros j Hj. assert (j = 0%nat) as -> by lia. simpl.
    rewrite decide_True by done. simpl. lra.
Defined.

(** C3.  [L_model_forward] does not apply the ReLU of the specification,
    [max(Z, 0)], on every input.  On the network of two layers of
    [TwoLayers] and the batch [[-1, 2.5]], whose first entry is negative,
    it returns two caches, and the activations of the hidden layer, which
    the second cache holds under ['A'], are [[0, 2]]: [np.vectorize] has
    made them integers.  The chain of the specification, the ReLU unit on
    layer 1 and the softmax unit on layer 2, gives [[0, 2.5]] there. *)
Theorem forward_cuts_hidden_activations_to_integers :
  ∃ AL c1 c2 s' d lA ALv cv1 cv2,
    L_model_forward 5%positive 1%positive false TwoLayers.store = Ok ((AL, [c1; c2]), s') ∧
    dicts s' !! c2 = Some d ∧ d !! "A" = Some lA ∧
    arrays s' !! lA = Some (Arr2 2 [[0; 2]]%R) ∧
    spec_forward_all TwoLayers.X [(TwoLayers.W1, TwoLayers.B1)] (TwoLayers.W2, TwoLayers.B2)
      = Ok (ALv, [cv1; cv2]) ∧
    cache_A cv2 = Arr2 2 [[0; 5 / 2]]%R.
Proof.
  pose proof (L_model_forward_refines 5%positive 1%positive false TwoLayers.store
                TwoLayers.parameters TwoLayers.X [(TwoLayers.W1, TwoLayers.B1)]
                (TwoLayers.W2, TwoLayers.B2) eq_refl eq_refl TwoLayers.store_layers eq_refl)
    as Href.
  destruct (layer_unit_shape "softmax" (Arr2 2 [[0; 2]]%R) TwoLayers.W2 TwoLayers.B2 1 1 2
              (TwoLayers.shape_1_2 _ _) (Tiny.shape_1_1 _) (Tiny.shape_1_1 _)
              ltac:(lia) ltac:(lia) ltac:(done))
    as (ALv & cv & Hunit & _ & HcA & _).
  destruct (layer_unit_shape "softmax" (Arr2 2 [[0; 5 / 2]]%R) TwoLayers.W2 TwoLayers.B2 1 1 2
              (TwoLayers.shape_1_2 _ _) (Tiny.shape_1_1 _) (Tiny.shape_1_1 _)
              ltac:(lia) ltac:(lia) ltac:(done))
    as (ALv' & cv' & Hunit' & _ & HcA' & _).
  unfold forward_all in Href. rewrite TwoLayers.hidden_X in Href.
  cbn [rbind fst snd] in Href. rewrite Hunit in Href. cbn [rbind fst snd app] in Href.
  destruct Href as ([AL caches] & s' & Hrun & _ & Hc & _). cbn [fst snd] in Hc.
  apply Forall2_cons_inv_r in Hc as (c1 & cs & _ & Hc & ->).
  apply Forall2_cons_inv_r in Hc as (c2 & cs' & Hc2 & ->%Forall2_nil_inv_r & ->).
  destruct Hc2 as (d & lA & lW & lb & lZ & Hd & HA & _ & _ & _ & HAv & _).
  exists AL, c1, c2, s', d, lA, ALv', (mkCache TwoLayers.X TwoLayers.W1 TwoLayers.B1 TwoLayers.X), cv'.
  split; [exact Hrun|]. split; [exact Hd|]. split; [exact HA|].
  split; [by rewrite HAv, HcA|]. split; [|exact HcA'].
  unfold spec_forward_all. rewrite TwoLayers.spec_hidden_X. cbn [rbind fst snd].
  rewrite spec_softmax_unit, Hunit'. reflexivity.
Qed.

(** C8.  [L_model_forward] does not look at [use_batchnorm]: with either
    value of the flag it returns the same output and caches, in the same
    store.  With the flag set it still runs the chain [forward_all] of the
    ReLU units and the softmax unit, in which no activation is normalised:
    [apply_batchnorm] is a method that no other method calls. *)
Theorem forward_ignores_use_batchnorm :
  (∀ X parameters (b1 b2 : bool) s,
     L_model_forward X parameters b1 s = L_model_forward X parameters b2 s) ∧
  (∀ s X parameters pd Xv hidden out,
     self_n_layers s = Some (Z.of_nat (S (length hidden))) →
     dicts s !! parameters = Some pd → has_layers s pd 1 (hidden ++ [out]) →
     arrays s !! X = Some Xv →
     refines (L_model_forward X parameters true) s (forward_all Xv hidden out)
       (λ p s' q, arrays s' !! p.1 = Some q.1 ∧ Forall2 (holds_cache s') p.2 q.2)).
Proof.
  split.
  - reflexivity.
  - intros s X parameters pd Xv hidden out Hn Hpd Hl HX.
    eapply refines_conseq.
    + by apply (L_model_forward_refines X parameters true s pd Xv hidden out).
    + intros p s' q (? & ? & _). by split.
Qed.

Lemma forward_ignores_use_batchnorm_witness :
  refines (L_model_forward 3%positive 1%positive true) Tiny.store
    (forward_all Tiny.X [] (Tiny.W1, Tiny.B1))
    (λ p s' q, arrays s' !! p.1 = Some q.1 ∧ Forall2 (holds_cache s') p.2 q.2).
Proof.
  apply (proj2 forward_ignores_use_batchnorm Tiny.store 3%positive 1%positive
           Tiny.parameters Tiny.X [] (Tiny.W1, Tiny.B1)).
  - reflexivity.
  - reflexivity.
  - split; [|done]. by exists 1%positive, 2%positive.
  - reflexivity.
Defined.

(** C9.  A forward propagation only adds arrays and dicts to the store.
    A backward propagation changes no array, and no dict but the caches it
    is given and the dict of the gradients it makes.  Hence a forward
    propagation followed by a backward propagation on its caches leaves
    every array and every dict that existed before the forward call as it
    was: the dict of the parameters maps the same keys to the same arrays,
    and every weight and bias has the same contents, after the forward
    pass and after the backward pass.  [update_parameters], here on a
    network of one layer, is the one that writes: the dict of the
    parameters still maps to the same two arrays, which now hold
    [W - learning_rate * dW] and [b - learning_rate * db]. *)
Theorem passes_leave_parameters_unchanged :
  (∀ s X parameters use_batchnorm AL caches s1,
     L_model_forward X parameters use_batchnorm s = Ok ((AL, caches), s1) →
     frame s s1) ∧
  (∀ s AL Y caches grads s',
     L_model_backward AL Y caches s = Ok (grads, s') →
     arrays s ⊆ arrays s' ∧
     ∀ d m, d ∉ caches → dicts s !! d = Some m → dicts s' !! d = Some m) ∧
  (∀ s X parameters use_batchnorm Y AL caches s1 grads s2,
     L_model_forward X parameters use_batchnorm s = Ok ((AL, caches), s1) →
     L_model_backward AL Y caches s1 = Ok (grads, s2) →
     frame s s2 ∧
     ∀ pd, dicts s !! parameters = Some pd →
       dicts s1 !! parameters = Some pd ∧ dicts s2 !! parameters = Some pd ∧
       ∀ key l a, pd !! key = Some l → arrays s !! l = Some a →
         arrays s1 !! l = Some a ∧ arrays s2 !! l = Some a) ∧
  (∀ parameters grads learning_rate s lw lb r k gd dW db dWv dbv W b,
     Training.one_layer s parameters lw lb r k →
     dicts s !! grads = Some gd →
     gd !! fmt "dW" 1 = Some dW → gd !! fmt "db" 1 = Some db →
     arrays s !! dW = Some dWv → has_shape dWv r k →
     arrays s !! db = Some (Arr1 dbv) → length dbv = r →
     arrays s !! lw = Some W → arrays s !! lb = Some b →
     ∃ s' W' b',
       update_parameters parameters grads learning_rate s = Ok (parameters, s') ∧
       dicts s' !! parameters = dicts s !! parameters ∧
       np_sub W (scale learning_rate dWv) = Ok W' ∧ arrays s' !! lw = Some W' ∧
       np_sub b (scale learning_rate (reshape_col (Arr1 dbv))) = Ok b' ∧
       arrays s' !! lb = Some b').
Proof.
  split_and!.
  - intros ??????? Hf. by apply L_model_forward_inv in Hf as (F1 & _).
  - intros ?????? Hb. apply L_model_backward_inv in Hb as [Ha Hd Hn]. by split.
  - intros s X parameters use_batchnorm Y AL caches s1 grads s2 Hf Hb.
    apply L_model_forward_inv in Hf as (F1 & _ & Hfresh).
    apply L_model_backward_inv in Hb as [Ha Hd Hn].
    assert (frame s s2) as F2.
    { destruct F1 as [Ha1 Hd1 Hn1]. split; [by etrans| |congruence].
      apply map_subseteq_spec. intros d m Hm. apply Hd.
      - intros Hin. eapply Forall_forall in Hfresh; [|done]. simpl in Hfresh. congruence.
      - by eapply lookup_weaken. }
    split; [done|]. intros pd Hpd.
    split; [by eapply frame_dict|]. split; [by eapply frame_dict|].
    intros key l a _ Hl. split; by eapply frame_array.
  - intros parameters grads learning_rate s lw lb r k gd dW db dWv dbv W b
      Hnet Hg HdW Hdb HdWv HsdW Hdbv Hlen HW Hb.
    destruct (Training.update_one_layer_run parameters grads learning_rate s lw lb r k
                gd dW db dWv dbv W b)
      as (s' & W' & b' & Hup & Hnet' & HW' & Hlw & Hb' & Hlb & _); try done.
    exists s', W', b'. split_and!; try done.
    destruct Hnet as (_ & -> & _). by destruct Hnet' as (_ & -> & _).
Qed.

Lemma passes_leave_parameters_unchanged_witness :
  (∃ AL caches s1 grads s2,
     L_model_forward 3%positive 1%positive false Tiny.store = Ok ((AL, caches), s1) ∧
     L_model_backward AL 4%positive caches s1 = Ok (grads, s2) ∧
     dicts s2 !! 1%positive = Some Tiny.parameters ∧
     arrays s2 !! 1%positive = Some Tiny.W1 ∧ arrays s2 !! 2%positive = Some Tiny.B1) ∧
  (∃ s', update_parameters 1%positive 3%positive 1 Tiny.store = Ok (1%positive, s') ∧
         dicts s' !! 1%positive = Some Tiny.parameters ∧
         arrays s' !! 1%positive = Some (Arr2 1 [[(0 - 1 * 1)%R]]) ∧
         arrays s' !! 2%positive = Some (Arr2 1 [[(0 - 1 * 1)%R]])).
Proof.
  split.
  - destruct (Backward.forward_backward_run_one_layer 3%positive 4%positive 1%positive
                false Tiny.store Tiny.parameters Tiny.W1 Tiny.B1 Tiny.X Tiny.Y 1 1 1)
      as (AL & caches & s1 & grads & s2 & Hf & Hb).
    + reflexivity.
    + reflexivity.
    + split; [|done]. by exists 1%positive, 2%positive.
    + split; [lia|]. split; [apply Tiny.shape_1_1|]. split; [apply Tiny.shape_1_1|done].
    + reflexivity.
    + apply Tiny.shape_1_1.
    + lia.
    + reflexivity.
    + apply Tiny.shape_1_1.
    + exists AL, caches, s1, grads, s2. split; [done|]. split; [done|].
      destruct (proj1 (proj2 (proj2 passes_leave_parameters_unchanged)) Tiny.store
                  3%positive 1%positive false 4%positive AL caches s1 grads s2 Hf Hb)
        as (_ & Hpd).
      destruct (Hpd Tiny.parameters eq_refl) as (_ & Hd2 & Harr).
      split; [done|]. split.
      * by apply (Harr "w1" 1%positive Tiny.W1).
      * by apply (Harr "b1" 2%positive Tiny.B1).
  - destruct (proj2 (proj2 (proj2 passes_leave_parameters_unchanged))
                1%positive 3%positive 1%R Tiny.store 1%positive 2%positive 1%nat 1%nat
                Tiny.grads 4%positive 6%positive Tiny.Y [1%R] Tiny.W1 Tiny.B1)
      as (s' & W' & b' & Hup & Hd & HW' & Hlw & Hb' & Hlb).
    + apply TinyRun.store_one_layer.
    + reflexivity.
    + reflexivity.
    + reflexivity.
    + reflexivity.
    + apply Tiny.shape_1_1.
    + reflexivity.
    + reflexivity.
    + reflexivity.
    + reflexivity.
    + exists s'. split; [done|]. split; [done|].
      unfold Tiny.W1, Tiny.Y in HW'. rewrite TinyRun.sub_1_1 in HW'.
      unfold Tiny.B1 in Hb'. change (reshape_col (Arr1 [1%R])) with (Arr2 1 [[1%R]]) in Hb'.
      rewrite TinyRun.sub_1_1 in Hb'.
      injection HW' as <-. injection Hb' as <-. by split.
Defined.



(** C7, as the code has it.  At a sampling point the trainer evaluates the
    validation accuracy, then the cost of the batch, then tests for the
    plateau.  Without a plateau it appends the cost to [history] and the
    accuracy to [accuracy_history], one sample each.  With a plateau it sets
    [converged] and breaks before the two [append]s: the sampling point that
    stops the training adds no sample. *)
Theorem sample_appends_unless_converged
    X_validation Y_validation z_output batch_y v s acc s1 cost s2 :
  predict X_validation Y_validation (params v) s = Ok (acc, s1) →
  compute_cost z_output batch_y s1 = Ok (cost, s2) →
  ∃ c s',
    sample X_validation Y_validation z_output batch_y v s = Ok (c, s') ∧
    if plateau v acc then
      c = Break (stopped v) ∧ converged (locals_of c) = true ∧
      history (locals_of c) = history v ∧
      accuracy_history (locals_of c) = accuracy_history v
    else
      c = Next (recorded v acc cost) ∧ converged (locals_of c) = converged v ∧
      history (locals_of c) = history v ++ [cost] ∧
      accuracy_history (locals_of c) = accuracy_history v ++ [acc].
Proof.
  intros Hp Hc. rewrite (sample_run _ _ _ _ _ _ _ _ _ _ Hp Hc).
  destruct (plateau v acc); by eexists _, _.
Qed.

Lemma sample_appends_unless_converged_witness :
  ∃ c s',
    sample 3%positive 4%positive 4%positive 4%positive
           (mkLocals 1%positive PInf false [] [] 0) Tiny.store = Ok (c, s') ∧
    ∃ cost, history (locals_of c) = [cost] ∧ accuracy_history (locals_of c) = [1%R].
Proof.
  destruct (TinyRun.sampling_run Tiny.store 4%positive 4%positive 1%R
              (frame_refl _) eq_refl Rlt_0_1 eq_refl) as (s1 & cost & s2 & Hp & Hc).
  destruct (sample_appends_unless_converged 3%positive 4%positive 4%positive 4%positive
              (mkLocals 1%positive PInf false [] [] 0) Tiny.store 1%R s1 cost s2 Hp Hc)
    as (c & s' & Hrun & Hc').
  exists c, s'. split; [exact Hrun|]. exists cost.
  change (plateau (mkLocals 1%positive PInf false [] [] 0) 1) with false in Hc'.
  by destruct Hc' as (_ & _ & -> & ->).
Defined.

(** C7, as the specification words it, fails: with the previous accuracy 1
    and the accuracy 1 again, the sampling point sets [converged] and leaves
    [history] and [accuracy_history] empty.  So does a whole run: on the two
    examples of [Tiny.examples], with two epochs of one batch each,
    [L_layer_model] passes two sampling points, the second of which stops
    the training, and returns a history of one sample. *)
Lemma converging_sample_appends_nothing :
  (∃ s',
     sample 3%positive 4%positive 4%positive 4%positive
            (mkLocals 1%positive (Fin 1) false [] [] 0) Tiny.store =
     Ok (Break (mkLocals 1%positive (Fin 1) true [] [] 0), s')) ∧
  (∃ p cost s',
     L_layer_model 1%positive 2%positive [1; 1]%Z 1 2 1 Tiny.examples
       = Ok ((p, [cost]), s')).
Proof.
  split.
  - destruct (TinyRun.sampling_run Tiny.store 4%positive 4%positive 1%R
                (frame_refl _) eq_refl Rlt_0_1 eq_refl) as (s1 & cost & s2 & Hp & Hc).
    exists s2.
    rewrite (sample_run 3%positive 4%positive 4%positive 4%positive
               (mkLocals 1%positive (Fin 1) false [] [] 0) Tiny.store _ _ _ _ Hp Hc).
    rewrite (plateau_Fin _ 1) by done.
    rewrite bool_decide_eq_true_2; [done|].
    unfold EPSILON. rewrite Rminus_diag, Rabs_R0. lra.
  - destruct (TinyRun.train_converges 1) as (p & cost & s' & Hrun).
    exists p, cost, s'. unfold L_layer_model. by rewrite (bind_run _ _ _ _ _ Hrun).
Qed.

(** C10.  With [prev_val_acc] still [np.inf] the sampling block never
    breaks: it records the sample and goes on.  [L_layer_model] starts with
    [prev_val_acc = np.inf], and in every run that returns, [converged] is
    set only after a sample has been recorded: by the second sampling point
    at the earliest. *)
Theorem first_sampling_point_never_converges :
  (∀ X_validation Y_validation z_output batch_y v s acc s1 cost s2,
     prev_val_acc v = PInf →
     predict X_validation Y_validation (params v) s = Ok (acc, s1) →
     compute_cost z_output batch_y s1 = Ok (cost, s2) →
     sample X_validation Y_validation z_output batch_y v s =
       Ok (Next (recorded v acc cost),
           printed s2 (StepLine (training_step v) acc cost))) ∧
  (∀ X Y layers_dims learning_rate num_iterations batch_size s v s',
     train X Y layers_dims learning_rate num_iterations batch_size s = Ok (v, s') →
     sampled_before v ∧
     (converged v = true →
      (∃ p, prev_val_acc v = Fin p) ∧ history v ≠ [] ∧ 1 ≤ training_step v)).
Proof.
  split.
  - intros ?????????? Hprev Hp Hc.
    by rewrite (sample_run _ _ _ _ _ _ _ _ _ _ Hp Hc), plateau_PInf.
  - intros ????????? Hrun. apply train_sampled_before in Hrun as Hv.
    split; [done|]. intros Hconv.
    destruct Hv as [(_ & ? & _)|(p & ? & ? & ?)]; [congruence|]. eauto.
Qed.

Lemma first_sampling_point_never_converges_witness :
  (∃ cost s',
     sample 3%positive 4%positive 4%positive 4%positive
            (mkLocals 1%positive PInf false [] [] 0) Tiny.store =
     Ok (Next (mkLocals 1%positive (Fin 1) false [cost] [1%R] 1), s')) ∧
  (∃ v s',
     train 1%positive 2%positive [1; 1]%Z 1 2 1 Tiny.examples = Ok (v, s') ∧
     converged v = true ∧ sampled_before v ∧ history v ≠ [] ∧ 1 ≤ training_step v).
Proof.
  split.
  - destruct (TinyRun.sampling_run Tiny.store 4%positive 4%positive 1%R
                (frame_refl _) eq_refl Rlt_0_1 eq_refl) as (s1 & cost & s2 & Hp & Hc).
    exists cost. eexists.
    exact (proj1 first_sampling_point_never_converges
             3%positive 4%positive 4%positive 4%positive
             (mkLocals 1%positive PInf false [] [] 0) Tiny.store 1%R s1 cost s2
             eq_refl Hp Hc).
  - destruct (TinyRun.train_converges 1) as (p & cost & s' & Hrun).
    destruct (proj2 first_sampling_point_never_converges 1%positive 2%positive
                [1; 1]%Z 1%R 2%Z 1%Z Tiny.examples _ s' Hrun) as (Hsb & Hconv).
    destruct (Hconv eq_refl) as (_ & Hh & Hstep).
    eexists _, s'. split; [exact Hrun|]. by split_and!.
Defined.

(** C5, as the code has it.  [initialize_parameters] has no check of its
    argument, and the embedding has no exception [ConfigurationError] to
    raise.  On a list of fewer than two sizes it returns an empty dict and
    sets [self.n_layers] to the length minus 1, without any exception; on a
    list of two or more positive sizes it returns the weights and biases of
    a network whose layers fit: [w i] of shape [(dims[i], dims[i-1])] and
    [b i] of shape [(dims[i], 1)]. *)
Theorem initialize_parameters_never_refuses :
  (∀ layer_dims s,
     length layer_dims < 2 →
     ∃ p s', initialize_parameters layer_dims s = Ok (p, s') ∧
             dicts s' !! p = Some ∅ ∧
             self_n_layers s' = Some (Z.of_nat (length layer_dims) - 1)%Z) ∧
  (∀ d dims s,
     dims ≠ [] → Forall (λ x, 0 < x) (d :: dims) →
     ∃ p s', initialize_parameters (Z.of_nat <$> d :: dims) s = Ok (p, s') ∧
             net_ok s' p d dims).
Proof.
  split.
  - intros. by apply Init.initialize_parameters_short.
  - intros d dims s Hne Hpos.
    destruct (Init.initialize_parameters_run d dims s Hne Hpos) as (p & s' & ? & ? & _).
    by exists p, s'.
Qed.

Lemma initialize_parameters_never_refuses_witness :
  (∃ p s', initialize_parameters [] Tiny.store = Ok (p, s') ∧ dicts s' !! p = Some ∅ ∧
           self_n_layers s' = Some (-1)%Z) ∧
  (∃ p s', initialize_parameters [2%Z; 3%Z] Tiny.store = Ok (p, s') ∧
           net_ok s' p 2 [3]).
Proof.
  split.
  - apply (proj1 initialize_parameters_never_refuses [] Tiny.store). simpl. lia.
  - apply (proj2 initialize_parameters_never_refuses 2 [3] Tiny.store).
    + discriminate.
    + repeat constructor.
Defined.

(** C5, as the specification words it, fails: a list of one size is not
    refused. *)
Lemma initialize_parameters_accepts_one_size :
  ∃ p s', initialize_parameters [5%Z] Tiny.store = Ok (p, s') ∧
          dicts s' !! p = Some ∅ ∧ self_n_layers s' = Some 0%Z.
Proof. apply (Init.initialize_parameters_short [5%Z] Tiny.store). simpl. lia. Qed.

(** * Further properties of the code *)


Import Activations.

(** A store with the arrays [[-1, 2.5]] and [[3, 4]], and a cache whose
    ['Z'] is the first. *)
Definition mixed_signs : state :=
  mkState (<[1%positive := Arr2 2 [[-1; 5 / 2]]%R]>
           (<[2%positive := Arr2 2 [[3; 4]]%R]> ∅))
          (<[1%positive := <["Z" := 1%positive]> ∅]> ∅)
          None (λ _, 0%R) (λ _, 0%nat) [].

(** X1.  [relu] keeps its input as the cache, the same object, and returns
    a new array.  [np.vectorize] takes the type of the output from the
    value of the lambda on the first entry: when the first entry of [Z] is
    positive the output is [max(x, 0)] entry by entry; when it is not, the
    output is an array of [int64]: every positive entry is cut down to its
    integer part, and [relu] raises [OverflowError] when an entry is
    [2^63] or more.  When [relu] returns, the entries of the output are at
    least 0 and [relu] of the output is the output.  An array without
    entries is refused with [ValueError]. *)
Theorem relu_follows_first_entry s Z a :
  arrays s !! Z = Some a →
  match flat a with
  | [] => relu Z s = Raise ValueError
  | x0 :: _ =>
      ((0 < x0)%R ∨ relu_fits a →
       ∃ A s' Av,
         relu Z s = Ok ((A, Z), s') ∧ frame s s' ∧ arrays s' !! A = Some Av ∧
         ((0 < x0)%R → Av = amap (λ x, Rmax x 0) a) ∧
         (¬ (0 < x0)%R → Av = amap (λ x, IZR (py_trunc (Rmax x 0))) a) ∧
         Forall (λ y, 0 <= y)%R (flat Av) ∧
         np_vectorize relu_func Av = Ok Av) ∧
      (¬ (0 < x0)%R → ¬ relu_fits a → relu Z s = Raise OverflowError)
  end.
Proof.
  intros HZ. destruct (flat a) as [|x0 rest] eqn:Hflat.
  - unfold relu. apply bind_raise. eapply op1_raise; [done|].
    unfold np_vectorize. by rewrite Hflat.
  - split.
    + intros Hfits.
      destruct (op1_run (np_vectorize relu_func) Z s a _ HZ
                  (np_vectorize_relu a x0 rest Hflat Hfits)) as (A & s' & Hrun & HA & F).
      exists A, s', (amap (relu_entry x0) a). split_and!.
      * unfold relu. by rewrite (bind_run _ _ _ _ _ Hrun).
      * done.
      * done.
      * intros Hx0. apply amap_ext. intros x. unfold relu_entry. by rewrite decide_True.
      * intros Hx0. apply amap_ext. intros x. unfold relu_entry. by rewrite decide_False.
      * rewrite flat_amap. apply Forall_fmap, Forall_forall. intros x _.
        apply relu_entry_nonneg.
      * rewrite (np_vectorize_relu _ (relu_entry x0 x0) (relu_entry x0 <$> rest)).
        -- f_equal. rewrite amap_amap. apply amap_ext. intros x. apply relu_entry_idem.
        -- by rewrite flat_amap, Hflat.
        -- destruct (decide (0 < x0)%R) as [Hx0|Hx0]; [left; by apply relu_entry_first|].
           right. destruct Hfits as [?|Hfits]; [done|].
           unfold relu_fits in *. rewrite flat_amap. apply Forall_fmap.
           eapply Forall_impl; [exact Hfits|]. intros x Hx. simpl.
           pose proof (relu_entry_le x0 x) as Hle.
           assert (0 < IZR (2 ^ 63))%R as H63 by (by apply IZR_lt).
           revert Hle. unfold Rmax. destruct (Rle_dec x 0); lra.
    + intros Hx0 Hfits. unfold relu. apply bind_raise. eapply op1_raise; [done|].
      by apply (np_vectorize_relu_overflow a x0 rest).
Qed.

Lemma relu_follows_first_entry_witness :
  ∃ A s', relu 1%positive mixed_signs = Ok ((A, 1%positive), s') ∧
          arrays s' !! A = Some (Arr2 2 [[0; 2]]%R).
Proof.
  destruct (proj1 (relu_follows_first_entry mixed_signs 1%positive (Arr2 2 [[-1; 5 / 2]]%R)
                     eq_refl))
    as (A & s' & Av & Hrun & _ & HA & _ & Hint & _).
  { right. repeat constructor; simpl; lra. }
  exists A, s'. split; [exact Hrun|].
  rewrite HA, Hint by (intros H; apply (Rlt_irrefl 0), (Rlt_trans _ (-1)); [exact H|lra]).
  cbn [amap fmap list_fmap]. by rewrite trunc_5_2, trunc_neg_1.
Defined.

(** X2.  [relu_backward] lets the gradient [dA] through where the cached
    [Z] is positive and puts 0 elsewhere, for [dA] and [Z] of one shape
    with at least one entry.  A cache without the key ['Z'] gives
    [KeyError], and a [Z] without entries [ValueError]. *)
Theorem relu_backward_masks_gradient s dA cache d :
  dicts s !! cache = Some d →
  (d !! "Z" = None → relu_backward dA cache s = Raise (KeyError "Z")) ∧
  (∀ Zl Zv, d !! "Z" = Some Zl → arrays s !! Zl = Some Zv → flat Zv = [] →
            relu_backward dA cache s = Raise ValueError) ∧
  (∀ Zl c rowsZ rowsD,
     d !! "Z" = Some Zl →
     arrays s !! Zl = Some (Arr2 c rowsZ) → arrays s !! dA = Some (Arr2 c rowsD) →
     rect c rowsZ → rect c rowsD → length rowsD = length rowsZ → concat rowsZ ≠ [] →
     ∃ dZ s',
       relu_backward dA cache s = Ok (dZ, s') ∧ frame s s' ∧
       arrays s' !! dZ
         = Some (Arr2 c (zip_with (zip_with (λ g z, if decide (0 < z)%R then g else 0%R))
                                  rowsD rowsZ))).
Proof.
  intros Hd. split_and!.
  - intros HZ. unfold relu_backward. apply bind_raise. by eapply dict_get_missing.
  - intros Zl Zv HZ HZv Hflat. unfold relu_backward.
    rewrite (bind_run _ _ _ _ _ (dict_get_run _ _ _ _ _ Hd HZ)).
    apply bind_raise. eapply op1_raise; [done|].
    unfold np_vectorize. by rewrite Hflat.
  - intros Zl c rowsZ rowsD HZ HZv HdA Hrz Hrd Hlen Hne.
    destruct (op1_run (np_vectorize d_relu) Zl s _ _ HZv
                (np_vectorize_d_relu (Arr2 c rowsZ) Hne)) as (m & s1 & H1 & Hm & F1).
    destruct (op2_run np_mul dA m s1 (Arr2 c rowsD) _
                (Arr2 c (zip_with (zip_with (λ g z, if decide (0 < z)%R then g else 0%R))
                                  rowsD rowsZ))
                (frame_array _ _ _ _ F1 HdA) Hm) as (dZ & s2 & H2 & HdZ & F2).
    { cbn [amap]. unfold np_mul. rewrite broadcast_same.
      - by rewrite zip_with_rows_mask.
      - done.
      - apply Forall_fmap. eapply Forall_impl; [exact Hrz|]. intros r Hr. simpl.
        by rewrite length_fmap.
      - by rewrite length_fmap. }
    exists dZ, s2. split_and!; [|by eapply frame_trans|done].
    unfold relu_backward.
    rewrite (bind_run _ _ _ _ _ (dict_get_run _ _ _ _ _ Hd HZ)).
    by rewrite (bind_run _ _ _ _ _ H1).
Qed.

Lemma relu_backward_masks_gradient_witness :
  ∃ dZ s', relu_backward 2%positive 1%positive mixed_signs = Ok (dZ, s') ∧
           arrays s' !! dZ = Some (Arr2 2 [[0; 4]]%R).
Proof.
  destruct (proj2 (proj2 (relu_backward_masks_gradient mixed_signs 2%positive 1%positive
                            (<["Z" := 1%positive]> ∅) eq_refl))
              1%positive 2%nat [[-1; 5 / 2]]%R [[3; 4]]%R eq_refl eq_refl eq_refl)
    as (dZ & s' & Hrun & _ & HdZ).
  - repeat constructor.
  - repeat constructor.
  - reflexivity.
  - discriminate.
  - exists dZ, s'. split; [exact Hrun|]. rewrite HdZ. cbn [zip_with].
    rewrite decide_False by lra. by rewrite decide_True by lra.
Defined.

(** ** The labels: [convert_to_onehot_vector] *)

Module Data.
Local Open Scope R_scope.

(** [np.zeros((r, c))] *)
Definition np_zeros (r c : nat) : ndarray := Arr2 c (replicate r (replicate c 0)).

(** The position an index [y] along an axis of length [n] stands for: a
    negative index counts from the end, and numpy refuses an index outside
    [-n, n) with [IndexError]. *)
Definition axis_index (n : nat) (y : Z) : result nat :=
  if decide (0 ≤ y < Z.of_nat n)%Z then Ok (Z.to_nat y)
  else if decide (- Z.of_nat n ≤ y < 0)%Z then Ok (Z.to_nat (Z.of_nat n + y))
  else Raise IndexError.

Fixpoint axis_indices (n : nat) (ys : list Z) : result (list nat) :=
  match ys with
  | [] => Ok []
  | y :: ys' =>
      rbind (axis_index n y) (λ i, rbind (axis_indices n ys') (λ rest, Ok (i :: rest)))
  end.

(** [rows[i][j] = x] *)
Definition set_entry (x : R) (rows : list (list R)) (ij : nat * nat) : list (list R) :=
  alter (<[ij.2 := x]>) ij.1 rows.

(** [a[Y, cols] = x] for index arrays [Y] and [cols] of one length: every
    index is checked, then the entries are set. *)
Definition assign_entries (a : ndarray) (Y : list Z) (cols : list nat) (x : R)
  : result ndarray :=
  match a with
  | Arr2 c rows =>
      rbind (axis_indices (length rows) Y) (λ idx,
        if decide (Forall (λ j, j < c)%nat cols)
        then Ok (Arr2 c (foldl (set_entry x) rows (zip idx cols)))
        else Raise IndexError)
  | Arr1 _ => Raise IndexError
  end.

(** Lines 390-392.  [Y] is the vector of the labels. *)
Definition convert_to_onehot_vector (Y : list Z) : M loc :=
  Y_oneHot ← new_array (np_zeros 10 (length Y));
  a ← read Y_oneHot;
  a' ← lift (assign_entries a Y (seq 0 (length Y)) 1);
  _ ← write Y_oneHot a';
  mret Y_oneHot.

(** The entry [(i, j)]. *)
Definition entry (rows : list (list R)) (i j : nat) : R := nth j (nth i rows []) 0.

Lemma entry_column rows i j : (i < length rows)%nat → nth i (column j rows) 0 = entry rows i j.
Proof.
  intros Hi. unfold column, entry.
  destruct (lookup_lt_is_Some_2 rows i Hi) as [r Hr].
  rewrite (nth_lookup_Some _ _ _ _ Hr).
  apply nth_lookup_Some. by rewrite list_lookup_fmap, Hr.
Qed.

Lemma length_set_entry x rows ij : length (set_entry x rows ij) = length rows.
Proof. unfold set_entry. apply length_alter. Qed.

Lemma rect_set_entry x c rows ij : rect c rows → rect c (set_entry x rows ij).
Proof.
  intros H. unfold set_entry. apply Forall_alter; [done|].
  intros r _ Hr. simpl in *. by rewrite length_insert.
Qed.

Lemma entry_set_entry x c rows i j i' j' :
  rect c rows → (i < length rows)%nat → (j < c)%nat →
  entry (set_entry x rows (i, j)) i' j' =
    if decide (i' = i ∧ j' = j) then x else entry rows i' j'.
Proof.
  intros Hrect Hi Hj. unfold set_entry, entry. cbn [fst snd].
  destruct (lookup_lt_is_Some_2 rows i Hi) as [r Hr].
  assert (length r = c) as Hlen by by eapply (Forall_lookup_1 _ _ _ _ Hrect).
  destruct (decide (i' = i)) as [->|Hne].
  - assert (alter <[j:=x]> i rows !! i = Some (<[j:=x]> r)) as Hi'.
    { by rewrite list_lookup_alter_eq, Hr. }
    rewrite (nth_lookup_Some _ _ _ _ Hi'), (nth_lookup_Some _ _ _ _ Hr).
    destruct (decide (j' = j)) as [->|Hnej].
    + rewrite decide_True by done. apply nth_lookup_Some, list_lookup_insert_eq. lia.
    + rewrite decide_False by tauto.
      rewrite !nth_lookup. by rewrite list_lookup_insert_ne.
  - rewrite decide_False by tauto. rewrite !(nth_lookup _ i').
    by rewrite list_lookup_alter_ne.
Qed.

Lemma entry_set_entries x c rows ijs i j :
  rect c rows → Forall (λ ij, ij.1 < length rows ∧ ij.2 < c)%nat ijs →
  entry (foldl (set_entry x) rows ijs) i j =
    if decide ((i, j) ∈ ijs) then x else entry rows i j.
Proof.
  intros Hrect Hin. revert rows Hrect Hin.
  induction ijs as [|[i0 j0] ijs IH]; intros rows Hrect Hin.
  - cbn [foldl]. rewrite decide_False; [done|]. by intros ?%elem_of_nil.
  - apply Forall_cons in Hin as [[Hi0 Hj0] Hin]. cbn [fst snd] in *. cbn [foldl].
    rewrite IH.
    + rewrite (entry_set_entry x c) by done.
      destruct (decide ((i, j) ∈ ijs)) as [H|H].
      * rewrite decide_True; [done|]. by right.
      * destruct (decide (i = i0 ∧ j = j0)) as [[-> ->]|Hne].
        -- rewrite decide_True; [done|]. by left.
        -- rewrite decide_False; [done|].
           intros [Heq|?]%elem_of_cons; [|done]. injection Heq as -> ->. by apply Hne.
    + by apply rect_set_entry.
    + eapply Forall_impl; [done|]. intros ij. by rewrite length_set_entry.
Qed.

Lemma length_set_entries x rows ijs : length (foldl (set_entry x) rows ijs) = length rows.
Proof.
  revert rows. induction ijs as [|ij ijs IH]; intros rows; [done|].
  simpl. by rewrite IH, length_set_entry.
Qed.

Lemma rect_set_entries x c rows ijs : rect c rows → rect c (foldl (set_entry x) rows ijs).
Proof.
  revert rows. induction ijs as [|ij ijs IH]; intros rows H; [done|].
  simpl. by apply IH, rect_set_entry.
Qed.

Lemma axis_index_Ok n y :
  (- Z.of_nat n ≤ y < Z.of_nat n)%Z →
  axis_index n y = Ok (Z.to_nat (y `mod` Z.of_nat n)).
Proof.
  intros Hy. unfold axis_index. case_decide.
  - by rewrite Z.mod_small.
  - rewrite decide_True by lia. do 2 f_equal.
    rewrite <- (Z.mod_small (Z.of_nat n + y) (Z.of_nat n)) by lia.
    rewrite Z.add_comm, <- (Z.mul_1_l (Z.of_nat n)) at 1.
    by rewrite Z.mod_add by lia.
Qed.

Lemma axis_index_out n y :
  ¬ (- Z.of_nat n ≤ y < Z.of_nat n)%Z → axis_index n y = Raise IndexError.
Proof. intros Hy. unfold axis_index. by rewrite !decide_False by lia. Qed.

Lemma axis_indices_Ok n ys :
  Forall (λ y, - Z.of_nat n ≤ y < Z.of_nat n)%Z ys →
  axis_indices n ys = Ok ((λ y, Z.to_nat (y `mod` Z.of_nat n)) <$> ys).
Proof.
  induction 1 as [|y ys Hy _ IH]; [done|].
  cbn [axis_indices]. by rewrite axis_index_Ok, IH.
Qed.

Lemma axis_indices_out n ys :
  Exists (λ y, ¬ (- Z.of_nat n ≤ y < Z.of_nat n)%Z) ys →
  axis_indices n ys = Raise IndexError.
Proof.
  induction 1 as [y ys Hy|y ys _ IH]; cbn [axis_indices].
  - by rewrite axis_index_out.
  - unfold axis_index. repeat case_decide; cbn [rbind]; by rewrite ?IH.
Qed.

Lemma argmax_from_le i best bestv l :
  Forall (λ x, x <= bestv) l → argmax_from i best bestv l = best.
Proof.
  intros H. revert i. induction H as [|x l Hx _ IH]; intros i; [done|].
  cbn [argmax_from]. rewrite decide_False by lra. apply IH.
Qed.

Lemma argmax_from_hot l t i best bestv :
  0 <= bestv < 1 → l !! t = Some 1 → (∀ k a, l !! k = Some a → k ≠ t → a = 0) →
  argmax_from i best bestv l = (i + t)%nat.
Proof.
  revert t i best. induction l as [|x l IH]; intros [|t] i best Hb Ht Hz; simplify_eq/=.
  - rewrite decide_True by lra. rewrite argmax_from_le; [lia|].
    apply Forall_lookup. intros k a Ha. rewrite (Hz (S k) a); [lra|done|lia].
  - assert (x = 0) as -> by by apply (Hz 0%nat).
    rewrite decide_False by lra. rewrite (IH t); [lia|done..|].
    intros k a Ha Hk. apply (Hz (S k)); [done|lia].
Qed.

(** [np.argmax] of a one-hot vector is the position of its 1. *)
Lemma argmax_hot l t :
  l !! t = Some 1 → (∀ k a, l !! k = Some a → k ≠ t → a = 0) → argmax l = t.
Proof.
  destruct l as [|x l]; [done|]. intros Ht Hz. destruct t as [|t]; simplify_eq/=.
  - apply argmax_from_le, Forall_lookup. intros k a Ha.
    rewrite (Hz (S k) a); [lra|done|lia].
  - assert (x = 0) as -> by by apply (Hz 0%nat).
    rewrite (argmax_from_hot l t); [done|lra|done|].
    intros k a Ha Hk. apply (Hz (S k)); [done|lia].
Qed.

Lemma elem_of_zip_seq (cls : list nat) i j :
  (i, j) ∈ zip cls (seq 0 (length cls)) ↔ cls !! j = Some i.
Proof.
  rewrite list_elem_of_lookup. split.
  - intros (k & Hk). apply lookup_zip_with_Some in Hk as (a & b & [= -> ->] & Ha & Hb).
    apply lookup_seq in Hb as [-> _]. done.
  - intros Hj. exists j. apply lookup_zip_with_Some. exists i, j.
    split_and!; [done..|]. apply lookup_seq. split; [done|]. by eapply lookup_lt_Some.
Qed.

Lemma entry_zeros r c i j : entry (replicate r (replicate c 0)) i j = 0.
Proof.
  unfold entry. destruct (decide (i < r)%nat).
  - rewrite (nth_lookup_Some _ _ _ (replicate c 0)) by by apply lookup_replicate_2.
    destruct (decide (j < c)%nat).
    + by apply nth_lookup_Some, lookup_replicate_2.
    + apply nth_overflow. rewrite length_replicate. lia.
  - rewrite (nth_overflow (replicate r _)) by (rewrite length_replicate; lia).
    by destruct j.
Qed.

(** The matrix [convert_to_onehot_vector] fills, for the classes [cls] of
    the columns: the entry [(i, j)] is 1 when [cls[j] = i], and 0
    otherwise. *)
Definition onehot_rows (cls : list nat) : list (list R) :=
  foldl (set_entry 1) (replicate 10 (replicate (length cls) 0)) (zip cls (seq 0 (length cls))).

Lemma entry_onehot_rows cls i j :
  Forall (λ c, c < 10)%nat cls →
  entry (onehot_rows cls) i j = if decide (cls !! j = Some i) then 1 else 0.
Proof.
  intros Hcls. unfold onehot_rows.
  rewrite (entry_set_entries 1 (length cls)).
  - rewrite entry_zeros. destruct (decide (cls !! j = Some i)) as [H|H].
    + rewrite decide_True; [done|]. by apply elem_of_zip_seq.
    + rewrite decide_False; [done|]. by rewrite elem_of_zip_seq.
  - apply Forall_replicate. by rewrite length_replicate.
  - apply Forall_forall. intros [a b] Hab. apply elem_of_zip_seq in Hab as Hb.
    rewrite length_replicate. cbn [fst snd]. split.
    + by eapply (Forall_lookup_1 _ _ _ _ Hcls).
    + by eapply lookup_lt_Some.
Qed.

Lemma length_onehot_rows cls : length (onehot_rows cls) = 10%nat.
Proof. unfold onehot_rows. by rewrite length_set_entries, length_replicate. Qed.

Lemma rect_onehot_rows cls : rect (length cls) (onehot_rows cls).
Proof.
  unfold onehot_rows. apply rect_set_entries, Forall_replicate.
  by rewrite length_replicate.
Qed.

Lemma column_onehot_rows cls j t :
  Forall (λ c, c < 10)%nat cls → cls !! j = Some t →
  column j (onehot_rows cls) !! t = Some 1 ∧
  ∀ k a, column j (onehot_rows cls) !! k = Some a → k ≠ t → a = 0.
Proof.
  intros Hcls Hj.
  assert (∀ k, (k < 10)%nat →
            column j (onehot_rows cls) !! k = Some (entry (onehot_rows cls) k j)) as Hcol.
  { intros k Hk.
    destruct (lookup_lt_is_Some_2 (onehot_rows cls) k) as [r Hr].
    { by rewrite length_onehot_rows. }
    rewrite (column_lookup j _ k r Hr). f_equal. unfold entry.
    by rewrite (nth_lookup_Some _ _ _ _ Hr). }
  split.
  - rewrite Hcol by by eapply (Forall_lookup_1 _ _ _ _ Hcls).
    rewrite entry_onehot_rows by done. by rewrite decide_True.
  - intros k a Ha Hk.
    assert (k < 10)%nat as Hk10.
    { apply lookup_lt_Some in Ha. by rewrite length_column, length_onehot_rows in Ha. }
    rewrite Hcol in Ha by done. injection Ha as <-.
    rewrite entry_onehot_rows by done. rewrite decide_False; [done|]. congruence.
Qed.

Lemma write_run l a a' s :
  arrays s !! l = Some a →
  write l a' s = Ok ((), mkState (<[l := a']> (arrays s)) (dicts s) (self_n_layers s)
                                 (gauss s) (randint s) (stdout s)).
Proof. intros H. unfold write. by rewrite H. Qed.

Lemma convert_run Y s :
  Forall (λ y, -10 ≤ y < 10)%Z Y →
  ∃ l s',
    convert_to_onehot_vector Y s = Ok (l, s') ∧ frame s s' ∧ arrays s !! l = None ∧
    arrays s' !! l
      = Some (Arr2 (length Y) (onehot_rows ((λ y, Z.to_nat (y `mod` 10)) <$> Y))).
Proof.
  intros HY.
  set (cls := (λ y, Z.to_nat (y `mod` 10)) <$> Y).
  destruct (new_array (np_zeros 10 (length Y)) s) as [[l s1]|] eqn:H1; [|done].
  apply new_array_inv in H1 as Hinv. destruct Hinv as (Hfresh & Ha1 & Hd1 & Hn1).
  assert (arrays s1 !! l = Some (np_zeros 10 (length Y))) as Hl1.
  { rewrite Ha1. apply lookup_insert_eq. }
  assert (assign_entries (np_zeros 10 (length Y)) Y (seq 0 (length Y)) 1
          = Ok (Arr2 (length Y) (onehot_rows cls))) as Hassign.
  { unfold assign_entries, np_zeros. rewrite length_replicate.
    rewrite (axis_indices_Ok 10 Y HY). cbn [rbind].
    rewrite decide_True.
    - unfold onehot_rows, cls. by rewrite length_fmap.
    - apply Forall_forall. intros j Hj%elem_of_seq. lia. }
  eexists l, _. split_and!.
  - unfold convert_to_onehot_vector.
    rewrite (bind_run _ _ _ _ _ H1), (bind_run _ _ _ _ _ (read_run _ _ _ Hl1)).
    rewrite (bind_run _ _ _ _ _ (lift_run _ _ _ Hassign)).
    by rewrite (bind_run _ _ _ _ _ (write_run _ _ _ _ Hl1)).
  - split; cbn; [|by rewrite Hd1|done].
    rewrite Ha1, insert_insert_eq. by apply insert_subseteq.
  - done.
  - cbn. apply lookup_insert_eq.
Qed.

Lemma convert_raises Y s :
  Exists (λ y, ¬ (-10 ≤ y < 10)%Z) Y → convert_to_onehot_vector Y s = Raise IndexError.
Proof.
  intros HY.
  destruct (new_array (np_zeros 10 (length Y)) s) as [[l s1]|] eqn:H1; [|done].
  apply new_array_inv in H1 as Hinv. destruct Hinv as (Hfresh & Ha1 & Hd1 & Hn1).
  assert (arrays s1 !! l = Some (np_zeros 10 (length Y))) as Hl1.
  { rewrite Ha1. apply lookup_insert_eq. }
  unfold convert_to_onehot_vector.
  rewrite (bind_run _ _ _ _ _ H1), (bind_run _ _ _ _ _ (read_run _ _ _ Hl1)).
  apply bind_raise. unfold lift, assign_entries, np_zeros.
  rewrite length_replicate. by rewrite (axis_indices_out 10 Y HY).
Qed.

End Data.

Import Data.

(** X3.  [convert_to_onehot_vector] on labels between -10 and 9 returns a
    new matrix of 10 rows and one column per label; the column of the label
    [y] is one-hot, with its 1 in row [y], or in row [y + 10] for a negative
    [y], which numpy counts from the end.  [np.argmax] along axis 0, as
    [predict] takes it, gives the classes back: the labels themselves when
    they are between 0 and 9.  A label outside [-10, 10) is refused with
    [IndexError]. *)
Theorem onehot_columns_round_trip Y s :
  (Forall (λ y, -10 ≤ y < 10)%Z Y →
   ∃ l s' rows cls,
     convert_to_onehot_vector Y s = Ok (l, s') ∧ frame s s' ∧ arrays s !! l = None ∧
     arrays s' !! l = Some (Arr2 (length Y) rows) ∧
     length rows = 10 ∧ rect (length Y) rows ∧
     cls = (λ y, Z.to_nat (y `mod` 10)) <$> Y ∧
     (∀ j c, cls !! j = Some c →
             one_hot (column j rows) ∧ true_class (column j rows) = c) ∧
     np_argmax_axis0 (Arr2 (length Y) rows) = Ok cls ∧
     (Forall (λ y, 0 ≤ y)%Z Y → Z.of_nat <$> cls = Y)) ∧
  (Exists (λ y, ¬ (-10 ≤ y < 10)%Z) Y →
   convert_to_onehot_vector Y s = Raise IndexError).
Proof.
  split; [|apply convert_raises].
  intros HY. destruct (convert_run Y s HY) as (l & s' & Hrun & F & Hfresh & Hl).
  set (cls := (λ y, Z.to_nat (y `mod` 10)) <$> Y) in *.
  assert (length cls = length Y) as Hlen by apply length_fmap.
  assert (Forall (λ c, c < 10)%nat cls) as Hcls.
  { apply Forall_fmap. eapply Forall_impl; [exact HY|]. intros y Hy. simpl.
    pose proof (Z.mod_pos_bound y 10). lia. }
  exists l, s', (onehot_rows cls), cls. rewrite <- Hlen. split_and!; try done.
  - by rewrite Hlen.
  - apply length_onehot_rows.
  - apply rect_onehot_rows.
  - intros j c Hj. destruct (column_onehot_rows cls j c Hcls Hj) as [H1 H0].
    split; [by exists c|]. by apply true_class_hot.
  - unfold np_argmax_axis0.
    destruct (onehot_rows cls) as [|r0 rest] eqn:Hrows.
    { pose proof (length_onehot_rows cls) as H. by rewrite Hrows in H. }
    rewrite <- Hrows. f_equal. apply list_eq. intros j.
    unfold columns. rewrite !list_lookup_fmap.
    destruct (cls !! j) as [c|] eqn:Hj.
    + rewrite (proj2 (lookup_seq 0 (length cls) j j)); [|split; [done|]].
      * simpl. f_equal. destruct (column_onehot_rows cls j c Hcls Hj) as [H1 H0].
        by apply argmax_hot.
      * by eapply lookup_lt_Some.
    + rewrite lookup_seq_ge; [done|]. by apply lookup_ge_None.
  - intros Hpos. unfold cls. rewrite <- list_fmap_compose.
    rewrite <- (list_fmap_id Y) at 2. apply Forall_fmap_ext_1.
    apply Forall_forall. intros y Hy. simpl.
    pose proof (proj1 (Forall_forall _ _) HY y Hy).
    pose proof (proj1 (Forall_forall _ _) Hpos y Hy). simpl in *.
    rewrite Z.mod_small by lia. lia.
Qed.

Lemma onehot_columns_round_trip_witness :
  ∃ l s' rows,
    convert_to_onehot_vector [3; -1; 0]%Z mixed_signs = Ok (l, s') ∧
    arrays s' !! l = Some (Arr2 3 rows) ∧
    np_argmax_axis0 (Arr2 3 rows) = Ok [3; 9; 0]%nat.
Proof.
  destruct (proj1 (onehot_columns_round_trip [3; -1; 0]%Z mixed_signs))
    as (l & s' & rows & cls & Hrun & _ & _ & Hl & _ & _ & -> & _ & Harg & _).
  - repeat constructor; lia.
  - by exists l, s', rows.
Defined.

(** X4.  The two passes read [self.n_layers], an attribute that only
    [initialize_parameters] sets: before it they raise [AttributeError].
    After [initialize_parameters] on a list of fewer than two sizes, which
    returns an empty dict, [L_model_forward] finds no layer to loop over
    and raises [KeyError] for the weights of the output layer: ['w0'] for
    a list of one size, ['w-1'] for the empty list. *)
Theorem passes_need_initialized_layers :
  (∀ X Y AL parameters caches use_batchnorm s,
     self_n_layers s = None →
     L_model_forward X parameters use_batchnorm s = Raise AttributeError ∧
     L_model_backward AL Y caches s = Raise AttributeError) ∧
  (∀ layer_dims s p s' X use_batchnorm,
     length layer_dims < 2 →
     initialize_parameters layer_dims s = Ok (p, s') →
     L_model_forward X p use_batchnorm s'
       = Raise (KeyError (fmt "w" (Z.of_nat (length layer_dims) - 1)))).
Proof.
  split.
  - intros X Y AL parameters caches ub s Hn.
    assert (get_n_layers s = Raise AttributeError) as Hget.
    { unfold get_n_layers. by rewrite Hn. }
    split; by apply bind_raise.
  - intros layer_dims s p s' X ub Hlen Hinit.
    destruct (Init.initialize_parameters_short layer_dims s Hlen)
      as (p0 & s0 & Hrun & Hd & Hn).
    rewrite Hrun in Hinit. injection Hinit as -> ->.
    unfold L_model_forward.
    rewrite (bind_run _ _ _ _ _ (get_n_layers_run _ _ Hn)).
    rewrite seqZ_nil by lia. cbn [for_in].
    rewrite (bind_run (mret (X, [])) _ s' (X, []) s' eq_refl).
    rewrite (bind_run _ _ _ _ _ (get_n_layers_run _ _ Hn)).
    apply bind_raise. unfold dict_get. rewrite Hd. by rewrite lookup_empty.
Qed.

Lemma passes_need_initialized_layers_witness :
  ∃ p s', initialize_parameters [5%Z] Tiny.store = Ok (p, s') ∧
          L_model_forward 3%positive p false s' = Raise (KeyError "w0").
Proof.
  destruct (Init.initialize_parameters_short [5%Z] Tiny.store) as (p & s' & Hrun & _).
  - simpl. lia.
  - exists p, s'. split; [exact Hrun|].
    apply (proj2 passes_need_initialized_layers [5%Z] Tiny.store p s' 3%positive false).
    + simpl. lia.
    + exact Hrun.
Defined.

(** ** The cost of the activations of [softmax] *)

Module CostBounds.
Local Open Scope R_scope.

Lemma sum_f_nonpos n f : (∀ j, (j < n)%nat → f j <= 0) → sum_f n f <= 0.
Proof.
  induction n as [|n IH]; intros H; [unfold sum_f; simpl; lra|].
  rewrite sum_f_S. pose proof (H n). pose proof (IH (λ j Hj, H j (Nat.lt_lt_succ_r _ _ Hj))).
  assert (f n <= 0) by (apply H; lia). lra.
Qed.

Lemma entry_Forall (P : R → Prop) c rows t j :
  Forall (Forall P) rows → rect c rows → (t < length rows)%nat → (j < c)%nat →
  P (nth t (column j rows) 0).
Proof.
  intros HP Hrect Ht Hj.
  destruct (lookup_lt_is_Some_2 rows t Ht) as [r Hr].
  rewrite (nth_lookup_Some _ _ _ _ (column_lookup j rows t r Hr)).
  pose proof (Forall_lookup_1 _ _ _ _ HP Hr) as HPr.
  pose proof (Forall_lookup_1 _ _ _ _ Hrect Hr) as Hlen. simpl in Hlen.
  destruct (lookup_lt_is_Some_2 r j) as [x Hx]; [lia|].
  rewrite (nth_lookup_Some _ _ _ _ Hx). by eapply (Forall_lookup_1 _ _ _ _ HPr).
Qed.

Lemma true_class_lt y : one_hot y → (true_class y < length y)%nat.
Proof.
  intros (t & Ht & Hz). rewrite (true_class_hot y t Ht Hz). by eapply lookup_lt_Some.
Qed.

(** The cross-entropy of predictions in [0, 1] that are positive at the
    true classes is not negative. *)
Lemma cross_entropy_nonneg c rowsA rowsY :
  (0 < c)%nat → rect c rowsA → length rowsA = length rowsY →
  Forall (Forall (λ a, 0 <= a <= 1)) rowsA →
  (∀ j, (j < c)%nat → one_hot (column j rowsY)) →
  (∀ j, (j < c)%nat → 0 < nth (true_class (column j rowsY)) (column j rowsA) 0) →
  0 <= cross_entropy c rowsA rowsY.
Proof.
  intros Hc Hrect Hlen HA Hhot Hpos. unfold cross_entropy, Rdiv.
  assert (0 < / INR c) as Hinv by (apply Rinv_0_lt_compat, lt_0_INR; lia).
  apply Rmult_le_pos; [|lra].
  apply Ropp_0_ge_le_contravar, Rle_ge, sum_f_nonpos. intros j Hj.
  assert (0 <= nth (true_class (column j rowsY)) (column j rowsA) 0 <= 1) as [_ Hle].
  { apply (entry_Forall (λ a, 0 <= a <= 1) c); [done..| |done].
    rewrite Hlen, <- (length_column j). by apply true_class_lt, Hhot. }
  specialize (Hpos j Hj).
  revert Hpos Hle. generalize (nth (true_class (column j rowsY)) (column j rowsA) 0).
  intros x Hpos [Hlt| ->]; [|rewrite ln_1; lra].
  left. pose proof (ln_increasing x 1 Hpos Hlt) as H. by rewrite ln_1 in H.
Qed.

(** 500 below the maximum of a column, [np.exp] does not underflow. *)
Lemma exp_underflow_below_500 : exp_underflow < - 500.
Proof. unfold exp_underflow. pose proof ln_lt_2. lra. Qed.

End CostBounds.

Import CostBounds.

(** X5.  The cost of the activations of [softmax] against one-hot labels:
    for a matrix [Z] with at least one row and one column and labels [Y] of
    the shape of [Z], where no entry of a column of [Z] is more than 500
    above the entry of the true class of that column, [softmax] and then
    [compute_cost] both return, the activation of every true class is
    positive, and the cost is the cross-entropy, which is at least 0. *)
Theorem cost_of_softmax_is_defined s Z Y c rowsZ rowsY :
  arrays s !! Z = Some (Arr2 c rowsZ) → arrays s !! Y = Some (Arr2 c rowsY) →
  rect c rowsZ → rect c rowsY → length rowsZ = length rowsY →
  rowsZ ≠ [] → (0 < c)%nat →
  (∀ j, (j < c)%nat → one_hot (column j rowsY)) →
  (∀ j x, (j < c)%nat → x ∈ rowsZ →
     (nth j x 0 - nth (true_class (column j rowsY)) (column j rowsZ) 0 <= 500)%R) →
  ∃ A Zs s1 rowsA cost s2,
    softmax Z s = Ok ((A, Zs), s1) ∧ arrays s1 !! A = Some (Arr2 c rowsA) ∧
    (∀ j, (j < c)%nat → (0 < nth (true_class (column j rowsY)) (column j rowsA) 0)%R) ∧
    compute_cost A Y s1 = Ok (cost, s2) ∧
    cost = cross_entropy c rowsA rowsY ∧ (0 <= cost)%R.
Proof.
  intros HZ HY HrZ HrY Hlen Hne Hc Hhot Hnear. destruct rowsZ as [|r0 rest]; [done|].
  pose proof (softmax_val_eq c r0 rest HrZ) as Hval. cbv zeta in Hval.
  destruct (softmax_val_normalised c r0 rest HrZ) as (HrA & HlenA & _ & Hent).
  destruct (softmax_run Z s _ _ _ HZ Hval) as (A & Zs & s1 & Hrun & HA & _ & F1).
  match type of HA with _ = Some (Arr2 c ?rows) => set (rowsA := rows) in * end.
  assert (length rowsA = length rowsY) as HlenAY by (simpl in Hlen; lia).
  assert (∀ j, (j < c)%nat →
            (0 < nth (true_class (column j rowsY)) (column j rowsA) 0)%R) as Hpos.
  { intros j Hj. set (t := true_class (column j rowsY)).
    assert (t < length (r0 :: rest))%nat as Ht.
    { rewrite Hlen, <- (length_column j). by apply true_class_lt, Hhot. }
    destruct (lookup_lt_is_Some_2 (r0 :: rest) t Ht) as [x Hx].
    destruct (lookup_lt_is_Some_2 rowsA t) as [a Ha]; [rewrite HlenA; simpl in Ht; lia|].
    rewrite (nth_lookup_Some _ _ _ _ (column_lookup j rowsA t a Ha)).
    apply (softmax_val_positive c r0 rest t j x a HrZ Hx Ha Hj).
    destruct (colmax_spec c r0 rest HrZ) as [_ Hmax].
    destruct (Hmax j Hj) as [_ (y & Hy & <-)].
    specialize (Hnear j y Hj Hy). fold t in Hnear.
    rewrite (nth_lookup_Some _ _ _ _ (column_lookup j (r0 :: rest) t x Hx)) in Hnear.
    pose proof exp_underflow_below_500. lra. }
  destruct (compute_cost_run A Y s1 _ _ _ HA (frame_array _ _ _ _ F1 HY)
              (compute_cost_val_one_hot c rowsA rowsY HrA HrY HlenAY Hhot Hc Hpos))
    as (s2 & Hcost & _).
  exists A, Zs, s1, rowsA, (cross_entropy c rowsA rowsY), s2.
  split; [exact Hrun|]. split; [exact HA|]. split; [exact Hpos|]. split; [exact Hcost|].
  split; [reflexivity|]. by apply cross_entropy_nonneg.
Qed.

Lemma cost_of_softmax_is_defined_witness :
  ∃ A Zs s1 rowsA cost s2,
    softmax 3%positive Tiny.store = Ok ((A, Zs), s1) ∧
    arrays s1 !! A = Some (Arr2 1 rowsA) ∧
    (∀ j, (j < 1)%nat → (0 < nth (true_class (column j [[1%R]])) (column j rowsA) 0)%R) ∧
    compute_cost A 4%positive s1 = Ok (cost, s2) ∧
    cost = cross_entropy 1 rowsA [[1%R]] ∧ (0 <= cost)%R.
Proof.
  apply (cost_of_softmax_is_defined Tiny.store 3%positive 4%positive 1 [[0%R]] [[1%R]]).
  - reflexivity.
  - reflexivity.
  - repeat constructor.
  - repeat constructor.
  - reflexivity.
  - discriminate.
  - lia.
  - apply Tiny.one_hot_Y.
  - intros j x Hj ->%list_elem_of_singleton.
    assert (j = 0%nat) as -> by lia. simpl. rewrite decide_True by done. simpl. lra.
Defined.

(** ** What the trainer writes *)

Module Ownership.
Local Open Scope R_scope.

Lemma keeps_L_model_forward X p ub : keeps (L_model_forward X p ub).
Proof. intros s [AL caches] s' H. by apply L_model_forward_inv in H as [? _]. Qed.

Lemma keeps_compute_cost AL Y : keeps (compute_cost AL Y).
Proof. unfold compute_cost. keeps_tac. Qed.

Lemma keeps_predict X Y p : keeps (predict X Y p).
Proof.
  unfold predict. apply keeps_bind; [apply keeps_L_model_forward|]. intros [y c].
  do 5 (apply keeps_bind; [eauto with keeps|intros ?]).
  case_decide; [apply keeps_raise|apply keeps_ret].
Qed.

Lemma keeps_print ln : keeps (print ln).
Proof. intros s [] s' [= <-]. by split. Qed.

Lemma keeps_print_overall_accuracy p kwargs : keeps (print_overall_accuracy p kwargs).
Proof.
  unfold print_overall_accuracy.
  repeat first
    [ apply keeps_ret | apply keeps_print | apply keeps_predict
    | apply keeps_bind; [|intros ?]
    | match goal with |- keeps (match ?x with _ => _ end) => destruct x end ].
Qed.

Lemma keeps_sample Xv Yv z y v : keeps (sample Xv Yv z y v).
Proof.
  unfold sample. apply keeps_bind; [apply keeps_predict|]. intros acc.
  apply keeps_bind; [apply keeps_compute_cost|]. intros cost.
  destruct (xlt _ _); [apply keeps_ret|].
  apply keeps_bind; [apply keeps_print|]. intros _. apply keeps_ret.
Qed.

Lemma keeps_batch_forward Xt Yt bs index v : keeps (batch_forward Xt Yt bs index v).
Proof.
  unfold batch_forward.
  do 4 (apply keeps_bind; [eauto with keeps|intros ?]).
  apply keeps_bind; [apply keeps_L_model_forward|]. intros [z c]. apply keeps_ret.
Qed.

Lemma keeps_converged_exit Xt Yt Xv Yv ni epoch v :
  keeps (converged_exit Xt Yt Xv Yv ni epoch v).
Proof.
  unfold converged_exit. apply keeps_bind; [apply keeps_print|]. intros _.
  apply keeps_bind; [apply keeps_print_overall_accuracy|]. intros _. apply keeps_ret.
Qed.

Lemma keeps_shuffled_arange n : keeps (shuffled_arange n).
Proof. intros s ind s' [= _ <-]. by split. Qed.

Lemma randn_inv r c s l s' :
  randn r c s = Ok (l, s') → arrays s !! l = None ∧ frame s s'.
Proof.
  intros H. split; [by eapply Init.randn_fresh|].
  unfold randn in H. case_decide; [done|].
  apply keeps_new_array in H. destruct H as [Ha Hd Hn]. by split.
Qed.

(** The store [s] extends [s0], and the dict [p], made after [s0], holds
    arrays made after [s0] only. *)
Definition owns (s0 s : state) (p : loc) : Prop :=
  arrays s0 ⊆ arrays s ∧ dicts s0 ⊆ dicts s ∧ dicts s0 !! p = None ∧
  ∃ pd, dicts s !! p = Some pd ∧ ∀ k l, pd !! k = Some l → arrays s0 !! l = None.

Lemma owns_frame s0 s s' p : owns s0 s p → frame s s' → owns s0 s' p.
Proof.
  intros (Ha & Hd & Hp & pd & Hpd & Hnew) [Ha' Hd' _].
  split_and!; [by etrans|by etrans|done|].
  exists pd. split; [by eapply lookup_weaken|done].
Qed.

Lemma isub_inv_store target src s u s' :
  isub target src s = Ok (u, s') →
  ∃ r, arrays s' = <[target := r]> (arrays s) ∧ is_Some (arrays s !! target) ∧
       dicts s' = dicts s ∧ self_n_layers s' = self_n_layers s.
Proof.
  unfold isub. intros H.
  inv_run H as a s1 H1. inv_run H as b s2 H2. inv_run H as r s3 H3.
  apply read_inv in H1 as [Ha ->]. apply read_inv in H2 as [Hb ->].
  apply lift_inv in H3 as [Hr ->]. case_decide; [|discriminate].
  unfold write in H. rewrite Ha in H. injection H as _ <-.
  exists r. by split_and!.
Qed.

(** A store in which the dict [p] is still [pd], the arrays that [pd] does
    not hold are as in [s], and nothing is lost. *)
Definition updated (p : loc) (pd : gmap string loc) (s s' : state) : Prop :=
  dicts s ⊆ dicts s' ∧ self_n_layers s' = self_n_layers s ∧
  (∀ l a, arrays s !! l = Some a → (∀ k, pd !! k ≠ Some l) → arrays s' !! l = Some a).

Lemma updated_refl p pd s : updated p pd s s.
Proof. by split_and!. Qed.

Lemma updated_trans p pd s1 s2 s3 :
  updated p pd s1 s2 → updated p pd s2 s3 → updated p pd s1 s3.
Proof.
  intros (Hd & Hn & Ha) (Hd' & Hn' & Ha'). split_and!; [by etrans|congruence|].
  intros l a Hl Hk. apply Ha'; [|done]. by apply Ha.
Qed.

Lemma updated_frame p pd s s' : frame s s' → updated p pd s s'.
Proof.
  intros [Ha Hd Hn]. split_and!; [done..|]. intros l a Hl _. by eapply lookup_weaken.
Qed.

(** [parameters[key] -= learning_rate * g]: the array of [key] is written,
    and the dict keeps it. *)
Lemma isub_item_inv p pd key step s u s' w s1 u' :
  dicts s !! p = Some pd → pd !! key = Some w →
  isub w step s = Ok (u, s1) → dict_set p key w s1 = Ok (u', s') →
  updated p pd s s' ∧ dicts s' !! p = Some pd.
Proof.
  intros Hp Hk H1 H2.
  apply isub_inv_store in H1 as (r & Ha1 & _ & Hd1 & Hn1).
  apply dict_set_inv in H2 as (m & Hm & Hd2 & Ha2 & Hn2).
  rewrite Hd1, Hp in Hm. injection Hm as <-.
  rewrite (insert_id pd) in Hd2 by done. rewrite Hd1, insert_id in Hd2 by done.
  split; [|by rewrite Hd2]. split_and!; [by rewrite Hd2|congruence|].
  intros l a Hl Hnot. rewrite Ha2, Ha1. rewrite lookup_insert_ne; [done|].
  intros <-. by apply (Hnot key).
Qed.

Lemma update_layer_inv p g lr layer pd s u s' :
  dicts s !! p = Some pd →
  update_layer p g lr layer () s = Ok (u, s') →
  updated p pd s s' ∧ dicts s' !! p = Some pd.
Proof.
  intros Hp H. unfold update_layer in H.
  inv_run H as w s1 H1. inv_run H as dW s2 H2. inv_run H as st s3 H3.
  inv_run H as u1 s4 H4. inv_run H as u2 s5 H5.
  inv_run H as b s6 H6. inv_run H as db s7 H7. inv_run H as col s8 H8.
  inv_run H as st' s9 H9. inv_run H as u3 s10 H10.
  apply dict_get_inv in H1 as [(m & Hm & Hw) ->]. rewrite Hp in Hm. injection Hm as <-.
  apply dict_get_inv in H2 as [_ ->].
  apply keeps_total1 in H3 as F3.
  destruct (isub_item_inv p pd (fmt "w" layer) st s3 u1 s5 w s4 u2) as [U5 Hp5];
    [by eapply frame_dict|done..|].
  apply dict_get_inv in H6 as [(m & Hm & Hb) ->]. rewrite Hp5 in Hm. injection Hm as <-.
  apply dict_get_inv in H7 as [_ ->].
  apply keeps_total1 in H8 as F8. apply keeps_total1 in H9 as F9.
  destruct (isub_item_inv p pd (fmt "b" layer) st' s9 u3 s' b s10 u) as [U10 Hp10];
    [eapply frame_dict; [exact F9|]; by eapply frame_dict|done..|].
  split; [|done].
  eapply updated_trans; [by apply updated_frame|].
  eapply updated_trans; [exact U5|].
  eapply updated_trans; [by apply updated_frame|].
  eapply updated_trans; [by apply updated_frame|]. done.
Qed.

(** [update_parameters] returns the dict it was given, which holds the
    same arrays; it writes into these arrays only. *)
Lemma update_parameters_inv p g lr pd s p' s' :
  dicts s !! p = Some pd →
  update_parameters p g lr s = Ok (p', s') →
  p' = p ∧ updated p pd s s' ∧ dicts s' !! p = Some pd.
Proof.
  intros Hp H. unfold update_parameters in H.
  inv_run H as len s1 H1. inv_run H as u s2 H2. injection H as <- <-.
  apply keeps_dict_len in H1 as F1.
  assert (dicts s1 !! p = Some pd) as Hp1 by by eapply frame_dict.
  split; [done|].
  cut (updated p pd s1 s2 ∧ dicts s2 !! p = Some pd).
  { intros [U H]. split; [|done]. eapply updated_trans; [by apply updated_frame|done]. }
  clear H1 F1 Hp. revert s1 u Hp1 H2.
  generalize (seqZ 1 (Z.of_nat (len `div` 2))). intros layers.
  induction layers as [|layer layers IH]; intros s1 u Hp1 H2; simpl in H2.
  - injection H2 as _ <-. split; [apply updated_refl|done].
  - inv_run H2 as u1 s3 H3. destruct u.
    destruct (update_layer_inv p g lr layer pd s1 u1 s3 Hp1) as [U3 Hp3].
    { by destruct u1. }
    destruct (IH s3 u1 Hp3) as [U Hp']; [by destruct u1|].
    split; [by eapply updated_trans|done].
Qed.

Lemma owns_updated s0 s s' p pd :
  owns s0 s p → dicts s !! p = Some pd → updated p pd s s' → dicts s' !! p = Some pd →
  owns s0 s' p.
Proof.
  intros (Ha & Hd & Hp0 & pd' & Hpd' & Hnew) Hpd (Hd' & Hn' & Ha') Hp'.
  rewrite Hpd in Hpd'. injection Hpd' as <-.
  split_and!; [|by etrans|done|by exists pd].
  apply map_subseteq_spec. intros l a Hl. apply Ha'; [by eapply lookup_weaken|].
  intros k Hk. apply Hnew in Hk. congruence.
Qed.

Lemma owns_base s s0 s' p : frame s s0 → owns s0 s' p → owns s s' p.
Proof.
  intros [Ha Hd _] (Ha' & Hd' & Hp & pd & Hpd & Hnew).
  split_and!; [by etrans|by etrans|by eapply lookup_weaken_None|].
  exists pd. split; [done|]. intros k l Hk. eapply lookup_weaken_None; [|done].
  by eapply Hnew.
Qed.

Lemma owns_dict_set s0 s p k v u s' :
  owns s0 s p → arrays s0 !! v = None → dict_set p k v s = Ok (u, s') → owns s0 s' p.
Proof.
  intros (Ha & Hd & Hp & pd & Hpd & Hnew) Hv H.
  apply dict_set_inv in H as (m & Hm & Hd' & Ha' & _).
  rewrite Hpd in Hm. injection Hm as <-.
  split_and!; [by rewrite Ha'| |done|].
  - rewrite Hd'. by apply insert_subseteq_r.
  - exists (<[k := v]> pd). split; [rewrite Hd'; apply lookup_insert_eq|].
    intros k' l. destruct (decide (k' = k)) as [->|Hne].
    + rewrite lookup_insert_eq. by intros [= <-].
    + rewrite lookup_insert_ne by done. apply Hnew.
Qed.

Lemma init_layer_owns s0 layer_dims p i s u s' :
  owns s0 s p → init_layer layer_dims p i s = Ok (u, s') → owns s0 s' p.
Proof.
  intros Ho H. unfold init_layer in H.
  inv_run H as d_i s1 H1. inv_run H as d_prev s2 H2. inv_run H as g s3 H3.
  inv_run H as d_prev' s4 H4. inv_run H as u1 s5 H5. inv_run H as w s6 H6.
  inv_run H as u2 s7 H7. inv_run H as d_i' s8 H8. inv_run H as b s9 H9.
  apply keeps_list_get in H1 as F1. apply keeps_list_get in H2 as F2.
  apply randn_inv in H3 as [_ F3]. apply keeps_list_get in H4 as F4.
  assert (frame s4 s5) as F5.
  { case_decide; [done|]. injection H5 as _ <-. apply frame_refl. }
  apply op1_fresh in H6 as Hw. apply keeps_total1 in H6 as F6.
  assert (owns s0 s5 p) as Ho5 by eauto 10 using owns_frame.
  assert (owns s0 s7 p) as Ho7.
  { eapply owns_dict_set; [by eapply owns_frame| |done].
    eapply lookup_weaken_None; [done|]. apply Ho5. }
  apply keeps_list_get in H8 as F8. apply randn_inv in H9 as [Hb F9].
  assert (owns s0 s8 p) as Ho8 by by eapply owns_frame.
  eapply owns_dict_set; [by eapply owns_frame| |done].
  eapply lookup_weaken_None; [done|]. apply Ho8.
Qed.

(** [initialize_parameters] returns a new dict that holds new arrays, and
    changes no array and no dict. *)
Lemma initialize_parameters_owns layer_dims s p s' :
  initialize_parameters layer_dims s = Ok (p, s') → owns s s' p.
Proof.
  intros H. unfold initialize_parameters in H.
  inv_run H as u1 s1 H1. inv_run H as b s2 H2. inv_run H as p0 s3 H3.
  inv_run H as u2 s4 H4. injection H as <- <-.
  injection H1 as _ <-.
  apply new_array_inv in H2 as (Hb & Ha2 & Hd2 & _).
  apply new_dict_inv in H3 as (Hp & Hd3 & Ha3 & _).
  cbn [arrays dicts] in *.
  assert (owns s s3 p0) as Ho3.
  { split_and!.
    - rewrite Ha3, Ha2. by apply insert_subseteq.
    - rewrite Hd3, Hd2. apply insert_subseteq. by rewrite <- Hd2.
    - by rewrite <- Hd2.
    - exists ∅. split; [rewrite Hd3; apply lookup_insert_eq|]. by intros k l ?. }
  clear Ha2 Hd2 Hp Hd3 Ha3. revert s3 u2 Ho3 H4.
  generalize (seqZ 1 (Z.of_nat (length layer_dims) - 1)). intros layers.
  induction layers as [|i layers IH]; intros s3 u2 Ho3 H4; simpl in H4.
  - by injection H4 as _ <-.
  - inv_run H4 as u3 s5 H5. destruct u3. eapply IH; [|exact H4].
    by eapply init_layer_owns.
Qed.

Lemma batch_forward_inv Xt Yt bs index v s z cache y s' :
  batch_forward Xt Yt bs index v s = Ok ((z, cache, y), s') →
  frame s s' ∧ Forall (λ c, dicts s !! c = None) cache.
Proof.
  intros H. split; [by eapply keeps_batch_forward|].
  unfold batch_forward in H.
  inv_run H as nx s1 H1. inv_run H as bx s2 H2. inv_run H as ny s3 H3.
  inv_run H as by_ s4 H4. inv_run H as [z' c'] s5 H5. injection H as <- <- <- <-.
  apply keeps_shape1_of in H1. apply keeps_op1 in H2. apply keeps_shape1_of in H3.
  apply keeps_op1 in H4. apply L_model_forward_inv in H5 as (_ & _ & Hfresh).
  eapply Forall_impl; [exact Hfresh|]. intros c Hc. simpl in *.
  eapply frame_dict_None; [|exact Hc]. eauto 10 using frame_trans.
Qed.

Lemma filter_none {A} (P : A → Prop) `{∀ x, Decision (P x)} (l : list A) :
  Forall (λ x, ¬ P x) l → filter P l = [].
Proof.
  induction 1 as [|x l Hx _ IH]; [done|]. by rewrite filter_cons_False.
Qed.

(** The sampling points among the indices. *)
Definition samplings (indices : list nat) : nat :=
  length (filter (λ i, sampling_point i = true) indices).

Section Loops.
Variables (s0 : state) (Xt Yt Xv Yv : loc) (lr : R) (ni bs : Z).

Lemma batch_step_owns index v s c s' :
  owns s0 s (params v) →
  batch_step Xt Yt Xv Yv lr bs index v s = Ok (c, s') →
  owns s0 s' (params v) ∧ params (locals_of c) = params v ∧
  (training_step (locals_of c)
   <= training_step v + (if sampling_point index then 1 else 0))%nat.
Proof.
  intros Ho H. unfold batch_step in H.
  inv_run H as [[z cache] y] s1 H1. inv_run H as c1 s2 H2.
  apply batch_forward_inv in H1 as [F1 Hfresh].
  assert (frame s1 s2 ∧ params (locals_of c1) = params v ∧
          (training_step (locals_of c1)
           <= training_step v + (if sampling_point index then 1 else 0))%nat)
    as (F2 & Hp1 & Hstep).
  { destruct (sampling_point index).
    - split; [by eapply keeps_sample|].
      apply sample_inv in H2 as (acc & cost & [[_ ->]|[_ ->]]); simpl; split; (done || lia).
    - injection H2 as <- <-. split; [apply frame_refl|]. simpl. split; [done|lia]. }
  assert (owns s0 s2 (params v)) as Ho2 by eauto using owns_frame, frame_trans.
  destruct c1 as [v1|v1]; cbn [locals_of] in *.
  - inv_run H as grads s3 H3. inv_run H as p' s4 H4. injection H as <- <-.
    cbn [locals_of params training_step].
    apply L_model_backward_inv in H3 as [Ha3 Hd3 Hn3].
    destruct Ho2 as (Ha & Hd & Hp0 & pd & Hpd & Hnew).
    assert (∀ c, c ∈ cache → dicts s0 !! c = None) as Hc0.
    { intros c Hc. eapply Forall_forall in Hfresh; [|done]. simpl in Hfresh.
      eapply lookup_weaken_None; [exact Hfresh|]. apply Ho. }
    assert (params v ∉ cache) as Hpc.
    { intros Hin. eapply Forall_forall in Hfresh; [|done]. simpl in Hfresh.
      destruct Ho as (_ & _ & _ & pd0 & Hpd0 & _). congruence. }
    assert (dicts s3 !! params v = Some pd) as Hpd3 by by apply Hd3.
    assert (owns s0 s3 (params v)) as Ho3.
    { split_and!; [by etrans| |done|by exists pd].
      apply map_subseteq_spec. intros d m Hm. apply Hd3.
      - intros Hin. apply Hc0 in Hin. congruence.
      - by eapply lookup_weaken. }
    rewrite Hp1 in H4.
    apply (update_parameters_inv _ _ _ pd) in H4 as (-> & U & Hpd4); [|done].
    split_and!; [by eapply owns_updated|done|done].
  - injection H as <- <-. by split_and!.
Qed.

Lemma batch_loop_owns indices v s c s' :
  owns s0 s (params v) →
  batch_loop (batch_step Xt Yt Xv Yv lr bs) indices v s = Ok (c, s') →
  owns s0 s' (params v) ∧ params (locals_of c) = params v ∧
  (training_step (locals_of c) <= training_step v + samplings indices)%nat.
Proof.
  revert v s. induction indices as [|i indices IH]; intros v s Ho H; simpl in H.
  - injection H as <- <-. split_and!; [done..|]. simpl. lia.
  - inv_run H as c1 s1 H1.
    apply batch_step_owns in H1 as (Ho1 & Hp1 & Hs1); [|done].
    assert (samplings (i :: indices)
            = ((if sampling_point i then 1 else 0) + samplings indices)%nat) as Hcount.
    { unfold samplings. destruct (sampling_point i) eqn:Hi.
      - by rewrite filter_cons_True.
      - rewrite filter_cons_False; [done|]. by rewrite Hi. }
    destruct c1 as [v1|v1]; cbn [locals_of] in *.
    + rewrite <- Hp1 in Ho1. apply IH in H as (Ho' & Hp' & Hs'); [|done].
      rewrite Hp1 in Ho', Hp'. split_and!; [done..|]. lia.
    + injection H as <- <-. cbn [locals_of]. split_and!; [done..|]. lia.
Qed.

(** With at most 50000 columns to train on, [range] gives one sampling
    point at most: the index 0. *)
Lemma samplings_range_step n indices :
  (n <= 500 * 100)%nat → range_step n bs = Ok indices → (samplings indices <= 1)%nat.
Proof.
  intros Hn H. unfold range_step in H.
  case_decide; [done|].
  case_decide; [injection H as <-; unfold samplings; simpl; lia|]. injection H as <-.
  set (k := Z.to_nat bs). assert (0 < k)%nat as Hk by lia.
  pose proof (Nat.Div0.mul_div_le (n + k - 1) k) as Hm.
  destruct ((n + k - 1) `div` k)%nat as [|m']; [unfold samplings; simpl; lia|].
  cbn [seq fmap list_fmap]. unfold samplings.
  assert (filter (λ i, sampling_point i = true) ((λ i, (i * k)%nat) <$> seq 1 m') = [])
    as Hrest.
  { apply filter_none, Forall_fmap, Forall_forall. intros i [Hi1 Hi2]%elem_of_seq.
    simpl. assert (0 < i * k < 500 * 100)%nat as Hik by nia.
    unfold sampling_point. intros H%bool_decide_eq_true.
    rewrite Nat.mod_small in H by lia. lia. }
  destruct (decide (sampling_point (0 * k) = true)).
  - rewrite filter_cons_True by done. by rewrite Hrest.
  - rewrite filter_cons_False by done. rewrite Hrest. simpl. lia.
Qed.

Lemma shape1_of_inv x s n s' :
  shape1_of x s = Ok (n, s') → ∃ a, arrays s !! x = Some a ∧ shape1 a = Ok n ∧ s' = s.
Proof.
  unfold shape1_of. intros H. inv_run H as a s1 H1.
  apply read_inv in H1 as [Ha ->]. apply lift_inv in H as [Hn ->]. by exists a.
Qed.

(** The loop over the epochs writes into the arrays of the parameters
    only, keeps the dict of the parameters, and, training on at most 50000
    columns, records one sample per epoch at most. *)
Lemma epoch_loop_owns epochs v s v' s' :
  owns s0 s (params v) →
  epoch_loop Xt Yt Xv Yv lr ni bs epochs v s = Ok (v', s') →
  owns s0 s' (params v) ∧ params v' = params v ∧
  (∀ a nt, arrays s0 !! Xt = Some a → shape1 a = Ok nt → (nt <= 500 * 100)%nat →
           (training_step v' <= training_step v + length epochs)%nat).
Proof.
  revert v s. induction epochs as [|e epochs IH]; intros v s Ho H; simpl in H.
  - injection H as <- <-. split_and!; [done..|]. intros. lia.
  - destruct (converged v).
    + apply keeps_converged_exit in H as F.
      unfold converged_exit in H. inv_run H as u1 s1 H1. inv_run H as u2 s2 H2.
      injection H as <- <-. split_and!; [by eapply owns_frame|done|]. intros. lia.
    + inv_run H as n s1 H1. inv_run H as indices s2 H2. inv_run H as c s3 H3.
      apply shape1_of_inv in H1 as (a' & Ha' & Hn & ->).
      apply lift_inv in H2 as [Hrange ->].
      apply batch_loop_owns in H3 as (Ho3 & Hp3 & Hs3); [|done].
      rewrite <- Hp3 in Ho3. apply IH in H as (Ho' & Hp' & Hs'); [|done].
      rewrite Hp3 in Ho', Hp'. split_and!; [done..|].
      intros a nt Ha Hnt Hle.
      assert (a' = a) as ->.
      { destruct Ho as (Hsub & _). pose proof (lookup_weaken _ _ _ _ Ha Hsub). congruence. }
      assert (n = nt) as -> by congruence.
      pose proof (samplings_range_step nt indices Hle Hrange).
      pose proof (Hs' a nt Ha Hnt Hle). simpl. lia.
Qed.

End Loops.

Lemma op1_inv f x s l s' :
  op1 f x s = Ok (l, s') →
  ∃ a r, arrays s !! x = Some a ∧ f a = Ok r ∧ arrays s' !! l = Some r ∧ frame s s'.
Proof.
  intros H. apply keeps_op1 in H as F. unfold op1 in H.
  inv_run H as a s1 H1. inv_run H as r s2 H2.
  apply read_inv in H1 as [Ha ->]. apply lift_inv in H2 as [Hr ->].
  apply new_array_inv in H as (_ & Hl & _). exists a, r. split_and!; [done..| |done].
  rewrite Hl. apply lookup_insert_eq.
Qed.

Lemma length_swap i j l : length (swap i j l) = length l.
Proof. unfold swap. repeat case_match; by rewrite ?length_insert. Qed.

Lemma length_shuffle_steps i draw l : length (shuffle_steps i draw l) = length l.
Proof.
  revert draw l. induction i as [|i IH]; intros draw l; [done|].
  simpl. by rewrite IH, length_swap.
Qed.

(** [L_layer_model] changes no array and no dict of the store it starts
    in; the dict of the parameters and the arrays it holds are new. *)
Lemma train_owns X Y layers_dims lr ni bs s v s' :
  train X Y layers_dims lr ni bs s = Ok (v, s') → owns s s' (params v).
Proof.
  intros H. unfold train in H.
  inv_run H as n s1 H1. inv_run H as ind s2 H2. inv_run H as Xv s3 H3.
  inv_run H as Yv s4 H4. inv_run H as Xt s5 H5. inv_run H as Yt s6 H6.
  inv_run H as p s7 H7.
  apply keeps_shape1_of in H1. apply keeps_shuffled_arange in H2.
  apply keeps_op1 in H3. apply keeps_op1 in H4. apply keeps_op1 in H5.
  apply keeps_op1 in H6. apply initialize_parameters_owns in H7.
  apply (epoch_loop_owns s6) in H as (Ho & Hp & _); [|done].
  cbn [params] in *. rewrite Hp. eapply owns_base; [|done].
  eauto 10 using frame_trans.
Qed.

(** Training on at most 50000 columns, [L_layer_model] records at most
    one sample per epoch. *)
Lemma train_steps X Y layers_dims lr ni bs s v s' n rows :
  train X Y layers_dims lr ni bs s = Ok (v, s') →
  arrays s !! X = Some (Arr2 n rows) → (n - validation_size n <= 500 * 100)%nat →
  (training_step v <= Z.to_nat ni)%nat.
Proof.
  intros H HX Hn. unfold train in H.
  inv_run H as n' s1 H1. inv_run H as ind s2 H2. inv_run H as Xv s3 H3.
  inv_run H as Yv s4 H4. inv_run H as Xt s5 H5. inv_run H as Yt s6 H6.
  inv_run H as p s7 H7.
  apply shape1_of_inv in H1 as (a & Ha & Hn' & ->).
  rewrite HX in Ha. injection Ha as <-. injection Hn' as <-.
  assert (length ind = n) as Hind.
  { injection H2 as <- _. by rewrite length_shuffle_steps, length_seq. }
  apply keeps_shuffled_arange in H2 as F2.
  apply keeps_op1 in H3 as F3. apply keeps_op1 in H4 as F4.
  apply op1_inv in H5 as (a & r & Ha & Hr & HXt & F5). apply keeps_op1 in H6 as F6.
  assert (arrays s4 !! X = Some (Arr2 n rows)) as HX4.
  { eapply frame_array; [|exact HX]. eauto 10 using frame_trans. }
  rewrite HX4 in Ha. injection Ha as <-.
  unfold take_columns in Hr. case_decide; [|done]. injection Hr as <-.
  apply initialize_parameters_owns in H7.
  apply (epoch_loop_owns s6) in H as (_ & _ & Hsteps); [|done].
  cbn [training_step] in Hsteps. rewrite length_seqZ in Hsteps.
  eapply (Hsteps _ (length (drop (validation_size n) ind))).
  - by eapply frame_array.
  - done.
  - rewrite length_drop. lia.
Qed.

(** What holds of the local variables at the start of [L_layer_model], and
    is kept by a change of [params], by a sampling point that stops and by
    one that records, holds of them when [L_layer_model] returns. *)
Lemma train_invariant (I : locals → Prop) X Y layers_dims lr ni bs s v s' :
  (∀ p, I (mkLocals p PInf false [] [] 0)) →
  (∀ v p, I v → I (mkLocals p (prev_val_acc v) (converged v) (history v)
                            (accuracy_history v) (training_step v))) →
  (∀ v, I v → I (stopped v)) →
  (∀ v acc cost, I v → plateau v acc = false → I (recorded v acc cost)) →
  train X Y layers_dims lr ni bs s = Ok (v, s') → I v.
Proof.
  intros Hinit Hparams Hstop Hrec H. unfold train in H.
  inv_run H as n' s1 H1. inv_run H as ind s2 H2. inv_run H as Xv s3 H3.
  inv_run H as Yv s4 H4. inv_run H as Xt s5 H5. inv_run H as Yt s6 H6.
  inv_run H as p s7 H7.
  assert (∀ index v s c s',
            I v → batch_step Xt Yt Xv Yv lr bs index v s = Ok (c, s') → I (locals_of c))
    as Hstep.
  { intros index v0 t c t' Hv Hb. unfold batch_step in Hb.
    inv_run Hb as [[z cache] y] t1 Hb1. inv_run Hb as c1 t2 Hb2.
    assert (I (locals_of c1)) as Hc1.
    { destruct (sampling_point index).
      - apply sample_inv in Hb2 as (acc & cost & [[_ ->]|[Hpl ->]]); simpl; eauto.
      - by injection Hb2 as <- _. }
    destruct c1 as [v1|v1].
    - inv_run Hb as grads t3 Hb3. inv_run Hb as p' t4 Hb4. injection Hb as <- _.
      by apply Hparams.
    - by injection Hb as <- _. }
  assert (∀ indices v s c s',
            I v → batch_loop (batch_step Xt Yt Xv Yv lr bs) indices v s = Ok (c, s') →
            I (locals_of c)) as Hloop.
  { induction indices as [|i indices IH]; intros v0 t c t' Hv Hb; simpl in Hb.
    - by injection Hb as <- _.
    - inv_run Hb as c1 t1 Hb1. apply Hstep in Hb1; [|done].
      destruct c1 as [v1|v1]; [by eapply IH|]. by injection Hb as <- _. }
  assert (I (mkLocals p PInf false [] [] 0)) as Hv by apply Hinit.
  revert Hv H. generalize (mkLocals p PInf false [] [] 0) s7 (seqZ 0 ni).
  intros v0 t epochs. revert v0 t.
  induction epochs as [|e epochs IH]; intros v0 t Hv H; simpl in H.
  - by injection H as <- _.
  - destruct (converged v0).
    + unfold converged_exit in H.
      inv_run H as u1 t1 Hb1. inv_run H as u2 t2 Hb2. by injection H as <- _.
    + inv_run H as n t1 Hb1. inv_run H as indices t2 Hb2. inv_run H as c t3 Hb3.
      apply Hloop in Hb3; [|done]. by eapply IH.
Qed.

End Ownership.

Import Ownership.

Lemma L_layer_model_inv X Y layers_dims lr ni bs s p h s' :
  L_layer_model X Y layers_dims lr ni bs s = Ok ((p, h), s') →
  ∃ v, train X Y layers_dims lr ni bs s = Ok (v, s') ∧ p = params v ∧ h = history v.
Proof.
  unfold L_layer_model. intros H. inv_run H as v s1 H1. injection H as <- <- <-.
  by exists v.
Qed.

Lemma L_layer_model_tiny :
  ∃ p cost s',
    L_layer_model 1%positive 2%positive [1; 1]%Z 1 2 1 Tiny.examples = Ok ((p, [cost]), s').
Proof.
  destruct (TinyRun.train_converges 1) as (p & cost & s' & Hrun).
  exists p, cost, s'. unfold L_layer_model. by rewrite (bind_run _ _ _ _ _ Hrun).
Qed.

(** X6.  [update_parameters] returns the dict it was given, and this dict
    holds the same arrays under the same keys as before.  It writes into
    arrays this dict holds and into no other: every other array, and every
    dict, the one of the gradients too, is as it was. *)
Theorem update_parameters_writes_parameters_only
    parameters grads learning_rate pd s p' s' :
  dicts s !! parameters = Some pd →
  update_parameters parameters grads learning_rate s = Ok (p', s') →
  p' = parameters ∧ dicts s' !! parameters = Some pd ∧ dicts s ⊆ dicts s' ∧
  self_n_layers s' = self_n_layers s ∧
  ∀ l a, arrays s !! l = Some a → (∀ k, pd !! k ≠ Some l) → arrays s' !! l = Some a.
Proof.
  intros Hp H.
  apply (update_parameters_inv _ _ _ pd) in H as (-> & (Hd & Hn & Ha) & Hp'); [|done].
  by split_and!.
Qed.

Lemma update_parameters_writes_parameters_only_witness :
  ∃ s', update_parameters 1%positive 3%positive 1 Tiny.store = Ok (1%positive, s') ∧
        dicts s' !! 1%positive = Some Tiny.parameters ∧
        arrays s' !! 3%positive = Some Tiny.X ∧ arrays s' !! 4%positive = Some Tiny.Y.
Proof.
  destruct (Training.update_one_layer_run 1%positive 3%positive 1 Tiny.store
              1%positive 2%positive 1 1 Tiny.grads 4%positive 6%positive Tiny.Y [1%R]
              Tiny.W1 Tiny.B1 TinyRun.store_one_layer eq_refl eq_refl eq_refl eq_refl
              (Tiny.shape_1_1 _) eq_refl eq_refl eq_refl eq_refl)
    as (s' & W' & b' & Hrun & _).
  destruct (update_parameters_writes_parameters_only 1%positive 3%positive 1
              Tiny.parameters Tiny.store 1%positive s' eq_refl Hrun)
    as (_ & Hd & _ & _ & Ha).
  exists s'. split; [exact Hrun|]. split; [exact Hd|]. split.
  - apply Ha; [reflexivity|]. intros k.
    unfold Tiny.parameters. destruct (decide (k = "w1")) as [->|?]; [done|].
    rewrite lookup_insert_ne by done.
    destruct (decide (k = "b1")) as [->|?]; [done|]. by rewrite lookup_insert_ne.
  - apply Ha; [reflexivity|]. intros k.
    unfold Tiny.parameters. destruct (decide (k = "w1")) as [->|?]; [done|].
    rewrite lookup_insert_ne by done.
    destruct (decide (k = "b1")) as [->|?]; [done|]. by rewrite lookup_insert_ne.
Defined.

(** X7.  [L_layer_model] leaves the store it is called in as it was: every
    array, the data [X] and [Y] among them, and every dict that existed
    has the same contents when it returns.  The dict of the parameters it
    returns did not exist before, and holds arrays that did not exist
    before: the gradient steps write into these only. *)
Theorem training_writes_its_own_parameters_only
    X Y layers_dims learning_rate num_iterations batch_size s p history s' :
  L_layer_model X Y layers_dims learning_rate num_iterations batch_size s
    = Ok ((p, history), s') →
  arrays s ⊆ arrays s' ∧ dicts s ⊆ dicts s' ∧ dicts s !! p = None ∧
  ∃ pd, dicts s' !! p = Some pd ∧ ∀ k l, pd !! k = Some l → arrays s !! l = None.
Proof.
  intros (v & Hrun & -> & _)%L_layer_model_inv. by apply train_owns in Hrun.
Qed.

Lemma training_writes_its_own_parameters_only_witness :
  ∃ p h s',
    L_layer_model 1%positive 2%positive [1; 1]%Z 1 2 1 Tiny.examples = Ok ((p, h), s') ∧
    arrays s' !! 1%positive = Some Tiny.examples_X ∧
    arrays s' !! 2%positive = Some Tiny.examples_Y.
Proof.
  destruct L_layer_model_tiny as (p & cost & s' & Hrun).
  destruct (training_writes_its_own_parameters_only _ _ _ _ _ _ _ _ _ _ Hrun)
    as (Ha & _).
  exists p, [cost], s'. split; [exact Hrun|].
  split.
  - exact (lookup_weaken (arrays Tiny.examples) _ 1%positive _ eq_refl Ha).
  - exact (lookup_weaken (arrays Tiny.examples) _ 2%positive _ eq_refl Ha).
Defined.

(** X8.  In every run of [L_layer_model] that returns, [history],
    [accuracy_history] and the counter [training_step] agree: one cost and
    one accuracy have been recorded for every training step printed. *)
Theorem history_lengths_agree X Y layers_dims learning_rate num_iterations batch_size
    s v s' :
  train X Y layers_dims learning_rate num_iterations batch_size s = Ok (v, s') →
  length (history v) = training_step v ∧ length (accuracy_history v) = training_step v.
Proof.
  apply (train_invariant
           (λ v, length (history v) = training_step v ∧
                 length (accuracy_history v) = training_step v)).
  - done.
  - done.
  - done.
  - intros v0 acc cost [H1 H2] _. simpl. rewrite !length_app. simpl. lia.
Qed.

Lemma history_lengths_agree_witness :
  ∃ v s', train 1%positive 2%positive [1; 1]%Z 1 2 1 Tiny.examples = Ok (v, s') ∧
          length (history v) = training_step v ∧
          length (accuracy_history v) = training_step v ∧ training_step v = 1%nat.
Proof.
  destruct (TinyRun.train_converges 1) as (p & cost & s' & Hrun).
  destruct (history_lengths_agree _ _ _ _ _ _ _ _ _ Hrun) as [H1 H2].
  exists (mkLocals p (Fin 1) true [cost] [1%R] 1), s'.
  split; [exact Hrun|]. split; [exact H1|]. split; [exact H2|reflexivity].
Defined.

(** X9.  The cadence of the samples.  The test [(index / 500) % 100 == 0]
    looks at the index of the batch within its epoch, so that with at most
    50000 columns to train on ([n] columns less the validation split) only
    the first batch of an epoch is a sampling point: [L_layer_model]
    returns a history of at most [num_iterations] costs, whatever the batch
    size. *)
Theorem history_has_one_cost_per_epoch
    X Y layers_dims learning_rate num_iterations batch_size s p history s' n rows :
  L_layer_model X Y layers_dims learning_rate num_iterations batch_size s
    = Ok ((p, history), s') →
  arrays s !! X = Some (Arr2 n rows) → n - validation_size n <= 500 * 100 →
  length history <= Z.to_nat num_iterations.
Proof.
  intros (v & Hrun & _ & ->)%L_layer_model_inv HX Hn.
  pose proof (train_steps _ _ _ _ _ _ _ _ _ _ _ Hrun HX Hn) as Hsteps.
  apply (train_invariant (λ v, length (history v) = training_step v)) in Hrun.
  - lia.
  - done.
  - done.
  - done.
  - intros v0 acc cost H _. simpl. rewrite length_app. simpl. lia.
Qed.

Lemma history_has_one_cost_per_epoch_witness :
  ∃ p h s',
    L_layer_model 1%positive 2%positive [1; 1]%Z 1 2 1 Tiny.examples = Ok ((p, h), s') ∧
    length h <= 2.
Proof.
  destruct L_layer_model_tiny as (p & cost & s' & Hrun).
  exists p, [cost], s'. split; [exact Hrun|].
  apply (history_has_one_cost_per_epoch _ _ _ _ _ _ _ _ _ _ 2 [[0; 0]]%R Hrun eq_refl).
  change (validation_size 2) with 1%nat. lia.
Defined.

(** ** The validation split and the batches of an epoch *)

Module Split.

(** Exchanging two entries of a list rearranges the list. *)
Lemma swap_Permutation i j l : swap i j l ≡ₚ l.
Proof.
  unfold swap. destruct (l !! i) as [x|] eqn:Hi; [|done].
  destruct (l !! j) as [y|] eqn:Hj; [|done].
  pose proof (lookup_lt_Some _ _ _ Hi) as Hli. pose proof (lookup_lt_Some _ _ _ Hj) as Hlj.
  apply Permutation_inj. split; [by rewrite !length_insert|].
  exists (λ k, if decide (k = i) then j else if decide (k = j) then i else k). split.
  - intros a b. repeat case_decide; congruence.
  - intros k. destruct (decide (k = i)) as [->|Hki].
    + rewrite list_lookup_insert_eq by (by rewrite length_insert). done.
    + rewrite list_lookup_insert_ne by done.
      destruct (decide (k = j)) as [->|Hkj].
      * by rewrite list_lookup_insert_eq.
      * by rewrite list_lookup_insert_ne.
Qed.

Lemma shuffle_steps_Permutation i draw l : shuffle_steps i draw l ≡ₚ l.
Proof.
  revert draw l. induction i as [|i IH]; intros draw l; [done|].
  simpl. rewrite IH. apply swap_Permutation.
Qed.

(** The columns of [a[:, idx]] are the columns of [a] that [idx] lists. *)
Lemma columns_take_columns idx rows :
  columns (length idx) ((λ r, (λ j, nth j r 0%R) <$> idx) <$> rows)
  = (λ j, column j rows) <$> idx.
Proof.
  unfold columns. apply list_eq. intros i. rewrite !list_lookup_fmap.
  destruct (idx !! i) as [j|] eqn:Hj.
  - rewrite lookup_seq_lt by (by eapply lookup_lt_Some). simpl. f_equal.
    unfold column. rewrite <- list_fmap_compose. apply list_fmap_ext.
    intros k r _. simpl. by rewrite nth_lookup, list_lookup_fmap, Hj.
  - rewrite lookup_seq_ge by (by apply lookup_ge_None). done.
Qed.

Lemma validation_size_le n : (validation_size n <= n)%nat.
Proof.
  unfold validation_size. destruct n as [|n]; [done|].
  apply Nat.Div0.div_le_upper_bound. lia.
Qed.

(** The columns of [a[:, lo:hi]] are the columns [lo], ..., [hi - 1] of
    [a]. *)
Lemma columns_slice_columns lo w hi rows :
  (lo + w <= hi)%nat →
  columns w ((λ r, drop lo (take hi r)) <$> rows) = (λ j, column j rows) <$> seq lo w.
Proof.
  intros Hw. unfold columns. apply list_eq. intros i. rewrite !list_lookup_fmap.
  destruct (decide (i < w)%nat).
  - rewrite !lookup_seq_lt by done. simpl. f_equal.
    unfold column. rewrite <- list_fmap_compose. apply list_fmap_ext.
    intros k r _. simpl. rewrite !nth_lookup, lookup_drop, lookup_take_lt by lia. done.
  - rewrite !lookup_seq_ge by lia. done.
Qed.

(** [q] consecutive ranges of [k] indices make up the range of the first
    [q * k] indices. *)
Lemma full_batches k q : concat ((λ i, seq (i * k) k) <$> seq 0 q) = seq 0 (q * k).
Proof.
  induction q as [|q IH]; [done|].
  rewrite seq_S, fmap_app, concat_app, IH. simpl. rewrite app_nil_r.
  replace (k + q * k)%nat with (q * k + k)%nat by lia. by rewrite seq_app.
Qed.

(** [min(index + batch_size, X_train.shape[1])], where the batch at
    [index] ends. *)
Definition batch_end (batch_size : Z) (n index : nat) : nat :=
  (Z.to_nat (Z.of_nat index + batch_size) `min` n)%nat.

Lemma range_step_positive n bs indices :
  (0 < bs)%Z → range_step n bs = Ok indices →
  ∃ q, indices = (λ i, i * Z.to_nat bs)%nat <$> seq 0 q ∧
       (n <= q * Z.to_nat bs)%nat ∧ (q = 0%nat ∨ ((q - 1) * Z.to_nat bs < n)%nat).
Proof.
  intros Hbs H. unfold range_step in H.
  rewrite decide_False in H by lia. rewrite decide_False in H by lia.
  injection H as <-. set (k := Z.to_nat bs). assert (0 < k)%nat as Hk by lia.
  exists ((n + k - 1) `div` k)%nat. split; [done|].
  pose proof (Nat.div_mod_eq (n + k - 1) k) as Hdiv.
  pose proof (Nat.mod_upper_bound (n + k - 1) k) as Hmod.
  destruct ((n + k - 1) `div` k)%nat as [|q]; [lia|].
  split; [nia|]. right. nia.
Qed.

End Split.

Import Split.

(** X10.  The validation split of [L_layer_model] is a partition of the
    examples.  The shuffled [ind] lists every column index of [X] once, so
    that neither [X[:, ind[:k]]] nor [X[:, ind[k:]]] can raise, for
    [k = int(np.ceil(0.2 * n))]; the first has [k] columns, the second
    [n - k], and together they hold every column of [X] exactly once. *)
Theorem validation_split_is_a_partition n rows s ind s' :
  shuffled_arange n s = Ok (ind, s') →
  ind ≡ₚ seq 0 n ∧
  ∃ rv rt,
    take_columns (Arr2 n rows) (take (validation_size n) ind)
      = Ok (Arr2 (validation_size n) rv) ∧
    take_columns (Arr2 n rows) (drop (validation_size n) ind)
      = Ok (Arr2 (n - validation_size n) rt) ∧
    columns (validation_size n) rv ++ columns (n - validation_size n) rt
      ≡ₚ columns n rows.
Proof.
  intros [= <- _]. set (ind := shuffle_steps _ _ _).
  assert (ind ≡ₚ seq 0 n) as Hperm by apply shuffle_steps_Permutation.
  assert (length ind = n) as Hlen by (by rewrite Hperm, length_seq).
  assert (Forall (λ j, j < n)%nat ind) as Hlt.
  { rewrite Hperm. apply Forall_seq. lia. }
  pose proof (validation_size_le n) as Hv.
  pose proof (columns_take_columns (take (validation_size n) ind) rows) as Hcv.
  pose proof (columns_take_columns (drop (validation_size n) ind) rows) as Hct.
  rewrite length_take_le in Hcv by lia. rewrite length_drop, Hlen in Hct.
  split; [done|]. unfold take_columns.
  rewrite decide_True by (by apply Forall_take).
  rewrite decide_True by (by apply Forall_drop).
  rewrite length_take_le, length_drop, Hlen by lia.
  eexists _, _. split; [done|]. split; [done|].
  rewrite Hcv, Hct, <- fmap_app, take_drop, Hperm. done.
Qed.

Lemma validation_split_is_a_partition_witness :
  [1; 0]%nat ≡ₚ seq 0 2 ∧
  ∃ rv rt,
    take_columns (Arr2 2 [[5; 7]; [6; 8]]%R) (take (validation_size 2) [1; 0]%nat)
      = Ok (Arr2 (validation_size 2) rv) ∧
    take_columns (Arr2 2 [[5; 7]; [6; 8]]%R) (drop (validation_size 2) [1; 0]%nat)
      = Ok (Arr2 (2 - validation_size 2) rt) ∧
    columns (validation_size 2) rv ++ columns (2 - validation_size 2) rt
      ≡ₚ columns 2 [[5; 7]; [6; 8]]%R.
Proof.
  exact (validation_split_is_a_partition 2 [[5; 7]; [6; 8]]%R Tiny.examples [1; 0]%nat
           (mkState (arrays Tiny.examples) (dicts Tiny.examples)
              (self_n_layers Tiny.examples) (gauss Tiny.examples)
              (λ k, randint Tiny.examples (k + (2 - 1))) (stdout Tiny.examples))
           eq_refl).
Defined.

(** X11.  The batches of an epoch tile the training set.  For a positive
    [batch_size], [range(0, n, batch_size)] has [ceil(n / batch_size)]
    indices; the batch at [index] is [X_train[:, index:min(index +
    batch_size, n)]], which holds the columns from [index] on, at least one
    and at most [batch_size] of them; and the column ranges of the batches,
    put end to end, are the range of all [n] columns: every training
    example is in exactly one batch. *)
Theorem batches_tile_the_training_set n rows batch_size indices :
  (0 < batch_size)%Z → range_step n batch_size = Ok indices →
  length indices = ((n + Z.to_nat batch_size - 1) `div` Z.to_nat batch_size)%nat ∧
  Forall (λ i, ∃ rs,
            slice_columns (Arr2 n rows) i (batch_end batch_size n i)
              = Ok (Arr2 (batch_end batch_size n i - i) rs) ∧
            (1 <= batch_end batch_size n i - i <= Z.to_nat batch_size)%nat ∧
            columns (batch_end batch_size n i - i) rs
              = (λ j, column j rows) <$> seq i (batch_end batch_size n i - i))
         indices ∧
  concat ((λ i, seq i (batch_end batch_size n i - i)) <$> indices) = seq 0 n.
Proof.
  intros Hbs H. split.
  { unfold range_step in H. rewrite decide_False in H by lia.
    rewrite decide_False in H by lia. injection H as <-.
    by rewrite length_fmap, length_seq. }
  apply range_step_positive in H as (q & -> & Hn & Hq); [|done].
  set (k := Z.to_nat batch_size) in *. assert (0 < k)%nat as Hk by lia.
  assert (∀ i, batch_end batch_size n i = ((i + k) `min` n)%nat) as Hend.
  { intros i. unfold batch_end. f_equal. lia. }
  split.
  - apply Forall_fmap, Forall_seq. intros j Hj. simpl. rewrite Hend.
    assert (j * k < n)%nat as Hlt by (destruct Hq; nia).
    eexists. unfold slice_columns. split; [|split].
    + f_equal. f_equal. lia.
    + lia.
    + apply columns_slice_columns. lia.
  - destruct q as [|q]; [by replace n with 0%nat by lia|].
    destruct Hq as [?|Hq]; [done|]. rewrite Nat.sub_succ, Nat.sub_0_r in Hq.
    rewrite seq_S, !fmap_app, concat_app. simpl. rewrite app_nil_r, Hend.
    rewrite <- list_fmap_compose.
    rewrite (list_fmap_ext _ (λ i, seq (i * k) k) (seq 0 q)).
    + rewrite full_batches.
      replace (((q * k + k) `min` n) - q * k)%nat with (n - q * k)%nat by lia.
      rewrite <- seq_app. f_equal. lia.
    + intros i j [-> Hj]%lookup_seq. simpl. rewrite Hend. f_equal. nia.
Qed.

Lemma batches_tile_the_training_set_witness :
  length [0; 2; 4]%nat = ((5 + Z.to_nat 2 - 1) `div` Z.to_nat 2)%nat ∧
  Forall (λ i, ∃ rs,
            slice_columns (Arr2 5 [[1; 2; 3; 4; 5]]%R) i (batch_end 2 5 i)
              = Ok (Arr2 (batch_end 2 5 i - i) rs) ∧
            (1 <= batch_end 2 5 i - i <= Z.to_nat 2)%nat ∧
            columns (batch_end 2 5 i - i) rs
              = (λ j, column j [[1; 2; 3; 4; 5]]%R) <$> seq i (batch_end 2 5 i - i))
         [0; 2; 4]%nat ∧
  concat ((λ i, seq i (batch_end 2 5 i - i)) <$> [0; 2; 4]%nat) = seq 0 5.
Proof.
  apply (batches_tile_the_training_set 5 [[1; 2; 3; 4; 5]]%R 2 [0; 2; 4]%nat);
    [lia|reflexivity].
Defined.

(** ** Hyper-parameters that leave nothing to train on *)

Module NoBatches.

Lemma range_step_negative n bs : (bs < 0)%Z → range_step n bs = Ok [].
Proof.
  intros Hbs. unfold range_step. rewrite decide_False by lia. by rewrite decide_True.
Qed.

(** The steps of [L_layer_model] before its loops do not look at
    [learning_rate], [num_iterations] or [batch_size]: when they return for
    some values of these, [L_layer_model] enters its loops, for all values,
    with the same training set and the same parameters. *)
Lemma train_loops X Y layers_dims lr ni bs s v s' :
  train X Y layers_dims lr ni bs s = Ok (v, s') →
  ∃ Xt Yt Xv Yv p s0 s1 c rows,
    initialize_parameters layers_dims s0 = Ok (p, s1) ∧
    arrays s1 !! Xt = Some (Arr2 c rows) ∧
    ∀ lr' ni' bs',
      train X Y layers_dims lr' ni' bs' s
      = epoch_loop Xt Yt Xv Yv lr' ni' bs' (seqZ 0 ni') (mkLocals p PInf false [] [] 0) s1.
Proof.
  intros H. unfold train in H.
  inv_run H as n s1 H1. inv_run H as ind s2 H2. inv_run H as Xv s3 H3.
  inv_run H as Yv s4 H4. inv_run H as Xt s5 H5. inv_run H as Yt s6 H6.
  inv_run H as p s7 H7.
  apply op1_inv in H5 as Hr. destruct Hr as (a & r & Ha & Hr & HXt & F5).
  unfold take_columns in Hr. destruct a as [|c rows]; [done|].
  case_decide; [|done]. injection Hr as <-.
  apply keeps_op1 in H6 as F6.
  pose proof (initialize_parameters_owns _ _ _ _ H7) as (Hsub & _).
  exists Xt, Yt, Xv, Yv, p, s6, s7. eexists _, _. split; [done|]. split.
  - eapply lookup_weaken; [|exact Hsub]. by eapply frame_array.
  - intros lr' ni' bs'. unfold train.
    rewrite (bind_run _ _ _ _ _ H1), (bind_run _ _ _ _ _ H2), (bind_run _ _ _ _ _ H3).
    rewrite (bind_run _ _ _ _ _ H4), (bind_run _ _ _ _ _ H5), (bind_run _ _ _ _ _ H6).
    by rewrite (bind_run _ _ _ _ _ H7).
Qed.

(** With a negative [batch_size] every epoch is over at once. *)
Lemma epoch_loop_no_batches Xt Yt Xv Yv lr ni bs epochs v s c rows :
  (bs < 0)%Z → converged v = false → arrays s !! Xt = Some (Arr2 c rows) →
  epoch_loop Xt Yt Xv Yv lr ni bs epochs v s = Ok (v, s).
Proof.
  intros Hbs Hc HXt. induction epochs as [|e epochs IH]; [done|].
  cbn [epoch_loop]. rewrite Hc.
  rewrite (bind_run _ _ _ _ _ (shape1_of_run Xt s c rows HXt)).
  rewrite (bind_run _ _ _ _ _ (lift_run _ _ s (range_step_negative c bs Hbs))).
  cbn [batch_loop].
  by rewrite (bind_run _ _ _ _ _ (eq_refl : (mret (Next v) : M control) s = Ok (Next v, s))).
Qed.

End NoBatches.

Import NoBatches.

(** X12.  Without an epoch or with a negative [batch_size] nothing is
    trained.  When the data and the layer sizes are such that
    [L_layer_model] returns for some hyper-parameters, then it returns for
    every [num_iterations <= 0] and for every negative [batch_size]
    ([range(0, n, batch_size)] is empty), with an empty history and the
    parameters as [initialize_parameters] made them: the store it ends in
    is the one [initialize_parameters] returned in. *)
Theorem no_epoch_or_negative_batch_size_trains_nothing
    X Y layers_dims lr0 ni0 bs0 s r0 learning_rate num_iterations batch_size :
  L_layer_model X Y layers_dims lr0 ni0 bs0 s = Ok r0 →
  (num_iterations ≤ 0 ∨ batch_size < 0)%Z →
  ∃ p s' s0,
    L_layer_model X Y layers_dims learning_rate num_iterations batch_size s
      = Ok ((p, []), s') ∧
    initialize_parameters layers_dims s0 = Ok (p, s').
Proof.
  intros H0 Hdeg. destruct r0 as [[p0 h0] s0'].
  apply L_layer_model_inv in H0 as (v0 & H0 & _).
  apply train_loops in H0 as (Xt & Yt & Xv & Yv & p & s0 & s1 & c & rows & Hinit & HXt & Heq).
  exists p, s1, s0. split; [|done].
  unfold L_layer_model.
  assert (train X Y layers_dims learning_rate num_iterations batch_size s
          = Ok (mkLocals p PInf false [] [] 0, s1)) as Hrun.
  { rewrite Heq. destruct (decide (num_iterations ≤ 0)%Z) as [Hni|Hni].
    - by rewrite seqZ_nil.
    - eapply epoch_loop_no_batches; [lia|done..]. }
  by rewrite (bind_run _ _ _ _ _ Hrun).
Qed.

Lemma no_epoch_or_negative_batch_size_trains_nothing_witness :
  ∃ p s' s0,
    L_layer_model 1%positive 2%positive [1; 1]%Z (9 / 1000) 30 (-128) Tiny.examples
      = Ok ((p, []), s') ∧
    initialize_parameters [1; 1]%Z s0 = Ok (p, s').
Proof.
  destruct L_layer_model_tiny as (p & cost & s' & Hrun).
  apply (no_epoch_or_negative_batch_size_trains_nothing _ _ _ _ _ _ _ _ (9 / 1000) 30 (-128)
           Hrun).
  right. lia.
Defined.

(** X13.  A [batch_size] of 0 is refused by the first epoch.  When the data
    and the layer sizes are such that [L_layer_model] returns for some
    hyper-parameters, the call with [batch_size = 0] and at least one epoch
    raises the [ValueError] of [range(0, n, 0)]. *)
Theorem zero_batch_size_raises_ValueError
    X Y layers_dims lr0 ni0 bs0 s r0 learning_rate num_iterations :
  L_layer_model X Y layers_dims lr0 ni0 bs0 s = Ok r0 → (0 < num_iterations)%Z →
  L_layer_model X Y layers_dims learning_rate num_iterations 0 s = Raise ValueError.
Proof.
  intros H0 Hni. destruct r0 as [[p0 h0] s0'].
  apply L_layer_model_inv in H0 as (v0 & H0 & _).
  apply train_loops in H0 as (Xt & Yt & Xv & Yv & p & s0 & s1 & c & rows & Hinit & HXt & Heq).
  unfold L_layer_model. apply bind_raise. rewrite Heq, seqZ_cons by done.
  cbn [epoch_loop converged].
  rewrite (bind_run _ _ _ _ _ (shape1_of_run Xt s1 c rows HXt)).
  by apply bind_raise.
Qed.

Lemma zero_batch_size_raises_ValueError_witness :
  L_layer_model 1%positive 2%positive [1; 1]%Z (9 / 1000) 30 0 Tiny.examples
    = Raise ValueError.
Proof.
  destruct L_layer_model_tiny as (p & cost & s' & Hrun).
  apply (zero_batch_size_raises_ValueError _ _ _ _ _ _ _ _ (9 / 1000) 30 Hrun). lia.
Defined.

(** ** The accuracy [predict] returns *)

Module Accuracy.

Lemma length_stretch {A} n (l : list A) :
  length (stretch n l) = if decide (length l = 1%nat) then n else length l.
Proof. destruct l as [|x [|y l]]; simpl; [done| |done]. by rewrite length_replicate. Qed.

(** [np.sum(np.equal(y, a))] counts at most one hit per label, unless
    there is a single label, which is compared with every prediction. *)
Lemma count_equal_inv y a hits :
  count_equal y a = Ok hits → length y ≠ 1%nat → (hits <= length y)%nat.
Proof.
  unfold count_equal. destruct (bdim (length y) (length a)) as [n|] eqn:Hn; [|done].
  intros [= <-] Hy.
  pose proof (length_filter (λ p : nat * nat, p.1 = p.2) (zip (stretch n y) (stretch n a)))
    as Hf.
  rewrite length_zip, length_stretch in Hf. rewrite decide_False in Hf by done. lia.
Qed.

End Accuracy.

Import Accuracy.

(** X14.  For labels [Y] of at least one column, what [predict] returns is
    a number of hits over the number of label columns: it is never
    negative, and it is at most 1 unless [Y] has exactly one column, in
    which case numpy compares this one label with every prediction and
    [predict] returns the whole number of predictions that agree with it.
    [predict] changes no array and no dict. *)
Theorem predict_is_hits_over_label_columns X Y parameters s acc s' c rows :
  predict X Y parameters s = Ok (acc, s') → arrays s !! Y = Some (Arr2 c rows) →
  c ≠ 0%nat →
  frame s s' ∧
  (∃ hits : nat, acc = (INR hits / INR c)%R) ∧
  (0 <= acc)%R ∧ (c ≠ 1%nat → acc <= 1)%R.
Proof.
  intros H HY Hc0. apply keeps_predict in H as F. split; [done|].
  unfold predict in H. inv_run H as [y_preds cache] s1 H1.
  apply keeps_L_model_forward in H1 as F1.
  inv_run H as p s2 H2. apply read_inv in H2 as [_ ->].
  inv_run H as a s2 H2. apply lift_inv in H2 as [_ ->].
  inv_run H as t s2 H2. apply read_inv in H2 as [Ht ->].
  rewrite (frame_array _ _ _ _ F1 HY) in Ht. injection Ht as <-.
  inv_run H as y s2 H2. apply lift_inv in H2 as [Hy ->].
  inv_run H as hits s2 H2. apply lift_inv in H2 as [Hhits ->].
  case_decide as Hlen; [done|]. injection H as <- _.
  assert (length y = c) as Hc.
  { destruct rows; [done|]. injection Hy as <-. apply length_argmax. }
  rewrite Hc in *.
  assert (0 < INR c)%R as Hpos by (apply lt_0_INR; lia).
  split; [by exists hits|]. split.
  - unfold Rdiv. apply Rmult_le_pos; [apply pos_INR|].
    left. by apply Rinv_0_lt_compat.
  - intros Hc1. apply count_equal_inv in Hhits; [|lia].
    apply (Rmult_le_reg_r (INR c)); [done|].
    unfold Rdiv. rewrite Rmult_assoc, Rinv_l, Rmult_1_r, Rmult_1_l by lra.
    apply le_INR. lia.
Qed.

Lemma predict_is_hits_over_label_columns_witness :
  ∃ acc s', predict 3%positive 4%positive 1%positive Tiny.store = Ok (acc, s') ∧
            frame Tiny.store s' ∧ (0 <= acc)%R.
Proof.
  destruct (predict_run 3%positive 4%positive 1%positive Tiny.store 1 [1%nat]
              Tiny.X Tiny.Y 1 Tiny.store_net eq_refl eq_refl (Tiny.shape_1_1 _) (le_n 1)
              eq_refl (Tiny.shape_1_1 _)) as (acc & s' & Hrun & _).
  destruct (predict_is_hits_over_label_columns _ _ _ _ _ _ 1%nat [[1%R]] Hrun eq_refl
              ltac:(lia))
    as (F & _ & Hacc & _).
  exists acc, s'. split; [exact Hrun|]. split; [exact F|exact Hacc].
Defined.

(** ** The sizes [initialize_parameters] accepts *)

Module Sizes.

(** One turn of the loop of [initialize_parameters]: the layer has [d]
    units on [dp] inputs. *)
Lemma init_layer_cases layer_dims params k dp d s pd :
  layer_dims !! k = Some dp → layer_dims !! S k = Some d → dicts s !! params = Some pd →
  ((0 < dp ∧ 0 ≤ d)%Z →
   ∃ s' pd', init_layer layer_dims params (Z.of_nat (S k)) s = Ok ((), s') ∧
             dicts s' !! params = Some pd') ∧
  (¬ (0 < dp ∧ 0 ≤ d)%Z →
   init_layer layer_dims params (Z.of_nat (S k)) s
   = Raise (if decide (dp < 0 ∨ d < 0)%Z then ValueError else ZeroDivisionError)).
Proof.
  intros Hprev Hd Hpd. split.
  - intros [Hdp Hd0].
    destruct (Init.init_layer_run layer_dims params k (Z.to_nat dp) (Z.to_nat d) s pd)
      as (s' & lw & lb & W & b & Hrun & Hd' & _).
    + by rewrite Z2Nat.id by lia.
    + by rewrite Z2Nat.id by lia.
    + lia.
    + done.
    + eauto.
  - intros Hbad. unfold init_layer.
    rewrite (bind_run _ _ _ _ _ (Init.list_get_run _ _ _ _ Hd)).
    replace (Z.of_nat (S k) - 1)%Z with (Z.of_nat k) by lia.
    rewrite (bind_run _ _ _ _ _ (Init.list_get_run _ _ _ _ Hprev)).
    case_decide as Hneg.
    + apply bind_raise. unfold randn. rewrite decide_True; [done|]. tauto.
    + assert (dp = 0%Z) as -> by lia.
      destruct (Init.randn_run (Z.to_nat d) 0 s) as (g & s1 & G & H1 & _).
      rewrite Z2Nat.id in H1 by lia. change (Z.of_nat 0) with 0%Z in H1.
      rewrite (bind_run _ _ _ _ _ H1).
      rewrite (bind_run _ _ _ _ _ (Init.list_get_run _ _ _ _ Hprev)).
      rewrite decide_True by done. by apply bind_raise.
Qed.

(** The loop of [initialize_parameters] from layer [S (length pre)] on
    returns when every layer left fits, and raises at the first that does
    not. *)
Lemma init_loop_cases params todo pre dp s pd :
  dicts s !! params = Some pd →
  ((∀ i a b, (dp :: todo) !! i = Some a → (dp :: todo) !! S i = Some b →
             (0 < a ∧ 0 ≤ b)%Z) →
   ∃ s', for_in (seqZ (Z.of_nat (S (length pre))) (Z.of_nat (length todo)))
                (λ i _, init_layer (pre ++ dp :: todo) params i) () s = Ok ((), s')) ∧
  (∀ i a b, (dp :: todo) !! i = Some a → (dp :: todo) !! S i = Some b →
            ¬ (0 < a ∧ 0 ≤ b)%Z →
            (∀ j a' b', (j < i)%nat → (dp :: todo) !! j = Some a' →
                        (dp :: todo) !! S j = Some b' → (0 < a' ∧ 0 ≤ b')%Z) →
     for_in (seqZ (Z.of_nat (S (length pre))) (Z.of_nat (length todo)))
            (λ i _, init_layer (pre ++ dp :: todo) params i) () s
     = Raise (if decide (a < 0 ∨ b < 0)%Z then ValueError else ZeroDivisionError)).
Proof.
  revert pre dp s pd. induction todo as [|d todo IH]; intros pre dp s pd Hpd.
  { split; [by exists s|]. intros i a b _ Hb. by destruct i. }
  destruct (init_layer_cases (pre ++ dp :: d :: todo) params (length pre) dp d s pd)
    as [Hok Hbad]; [| |done|].
  { by rewrite list_lookup_middle. }
  { replace (pre ++ dp :: d :: todo) with ((pre ++ [dp]) ++ d :: todo)
      by by rewrite <- app_assoc.
    rewrite (list_lookup_middle (pre ++ [dp]) todo d (S (length pre))); [done|].
    rewrite length_app. simpl. lia. }
  assert (∀ s1,
            for_in (seqZ (Z.of_nat (S (length (pre ++ [dp])))) (Z.of_nat (length todo)))
                   (λ i _, init_layer ((pre ++ [dp]) ++ d :: todo) params i) () s1
            = for_in (seqZ (Z.succ (Z.of_nat (S (length pre))))
                           (Z.pred (Z.of_nat (length (d :: todo)))))
                     (λ i _, init_layer (pre ++ dp :: d :: todo) params i) () s1) as Hrest.
  { intros s1. rewrite <- app_assoc. simpl. rewrite length_app. simpl.
    do 2 f_equal; lia. }
  rewrite seqZ_cons by (simpl; lia). cbn [for_in]. split.
  - intros Hfit. destruct Hok as (s1 & pd1 & H1 & Hpd1); [by apply (Hfit 0%nat)|].
    destruct (IH (pre ++ [dp]) d s1 pd1 Hpd1) as [Hloop _].
    destruct Hloop as (s' & Hloop).
    { intros i a b Ha Hb. by apply (Hfit (S i)). }
    exists s'. rewrite (bind_run _ _ _ _ _ H1). by rewrite <- Hrest.
  - intros [|i] a b Ha Hb Hnfit Hbefore.
    + injection Ha as <-. injection Hb as <-. apply bind_raise. by apply Hbad.
    + destruct Hok as (s1 & pd1 & H1 & Hpd1); [apply (Hbefore 0%nat); [lia|done..]|].
      destruct (IH (pre ++ [dp]) d s1 pd1 Hpd1) as [_ Hloop].
      rewrite (bind_run _ _ _ _ _ H1), <- Hrest.
      apply (Hloop i); [done..|]. intros j a' b' Hj. apply (Hbefore (S j)). lia.
Qed.

End Sizes.

(** X15.  The sizes [initialize_parameters] accepts.  It returns when,
    for every layer, the size of its input is positive and its own size
    is not negative: the output layer may be empty, every other size must
    be at least 1 (a list of fewer than two sizes has no layer and is
    accepted).  At the first layer where this fails it raises the
    [ValueError] of [np.random.randn] when one of the two sizes is
    negative, and the [ZeroDivisionError] of [2 / layer_dims[i - 1]] when
    the input size is 0. *)
Theorem initialize_parameters_checks_sizes layer_dims s :
  ((∀ i dp d, layer_dims !! i = Some dp → layer_dims !! S i = Some d → (0 < dp ∧ 0 ≤ d)%Z) →
   ∃ p s', initialize_parameters layer_dims s = Ok (p, s')) ∧
  (∀ i dp d,
     layer_dims !! i = Some dp → layer_dims !! S i = Some d → ¬ (0 < dp ∧ 0 ≤ d)%Z →
     (∀ j dp' d', (j < i)%nat → layer_dims !! j = Some dp' → layer_dims !! S j = Some d' →
                  (0 < dp' ∧ 0 ≤ d')%Z) →
     initialize_parameters layer_dims s
     = Raise (if decide (dp < 0 ∨ d < 0)%Z then ValueError else ZeroDivisionError)).
Proof.
  unfold initialize_parameters.
  set (s1 := mkState (arrays s) (dicts s) (Some (Z.of_nat (length layer_dims) - 1)%Z)
               (gauss s) (randint s) (stdout s)).
  destruct (new_array_run (Arr1 (replicate (length layer_dims) 0%R)) s1)
    as (l0 & s2 & H2 & _).
  destruct (new_dict_run ∅ s2) as (p & s3 & H3 & Hp & _).
  rewrite (bind_run _ _ _ _ _ (eq_refl : set_n_layers _ s = Ok ((), s1))).
  rewrite (bind_run _ _ _ _ _ H2), (bind_run _ _ _ _ _ H3).
  destruct layer_dims as [|dp todo].
  { split; [by exists p, s3|]. intros i dp d Hi. by destruct i. }
  replace (Z.of_nat (length (dp :: todo)) - 1)%Z with (Z.of_nat (length todo))
    by (simpl; lia).
  destruct (Sizes.init_loop_cases p todo [] dp s3 ∅ Hp) as [Hok Hbad]. split.
  - intros Hfit. destruct (Hok Hfit) as (s' & Hloop). exists p, s'.
    by rewrite (bind_run _ _ _ _ _ Hloop).
  - intros i a b Ha Hb Hnfit Hbefore. apply bind_raise. by apply (Hbad i).
Qed.

Lemma initialize_parameters_checks_sizes_witness :
  (∃ p s', initialize_parameters [2; 3; 0]%Z Tiny.store = Ok (p, s')) ∧
  initialize_parameters [2; 0; 3]%Z Tiny.store = Raise ZeroDivisionError ∧
  initialize_parameters [2; 3; -1; 0]%Z Tiny.store = Raise ValueError.
Proof.
  split; [|split].
  - apply (initialize_parameters_checks_sizes [2; 3; 0]%Z Tiny.store).
    intros [|[|[|i]]] dp d Hi Hd; simplify_eq/=; lia.
  - apply (proj2 (initialize_parameters_checks_sizes [2; 0; 3]%Z Tiny.store)
             1%nat 0%Z 3%Z eq_refl eq_refl); [lia|].
    intros [|j] dp d Hj Hdp Hd; simplify_eq/=; lia.
  - apply (proj2 (initialize_parameters_checks_sizes [2; 3; -1; 0]%Z Tiny.store)
             1%nat 3%Z (-1)%Z eq_refl eq_refl); [lia|].
    intros [|j] dp d Hj Hdp Hd; simplify_eq/=; lia.
Defined.

(** ** The gradients of the linear part *)

Module Gradients.
Local Open Scope R_scope.

(** Transposing twice gives the matrix back. *)
Lemma columns_columns c rows :
  rect c rows → columns (length rows) (columns c rows) = rows.
Proof.
  intros Hrect. unfold columns at 1. apply list_eq. intros i.
  rewrite list_lookup_fmap. destruct (rows !! i) as [row|] eqn:Hrow.
  - rewrite lookup_seq_lt by (by eapply lookup_lt_Some). simpl. f_equal.
    unfold column at 1, columns. rewrite <- list_fmap_compose.
    assert (length row = c) as Hlen.
    { eapply (proj1 (Forall_forall _ _) Hrect). by eapply list_elem_of_lookup_2. }
    apply list_eq. intros j. rewrite list_lookup_fmap.
    destruct (decide (j < c)%nat) as [Hj|Hj].
    + rewrite lookup_seq_lt by done. simpl.
      unfold column. rewrite nth_lookup, list_lookup_fmap, Hrow. simpl.
      destruct (nth_lookup_or_length row j 0) as [->|]; [done|lia].
    + rewrite lookup_seq_ge by lia. symmetry. apply lookup_ge_None. lia.
  - rewrite lookup_seq_ge by (by apply lookup_ge_None). done.
Qed.

(** [(1 / m) * np.dot(dZ, A.T)]: the entry for the unit [z] and the input
    [a] is the mean over the examples of their products. *)
Lemma dW_closed_form k m inv_m rowsA rowsZ :
  length rowsA = k → rect m rowsA →
  ∃ D, np_dot (Arr2 m rowsZ) (np_T (Arr2 m rowsA)) = Ok D ∧
       scale inv_m D = Arr2 k ((λ z, (λ a, inv_m * dotp z a) <$> rowsA) <$> rowsZ).
Proof.
  intros Hk Hrect. unfold np_T, np_dot. rewrite decide_True by (by rewrite length_columns).
  eexists. split; [done|].
  rewrite columns_columns by done. subst k. cbn [scale amap]. f_equal.
  rewrite <- list_fmap_compose. apply list_fmap_ext. intros i z _. simpl.
  by rewrite <- list_fmap_compose.
Qed.

(** The entries [AL[Y > 0]] of a batch without a column. *)
Lemma select_no_column rowsA rowsY :
  rect 0%nat rowsA → concat (zip_with select rowsA rowsY) = [].
Proof.
  revert rowsY. induction rowsA as [|a rowsA IH]; intros rowsY Hrect; [done|].
  apply Forall_cons in Hrect as [Ha Hrect]. apply nil_length_inv in Ha as ->.
  destruct rowsY as [|y rowsY]; [done|]. simpl. by apply IH.
Qed.

End Gradients.

(** X16.  The gradients [linear_backward] returns, for a cache holding the
    input [A] of [m > 0] examples and the weights [W], and a gradient [dZ]
    with a column per example and a row per row of [W].  [dW] has a row per
    row of [dZ] and a column per row of [A]: the mean over the examples of
    the product of the two; [db] is an array of rank 1, not a column: the
    means of the rows of [dZ]; [dA_prev] is [W.T] times [dZ].  The three are
    new arrays, and nothing else changes. *)
Theorem linear_backward_closed_forms dZ cache s d lA lW k m r rowsA rowsW rowsZ :
  dicts s !! cache = Some d → d !! "A" = Some lA → d !! "W" = Some lW →
  arrays s !! lA = Some (Arr2 m rowsA) → arrays s !! lW = Some (Arr2 k rowsW) →
  arrays s !! dZ = Some (Arr2 m rowsZ) →
  length rowsA = k → rect m rowsA → length rowsW = r → length rowsZ = r → m ≠ 0%nat →
  ∃ dA_prev dW db s',
    linear_backward dZ cache s = Ok ((dA_prev, dW, db), s') ∧ frame s s' ∧
    arrays s' !! dW
      = Some (Arr2 k ((λ z, (λ a, 1 / INR m * dotp z a)%R <$> rowsA) <$> rowsZ)) ∧
    arrays s' !! db = Some (Arr1 ((λ z, 1 / INR m * Rsum z)%R <$> rowsZ)) ∧
    arrays s' !! dA_prev
      = Some (Arr2 m ((λ w, dotp w <$> columns m rowsZ) <$> columns k rowsW)).
Proof.
  intros Hd HA HW HlA HlW HdZ Hk Hrect Hr HrZ Hm.
  destruct (Gradients.dW_closed_form k m (1 / INR m) rowsA rowsZ Hk Hrect)
    as (D & Hdot & HD).
  destruct (total1_run np_T lA s _ HlA) as (At & s1 & H1 & HAt & F1).
  destruct (op2_run np_dot dZ At s1 _ _ _ (frame_array _ _ _ _ F1 HdZ) HAt Hdot)
    as (dd & s2 & H2 & Hdd & F2).
  destruct (total1_run (scale (1 / INR m)) dd s2 _ Hdd) as (dW & s3 & H3 & HdW & F3).
  assert (frame s s3) as F03 by eauto using frame_trans.
  destruct (op1_run np_sum_axis1 dZ s3 _ _ (frame_array _ _ _ _ F03 HdZ) eq_refl)
    as (sm & s4 & H4 & Hsm & F4).
  destruct (total1_run (scale (1 / INR m)) sm s4 _ Hsm) as (db & s5 & H5 & Hdb & F5).
  assert (frame s s5) as F05 by eauto using frame_trans.
  destruct (total1_run np_T lW s5 _ (frame_array _ _ _ _ F05 HlW))
    as (Wt & s6 & H6 & HWt & F6).
  assert (frame s s6) as F06 by eauto using frame_trans.
  destruct (op2_run np_dot Wt dZ s6 (np_T (Arr2 k rowsW)) (Arr2 m rowsZ)
              (Arr2 m ((λ w, dotp w <$> columns m rowsZ) <$> columns k rowsW))
              HWt (frame_array _ _ _ _ F06 HdZ))
    as (dA & s7 & H7 & HdA & F7).
  { unfold np_T, np_dot. rewrite decide_True by congruence. done. }
  exists dA, dW, db, s7. split; [|split; [eauto using frame_trans|]].
  - unfold linear_backward.
    rewrite (bind_run _ _ _ _ _ (dict_get_run cache "A" s d lA Hd HA)).
    rewrite (bind_run _ _ _ _ _ (shape1_of_run lA s m rowsA HlA)).
    rewrite (bind_run _ _ _ _ _ (Backward.py_inv_run m s Hm)).
    rewrite (bind_run _ _ _ _ _ (dict_get_run cache "A" s d lA Hd HA)).
    rewrite (bind_run _ _ _ _ _ H1), (bind_run _ _ _ _ _ H2), (bind_run _ _ _ _ _ H3).
    rewrite (bind_run _ _ _ _ _ (Backward.py_inv_run m s3 Hm)).
    rewrite (bind_run _ _ _ _ _ H4), (bind_run _ _ _ _ _ H5).
    rewrite (bind_run _ _ _ _ _ (dict_get_run cache "W" s5 d lW
                                   (frame_dict _ _ _ _ F05 Hd) HW)).
    by rewrite (bind_run _ _ _ _ _ H6), (bind_run _ _ _ _ _ H7).
  - split_and!.
    + rewrite <- HD. eapply frame_array; [|done]. eauto using frame_trans.
    + cbn [scale amap] in Hdb. rewrite <- list_fmap_compose in Hdb.
      eapply frame_array; [|exact Hdb]. eauto using frame_trans.
    + done.
Qed.

Lemma linear_backward_closed_forms_witness :
  ∃ dA_prev dW db s',
    linear_backward 4%positive 2%positive Tiny.store = Ok ((dA_prev, dW, db), s') ∧
    arrays s' !! db = Some (Arr1 [1 / INR 1 * Rsum [1]]%R).
Proof.
  destruct (linear_backward_closed_forms 4%positive 2%positive Tiny.store Tiny.cache
              3%positive 1%positive 1 1 1 [[0]]%R [[0]]%R [[1]]%R)
    as (dA & dW & db & s' & Hrun & _ & _ & Hdb & _); try reflexivity.
  - by repeat constructor.
  - lia.
  - by exists dA, dW, db, s'.
Defined.

(** X17.  A batch without an example divides by zero.  [compute_cost] on
    activations and labels of no column, and [linear_backward] on a cache
    whose input [A] has no column, raise the [ZeroDivisionError] of
    [1 / AL.shape[1]] and [1 / m]: selecting, taking logarithms and
    summing over no entry raises nothing before. *)
Theorem no_example_raises_ZeroDivisionError :
  (∀ AL Y s rowsA rowsY,
     arrays s !! AL = Some (Arr2 0 rowsA) → arrays s !! Y = Some (Arr2 0 rowsY) →
     length rowsA = length rowsY → rect 0%nat rowsA →
     compute_cost AL Y s = Raise ZeroDivisionError) ∧
  (∀ dZ cache s d lA rowsA,
     dicts s !! cache = Some d → d !! "A" = Some lA →
     arrays s !! lA = Some (Arr2 0 rowsA) →
     linear_backward dZ cache s = Raise ZeroDivisionError).
Proof.
  split.
  - intros AL Y s rowsA rowsY HAL HY Hrows Hrect.
    destruct (op2_run mask_gt0 AL Y s _ _ (Arr1 []) HAL HY) as (sel & s1 & H1 & Hsel & F1).
    { unfold mask_gt0. rewrite decide_True by done.
      by rewrite Gradients.select_no_column. }
    destruct (op1_run np_log sel s1 _ (Arr1 []) Hsel) as (yp & s2 & H2 & Hyp & F2).
    { unfold np_log. by rewrite decide_True by constructor. }
    assert (frame s s2) as F02 by eauto using frame_trans.
    destruct (op2_run np_mul yp Y s2 (Arr1 []) (Arr2 0 rowsY)
                (Arr2 0 (zip_with (λ x y, zip_with Rmult (stretch 0 x) (stretch 0 y))
                           (stretch (length rowsY) [[]]) (stretch (length rowsY) rowsY)))
                Hyp (frame_array _ _ _ _ F02 HY))
      as (pr & s3 & H3 & Hpr & F3).
    { unfold np_mul, broadcast. cbn [as_rows rank1 andb length].
      by rewrite bdim_1_l, bdim_same. }
    assert (frame s s3) as F03 by eauto using frame_trans.
    unfold compute_cost.
    rewrite (bind_run _ _ _ _ _ H1), (bind_run _ _ _ _ _ H2), (bind_run _ _ _ _ _ H3).
    rewrite (bind_run _ _ _ _ _ (read_run _ _ _ Hpr)).
    rewrite (bind_run _ _ _ _ _ (shape1_of_run AL s3 0 rowsA (frame_array _ _ _ _ F03 HAL))).
    by apply bind_raise.
  - intros dZ cache s d lA rowsA Hd HA HlA. unfold linear_backward.
    rewrite (bind_run _ _ _ _ _ (dict_get_run cache "A" s d lA Hd HA)).
    rewrite (bind_run _ _ _ _ _ (shape1_of_run lA s 0 rowsA HlA)).
    by apply bind_raise.
Qed.

(** A batch without a column, of two classes, and a cache for it. *)
Definition no_example : state :=
  mkState (<[1%positive := Arr2 0 [[]; []]]> (<[2%positive := Arr2 0 [[]; []]]> ∅))
          (<[1%positive := <["A" := 1%positive]> ∅]> ∅) None (λ _, 0%R) (λ _, 0%nat) [].

Lemma no_example_raises_ZeroDivisionError_witness :
  compute_cost 1%positive 2%positive no_example = Raise ZeroDivisionError ∧
  linear_backward 2%positive 1%positive no_example = Raise ZeroDivisionError.
Proof.
  split.
  - apply (proj1 no_example_raises_ZeroDivisionError 1%positive 2%positive no_example
             [[]; []] [[]; []] eq_refl eq_refl eq_refl).
    by repeat constructor.
  - exact (proj2 no_example_raises_ZeroDivisionError 2%positive 1%positive no_example
             (<["A" := 1%positive]> ∅) 1%positive [[]; []] eq_refl eq_refl eq_refl).
Defined.

(** ** [apply_batchnorm] *)

Module BatchNorm.
Local Open Scope R_scope.

(** The operations of [apply_batchnorm] work on the transposed matrix,
    column by column, with a vector that has an entry per row; transposed
    back, they work row by row. *)
Lemma transpose_rowwise {B} (f : R → B → R) (g : list R → B) c rows :
  rect c rows →
  columns (length rows) ((λ col, zip_with f col (g <$> rows)) <$> columns c rows)
  = (λ row, (λ x, f x (g row)) <$> row) <$> rows.
Proof.
  intros Hrect. unfold columns at 1. apply list_eq. intros i.
  rewrite !list_lookup_fmap. destruct (rows !! i) as [row|] eqn:Hrow.
  - rewrite lookup_seq_lt by (by eapply lookup_lt_Some). simpl. f_equal.
    assert (length row = c) as Hlen.
    { eapply (proj1 (Forall_forall _ _) Hrect). by eapply list_elem_of_lookup_2. }
    unfold column at 1, columns. rewrite <- !list_fmap_compose.
    apply list_eq. intros j. rewrite !list_lookup_fmap.
    destruct (decide (j < c)%nat) as [Hj|Hj].
    + rewrite lookup_seq_lt by done.
      destruct (lookup_lt_is_Some_2 row j) as [x Hx]; [lia|]. rewrite Hx. simpl. f_equal.
      rewrite nth_lookup, lookup_zip_with, (column_lookup _ _ _ _ Hrow).
      rewrite list_lookup_fmap, Hrow. simpl. by rewrite (nth_lookup_Some _ _ _ _ Hx).
    + rewrite lookup_seq_ge by lia. rewrite (proj2 (lookup_ge_None row j)) by lia. done.
  - rewrite lookup_seq_ge by (by apply lookup_ge_None). done.
Qed.

Lemma zip_with_div_minus {A} (f1 f2 : A → R) col l :
  zip_with Rdiv (zip_with Rminus col (f1 <$> l)) (f2 <$> l)
  = zip_with (λ x (p : R * R), (x - p.1) / p.2) col ((λ a, (f1 a, f2 a)) <$> l).
Proof.
  revert l. induction col as [|x col IH]; intros [|a l]; simpl; [done..|].
  by rewrite IH.
Qed.

Lemma rect_columns c rows : rect (length rows) (columns c rows).
Proof.
  unfold columns. apply Forall_fmap, Forall_forall. intros j _. simpl.
  apply length_column.
Qed.

Lemma Rsum_centred mu k row :
  Rsum ((λ x, (x - mu) / k) <$> row) = (Rsum row - INR (length row) * mu) / k.
Proof.
  induction row as [|x row IH]; [simpl; lra|].
  cbn [fmap list_fmap Rsum foldr length]. fold (Rsum ((λ x, (x - mu) / k) <$> row)).
  fold (Rsum row). rewrite IH, S_INR. lra.
Qed.

Lemma Rsum_squares_nonneg (f : R → R) row : 0 <= Rsum ((λ x, f x * f x) <$> row).
Proof.
  induction row as [|x row IH]; [simpl; lra|].
  cbn [fmap list_fmap Rsum foldr]. fold (Rsum ((λ x, f x * f x) <$> row)).
  pose proof (Rle_0_sqr (f x)) as Hx. unfold Rsqr in Hx. lra.
Qed.

Lemma float_eps_pos : 0 < float_eps.
Proof. unfold float_eps. apply Rinv_0_lt_compat, pow_lt. lra. Qed.

Lemma mean_rows c rows :
  c ≠ 0%nat → np_mean_axis1 (Arr2 c rows) = Ok (Arr1 ((λ r, Rsum r / INR c) <$> rows)).
Proof. intros Hc. unfold np_mean_axis1. rewrite decide_False; [done|]. tauto. Qed.

Lemma sub_transposed (g : list R → R) c rows :
  np_sub (np_T (Arr2 c rows)) (Arr1 (g <$> rows))
  = Ok (Arr2 (length rows) ((λ col, zip_with Rminus col (g <$> rows)) <$> columns c rows)).
Proof.
  unfold np_sub, np_T. apply broadcast_row_vector; [apply rect_columns|].
  by rewrite length_fmap.
Qed.

Lemma transpose_back {B} (f : R → B → R) (g : list R → B) c rows :
  rect c rows →
  np_T (Arr2 (length rows) ((λ col, zip_with f col (g <$> rows)) <$> columns c rows))
  = Arr2 c ((λ row, (λ x, f x (g row)) <$> row) <$> rows).
Proof.
  intros Hrect. unfold np_T. rewrite length_fmap, length_columns.
  by rewrite transpose_rowwise.
Qed.

Lemma div_transposed (g : list R → R) rows drows :
  rect (length rows) drows → (∀ row, 0 < g row) →
  np_div (Arr2 (length rows) drows) (Arr1 (g <$> rows))
  = Ok (Arr2 (length rows) ((λ col, zip_with Rdiv col (g <$> rows)) <$> drows)).
Proof.
  intros Hrect Hpos. unfold np_div.
  rewrite broadcast_row_vector by (done || by rewrite length_fmap).
  cbn [rbind]. case_decide; [done|]. rewrite decide_False; [done|].
  cbn [flat]. intros (y & (row & -> & _)%list_elem_of_fmap & Hy)%Exists_exists.
  pose proof (Hpos row). lra.
Qed.

Lemma rect_zip_columns {B} (f : R → B → R) (g : list R → B) c rows :
  rect (length rows) ((λ col, zip_with f col (g <$> rows)) <$> columns c rows).
Proof.
  apply rect_fmap; [apply rect_columns|]. intros x Hx.
  rewrite length_zip_with, length_fmap. lia.
Qed.

End BatchNorm.

(** X18.  [apply_batchnorm] normalises every row of a matrix with at least
    one column: from each entry it takes the mean [mu] of its row, and
    divides by [sqrt(sigma + eps)] for the mean [sigma] of the squared
    differences of the row.  The result is a new matrix of the same shape
    whose rows sum to 0; the matrix given, and every other array, is as it
    was. *)
Theorem apply_batchnorm_centres_rows A s c rows :
  arrays s !! A = Some (Arr2 c rows) → rect c rows → c ≠ 0%nat →
  ∃ NA s' rows',
    apply_batchnorm A s = Ok (NA, s') ∧ frame s s' ∧
    arrays s' !! NA = Some (Arr2 c rows') ∧
    rows' = (λ row,
               let mu := (Rsum row / INR c)%R in
               let sigma := (Rsum ((λ x, (x - mu) * (x - mu))%R <$> row) / INR c)%R in
               (λ x, (x - mu) / sqrt (sigma + float_eps))%R <$> row) <$> rows ∧
    Forall (λ row, Rsum row = 0%R) rows'.
Proof.
  intros HA Hrect Hc.
  set (fmu := λ row : list R, (Rsum row / INR c)%R).
  set (fsq := λ row : list R,
                (Rsum ((λ x, (x - fmu row) * (x - fmu row))%R <$> row) / INR c)%R).
  set (frt := λ row : list R, sqrt (fsq row + float_eps)).
  assert (0 < INR c)%R as HINR by (apply lt_0_INR; lia).
  assert (∀ row, 0 <= fsq row)%R as Hsq0.
  { intros row. unfold fsq, Rdiv. apply Rmult_le_pos.
    - apply (BatchNorm.Rsum_squares_nonneg (λ x, x - fmu row)%R).
    - left. by apply Rinv_0_lt_compat. }
  assert (∀ row, 0 < frt row)%R as Hrt0.
  { intros row. apply sqrt_lt_R0. pose proof BatchNorm.float_eps_pos.
    pose proof (Hsq0 row). lra. }
  destruct (op1_run np_mean_axis1 A s _ _ HA (BatchNorm.mean_rows c rows Hc))
    as (mu & s1 & H1 & Hmu & F1).
  destruct (total1_run np_T A s1 _ (frame_array _ _ _ _ F1 HA))
    as (At & s2 & H2 & HAt & F2).
  destruct (op2_run np_sub At mu s2 _ _ _ HAt (frame_array _ _ _ _ F2 Hmu)
              (BatchNorm.sub_transposed fmu c rows)) as (d & s3 & H3 & Hd & F3).
  destruct (total1_run np_T d s3 _ Hd) as (dT & s4 & H4 & HdT & F4).
  rewrite BatchNorm.transpose_back in HdT by done.
  destruct (total1_run np_square dT s4 _ HdT) as (sq & s5 & H5 & Hsq & F5).
  destruct (op1_run np_mean_axis1 sq s5 _ (Arr1 (fsq <$> rows)) Hsq)
    as (sigma & s6 & H6 & Hsigma & F6).
  { unfold np_square. cbn [amap]. rewrite BatchNorm.mean_rows by done. do 2 f_equal.
    rewrite <- !list_fmap_compose. apply list_fmap_ext. intros i row _. simpl.
    unfold fsq. by rewrite <- list_fmap_compose. }
  assert (frame s s6) as F06 by eauto 10 using frame_trans.
  destruct (total1_run np_T A s6 _ (frame_array _ _ _ _ F06 HA))
    as (At' & s7 & H7 & HAt' & F7).
  assert (frame s1 s7) as F17 by eauto 10 using frame_trans.
  destruct (op2_run np_sub At' mu s7 _ _ _ HAt' (frame_array _ _ _ _ F17 Hmu)
              (BatchNorm.sub_transposed fmu c rows)) as (d' & s8 & H8 & Hd' & F8).
  assert (frame s6 s8) as F68 by eauto using frame_trans.
  destruct (total1_run (amap (λ x, x + float_eps)%R) sigma s8 _
              (frame_array _ _ _ _ F68 Hsigma)) as (se & s9 & H9 & Hse & F9).
  destruct (op1_run np_sqrt se s9 _ (Arr1 (frt <$> rows)) Hse)
    as (rt & s10 & H10 & Hrt & F10).
  { unfold np_sqrt. cbn [amap flat]. rewrite decide_True.
    - by rewrite <- !list_fmap_compose.
    - apply Forall_fmap, Forall_fmap, Forall_forall. intros row _. simpl.
      pose proof BatchNorm.float_eps_pos. pose proof (Hsq0 row). lra. }
  assert (frame s8 s10) as F810 by eauto using frame_trans.
  destruct (op2_run np_div d' rt s10 _ _ _ (frame_array _ _ _ _ F810 Hd') Hrt
              (BatchNorm.div_transposed frt rows _
                 (BatchNorm.rect_zip_columns Rminus fmu c rows) Hrt0))
    as (q & s11 & H11 & Hq & F11).
  destruct (total1_run np_T q s11 _ Hq) as (NA & s12 & H12 & HNA & F12).
  rewrite <- list_fmap_compose in HNA.
  rewrite (list_fmap_ext _
             (λ col, zip_with (λ x (p : R * R), ((x - p.1) / p.2)%R) col
                       ((λ a, (fmu a, frt a)) <$> rows))) in HNA
    by (intros i col _; apply BatchNorm.zip_with_div_minus).
  rewrite BatchNorm.transpose_back in HNA by done.
  eexists NA, s12, _. split; [|split; [|split; [exact HNA|split; [reflexivity|]]]].
  - unfold apply_batchnorm.
    rewrite (bind_run _ _ _ _ _ H1), (bind_run _ _ _ _ _ H2), (bind_run _ _ _ _ _ H3).
    rewrite (bind_run _ _ _ _ _ H4), (bind_run _ _ _ _ _ H5), (bind_run _ _ _ _ _ H6).
    rewrite (bind_run _ _ _ _ _ H7), (bind_run _ _ _ _ _ H8), (bind_run _ _ _ _ _ H9).
    by rewrite (bind_run _ _ _ _ _ H10), (bind_run _ _ _ _ _ H11).
  - eauto 15 using frame_trans.
  - apply Forall_fmap. eapply Forall_impl; [exact Hrect|]. intros row Hlen. simpl.
    rewrite BatchNorm.Rsum_centred, Hlen. unfold fmu.
    replace (Rsum row - INR c * (Rsum row / INR c))%R with 0%R by (field; lra).
    unfold Rdiv. apply Rmult_0_l.
Qed.

Lemma apply_batchnorm_centres_rows_witness :
  ∃ NA s' rows',
    apply_batchnorm 1%positive mixed_signs = Ok (NA, s') ∧
    arrays s' !! NA = Some (Arr2 2 rows') ∧ Forall (λ row, Rsum row = 0%R) rows'.
Proof.
  destruct (apply_batchnorm_centres_rows 1%positive mixed_signs 2 [[-1; 5 / 2]]%R eq_refl)
    as (NA & s' & rows' & Hrun & _ & HNA & _ & Hsum).
  - by repeat constructor.
  - lia.
  - by exists NA, s', rows'.
Defined.

(** ** The gradient step *)

Module Descent.

Lemma total1_inv f x s l s' :
  total1 f x s = Ok (l, s') →
  ∃ a, arrays s !! x = Some a ∧ arrays s' !! l = Some (f a) ∧ frame s s' ∧
       dicts s' = dicts s.
Proof.
  intros H. apply keeps_total1 in H as F. unfold total1, op1 in H.
  inv_run H as a s1 H1. inv_run H as r s2 H2.
  apply read_inv in H1 as [Ha ->]. apply lift_inv in H2 as [[= <-] ->].
  apply new_array_inv in H as (_ & Hl & Hd & _). exists a. split_and!; [done| |done..].
  rewrite Hl. apply lookup_insert_eq.
Qed.

(** [target -= src] writes the difference into [target], whose shape does
    not change. *)
Lemma isub_writes target src s u s' :
  isub target src s = Ok (u, s') →
  ∃ a b r, arrays s !! target = Some a ∧ arrays s !! src = Some b ∧
           np_sub a b = Ok r ∧ shape r = shape a ∧
           arrays s' = <[target := r]> (arrays s) ∧ dicts s' = dicts s.
Proof.
  unfold isub. intros H.
  inv_run H as a s1 H1. inv_run H as b s2 H2. inv_run H as r s3 H3.
  apply read_inv in H1 as [Ha ->]. apply read_inv in H2 as [Hb ->].
  apply lift_inv in H3 as [Hr ->]. case_decide; [|discriminate].
  unfold write in H. rewrite Ha in H. injection H as _ <-.
  by exists a, b, r.
Qed.

(** [parameters[key] = w] for the array [w] that [key] holds already. *)
Lemma dict_set_same p pd key w s u s' :
  dicts s !! p = Some pd → pd !! key = Some w →
  dict_set p key w s = Ok (u, s') → dicts s' = dicts s ∧ arrays s' = arrays s.
Proof.
  intros Hp Hk (m & Hm & Hd & Ha & _)%dict_set_inv.
  rewrite Hp in Hm. injection Hm as <-.
  rewrite (insert_id pd) in Hd by done. by rewrite insert_id in Hd.
Qed.

(** What the turn of [update_parameters] for [layer] has done between the
    stores [s] and [s']. *)
Definition descended (lr : R) (pd gd : gmap string loc) (s s' : state) (layer : Z) : Prop :=
  ∃ lw lb ldW ldb W b dW db W' b',
    pd !! fmt "w" layer = Some lw ∧ pd !! fmt "b" layer = Some lb ∧
    gd !! fmt "dW" layer = Some ldW ∧ gd !! fmt "db" layer = Some ldb ∧
    arrays s !! lw = Some W ∧ arrays s !! lb = Some b ∧
    arrays s !! ldW = Some dW ∧ arrays s !! ldb = Some db ∧
    np_sub W (scale lr dW) = Ok W' ∧ shape W' = shape W ∧
    np_sub b (scale lr (reshape_col db)) = Ok b' ∧ shape b' = shape b ∧
    arrays s' !! lw = Some W' ∧ arrays s' !! lb = Some b'.

Section Step.
Variables (p g : loc) (lr : R) (pd gd : gmap string loc).
Hypothesis Hinj : ∀ k1 k2 l, pd !! k1 = Some l → pd !! k2 = Some l → k1 = k2.
Hypothesis Hdisj : ∀ k1 k2 l, pd !! k1 = Some l → gd !! k2 ≠ Some l.

Lemma update_layer_descends layer s u s' :
  dicts s !! p = Some pd → dicts s !! g = Some gd →
  (∀ k l, pd !! k = Some l → is_Some (arrays s !! l)) →
  (∀ k l, gd !! k = Some l → is_Some (arrays s !! l)) →
  update_layer p g lr layer () s = Ok (u, s') →
  descended lr pd gd s s' layer ∧ dicts s' = dicts s ∧
  (∀ l a, pd !! fmt "w" layer ≠ Some l → pd !! fmt "b" layer ≠ Some l →
          arrays s !! l = Some a → arrays s' !! l = Some a).
Proof.
  intros Hp Hg Hexp Hexg H. unfold update_layer in H.
  inv_run H as lw s1 H1. inv_run H as ldW s2 H2. inv_run H as st s3 H3.
  inv_run H as u1 s4 H4. inv_run H as u2 s5 H5.
  inv_run H as lb s6 H6. inv_run H as ldb s7 H7. inv_run H as col s8 H8.
  inv_run H as st' s9 H9. inv_run H as u3 s10 H10.
  apply dict_get_inv in H1 as [(m & Hm & Hw) ->]. rewrite Hp in Hm. injection Hm as <-.
  apply dict_get_inv in H2 as [(m & Hm & HdW) ->]. rewrite Hg in Hm. injection Hm as <-.
  apply total1_inv in H3 as (dW & HldW & Hst & F3 & Hd3).
  apply isub_writes in H4 as (W & sw & W' & HW3 & Hsw & HW' & HsW & Ha4 & Hd4).
  rewrite Hst in Hsw. injection Hsw as <-.
  destruct (Hexp _ _ Hw) as [W0 HW0].
  rewrite (frame_array _ _ _ _ F3 HW0) in HW3. injection HW3 as <-.
  assert (dicts s4 = dicts s) as Hd40 by congruence.
  apply (dict_set_same p pd) in H5 as [Hd5 Ha5]; [|by rewrite Hd40|done].
  assert (dicts s5 = dicts s) as Hd50 by congruence.
  apply dict_get_inv in H6 as [(m & Hm & Hb) ->].
  rewrite Hd50, Hp in Hm. injection Hm as <-.
  apply dict_get_inv in H7 as [(m & Hm & Hdb) ->].
  rewrite Hd50, Hg in Hm. injection Hm as <-.
  assert (lb ≠ lw) as Hbw.
  { intros ->. by apply (Init.fmt_w_b layer layer), (Hinj _ _ lw). }
  assert (∀ l a, l ≠ lw → arrays s !! l = Some a → arrays s5 !! l = Some a) as Hkeep5.
  { intros l a Hl Ha. rewrite Ha5, Ha4, lookup_insert_ne by done.
    by eapply frame_array. }
  apply total1_inv in H8 as (db & Hldb & Hcol & F8 & Hd8).
  destruct (Hexg _ _ Hdb) as [db0 Hdb0].
  rewrite (Hkeep5 ldb db0) in Hldb;
    [|intros Heq; subst; exact (Hdisj _ _ _ Hw Hdb)|done].
  injection Hldb as <-.
  apply total1_inv in H9 as (cv & Hcv & Hst' & F9 & Hd9).
  rewrite Hcol in Hcv. injection Hcv as <-.
  assert (arrays s5 ⊆ arrays s9) as Hsub59.
  { etrans; [apply (frame_arrays _ _ F8)|apply (frame_arrays _ _ F9)]. }
  apply isub_writes in H10 as (b & sb & b' & Hb9 & Hsb & Hb' & Hsb' & Ha10 & Hd10).
  rewrite Hst' in Hsb. injection Hsb as <-.
  destruct (Hexp _ _ Hb) as [b0 Hb0].
  rewrite (lookup_weaken _ _ _ _ (Hkeep5 lb b0 Hbw Hb0) Hsub59) in Hb9.
  injection Hb9 as <-.
  assert (dicts s10 = dicts s) as Hd100 by congruence.
  apply (dict_set_same p pd) in H as [Hd' Ha']; [|by rewrite Hd100|done].
  split; [|split].
  - exists lw, lb, ldW, ldb, W0, b0, dW, db0, W', b'.
    split_and!; try done.
    + rewrite Ha', Ha10, lookup_insert_ne by done.
      eapply lookup_weaken; [|exact Hsub59]. rewrite Ha5, Ha4. apply lookup_insert_eq.
    + rewrite Ha', Ha10. apply lookup_insert_eq.
  - congruence.
  - intros l a Hlw Hlb Ha. rewrite Ha', Ha10, lookup_insert_ne by congruence.
    eapply lookup_weaken; [|exact Hsub59]. apply Hkeep5; [congruence|done].
Qed.

Lemma update_loop_descends layers s u s' :
  NoDup layers → dicts s !! p = Some pd → dicts s !! g = Some gd →
  (∀ k l, pd !! k = Some l → is_Some (arrays s !! l)) →
  (∀ k l, gd !! k = Some l → is_Some (arrays s !! l)) →
  for_in layers (update_layer p g lr) () s = Ok (u, s') →
  dicts s' = dicts s ∧
  (∀ l a, (∀ layer, layer ∈ layers →
                    pd !! fmt "w" layer ≠ Some l ∧ pd !! fmt "b" layer ≠ Some l) →
          arrays s !! l = Some a → arrays s' !! l = Some a) ∧
  (∀ layer, layer ∈ layers → descended lr pd gd s s' layer).
Proof.
  revert s u. induction layers as [|layer layers IH];
    intros s u Hnd Hp Hg Hexp Hexg H; simpl in H.
  { injection H as _ <-. split_and!; [done..|]. by intros layer ?%elem_of_nil. }
  inv_run H as u1 s1 H1. apply NoDup_cons in Hnd as [Hnotin Hnd]. destruct u1.
  apply update_layer_descends in H1 as (Hdone & Hd1 & Hkeep1); [|done..].
  assert (∀ l a, is_Some (arrays s !! l) →
                 pd !! fmt "w" layer ≠ Some l → pd !! fmt "b" layer ≠ Some l →
                 arrays s1 !! l = Some a → arrays s !! l = Some a) as Hback.
  { intros l a [a0 Ha0] Hw Hb Ha. rewrite (Hkeep1 l a0 Hw Hb Ha0) in Ha. congruence. }
  assert (∀ k l, pd !! k = Some l → is_Some (arrays s1 !! l)) as Hexp1.
  { intros k l Hk. destruct (Hexp k l Hk) as [a Ha].
    destruct Hdone as (lw & lb & ldW & ldb & W & b & dW & db & W' & b' & Hw & Hb & _ & _
                       & _ & _ & _ & _ & _ & _ & _ & _ & HW' & Hb').
    destruct (decide (l = lw)) as [->|Hlw]; [by eexists|].
    destruct (decide (l = lb)) as [->|Hlb]; [by eexists|].
    exists a. apply Hkeep1; [congruence..|done]. }
  assert (∀ k l, gd !! k = Some l → is_Some (arrays s1 !! l)) as Hexg1.
  { intros k l Hk. destruct (Hexg k l Hk) as [a Ha]. exists a.
    apply Hkeep1; [intros Hl; exact (Hdisj _ _ _ Hl Hk)..|done]. }
  apply IH in H as (Hd' & Hkeep & Hdone'); [|done|by rewrite Hd1..|done|done].
  split_and!.
  - congruence.
  - intros l a Hl Ha. apply Hkeep; [intros layer' Hin; apply Hl; by right|].
    apply Hkeep1; [apply Hl; by left..|done].
  - intros layer' [->|Hin]%elem_of_cons.
    + destruct Hdone as (lw & lb & ldW & ldb & W & b & dW & db & W' & b' & Hw & Hb & HdW
                         & Hdb & HW & Hbv & HdWv & Hdbv & HsW & HshW & Hsb & Hshb & HW' & Hb').
      exists lw, lb, ldW, ldb, W, b, dW, db, W', b'. split_and!; try done.
      * apply Hkeep; [|done]. intros layer' Hin. split.
        -- intros Hl. apply (Hinj _ _ _ Hw), Init.fmt_inj in Hl. by subst.
        -- intros Hl. by apply (Hinj _ _ _ Hw), Init.fmt_w_b in Hl.
      * apply Hkeep; [|done]. intros layer' Hin. split.
        -- intros Hl. apply (Hinj _ _ _ Hl), Init.fmt_w_b in Hb. done.
        -- intros Hl. apply (Hinj _ _ _ Hb), (inj (String.append "b")), (inj pretty) in Hl.
           by subst.
    + assert (layer' ≠ layer) as Hne by (by intros ->).
      destruct (Hdone' layer' Hin)
        as (lw & lb & ldW & ldb & W & b & dW & db & W' & b' & Hw & Hb & HdW
            & Hdb & HW & Hbv & HdWv & Hdbv & HsW & HshW & Hsb & Hshb & HW' & Hb').
      exists lw, lb, ldW, ldb, W, b, dW, db, W', b'. split_and!; try done.
      * apply Hback; [by eapply Hexp| | |done].
        -- intros Hl. by apply (Hinj _ _ _ Hw), Init.fmt_inj in Hl.
        -- intros Hl. by apply (Hinj _ _ _ Hw), Init.fmt_w_b in Hl.
      * apply Hback; [by eapply Hexp| | |done].
        -- intros Hl. apply (Hinj _ _ _ Hl), Init.fmt_w_b in Hb. done.
        -- intros Hl. apply (Hinj _ _ _ Hb), (inj (String.append "b")), (inj pretty) in Hl.
           done.
      * apply Hback; [by eapply Hexg|intros Hl; exact (Hdisj _ _ _ Hl HdW)..|done].
      * apply Hback; [by eapply Hexg|intros Hl; exact (Hdisj _ _ _ Hl Hdb)..|done].
Qed.

End Step.

End Descent.

(** X19.  [update_parameters] is a step of gradient descent on every
    layer.  For a dict of parameters and a dict of gradients that hold
    arrays of the store, no array twice among the parameters and no
    parameter among the gradients: when [update_parameters] returns, then
    for every layer from 1 to [int(len(parameters) / 2)] the array of
    [w<layer>] holds [W - learning_rate * dW] and the array of [b<layer>]
    holds [b - learning_rate * db.reshape(-1, 1)], for the values [W], [b],
    [dW] and [db] at the call; the two arrays are the same objects, of the
    same shapes, as before. *)
Theorem update_parameters_is_gradient_descent
    parameters grads learning_rate s p' s' pd gd :
  dicts s !! parameters = Some pd → dicts s !! grads = Some gd →
  (∀ k l, pd !! k = Some l → is_Some (arrays s !! l)) →
  (∀ k l, gd !! k = Some l → is_Some (arrays s !! l)) →
  (∀ k1 k2 l, pd !! k1 = Some l → pd !! k2 = Some l → k1 = k2) →
  (∀ k1 k2 l, pd !! k1 = Some l → gd !! k2 ≠ Some l) →
  update_parameters parameters grads learning_rate s = Ok (p', s') →
  ∀ layer, (1 ≤ layer ≤ Z.of_nat (size pd `div` 2))%Z →
    ∃ lw lb ldW ldb W b dW db W' b',
      pd !! fmt "w" layer = Some lw ∧ pd !! fmt "b" layer = Some lb ∧
      gd !! fmt "dW" layer = Some ldW ∧ gd !! fmt "db" layer = Some ldb ∧
      arrays s !! lw = Some W ∧ arrays s !! lb = Some b ∧
      arrays s !! ldW = Some dW ∧ arrays s !! ldb = Some db ∧
      np_sub W (scale learning_rate dW) = Ok W' ∧ shape W' = shape W ∧
      np_sub b (scale learning_rate (reshape_col db)) = Ok b' ∧ shape b' = shape b ∧
      arrays s' !! lw = Some W' ∧ arrays s' !! lb = Some b'.
Proof.
  intros Hp Hg Hexp Hexg Hinj Hdisj H layer Hlayer. unfold update_parameters in H.
  inv_run H as len s1 H1. inv_run H as u s2 H2. injection H as _ <-.
  unfold dict_len in H1. rewrite Hp in H1. injection H1 as <- <-.
  apply (Descent.update_loop_descends parameters grads learning_rate pd gd Hinj Hdisj)
    in H2 as (_ & _ & Hdone); [|apply NoDup_seqZ|done..].
  apply Hdone, elem_of_seqZ. lia.
Qed.

Lemma update_parameters_is_gradient_descent_witness :
  ∃ s' W' b',
    update_parameters 1%positive 3%positive (1 / 2) Tiny.store = Ok (1%positive, s') ∧
    np_sub Tiny.W1 (scale (1 / 2) Tiny.Y) = Ok W' ∧
    np_sub Tiny.B1 (scale (1 / 2) (reshape_col (Arr1 [1%R]))) = Ok b' ∧
    arrays s' !! 1%positive = Some W' ∧ arrays s' !! 2%positive = Some b'.
Proof.
  destruct (Training.update_one_layer_run 1%positive 3%positive (1 / 2) Tiny.store
              1%positive 2%positive 1 1 Tiny.grads 4%positive 6%positive Tiny.Y [1%R]
              Tiny.W1 Tiny.B1 TinyRun.store_one_layer eq_refl eq_refl eq_refl eq_refl
              (Tiny.shape_1_1 _) eq_refl eq_refl eq_refl eq_refl)
    as (s' & W0 & b0 & Hrun & _).
  destruct (update_parameters_is_gradient_descent 1%positive 3%positive (1 / 2)
              Tiny.store 1%positive s' Tiny.parameters Tiny.grads eq_refl eq_refl)
    with (layer := 1%Z)
    as (lw & lb & ldW & ldb & W & b & dW & db & W' & b' & Hw & Hb & HdW & Hdb
        & HW & Hbv & HdWv & Hdbv & HsW & _ & Hsb & _ & HW' & Hb').
  - unfold Tiny.parameters.
    intros k l [[<- <-]|[_ [[<- <-]|[_ H]]%lookup_insert_Some]]%lookup_insert_Some;
      [by eexists..|done].
  - unfold Tiny.grads.
    intros k l [[<- <-]|[_ [[<- <-]|[_ H]]%lookup_insert_Some]]%lookup_insert_Some;
      [by eexists..|done].
  - unfold Tiny.parameters. intros k1 k2 l
      [[<- <-]|[_ [[<- <-]|[_ H1]]%lookup_insert_Some]]%lookup_insert_Some
      [[<- ?]|[_ [[<- ?]|[_ H2]]%lookup_insert_Some]]%lookup_insert_Some; done.
  - unfold Tiny.parameters, Tiny.grads. intros k1 k2 l
      [[<- <-]|[_ [[<- <-]|[_ H1]]%lookup_insert_Some]]%lookup_insert_Some
      [[<- ?]|[_ [[<- ?]|[_ H2]]%lookup_insert_Some]]%lookup_insert_Some; done.
  - exact Hrun.
  - done.
  - injection Hw as <-. injection Hb as <-. injection HdW as <-. injection Hdb as <-.
    injection HW as <-. injection Hbv as <-. injection HdWv as <-. injection Hdbv as <-.
    by exists s', W', b'.
Defined.

(** ** Forward propagation against the chain of the specification *)

(** X20.  When the first entry of the linear transform of every hidden
    layer is positive, [relu] returns floats and [L_model_forward] does what
    the specification says: the ReLU unit [max(Z, 0)] on the layers 1 to
    L-1 in order, then the softmax unit on layer L.  It returns the last
    activation and the caches of the layers in order, [L] of them, or
    raises the exception of the chain; when the shapes of the layers and
    of the input fit, it returns, and the last activation has its entries
    in [0, 1] and its columns sum to 1. *)
Theorem forward_is_spec_chain_when_first_entries_positive
    s X parameters use_batchnorm pd Xv hidden out :
  self_n_layers s = Some (Z.of_nat (S (length hidden))) →
  dicts s !! parameters = Some pd → has_layers s pd 1 (hidden ++ [out]) →
  arrays s !! X = Some Xv →
  hidden_first_positive Xv hidden →
  refines (L_model_forward X parameters use_batchnorm) s (spec_forward_all Xv hidden out)
    (λ p s' q, arrays s' !! p.1 = Some q.1 ∧ Forall2 (holds_cache s') p.2 q.2 ∧
               length p.2 = S (length hidden)) ∧
  (∀ d dims m,
     layers_shaped d (hidden ++ [out]) dims → has_shape Xv d m → (0 < m)%nat →
     ∃ AL caches s' ALv cvs,
       spec_forward_all Xv hidden out = Ok (ALv, cvs) ∧
       L_model_forward X parameters use_batchnorm s = Ok ((AL, caches), s') ∧
       arrays s' !! AL = Some ALv ∧ Forall2 (holds_cache s') caches cvs ∧
       length caches = S (length hidden) ∧ softmax_output ALv).
Proof.
  intros Hn Hpd Hl HX Hfp.
  pose proof (L_model_forward_refines X parameters use_batchnorm s pd Xv hidden out
                Hn Hpd Hl HX) as Href.
  rewrite (forward_all_spec Xv hidden out Hfp) in Href.
  split.
  - eapply refines_conseq; [exact Href|]. intros p s' q (? & ? & ? & _). done.
  - intros d dims m Hs HXs Hm.
    destruct (forward_all_shape hidden out dims d Xv m Hs HXs Hm Hfp)
      as (ALv & cvs & Hval & _ & _ & Hout).
    rewrite (forward_all_spec Xv hidden out Hfp) in Hval.
    rewrite Hval in Href. destruct Href as ([AL caches] & s' & Hrun & H1 & H2 & H3 & _).
    by exists AL, caches, s', ALv, cvs.
Qed.

Lemma forward_is_spec_chain_when_first_entries_positive_witness :
  ∃ AL caches s' ALv cvs,
    spec_forward_all TwoLayers.X' [(TwoLayers.W1, TwoLayers.B1)]
      (TwoLayers.W2, TwoLayers.B2) = Ok (ALv, cvs) ∧
    L_model_forward 6%positive 1%positive false TwoLayers.store = Ok ((AL, caches), s') ∧
    arrays s' !! AL = Some ALv ∧ Forall2 (holds_cache s') caches cvs ∧
    length caches = 2%nat ∧ softmax_output ALv.
Proof.
  apply (proj2 (forward_is_spec_chain_when_first_entries_positive
                  TwoLayers.store 6%positive 1%positive false TwoLayers.parameters
                  TwoLayers.X' [(TwoLayers.W1, TwoLayers.B1)] (TwoLayers.W2, TwoLayers.B2)
                  eq_refl eq_refl TwoLayers.store_layers eq_refl
                  TwoLayers.hidden_first_positive_X') 1%nat [1%nat; 1%nat] 2%nat).
  - apply TwoLayers.store_shaped.
  - apply TwoLayers.shape_1_2.
  - lia.
Defined.
